(** * mdbx_load: a shallow embedding of libmdbx's dump loader

    The development follows [mdbx-sys/libmdbx/mdbx_load.c]: the C library
    routines the tool leans on ([fgets], [strncmp], [memchr], [atoi],
    [sscanf]), the header reader [readhdr], the record reader [readline]
    with its in-place decoders, and [main] with its transaction loop,
    run against an abstract storage engine.  Bytes are integers in
    [0, 255]; C strings are byte lists read up to the first NUL; buffers
    are byte lists updated in place. *)

From Stdlib Require Import ZArith Lia List Bool String Ascii.
From stdpp Require Import base tactics option list gmap.

Local Open Scope Z_scope.

(** ** Bytes and C strings *)

Definition byte := Z.
Abbreviation bytes := (list Z).

Definition bytes_of (s : string) : bytes :=
  map (fun a => Z.of_nat (nat_of_ascii a)) (list_ascii_of_string s).

Definition EOF : Z := -1.
Definition EXIT_SUCCESS : Z := 0.
Definition EXIT_FAILURE : Z := 1.
Definition INT_MAX : Z := 2147483647.
Definition INT_MIN : Z := -2147483648.

Definition is_byte (c : Z) : Prop := 0 <= c < 256.

(** [isxdigit] and [isspace] of <ctype.h> in the C locale. *)
Definition isxdigit (c : Z) : bool :=
  ((48 <=? c) && (c <=? 57)) || ((65 <=? c) && (c <=? 70))
  || ((97 <=? c) && (c <=? 102)).

Definition isdigit (c : Z) : bool := (48 <=? c) && (c <=? 57).

Definition isspace (c : Z) : bool :=
  (c =? 32) || ((9 <=? c) && (c <=? 13)).

(** A pointer into a buffer is the list of bytes from that address on;
    [peek p i] is [p[i]]. *)
Definition peek (p : bytes) (i : nat) : Z := nth i p 0.

(** [unhex]: two hexadecimal digits at [c2] to the byte they denote. *)
Definition unhex (c2 : bytes) : Z :=
  let x := Z.land (peek c2 0) 79 in
  let x := if Z.land x 64 =? 0 then x else x - 55 in
  let c := Z.shiftl x 4 in
  let x := Z.land (peek c2 1) 79 in
  let x := if Z.land x 64 =? 0 then x else x - 55 in
  Z.lor c x.

(** The value a hexadecimal digit denotes. *)
Definition hex_digit_value (c : Z) : Z :=
  if isdigit c then c - 48
  else if (65 <=? c) && (c <=? 70) then c - 65 + 10
  else c - 97 + 10.

Definition to_lower (c : Z) : Z :=
  if (65 <=? c) && (c <=? 90) then c + 32 else c.

Definition to_upper (c : Z) : Z :=
  if (97 <=? c) && (c <=? 122) then c - 32 else c.

Definition xdigits : list Z :=
  [48;49;50;51;52;53;54;55;56;57;65;66;67;68;69;70;97;98;99;100;101;102].

Definition unhex_pair_ok (a b : Z) : bool :=
  (unhex [a; b] =? 16 * hex_digit_value a + hex_digit_value b)
  && (unhex [to_lower a; to_lower b] =? unhex [a; b])
  && (unhex [to_upper a; to_upper b] =? unhex [a; b])
  && (0 <=? unhex [a; b]) && (unhex [a; b] <? 256).

(** The bytes a line of hexadecimal digit pairs denotes, pair by pair. *)
Fixpoint hex_pairs (l : bytes) : bytes :=
  match l with
  | a :: b :: r => unhex [a; b] :: hex_pairs r
  | _ => []
  end.

(** ** <string.h>, <stdlib.h> and the scanning part of <stdio.h> *)

Fixpoint strlen (s : bytes) : nat :=
  match s with
  | [] => 0%nat
  | c :: r => if c =? 0 then 0%nat else S (strlen r)
  end.

(** The C string at a pointer. *)
Definition c_string (s : bytes) : bytes := take (strlen s) s.

(** [strncmp]: zero when the first [n] characters agree (or both strings
    end first).  A literal is given without its terminating NUL, which
    [peek] supplies. *)
Fixpoint strncmp (s1 s2 : bytes) (n : nat) : Z :=
  match n with
  | O => 0
  | S n' =>
      let c1 := peek s1 0 in
      let c2 := peek s2 0 in
      if c1 =? c2 then
        if c1 =? 0 then 0 else strncmp (tl s1) (tl s2) n'
      else c1 - c2
  end.

Definition STRLENOF (s : string) : nat := length (bytes_of s).

(** [!strncmp(buf, lit, STRLENOF(lit))] *)
Definition has_prefix (buf : bytes) (lit : string) : bool :=
  strncmp buf (bytes_of lit) (STRLENOF lit) =? 0.

(** [memchr(s, c, n)]: offset of the first [c] among the first [n] bytes. *)
Fixpoint memchr (s : bytes) (c : Z) (n : nat) : option nat :=
  match n, s with
  | S n', x :: r => if x =? c then Some 0%nat else S <$> memchr r c n'
  | _, _ => None
  end.

Fixpoint skip_space (s : bytes) : bytes :=
  match s with
  | c :: r => if isspace c then skip_space r else s
  | [] => []
  end.

Fixpoint digits_value (acc : Z) (s : bytes) : Z :=
  match s with
  | c :: r => if isdigit c then digits_value (10 * acc + (c - 48)) r else acc
  | [] => acc
  end.

Definition take_sign (s : bytes) : bool * bytes :=
  match s with
  | 45 :: r => (true, r)
  | 43 :: r => (false, r)
  | _ => (false, s)
  end.

(** [atoi]: [None] when the number does not fit an [int], which C leaves
    undefined. *)
Definition atoi (s : bytes) : option Z :=
  let '(neg, d) := take_sign (skip_space s) in
  let v := digits_value 0 d in
  let v := if neg then - v else v in
  if (INT_MIN <=? v) && (v <=? INT_MAX) then Some v else None.

(** One unsigned conversion of [sscanf] ("%u", "%" PRIu64) of the given
    width: no digits means no conversion, a number past the width is
    undefined in C. *)
Inductive scan : Type :=
  | ScanNone
  | ScanOk (v : Z)
  | ScanOverflow.

Definition sscanf_unsigned (bits : Z) (s : bytes) : scan :=
  let '(neg, d) := take_sign (skip_space s) in
  if isdigit (peek d 0) then
    let v := digits_value 0 d in
    if v <? 2 ^ bits then ScanOk (if neg then (2 ^ bits - v) mod 2 ^ bits else v)
    else ScanOverflow
  else ScanNone.

(** [fgets] reads at most [n] characters and stops after a newline. *)
Fixpoint read_line (n : nat) (input : bytes) : bytes * bytes :=
  match n, input with
  | S n', c :: r =>
      if c =? 10 then ([c], r)
      else let '(l, r') := read_line n' r in (c :: l, r')
  | _, _ => ([], input)
  end.

(** [memcpy(buf + off, data, length data)] *)
Definition write_at (buf : bytes) (off : nat) (data : bytes) : bytes :=
  take off buf ++ data ++ drop (off + length data) buf.

(** ** What mdbx.h and the platform provide *)

(** The constants of mdbx.h the tool names.  The header is not part of
    the sources at hand, so they are parameters. *)
Class MdbxH : Type := {
  MDBX_REVERSEKEY : Z;
  MDBX_DUPSORT : Z;
  MDBX_INTEGERKEY : Z;
  MDBX_DUPFIXED : Z;
  MDBX_INTEGERDUP : Z;
  MDBX_REVERSEDUP : Z;
  MDBX_CREATE : Z;
  MDBX_NOOVERWRITE : Z;
  MDBX_NODUPDATA : Z;
  MDBX_APPEND : Z;
  MDBX_APPENDDUP : Z;
  MDBX_UTTERLY_NOSYNC : Z;
  MDBX_NOSUBDIR : Z;
  MDBX_KEYEXIST : Z;
  MDBX_BAD_VALSIZE : Z;
  MDBX_EINTR : Z;
}.

(** The platform: pointer width, the implementation-defined "%p"
    conversion, what freshly allocated memory holds, whether [realloc]
    to a size succeeds, and what [freopen] finds under a path. *)
Class Platform : Type := {
  INTPTR_MAX : Z;
  scan_pointer : bytes -> bool;
  junk : nat -> Z;
  realloc_ok : Z -> bool;
  freopen : bytes -> option bytes;
}.

Definition handle := Z.
Definition NULL : handle := 0.

(** The one comparison function the tool defines. *)
Inductive comparer : Type := AnywayGreater.

#[global] Instance comparer_eq_dec : EqDecision comparer.
Proof. solve_decision. Defined.

Definition anyway_greater (a b : bytes) : Z := 1.

Definition run_comparer (c : comparer) : bytes -> bytes -> Z :=
  match c with AnywayGreater => anyway_greater end.

(** The engine's interface as the tool sees it (mdbx.h), with the calls
    the tool makes first. *)
Inductive call : Type :=
  | mdbx_env_create
  | mdbx_env_set_maxdbs (env : handle) (dbs : Z)
  | mdbx_env_set_geometry (env : handle)
      (size_lower size_now size_upper growth_step shrink_threshold pagesize : Z)
  | mdbx_env_open (env : handle) (path : bytes) (flags mode : Z)
  | mdbx_env_get_maxvalsize_ex (env : handle) (flags : Z)
  | mdbx_txn_begin (env parent : handle) (flags : Z)
  | mdbx_dbi_open_ex (txn : handle) (name : option bytes) (flags : Z)
      (keycmp datacmp : option comparer)
  | mdbx_cursor_open (txn dbi : handle)
  | mdbx_cursor_put (mc : handle) (key data : bytes) (flags : Z)
  | mdbx_txn_commit (txn : handle)
  | mdbx_txn_abort (txn : handle)
  | mdbx_dbi_close (env dbi : handle)
  | mdbx_env_close (env : handle)
  | mdbx_cursor_get (mc : handle) (key data : bytes) (op : Z)
  | mdbx_cursor_del (mc : handle) (flags : Z)
  | mdbx_cursor_close (mc : handle)
  | mdbx_get (txn dbi : handle) (key : bytes)
  | mdbx_put (txn dbi : handle) (key data : bytes) (flags : Z)
  | mdbx_del (txn dbi : handle) (key : bytes) (data : option bytes)
  | mdbx_drop (txn dbi : handle) (del : bool).

(** What a call returns: its [int] result and the handle it stores
    through its out-parameter, if it has one. *)
Record response : Type := { rc : Z; out_handle : handle }.

(** The storage engine is not in the sources at hand: any deterministic
    implementation of the interface. *)
Class Engine : Type := {
  engine_state : Type;
  engine_call : call -> engine_state -> response * engine_state;
}.

(** ** What the tool prints *)

Inductive message : Type :=
  | MsgVersion
  | MsgUsage
  | MsgRunning (envname : bytes)
  | MsgFreopenFailed (path : bytes)
  | MsgUnsupportedVersion (lineno version : Z)
  | MsgUnsupportedFormat (lineno : Z) (text : bytes)
  | MsgUnsupportedType (lineno : Z) (text : bytes)
  | MsgInvalidMapaddr (lineno : Z) (text : bytes)
  | MsgInvalidMapsize (lineno : Z) (text : bytes)
  | MsgInvalidMaxreaders (lineno : Z) (text : bytes)
  | MsgUnexpectedFormat (lineno : Z)
  | MsgUnrecognizedKeyword (lineno : Z) (text : bytes)
  | MsgUnexpectedEnd (lineno : Z)
  | MsgOutOfMemory (lineno : Z)
  | MsgEnvCreateFailed (rc : Z)
  | MsgMapsizeTooLarge (mapsize : Z)
  | MsgSetGeometryFailed (rc : Z)
  | MsgEnvOpenFailed (rc : Z)
  | MsgMaxKeysizeFailed (len : Z)
  | MsgTxnBeginFailed (rc : Z)
  | MsgDbiOpenFailed (rc : Z)
  | MsgCursorOpenFailed (rc : Z)
  | MsgFailedReadKeyValue (lineno : Z)
  | MsgSkipLine (lineno rc : Z)
  | MsgCursorPutFailed (rc : Z)
  | MsgTxnCommitFailed (lineno rc : Z).

Inductive event : Type :=
  | Stdout (m : message)
  | Stderr (m : message)
  | Call (c : call) (r : response).

(** ** The tool's state *)

Record MDBX_val : Type := { iov_base : bytes; iov_len : Z }.

(** The bytes a value denotes: [iov_len] bytes at [iov_base]. *)
Definition val_bytes (v : MDBX_val) : bytes :=
  take (Z.to_nat (iov_len v)) (iov_base v).

Record MDBX_envinfo : Type := {
  mi_dxb_pagesize : Z;
  mi_mapsize : Z;
  mi_maxreaders : Z;
}.

Definition PRINT : Z := 1.
Definition NOHDR : Z := 2.

Inductive fault : Type :=
  | OutOfBounds      (* an index before the start of a buffer *)
  | BufferOverrun    (* a write past the end of a buffer *)
  | DanglingPrevKey  (* k0buf used after kbuf was reallocated *)
  | Unrepresentable  (* atoi or sscanf past the range of the type *)
  | SizeRange        (* a buffer length that is no positive int *)
  | OutOfFuel.

Section State.

Context `{E : Engine}.

(** The file-scope variables of mdbx_load.c, standard input, the state
    of the engine, the successive readings of [user_break], and what has
    been printed and called so far.  [k0_live] says that [k0buf] still
    points into the block [kbuf] owns. *)
Record world : Type := {
  w_stdin : bytes;
  w_mode : Z;
  w_subname : option bytes;
  w_lineno : Z;
  w_version : Z;
  w_dbi_flags : Z;
  w_Eof : bool;
  w_envinfo : MDBX_envinfo;
  w_kbuf : MDBX_val;
  w_dbuf : MDBX_val;
  w_k0_live : bool;
  w_user_break : list bool;
  w_engine : engine_state;
  w_out : list event;
}.

Definition set_stdin (v : bytes) (w : world) : world :=
  {| w_stdin := v; w_mode := w_mode w; w_subname := w_subname w;
     w_lineno := w_lineno w; w_version := w_version w;
     w_dbi_flags := w_dbi_flags w; w_Eof := w_Eof w;
     w_envinfo := w_envinfo w; w_kbuf := w_kbuf w; w_dbuf := w_dbuf w;
     w_k0_live := w_k0_live w; w_user_break := w_user_break w;
     w_engine := w_engine w; w_out := w_out w |}.

Definition set_mode (v : Z) (w : world) : world :=
  {| w_stdin := w_stdin w; w_mode := v; w_subname := w_subname w;
     w_lineno := w_lineno w; w_version := w_version w;
     w_dbi_flags := w_dbi_flags w; w_Eof := w_Eof w;
     w_envinfo := w_envinfo w; w_kbuf := w_kbuf w; w_dbuf := w_dbuf w;
     w_k0_live := w_k0_live w; w_user_break := w_user_break w;
     w_engine := w_engine w; w_out := w_out w |}.

Definition set_subname (v : option bytes) (w : world) : world :=
  {| w_stdin := w_stdin w; w_mode := w_mode w; w_subname := v;
     w_lineno := w_lineno w; w_version := w_version w;
     w_dbi_flags := w_dbi_flags w; w_Eof := w_Eof w;
     w_envinfo := w_envinfo w; w_kbuf := w_kbuf w; w_dbuf := w_dbuf w;
     w_k0_live := w_k0_live w; w_user_break := w_user_break w;
     w_engine := w_engine w; w_out := w_out w |}.

Definition set_lineno (v : Z) (w : world) : world :=
  {| w_stdin := w_stdin w; w_mode := w_mode w; w_subname := w_subname w;
     w_lineno := v; w_version := w_version w;
     w_dbi_flags := w_dbi_flags w; w_Eof := w_Eof w;
     w_envinfo := w_envinfo w; w_kbuf := w_kbuf w; w_dbuf := w_dbuf w;
     w_k0_live := w_k0_live w; w_user_break := w_user_break w;
     w_engine := w_engine w; w_out := w_out w |}.

Definition set_version (v : Z) (w : world) : world :=
  {| w_stdin := w_stdin w; w_mode := w_mode w; w_subname := w_subname w;
     w_lineno := w_lineno w; w_version := v;
     w_dbi_flags := w_dbi_flags w; w_Eof := w_Eof w;
     w_envinfo := w_envinfo w; w_kbuf := w_kbuf w; w_dbuf := w_dbuf w;
     w_k0_live := w_k0_live w; w_user_break := w_user_break w;
     w_engine := w_engine w; w_out := w_out w |}.

Definition set_dbi_flags (v : Z) (w : world) : world :=
  {| w_stdin := w_stdin w; w_mode := w_mode w; w_subname := w_subname w;
     w_lineno := w_lineno w; w_version := w_version w;
     w_dbi_flags := v; w_Eof := w_Eof w;
     w_envinfo := w_envinfo w; w_kbuf := w_kbuf w; w_dbuf := w_dbuf w;
     w_k0_live := w_k0_live w; w_user_break := w_user_break w;
     w_engine := w_engine w; w_out := w_out w |}.

Definition set_Eof (v : bool) (w : world) : world :=
  {| w_stdin := w_stdin w; w_mode := w_mode w; w_subname := w_subname w;
     w_lineno := w_lineno w; w_version := w_version w;
     w_dbi_flags := w_dbi_flags w; w_Eof := v;
     w_envinfo := w_envinfo w; w_kbuf := w_kbuf w; w_dbuf := w_dbuf w;
     w_k0_live := w_k0_live w; w_user_break := w_user_break w;
     w_engine := w_engine w; w_out := w_out w |}.

Definition set_envinfo (v : MDBX_envinfo) (w : world) : world :=
  {| w_stdin := w_stdin w; w_mode := w_mode w; w_subname := w_subname w;
     w_lineno := w_lineno w; w_version := w_version w;
     w_dbi_flags := w_dbi_flags w; w_Eof := w_Eof w;
     w_envinfo := v; w_kbuf := w_kbuf w; w_dbuf := w_dbuf w;
     w_k0_live := w_k0_live w; w_user_break := w_user_break w;
     w_engine := w_engine w; w_out := w_out w |}.

Definition set_kbuf (v : MDBX_val) (w : world) : world :=
  {| w_stdin := w_stdin w; w_mode := w_mode w; w_subname := w_subname w;
     w_lineno := w_lineno w; w_version := w_version w;
     w_dbi_flags := w_dbi_flags w; w_Eof := w_Eof w;
     w_envinfo := w_envinfo w; w_kbuf := v; w_dbuf := w_dbuf w;
     w_k0_live := w_k0_live w; w_user_break := w_user_break w;
     w_engine := w_engine w; w_out := w_out w |}.

Definition set_dbuf (v : MDBX_val) (w : world) : world :=
  {| w_stdin := w_stdin w; w_mode := w_mode w; w_subname := w_subname w;
     w_lineno := w_lineno w; w_version := w_version w;
     w_dbi_flags := w_dbi_flags w; w_Eof := w_Eof w;
     w_envinfo := w_envinfo w; w_kbuf := w_kbuf w; w_dbuf := v;
     w_k0_live := w_k0_live w; w_user_break := w_user_break w;
     w_engine := w_engine w; w_out := w_out w |}.

Definition set_k0_live (v : bool) (w : world) : world :=
  {| w_stdin := w_stdin w; w_mode := w_mode w; w_subname := w_subname w;
     w_lineno := w_lineno w; w_version := w_version w;
     w_dbi_flags := w_dbi_flags w; w_Eof := w_Eof w;
     w_envinfo := w_envinfo w; w_kbuf := w_kbuf w; w_dbuf := w_dbuf w;
     w_k0_live := v; w_user_break := w_user_break w;
     w_engine := w_engine w; w_out := w_out w |}.

Definition set_user_break (v : list bool) (w : world) : world :=
  {| w_stdin := w_stdin w; w_mode := w_mode w; w_subname := w_subname w;
     w_lineno := w_lineno w; w_version := w_version w;
     w_dbi_flags := w_dbi_flags w; w_Eof := w_Eof w;
     w_envinfo := w_envinfo w; w_kbuf := w_kbuf w; w_dbuf := w_dbuf w;
     w_k0_live := w_k0_live w; w_user_break := v;
     w_engine := w_engine w; w_out := w_out w |}.

Definition set_engine (v : engine_state) (w : world) : world :=
  {| w_stdin := w_stdin w; w_mode := w_mode w; w_subname := w_subname w;
     w_lineno := w_lineno w; w_version := w_version w;
     w_dbi_flags := w_dbi_flags w; w_Eof := w_Eof w;
     w_envinfo := w_envinfo w; w_kbuf := w_kbuf w; w_dbuf := w_dbuf w;
     w_k0_live := w_k0_live w; w_user_break := w_user_break w;
     w_engine := v; w_out := w_out w |}.

Definition set_out (v : list event) (w : world) : world :=
  {| w_stdin := w_stdin w; w_mode := w_mode w; w_subname := w_subname w;
     w_lineno := w_lineno w; w_version := w_version w;
     w_dbi_flags := w_dbi_flags w; w_Eof := w_Eof w;
     w_envinfo := w_envinfo w; w_kbuf := w_kbuf w; w_dbuf := w_dbuf w;
     w_k0_live := w_k0_live w; w_user_break := w_user_break w;
     w_engine := w_engine w; w_out := v |}.

(** A computation runs to a value, to [exit(code)], or into behaviour
    the model does not follow. *)
Inductive outcome (A : Type) : Type :=
  | Ret (a : A) (w : world)
  | Exit (code : Z) (w : world)
  | Fault (f : fault) (w : world).

Arguments Ret {A} a w.
Arguments Exit {A} code w.
Arguments Fault {A} f w.

Definition M (A : Type) : Type := world -> outcome A.

Definition ret {A} (a : A) : M A := fun w => Ret a w.

Definition bind {A B} (m : M A) (k : A -> M B) : M B :=
  fun w =>
    match m w with
    | Ret a w' => k a w'
    | Exit c w' => Exit c w'
    | Fault f w' => Fault f w'
    end.

Definition exit {A} (code : Z) : M A := fun w => Exit code w.
Definition crash {A} (f : fault) : M A := fun w => Fault f w.
Definition get {A} (f : world -> A) : M A := fun w => Ret (f w) w.
Definition modify (f : world -> world) : M unit := fun w => Ret tt (f w).

Definition final_world {A} (o : outcome A) : world :=
  match o with Ret _ w | Exit _ w | Fault _ w => w end.

End State.

Arguments Ret {E A} a w.
Arguments Exit {E A} code w.
Arguments Fault {E A} f w.

Declare Scope loader_scope.
Delimit Scope loader_scope with loader.
Notation "'let*' x := m 'in' k" := (bind m (fun x => k))
  (at level 10, x pattern, m at level 100, k at level 200) : loader_scope.
Notation "m ';;;' k" := (bind m (fun _ => k))
  (at level 100, k at level 200, right associativity) : loader_scope.
Local Open Scope loader_scope.

Section Tool.

Context `{H : MdbxH} `{P : Platform} `{E : Engine}.

(** ** Output, memory and standard input *)

Definition emit (e : event) : M unit :=
  modify (fun w => set_out (w_out w ++ [e]) w).

Definition fprintf_stderr (m : message) : M unit := emit (Stderr m).
Definition printf (m : message) : M unit := emit (Stdout m).

(** One call into the engine: the state moves on and the call is
    recorded with what it returned. *)
Definition engine (c : call) : M response :=
  fun w =>
    let '(r, s) := engine_call c (w_engine w) in
    Ret r (set_out (w_out w ++ [Call c r]) (set_engine s w)).

(** [n] bytes of fresh memory, standing at offsets [from ..] of a block. *)
Definition fresh (from n : nat) : bytes :=
  map (fun i => junk i mod 256) (seq from n).

(** [realloc(blk, n)] when it succeeds: the old bytes, then fresh ones. *)
Definition grow (blk : bytes) (n : nat) : bytes :=
  blk ++ fresh (length blk) (n - length blk).

Inductive bufsel : Type := KBUF | DBUF.

Definition get_buf (s : bufsel) (w : world) : MDBX_val :=
  match s with KBUF => w_kbuf w | DBUF => w_dbuf w end.

Definition set_buf (s : bufsel) (v : MDBX_val) (w : world) : world :=
  match s with KBUF => set_kbuf v w | DBUF => set_dbuf v w end.

Definition fgetc : M Z :=
  fun w =>
    match w_stdin w with
    | [] => Ret EOF w
    | c :: r => Ret c (set_stdin r w)
    end.

(** [fgets(buf->iov_base + off, size, stdin)]; the result is [false]
    for NULL.  A size that is not an [int] of at least 2 is outside the
    model. *)
Definition fgets (s : bufsel) (off : nat) (size : Z) : M bool :=
  fun w =>
    if (size <? 2) || (INT_MAX <? size) then Fault SizeRange w
    else
      let '(chunk, rest) := read_line (Z.to_nat (size - 1)) (w_stdin w) in
      match chunk with
      | [] => Ret false w
      | _ =>
          let b := get_buf s w in
          if (length (iov_base b) <? off + length chunk + 1)%nat
          then Fault BufferOverrun w
          else
            Ret true
              (set_stdin rest
                 (set_buf s
                    {| iov_base := write_at (iov_base b) off (chunk ++ [0]);
                       iov_len := iov_len b |} w))
      end.

(** ** readhdr *)

Record flagbit : Type := { bit : Z; name : string }.

Definition len (f : flagbit) : nat := STRLENOF (name f).

Definition dbflags : list flagbit :=
  [ {| bit := MDBX_REVERSEKEY; name := "reversekey" |};
    {| bit := MDBX_DUPSORT; name := "dupsort" |};
    {| bit := MDBX_INTEGERKEY; name := "integerkey" |};
    {| bit := MDBX_DUPFIXED; name := "dupfixed" |};
    {| bit := MDBX_INTEGERDUP; name := "integerdup" |};
    {| bit := MDBX_REVERSEDUP; name := "reversedup" |};
    {| bit := 0; name := "" |} ].

(** The [for] loop over [dbflags]: the entry at which it breaks, or
    [None] when it runs into an entry whose bit is zero. *)
Fixpoint scan_dbflags (tbl : list flagbit) (buf : bytes) : option flagbit :=
  match tbl with
  | [] => None
  | fb :: r =>
      if bit fb =? 0 then None
      else if (strncmp buf (bytes_of (name fb)) (len fb) =? 0)
              && (peek buf (len fb) =? 61)
      then Some fb
      else scan_dbflags r buf
  end.

(** [ptr = memchr(dbuf.iov_base, c, dbuf.iov_len)] *)
Definition dbuf_memchr (c : Z) (w : world) : option nat :=
  memchr (iov_base (w_dbuf w)) c (Z.to_nat (iov_len (w_dbuf w))).

(** [*ptr = '\0'] *)
Definition dbuf_poke (i : nat) (w : world) : world :=
  set_dbuf {| iov_base := <[i := 0]> (iov_base (w_dbuf w));
              iov_len := iov_len (w_dbuf w) |} w.

Definition strip_newline : M unit :=
  modify (fun w =>
            match dbuf_memchr 10 w with
            | Some i => dbuf_poke i w
            | None => w
            end).

(** The text at [dbuf.iov_base + STRLENOF(lit)]. *)
Definition dbuf_after (lit : string) (w : world) : bytes :=
  drop (STRLENOF lit) (iov_base (w_dbuf w)).

Inductive hdr_next : Type := HdrContinue | HdrReturn.

Definition set_pagesize (v : Z) (w : world) : world :=
  set_envinfo {| mi_dxb_pagesize := v;
                 mi_mapsize := mi_mapsize (w_envinfo w);
                 mi_maxreaders := mi_maxreaders (w_envinfo w) |} w.

Definition set_mapsize (v : Z) (w : world) : world :=
  set_envinfo {| mi_dxb_pagesize := mi_dxb_pagesize (w_envinfo w);
                 mi_mapsize := v;
                 mi_maxreaders := mi_maxreaders (w_envinfo w) |} w.

Definition set_maxreaders (v : Z) (w : world) : world :=
  set_envinfo {| mi_dxb_pagesize := mi_dxb_pagesize (w_envinfo w);
                 mi_mapsize := mi_mapsize (w_envinfo w);
                 mi_maxreaders := v |} w.

(** The body of the [while] loop of [readhdr], once [fgets] has read a
    line into [dbuf]. *)
Definition readhdr_line : M hdr_next :=
  modify (fun w => set_lineno (w_lineno w + 1) w);;;
  let* buf := get (fun w => iov_base (w_dbuf w)) in
  let* lineno := get w_lineno in
  if has_prefix buf "db_pagesize=" then
    match atoi (drop (STRLENOF "db_pagesize=") buf) with
    | Some v => modify (set_pagesize (v mod 2 ^ 32));;; ret HdrContinue
    | None => crash Unrepresentable
    end
  else if has_prefix buf "duplicates=" then
    modify (fun w => set_dbi_flags (Z.lor (w_dbi_flags w) MDBX_DUPSORT) w);;;
    ret HdrContinue
  else if has_prefix buf "VERSION=" then
    match atoi (drop (STRLENOF "VERSION=") buf) with
    | Some v =>
        modify (set_version v);;;
        if 3 <? v then
          fprintf_stderr (MsgUnsupportedVersion lineno v);;;
          exit EXIT_FAILURE
        else ret HdrContinue
    | None => crash Unrepresentable
    end
  else if has_prefix buf "HEADER=END" then ret HdrReturn
  else if has_prefix buf "format=" then
    if has_prefix (drop (STRLENOF "FORMAT=") buf) "print" then
      modify (fun w => set_mode (Z.lor (w_mode w) PRINT) w);;;
      ret HdrContinue
    else if negb (has_prefix (drop (STRLENOF "FORMAT=") buf) "bytevalue") then
      fprintf_stderr
        (MsgUnsupportedFormat lineno
           (c_string (drop (STRLENOF "FORMAT=") buf)));;;
      exit EXIT_FAILURE
    else ret HdrContinue
  else if has_prefix buf "database=" then
    strip_newline;;;
    let* text := get (dbuf_after "database=") in
    modify (set_subname (Some (c_string text)));;;
    ret HdrContinue
  else if has_prefix buf "type=" then
    if negb (has_prefix (drop (STRLENOF "type=") buf) "btree") then
      fprintf_stderr
        (MsgUnsupportedType lineno (c_string (drop (STRLENOF "type=") buf)));;;
      exit EXIT_FAILURE
    else ret HdrContinue
  else if has_prefix buf "mapaddr=" then
    strip_newline;;;
    let* text := get (dbuf_after "mapaddr=") in
    if negb (scan_pointer (c_string text)) then
      fprintf_stderr (MsgInvalidMapaddr lineno (c_string text));;;
      exit EXIT_FAILURE
    else ret HdrContinue
  else if has_prefix buf "mapsize=" then
    strip_newline;;;
    let* text := get (dbuf_after "mapsize=") in
    match sscanf_unsigned 64 text with
    | ScanOk v => modify (set_mapsize v);;; ret HdrContinue
    | ScanNone =>
        fprintf_stderr (MsgInvalidMapsize lineno (c_string text));;;
        exit EXIT_FAILURE
    | ScanOverflow => crash Unrepresentable
    end
  else if has_prefix buf "maxreaders=" then
    strip_newline;;;
    let* text := get (dbuf_after "maxreaders=") in
    match sscanf_unsigned 32 text with
    | ScanOk v => modify (set_maxreaders v);;; ret HdrContinue
    | ScanNone =>
        fprintf_stderr (MsgInvalidMaxreaders lineno (c_string text));;;
        exit EXIT_FAILURE
    | ScanOverflow => crash Unrepresentable
    end
  else
    match scan_dbflags dbflags buf with
    | Some fb =>
        (if peek buf (len fb + 1) =? 49 then
           modify (fun w => set_dbi_flags (Z.lor (w_dbi_flags w) (bit fb)) w)
         else ret tt);;;
        ret HdrContinue
    | None =>
        let* ptr := get (dbuf_memchr 61) in
        match ptr with
        | None =>
            fprintf_stderr (MsgUnexpectedFormat lineno);;;
            exit EXIT_FAILURE
        | Some i =>
            modify (dbuf_poke i);;;
            let* text := get (fun w => c_string (iov_base (w_dbuf w))) in
            fprintf_stderr (MsgUnrecognizedKeyword lineno text);;;
            ret HdrContinue
        end
    end.

Fixpoint readhdr_loop (fuel : nat) : M unit :=
  match fuel with
  | O => crash OutOfFuel
  | S fuel' =>
      let* size := get (fun w => iov_len (w_dbuf w)) in
      let* got := fgets DBUF 0 size in
      if got then
        let* next := readhdr_line in
        match next with
        | HdrContinue => readhdr_loop fuel'
        | HdrReturn => ret tt
        end
      else modify (set_Eof true)
  end.

(** Every line read takes at least one byte of input, so the length of
    the input bounds the number of turns. *)
Definition readhdr : M unit :=
  modify (set_dbi_flags 0);;;
  let* fuel := get (fun w => S (length (w_stdin w))) in
  readhdr_loop fuel.

End Tool.

Section Reader.

Context `{H : MdbxH} `{P : Platform} `{E : Engine}.

(** ** readline *)

Definition badend : M unit :=
  let* lineno := get w_lineno in
  fprintf_stderr (MsgUnexpectedEnd lineno).

(** [buf->iov_base = mdbx_realloc(buf->iov_base, buf->iov_len * 2)];
    [false] when it returned NULL.  The block may move, so [k0buf], which
    points into the block of [kbuf], is dead from then on. *)
Definition buf_realloc (s : bufsel) : M bool :=
  fun w =>
    let b := get_buf s w in
    let w := match s with KBUF => set_k0_live false w | DBUF => w end in
    if realloc_ok (iov_len b * 2) then
      Ret true
        (set_buf s
           {| iov_base := grow (iov_base b) (Z.to_nat (iov_len b * 2));
              iov_len := iov_len b |} w)
    else Ret false (set_buf s {| iov_base := []; iov_len := iov_len b |} w).

Definition buf_double_len (s : bufsel) : M unit :=
  modify (fun w =>
            set_buf s {| iov_base := iov_base (get_buf s w);
                         iov_len := iov_len (get_buf s w) * 2 |} w).

Definition buf_poke (s : bufsel) (i : nat) (c : Z) : M unit :=
  modify (fun w =>
            set_buf s {| iov_base := <[i := c]> (iov_base (get_buf s w));
                         iov_len := iov_len (get_buf s w) |} w).

(** The loop "Is buffer too short?": [c1 = base + off] holds the last
    piece read, of length [len].  The result is the length [l2] of the
    whole line, or [None] when [readline] returned EOF from inside. *)
Fixpoint grow_line (fuel : nat) (s : bufsel) (off len : nat)
  : M (option nat) :=
  match len with
  | O => crash OutOfBounds
  | S i =>
      let* base := get (fun w => iov_base (get_buf s w)) in
      if peek base (off + i) =? 10 then ret (Some (off + len)%nat)
      else
        match fuel with
        | O => crash OutOfFuel
        | S fuel' =>
            let* ok := buf_realloc s in
            if ok then
              let l2 := (off + len)%nat in
              let* size := get (fun w => iov_len (get_buf s w)) in
              let* got := fgets s l2 (size + 1) in
              if got then
                buf_double_len s;;;
                let* base := get (fun w => iov_base (get_buf s w)) in
                grow_line fuel' s l2 (strlen (drop l2 base))
              else
                modify (set_Eof true);;; badend;;; ret None
            else
              modify (set_Eof true);;;
              let* lineno := get w_lineno in
              fprintf_stderr (MsgOutOfMemory lineno);;;
              ret None
        end
  end.

(** The decoders rewrite the line in place: [c1] is where the next
    byte goes, [c2] where the next character is read, [end_] the end of
    the line. *)
Inductive decoded : Type :=
  | Decoded (base : bytes) (c1 : nat)
  | Rejected (base : bytes)
  | Starved.

Fixpoint decode_print (fuel : nat) (base : bytes) (c1 c2 end_ : nat)
  : decoded :=
  if (c2 <? end_)%nat then
    match fuel with
    | O => Starved
    | S fuel' =>
        if peek base c2 =? 92 then
          if peek base (c2 + 1) =? 92 then
            decode_print fuel' (<[c1 := 92]> base) (S c1) (c2 + 2) end_
          else if (end_ <? c2 + 3)%nat
                  || negb (isxdigit (peek base (c2 + 1)))
                  || negb (isxdigit (peek base (c2 + 2)))
          then Rejected base
          else
            decode_print fuel'
              (<[c1 := unhex (drop (c2 + 1) base) mod 256]> base)
              (S c1) (c2 + 3) end_
        else
          decode_print fuel' (<[c1 := peek base c2]> base) (S c1) (S c2) end_
    end
  else Decoded base c1.

Fixpoint decode_hex (fuel : nat) (base : bytes) (c1 c2 end_ : nat)
  : decoded :=
  if (c2 <? end_)%nat then
    match fuel with
    | O => Starved
    | S fuel' =>
        if negb (isxdigit (peek base c2)) || negb (isxdigit (peek base (c2 + 1)))
        then Rejected base
        else
          decode_hex fuel' (<[c1 := unhex (drop c2 base) mod 256]> base)
            (S c1) (c2 + 2) end_
    end
  else Decoded base c1.

(** The first part of [readline], taken unless the input has no
    headers: [true] when [readline] returns EOF from it. *)
Definition readline_lead (s : bufsel) : M bool :=
  let* c := fgetc in
  if c =? EOF then modify (set_Eof true);;; ret true
  else if negb (c =? 32) then
    modify (fun w => set_lineno (w_lineno w + 1) w);;;
    let* size := get (fun w => iov_len (get_buf s w)) in
    let* got := fgets s 0 size in
    if negb got then modify (set_Eof true);;; badend;;; ret true
    else
      let* base := get (fun w => iov_base (get_buf s w)) in
      if (c =? 68) && (strncmp base (bytes_of "ATA=END") (STRLENOF "ATA=END") =? 0)
      then ret true
      else modify (set_Eof true);;; badend;;; ret true
  else ret false.

(** [readline(out, buf)]: [None] for the result EOF, otherwise the value
    stored through [out]. *)
Definition readline (s : bufsel) : M (option MDBX_val) :=
  let* mode := get w_mode in
  let* early := if Z.land mode NOHDR =? 0 then readline_lead s else ret false in
  if early then ret None
  else
    let* size := get (fun w => iov_len (get_buf s w)) in
    let* got := fgets s 0 size in
    if negb got then modify (set_Eof true);;; ret None
    else
      modify (fun w => set_lineno (w_lineno w + 1) w);;;
      let* base := get (fun w => iov_base (get_buf s w)) in
      let* fuel := get (fun w => S (length (w_stdin w))) in
      let* whole := grow_line fuel s 0 (strlen base) in
      match whole with
      | None => ret None
      | Some l2 =>
          let end_ := (l2 - 1)%nat in
          buf_poke s end_ 0;;;
          let* base := get (fun w => iov_base (get_buf s w)) in
          let result :=
            if Z.land mode PRINT =? 0 then
              if Nat.odd end_ then Rejected base
              else decode_hex end_ base 0 0 end_
            else decode_print end_ base 0 0 end_ in
          match result with
          | Decoded base' c1 =>
              modify (fun w =>
                        set_buf s {| iov_base := base';
                                     iov_len := iov_len (get_buf s w) |} w);;;
              ret (Some {| iov_base := base'; iov_len := Z.of_nat c1 |})
          | Rejected base' =>
              modify (fun w =>
                        set_buf s {| iov_base := base';
                                     iov_len := iov_len (get_buf s w) |} w);;;
              modify (set_Eof true);;; badend;;; ret None
          | Starved => crash OutOfFuel
          end
      end.

End Reader.

Section Main.

Context `{H : MdbxH} `{P : Platform} `{E : Engine}.

(** ** main *)

(** What [getopt(argc, argv, "af:ns:NTVrq")] hands out, one option at
    a time; [Opt_other] stands for its answer '?'. *)
Inductive opt : Type :=
  | Opt_V
  | Opt_a
  | Opt_f (optarg : bytes)
  | Opt_n
  | Opt_s (optarg : bytes)
  | Opt_N
  | Opt_T
  | Opt_q
  | Opt_r
  | Opt_other.

(** The command line after [argv[0]]: the options, then the operands. *)
Record cmdline : Type := { opts : list opt; operands : list bytes }.

(** The locals of [main] that the options set. *)
Record options : Type := {
  envflags : Z;
  putflags : Z;
  append : bool;
  quiet : bool;
  rescue : bool;
}.

Definition initial_options : options :=
  {| envflags := MDBX_UTTERLY_NOSYNC; putflags := 0;
     append := false; quiet := false; rescue := false |}.

(** The other locals of [main]. [prevk] holds the block [k0buf] and the
    length of the key kept there. *)
Record vars : Type := {
  env : handle;
  txn : handle;
  mc : handle;
  dbi : handle;
  v_rc : Z;
  prevk : MDBX_val;
}.

Definition set_rc (r : Z) (v : vars) : vars :=
  {| env := env v; txn := txn v; mc := mc v; dbi := dbi v;
     v_rc := r; prevk := prevk v |}.

Definition set_txn (r : response) (v : vars) : vars :=
  {| env := env v; txn := out_handle r; mc := mc v; dbi := dbi v;
     v_rc := rc r; prevk := prevk v |}.

Definition set_dbi (r : response) (v : vars) : vars :=
  {| env := env v; txn := txn v; mc := mc v; dbi := out_handle r;
     v_rc := rc r; prevk := prevk v |}.

Definition set_mc (r : response) (v : vars) : vars :=
  {| env := env v; txn := txn v; mc := out_handle r; dbi := dbi v;
     v_rc := rc r; prevk := prevk v |}.

Definition clear_txn (r : response) (v : vars) : vars :=
  {| env := env v; txn := NULL; mc := mc v; dbi := dbi v;
     v_rc := rc r; prevk := prevk v |}.

Definition set_prevk (p : MDBX_val) (v : vars) : vars :=
  {| env := env v; txn := txn v; mc := mc v; dbi := dbi v;
     v_rc := v_rc v; prevk := p |}.

Definition usage {A} : M A :=
  fprintf_stderr MsgUsage;;; exit EXIT_FAILURE.

Inductive getopt_result : Type :=
  | Parsed (o : options)
  | Return (code : Z).

(** One case of the [switch] over the option letter. *)
Definition apply_opt (o : options) (c : opt) : M getopt_result :=
  match c with
  | Opt_V => printf MsgVersion;;; ret (Return EXIT_SUCCESS)
  | Opt_a =>
      ret (Parsed {| envflags := envflags o; putflags := putflags o;
                     append := true; quiet := quiet o; rescue := rescue o |})
  | Opt_f path =>
      match freopen path with
      | Some content => modify (set_stdin content);;; ret (Parsed o)
      | None => fprintf_stderr (MsgFreopenFailed path);;; exit EXIT_FAILURE
      end
  | Opt_n =>
      ret (Parsed {| envflags := Z.lor (envflags o) MDBX_NOSUBDIR;
                     putflags := putflags o; append := append o;
                     quiet := quiet o; rescue := rescue o |})
  | Opt_s name => modify (set_subname (Some name));;; ret (Parsed o)
  | Opt_N =>
      ret (Parsed {| envflags := envflags o;
                     putflags := Z.lor MDBX_NOOVERWRITE MDBX_NODUPDATA;
                     append := append o; quiet := quiet o;
                     rescue := rescue o |})
  | Opt_T =>
      modify (fun w => set_mode (Z.lor (w_mode w) (Z.lor NOHDR PRINT)) w);;;
      ret (Parsed o)
  | Opt_q =>
      ret (Parsed {| envflags := envflags o; putflags := putflags o;
                     append := append o; quiet := true; rescue := rescue o |})
  | Opt_r =>
      ret (Parsed {| envflags := envflags o; putflags := putflags o;
                     append := append o; quiet := quiet o; rescue := true |})
  | Opt_other => usage
  end.

Fixpoint getopt_loop (l : list opt) (o : options) : M getopt_result :=
  match l with
  | [] => ret (Parsed o)
  | c :: r =>
      let* x := apply_opt o c in
      match x with
      | Parsed o' => getopt_loop r o'
      | Return code => ret (Return code)
      end
  end.

Inductive label : Type := txn_abort | env_close.

(** The end of [main], entered at one of its two labels. *)
Definition finish (l : label) (v : vars) : M Z :=
  (match l with
   | txn_abort => engine (mdbx_txn_abort (txn v));;; ret tt
   | env_close => ret tt
   end);;;
  engine (mdbx_env_close (env v));;;
  ret (if v_rc v =? 0 then EXIT_SUCCESS else EXIT_FAILURE).

Definition read_user_break : M bool :=
  fun w =>
    match w_user_break w with
    | [] => Ret false w
    | b :: r => Ret b (set_user_break r w)
    end.

(** The flag added to [putflags] for one record, and [prevk] after it. *)
Definition append_flag (o : options) (dbi_flags : Z) (pk : MDBX_val)
    (key : MDBX_val) : Z * MDBX_val :=
  if append o then
    if Z.land dbi_flags MDBX_DUPSORT =? 0 then (MDBX_APPEND, pk)
    else if (iov_len pk =? iov_len key)
            && bool_decide (val_bytes pk = val_bytes key)
    then (Z.lor MDBX_APPEND MDBX_APPENDDUP, pk)
    else (MDBX_APPEND,
          {| iov_base := write_at (iov_base pk) 0 (val_bytes key);
             iov_len := iov_len key |})
  else (0, pk).

(** How one turn of the inner [while (1)] ends: by [continue] or by
    falling through to the next turn, or by leaving the loop, by [break]
    ([None]) or by a [goto]. *)
Inductive turn : Type :=
  | Continue (v : vars) (batch : Z)
  | Leave (l : option label) (v : vars).

(** The body of the inner [while (1)]: one record. *)
Definition load_record (o : options) (v : vars) (batch : Z) : M turn :=
  let* k := readline KBUF in
  match k with
  | None => ret (Leave None (set_rc EOF v))
  | Some key =>
      let* d := readline DBUF in
      match d with
      | None =>
          let* lineno := get w_lineno in
          fprintf_stderr (MsgFailedReadKeyValue lineno);;;
          ret (Leave (Some txn_abort) (set_rc EOF v))
      | Some data =>
          let* dbi_flags := get w_dbi_flags in
          let* live := get w_k0_live in
          if append o && negb (Z.land dbi_flags MDBX_DUPSORT =? 0)
             && negb live
          then crash DanglingPrevKey
          else
            let '(appflag, pk) := append_flag o dbi_flags (prevk v) key in
            let v := set_prevk pk v in
            let* r := engine (mdbx_cursor_put (mc v) (val_bytes key)
                                (val_bytes data)
                                (Z.lor (putflags o) appflag)) in
            let v := set_rc (rc r) v in
            if (rc r =? MDBX_KEYEXIST) && negb (putflags o =? 0) then
              ret (Continue v batch)
            else if (rc r =? MDBX_BAD_VALSIZE) && rescue o then
              let* lineno := get w_lineno in
              fprintf_stderr (MsgSkipLine lineno (rc r));;;
              ret (Continue v batch)
            else if negb (rc r =? 0) then
              fprintf_stderr (MsgCursorPutFailed (rc r));;;
              ret (Leave (Some txn_abort) v)
            else if batch + 1 =? 100 then
              let* r := engine (mdbx_txn_commit (txn v)) in
              let v := set_rc (rc r) v in
              if negb (rc r =? 0) then
                let* lineno := get w_lineno in
                fprintf_stderr (MsgTxnCommitFailed lineno (rc r));;;
                ret (Leave (Some env_close) v)
              else
                let* r := engine (mdbx_txn_begin (env v) NULL 0) in
                let v := set_txn r v in
                if negb (rc r =? 0) then
                  fprintf_stderr (MsgTxnBeginFailed (rc r));;;
                  ret (Leave (Some env_close) v)
                else
                  let* r := engine (mdbx_cursor_open (txn v) (dbi v)) in
                  let v := set_mc r v in
                  if negb (rc r =? 0) then
                    fprintf_stderr (MsgCursorOpenFailed (rc r));;;
                    ret (Leave (Some txn_abort) v)
                  else ret (Continue v 0)
            else ret (Continue v (batch + 1))
      end
  end.

(** The inner [while (1)]. *)
Fixpoint load_records (fuel : nat) (o : options) (v : vars) (batch : Z)
  : M (option label * vars) :=
  match fuel with
  | O => crash OutOfFuel
  | S fuel' =>
      let* t := load_record o v batch in
      match t with
      | Continue v' batch' => load_records fuel' o v' batch'
      | Leave l v' => ret (l, v')
      end
  end.

(** How one turn of the outer [while (!Eof)] ends: it comes round to
    the test again, or leaves by a [break] or [goto] to a label. *)
Inductive round : Type :=
  | Again (v : vars)
  | Goto (l : label) (v : vars).

(** The body of the outer [while (!Eof)]: one section of the dump. *)
Definition load_section (o : options) (v : vars) : M round :=
  let* stop := read_user_break in
  if stop then ret (Goto txn_abort (set_rc MDBX_EINTR v))
  else
    let* r := engine (mdbx_txn_begin (env v) NULL 0) in
    let v := set_txn r v in
    if negb (rc r =? 0) then
      fprintf_stderr (MsgTxnBeginFailed (rc r));;;
      ret (Goto env_close v)
    else
      let* subname := get w_subname in
      let* dbi_flags := get w_dbi_flags in
      let cmp := if append o then Some AnywayGreater else None in
      let* r := engine (mdbx_dbi_open_ex (txn v) subname
                          (Z.lor dbi_flags MDBX_CREATE) cmp cmp) in
      let v := set_dbi r v in
      if negb (rc r =? 0) then
        fprintf_stderr (MsgDbiOpenFailed (rc r));;;
        ret (Goto txn_abort v)
      else
        let* r := engine (mdbx_cursor_open (txn v) (dbi v)) in
        let v := set_mc r v in
        if negb (rc r =? 0) then
          fprintf_stderr (MsgCursorOpenFailed (rc r));;;
          ret (Goto txn_abort v)
        else
          let v := set_prevk {| iov_base := iov_base (prevk v);
                                iov_len := 0 |} v in
          let* turns := get (fun w => S (length (w_stdin w))) in
          let* res := load_records turns o v 0 in
          match res with
          | (Some l, v) => ret (Goto l v)
          | (None, v) =>
              let* r := engine (mdbx_txn_commit (txn v)) in
              let v := clear_txn r v in
              if negb (rc r =? 0) then
                let* lineno := get w_lineno in
                fprintf_stderr (MsgTxnCommitFailed lineno (rc r));;;
                ret (Goto env_close v)
              else
                engine (mdbx_dbi_close (env v) (dbi v));;;
                modify (set_subname None);;;
                let* mode := get w_mode in
                (if Z.land mode NOHDR =? 0 then readhdr else ret tt);;;
                ret (Again v)
          end.

(** The outer [while (!Eof)]; leaving it by its test falls through to
    [txn_abort]. *)
Fixpoint load_loop (fuel : nat) (o : options) (v : vars)
  : M (label * vars) :=
  let* eof := get w_Eof in
  if eof then ret (txn_abort, v)
  else
    match fuel with
    | O => crash OutOfFuel
    | S fuel' =>
        let* r := load_section o v in
        match r with
        | Again v' => load_loop fuel' o v'
        | Goto l v' => ret (l, v')
        end
    end.

(** From [mdbx_env_set_maxdbs] to the end of [main]. *)
Definition load (o : options) (envname : bytes) (e : handle) : M Z :=
  engine (mdbx_env_set_maxdbs e 2);;;
  let v := {| env := e; txn := NULL; mc := NULL; dbi := 0; v_rc := 0;
              prevk := {| iov_base := []; iov_len := 0 |} |} in
  let* mapsize := get (fun w => mi_mapsize (w_envinfo w)) in
  let* geo :=
    if mapsize =? 0 then ret (None, v)
    else if INTPTR_MAX <? mapsize then
      fprintf_stderr (MsgMapsizeTooLarge mapsize);;;
      ret (Some env_close, v)
    else
      let* r := engine (mdbx_env_set_geometry e 0 0 mapsize (-1) (-1) (-1)) in
      if negb (rc r =? 0) then
        fprintf_stderr (MsgSetGeometryFailed (rc r));;;
        ret (Some env_close, set_rc (rc r) v)
      else ret (None, set_rc (rc r) v) in
  match geo with
  | (Some l, v) => finish l v
  | (None, v) =>
      let* r := engine (mdbx_env_open e envname (envflags o) 436) in
      let v := set_rc (rc r) v in
      if negb (rc r =? 0) then
        fprintf_stderr (MsgEnvOpenFailed (rc r));;;
        finish env_close v
      else
        let* r := engine (mdbx_env_get_maxvalsize_ex e MDBX_DUPSORT) in
        let klen := rc r mod (2 * INTPTR_MAX + 2) in
        if INTPTR_MAX / 4 <=? klen then
          fprintf_stderr (MsgMaxKeysizeFailed klen);;;
          finish env_close v
        else
          let klen := (klen + 1) * 2 in
          modify (set_kbuf {| iov_base := fresh 0 (Z.to_nat klen);
                              iov_len := klen |});;;
          modify (set_k0_live true);;;
          let v := set_prevk {| iov_base := fresh (Z.to_nat klen)
                                              (Z.to_nat klen);
                                iov_len := 0 |} v in
          let* turns := get (fun w => S (length (w_stdin w))) in
          let* out := load_loop turns o v in
          finish (fst out) (snd out)
  end.

Definition main (c : cmdline) : M Z :=
  match opts c, operands c with
  | [], [] => usage
  | _, _ =>
      let* g := getopt_loop (opts c) initial_options in
      match g with
      | Return code => ret code
      | Parsed o =>
          match operands c with
          | [envname] =>
              (if quiet o then ret tt else printf (MsgRunning envname));;;
              modify (set_dbuf {| iov_base := fresh 0 4096;
                                  iov_len := 4096 |});;;
              let* mode := get w_mode in
              (if Z.land mode NOHDR =? 0 then readhdr else ret tt);;;
              let* r := engine mdbx_env_create in
              if negb (rc r =? 0) then
                fprintf_stderr (MsgEnvCreateFailed (rc r));;;
                ret EXIT_FAILURE
              else load o envname (out_handle r)
          | _ => usage
          end
      end
  end.

(** The state in which the program starts: the file-scope variables
    are zero. *)
Definition initial_world (input : bytes) (breaks : list bool)
    (e : engine_state) : world :=
  {| w_stdin := input; w_mode := 0; w_subname := None; w_lineno := 0;
     w_version := 0; w_dbi_flags := 0; w_Eof := false;
     w_envinfo := {| mi_dxb_pagesize := 0; mi_mapsize := 0;
                     mi_maxreaders := 0 |};
     w_kbuf := {| iov_base := []; iov_len := 0 |};
     w_dbuf := {| iov_base := []; iov_len := 0 |};
     w_k0_live := false; w_user_break := breaks; w_engine := e;
     w_out := [] |}.

Definition run (c : cmdline) (input : bytes) (breaks : list bool)
    (e : engine_state) : outcome Z :=
  main c (initial_world input breaks e).

Definition trace (c : cmdline) (input : bytes) (breaks : list bool)
    (e : engine_state) : list event :=
  w_out (final_world (run c input breaks e)).

End Main.

(** ** What a run of the tool may look like

    A watcher reads the events of a run one by one and refuses the
    run as soon as an event is out of place.  It knows the options, and
    keeps: whether the table of the current section was opened with
    sorted duplicates, the key of the last record put in this section
    (empty before the first), and the transaction begun last. *)

Section Watcher.

Context `{H : MdbxH}.

(** The options a command line leaves in force, if [getopt] gets
    through it. *)
Definition set_by (o : options) (c : opt) : options :=
  match c with
  | Opt_a => {| envflags := envflags o; putflags := putflags o;
                append := true; quiet := quiet o; rescue := rescue o |}
  | Opt_n => {| envflags := Z.lor (envflags o) MDBX_NOSUBDIR;
                putflags := putflags o; append := append o;
                quiet := quiet o; rescue := rescue o |}
  | Opt_N => {| envflags := envflags o;
                putflags := Z.lor MDBX_NOOVERWRITE MDBX_NODUPDATA;
                append := append o; quiet := quiet o; rescue := rescue o |}
  | Opt_q => {| envflags := envflags o; putflags := putflags o;
                append := append o; quiet := true; rescue := rescue o |}
  | Opt_r => {| envflags := envflags o; putflags := putflags o;
                append := append o; quiet := quiet o; rescue := true |}
  | _ => o
  end.

Definition options_of (l : list opt) : options :=
  fold_left set_by l initial_options.

(** The calls the tool makes. *)
Definition used_call (c : call) : bool :=
  match c with
  | mdbx_env_create | mdbx_env_set_maxdbs _ _
  | mdbx_env_set_geometry _ _ _ _ _ _ _ | mdbx_env_open _ _ _ _
  | mdbx_env_get_maxvalsize_ex _ _ | mdbx_txn_begin _ _ _
  | mdbx_dbi_open_ex _ _ _ _ _ | mdbx_cursor_open _ _
  | mdbx_cursor_put _ _ _ _ | mdbx_txn_commit _ | mdbx_txn_abort _
  | mdbx_dbi_close _ _ | mdbx_env_close _ => true
  | _ => false
  end.

Inductive phase : Type :=
  | Steady
  | AwaitSkip (code : Z)
  | Failing (n : nat) (code : Z)
  | Ended.

Record watcher : Type := {
  ph : phase;
  dups : bool;
  prev : bytes;
  cur_txn : handle;
}.

Definition start : watcher :=
  {| ph := Steady; dups := false; prev := []; cur_txn := NULL |}.

Definition in_phase (p : phase) (s : watcher) : watcher :=
  {| ph := p; dups := dups s; prev := prev s; cur_txn := cur_txn s |}.

(** The flag a put must add to [putflags]. *)
Definition due_flag (o : options) (s : watcher) (key : bytes) : Z :=
  if append o then
    if dups s && bool_decide (prev s = key)
    then Z.lor MDBX_APPEND MDBX_APPENDDUP
    else MDBX_APPEND
  else 0.

(** Where a put leaves the run, by its result. *)
Definition after_put (o : options) (code : Z) : phase :=
  if (code =? MDBX_KEYEXIST) && negb (putflags o =? 0) then Steady
  else if (code =? MDBX_BAD_VALSIZE) && rescue o then AwaitSkip code
  else if negb (code =? 0) then Failing 0 code
  else Steady.

Definition comparers_for (o : options) : option comparer :=
  if append o then Some AnywayGreater else None.

Definition watch_call (o : options) (s : watcher) (c : call) (r : response)
  : option watcher :=
  match c with
  | mdbx_cursor_put _ key _ f =>
      if f =? Z.lor (putflags o) (due_flag o s key) then
        Some {| ph := after_put o (rc r); dups := dups s;
                prev := if append o && dups s then key else prev s;
                cur_txn := cur_txn s |}
      else None
  | mdbx_dbi_open_ex _ _ f kc dc =>
      if (Z.land f MDBX_CREATE =? MDBX_CREATE)
         && bool_decide (kc = comparers_for o)
         && bool_decide (dc = comparers_for o)
      then Some {| ph := Steady; dups := negb (Z.land f MDBX_DUPSORT =? 0);
                   prev := []; cur_txn := cur_txn s |}
      else None
  | mdbx_txn_begin _ _ _ =>
      Some {| ph := Steady; dups := dups s; prev := prev s;
              cur_txn := out_handle r |}
  | _ => if used_call c then Some s else None
  end.

Definition watch (o : options) (s : watcher) (e : event) : option watcher :=
  match ph s with
  | Ended => None
  | AwaitSkip code =>
      match e with
      | Stderr (MsgSkipLine _ code') =>
          if code' =? code then Some (in_phase Steady s) else None
      | _ => None
      end
  | Failing 0 code =>
      match e with
      | Stderr (MsgCursorPutFailed code') =>
          if code' =? code then Some (in_phase (Failing 1 code) s) else None
      | _ => None
      end
  | Failing 1 code =>
      match e with
      | Call (mdbx_txn_abort t) _ =>
          if t =? cur_txn s then Some (in_phase (Failing 2 code) s) else None
      | _ => None
      end
  | Failing 2 code =>
      match e with
      | Call (mdbx_env_close _) _ => Some (in_phase Ended s)
      | _ => None
      end
  | Failing _ _ => None
  | Steady =>
      match e with
      | Stdout _ => Some s
      | Stderr (MsgSkipLine _ _) | Stderr (MsgCursorPutFailed _) => None
      | Stderr _ => Some s
      | Call c r => watch_call o s c r
      end
  end.

Fixpoint watch_all (o : options) (s : watcher) (tr : list event)
  : option watcher :=
  match tr with
  | [] => Some s
  | e :: tr' =>
      match watch o s e with
      | Some s' => watch_all o s' tr'
      | None => None
      end
  end.

Definition is_opt_a (c : opt) : bool := match c with Opt_a => true | _ => false end.
Definition is_opt_r (c : opt) : bool := match c with Opt_r => true | _ => false end.
Definition is_opt_N (c : opt) : bool := match c with Opt_N => true | _ => false end.

(** What every event of a run has, whatever came before it: a call is
    one of the calls the tool makes; a put carries the flags of the
    options, and the append flag in append mode; a table is opened with
    the create flag and with the comparison functions of the mode. *)
Definition event_ok (o : options) (e : event) : bool :=
  match e with
  | Call c _ =>
      used_call c &&
      match c with
      | mdbx_cursor_put _ _ _ f =>
          (Z.land f (putflags o) =? putflags o)
          && (if append o then Z.land f MDBX_APPEND =? MDBX_APPEND else true)
      | mdbx_dbi_open_ex _ _ f kc dc =>
          (Z.land f MDBX_CREATE =? MDBX_CREATE)
          && bool_decide (kc = comparers_for o)
          && bool_decide (dc = comparers_for o)
      | _ => true
      end
  | _ => true
  end.

(** What a reader of the trace knows of the current section, from the
    calls alone: whether its table was opened with sorted duplicates,
    the key of the record put last in it (empty before the first), and
    the transaction begun last. *)
Record section_view : Type := {
  sorted_dups : bool;
  last_key : bytes;
  last_txn : handle;
}.

Definition track (sv : section_view) (e : event) : section_view :=
  match e with
  | Call (mdbx_dbi_open_ex _ _ f _ _) _ =>
      {| sorted_dups := negb (Z.land f MDBX_DUPSORT =? 0); last_key := [];
         last_txn := last_txn sv |}
  | Call (mdbx_cursor_put _ key _ _) _ =>
      {| sorted_dups := sorted_dups sv; last_key := key;
         last_txn := last_txn sv |}
  | Call (mdbx_txn_begin _ _ _) r =>
      {| sorted_dups := sorted_dups sv; last_key := last_key sv;
         last_txn := out_handle r |}
  | _ => sv
  end.

Definition view_of (tr : list event) : section_view :=
  fold_left track tr {| sorted_dups := false; last_key := []; last_txn := NULL |}.

End Watcher.

(** The diagnostics of [readhdr] and [readline]. *)
Definition is_input_diag (e : event) : bool :=
  match e with
  | Stderr (MsgUnsupportedVersion _ _) | Stderr (MsgUnsupportedFormat _ _)
  | Stderr (MsgUnsupportedType _ _) | Stderr (MsgInvalidMapaddr _ _)
  | Stderr (MsgInvalidMapsize _ _) | Stderr (MsgInvalidMaxreaders _ _)
  | Stderr (MsgUnexpectedFormat _) | Stderr (MsgUnrecognizedKeyword _ _)
  | Stderr (MsgUnexpectedEnd _) | Stderr (MsgOutOfMemory _) => true
  | _ => false
  end.

(** A value whose length does not reach past its block. *)
Definition wf_val (v : MDBX_val) : Prop :=
  0 <= iov_len v /\ (Z.to_nat (iov_len v) <= length (iov_base v))%nat.

(** ** A concrete setting to run the tool in

    The values mdbx.h gives the constants, an LP64 platform whose fresh
    memory is zeroed and whose [realloc] succeeds, and a small engine:
    one table kept as an association list, values of at most 20 bytes. *)

Definition mdbx_h_values : MdbxH :=
  {| MDBX_REVERSEKEY := 2; MDBX_DUPSORT := 4; MDBX_INTEGERKEY := 8;
     MDBX_DUPFIXED := 16; MDBX_INTEGERDUP := 32; MDBX_REVERSEDUP := 64;
     MDBX_CREATE := 262144; MDBX_NOOVERWRITE := 16; MDBX_NODUPDATA := 32;
     MDBX_APPEND := 131072; MDBX_APPENDDUP := 262144;
     MDBX_UTTERLY_NOSYNC := 1114112; MDBX_NOSUBDIR := 16384;
     MDBX_KEYEXIST := -30799; MDBX_BAD_VALSIZE := -30781; MDBX_EINTR := 4 |}.

Definition lp64 : Platform :=
  {| INTPTR_MAX := 9223372036854775807;
     scan_pointer := fun s => isxdigit (peek s 0);
     junk := fun _ => 0;
     realloc_ok := fun _ => true;
     freopen := fun _ => None |}.

Definition toy_lookup (k : bytes) (l : list (bytes * bytes)) : option bytes :=
  snd <$> find (fun kv => bool_decide (fst kv = k)) l.

Definition toy_store (k d : bytes) (l : list (bytes * bytes))
  : list (bytes * bytes) :=
  (k, d) :: filter (fun kv => fst kv <> k) l.

Definition toy_call (c : call) (l : list (bytes * bytes))
  : response * list (bytes * bytes) :=
  match c with
  | mdbx_env_create => ({| rc := 0; out_handle := 1 |}, l)
  | mdbx_txn_begin _ _ _ => ({| rc := 0; out_handle := 2 |}, l)
  | mdbx_dbi_open_ex _ _ _ _ _ => ({| rc := 0; out_handle := 3 |}, l)
  | mdbx_cursor_open _ _ => ({| rc := 0; out_handle := 4 |}, l)
  | mdbx_env_get_maxvalsize_ex _ _ => ({| rc := 20; out_handle := 0 |}, l)
  | mdbx_cursor_put _ k d f =>
      if (20 <? length d)%nat then ({| rc := -30781; out_handle := 0 |}, l)
      else
        match toy_lookup k l with
        | Some _ =>
            if Z.land f 16 =? 0
            then ({| rc := 0; out_handle := 0 |}, toy_store k d l)
            else ({| rc := -30799; out_handle := 0 |}, l)
        | None => ({| rc := 0; out_handle := 0 |}, toy_store k d l)
        end
  | _ => ({| rc := 0; out_handle := 0 |}, l)
  end.

Definition toy_engine : Engine :=
  {| engine_state := list (bytes * bytes); engine_call := toy_call |}.

(** Text lines, each closed by a newline, as input bytes. *)
Definition lines (l : list string) : bytes :=
  concat (map (fun s => bytes_of s ++ [10]) l).

(** ** Runs in the concrete setting *)

Definition db_path : bytes := bytes_of "db".

Definition cmd (l : list opt) : cmdline := {| opts := l; operands := [db_path] |}.

(** A value of 21 bytes, one more than the small engine takes. *)
Definition oversize_line : string := " 000000000000000000000000000000000000000000".

Definition oversize_dump : bytes :=
  lines ["VERSION=3"; "HEADER=END"; " 61"; oversize_line; " 62"; " 63"; "DATA=END"]%string.

(** The state of the tool inside the record loop of its first section,
    with [input] left to read: the buffers are those [main] has set up
    for a key limit of 20 bytes. *)
Definition loop_world `{P : Platform} `{E : Engine} (input : bytes)
    (dbi_flags : Z) (e : engine_state) : world :=
  {| w_stdin := input; w_mode := 0; w_subname := None; w_lineno := 0;
     w_version := 0; w_dbi_flags := dbi_flags; w_Eof := false;
     w_envinfo := w_envinfo (initial_world [] [] e);
     w_kbuf := {| iov_base := fresh 0 42; iov_len := 42 |};
     w_dbuf := {| iov_base := fresh 0 4096; iov_len := 4096 |};
     w_k0_live := true; w_user_break := []; w_engine := e; w_out := [] |}.

Definition loop_vars `{P : Platform} : vars :=
  {| env := 1; txn := 2; mc := 4; dbi := 3; v_rc := 0;
     prevk := {| iov_base := fresh 42 42; iov_len := 0 |} |}.

(** The small engine's table with nothing in it. *)
Definition no_records : @engine_state toy_engine := [].

(** The line a call of [readline] returned. *)
Definition line_of `{E : Engine} (x : outcome (option MDBX_val)) : MDBX_val :=
  match x with
  | Ret (Some v) _ => v
  | _ => {| iov_base := []; iov_len := 0 |}
  end.

(** A dump that gives the key [a] twice. *)
Definition repeated_key_dump : bytes :=
  lines ["VERSION=3"; "HEADER=END"; " 61"; " 31"; " 61"; " 32"; " 62"; " 33";
         "DATA=END"]%string.

(** The small engine's table with the value [1] at the key [a]. *)
Definition one_record : @engine_state toy_engine := [([97], [49])].

(** A dump of a table with sorted duplicates that gives the key [a]
    twice, and one whose first record has the empty key. *)
Definition duplicates_dump : bytes :=
  lines ["VERSION=3"; "duplicates=1"; "HEADER=END"; " 61"; " 31"; " 61"; " 32";
         " 62"; " 33"; "DATA=END"]%string.

Definition empty_key_dump : bytes :=
  lines ["VERSION=3"; "duplicates=1"; "HEADER=END"; " "; " 31"; "DATA=END"]%string.

Definition is_put (e : event) : bool :=
  match e with Call (mdbx_cursor_put _ _ _ _) _ => true | _ => false end.

(** A dump of two sections, neither of which names its table. *)
Definition two_sections_dump : bytes :=
  lines ["VERSION=3"; "HEADER=END"; " 61"; " 31"; "DATA=END";
         "VERSION=3"; "HEADER=END"; " 62"; " 32"; "DATA=END"]%string.

Definition table_name : bytes := bytes_of "t".

Definition opened_names (tr : list event) : list (option bytes) :=
  omap (fun e => match e with
                 | Call (mdbx_dbi_open_ex _ name _ _ _) _ => Some name
                 | _ => None
                 end) tr.

(** Dumps whose header gives a map size. *)
Definition mapsize_dump (n : string) : bytes :=
  lines ["VERSION=3"; ("mapsize=" ++ n)%string; "HEADER=END"; " 61"; " 31"; "DATA=END"]%string.

Definition calls_of (tr : list event) : list call :=
  omap (fun e => match e with Call c _ => Some c | _ => None end) tr.

(** The keywords [readhdr] knows: the prefixes it tests for, in its
    order, and the names of [dbflags]. *)
Definition known_keyword `{H : MdbxH} (buf : bytes) : bool :=
  has_prefix buf "db_pagesize=" || has_prefix buf "duplicates="
  || has_prefix buf "VERSION=" || has_prefix buf "HEADER=END"
  || has_prefix buf "format=" || has_prefix buf "database="
  || has_prefix buf "type=" || has_prefix buf "mapaddr="
  || has_prefix buf "mapsize=" || has_prefix buf "maxreaders="
  || match scan_dbflags dbflags buf with Some _ => true | None => false end.

(** A dump whose second header line has no equals sign, and the same
    without the line before it. *)
Definition stale_equals_dump : bytes :=
  lines ["VERSION=3"; "foo"; "HEADER=END"; " 61"; " 31"; "DATA=END"]%string.

Definition no_equals_dump : bytes :=
  lines ["foo"; "HEADER=END"; " 61"; " 31"; "DATA=END"]%string.

(** * The engine's snapshots

    The storage engine is not among the sources at hand; only the tool
    that calls it is.  What follows models, from the specification, the
    part of the engine that decides what a reader sees: copy-on-write
    pages, the meta that names the current snapshot, the free list and
    the reader table.  A table is kept as a tree of one leaf page. *)

Module Mvcc.

Local Open Scope nat_scope.


Definition page : Type := list (bytes * bytes).

Definition leaf_get (k : bytes) (pg : page) : option bytes :=
  snd <$> find (fun kv => bool_decide (fst kv = k)) pg.

Definition leaf_put (k v : bytes) (pg : page) : page :=
  (k, v) :: filter (fun kv => fst kv <> k) pg.

(** Modelled from the spec: the meta page of the engine, which is
    missing from the sources: the id of the transaction that committed
    it and the root page of the table. *)
Record meta : Type := { committed : nat; root : nat }.

(** Modelled from the spec: a reader slot of the engine's reader table,
    which is missing from the sources: the transaction id the reader is
    pinned to, with the root its read transaction took from the meta of
    that id. *)
Record reader_slot : Type := { pinned : nat; snapshot : nat }.

(** Modelled from the spec: a write transaction of the engine, which is
    missing from the sources: its id, its root, its dirty pages and the
    pages it has retired. *)
Record write_txn : Type := {
  wt_id : nat;
  wt_root : nat;
  dirty : list nat;
  retired : list nat;
}.

(** Modelled from the spec: the environment of the engine, which is
    missing from the sources: the pages of the file, the current meta,
    the free list (pages by the id of the transaction that retired
    them), the reader table, the end of the file and the one write
    transaction there may be. *)
Record store : Type := {
  pages : gmap nat page;
  current : meta;
  free_list : list (nat * nat);
  reader_table : list (option reader_slot);
  file_end : nat;
  writer : option write_txn;
}.

(** Modelled from the spec: the reclaim rule of the engine's free list,
    which is missing from the sources: pages retired by transaction [n]
    may be taken when [n] is strictly older than the snapshot of every
    registered reader. *)
Definition reclaimable (s : store) (n : nat) : bool :=
  forallb (fun slot => match slot with Some r => n <? pinned r | None => true end)
          (reader_table s).

Definition with_writer (t : option write_txn) (s : store) : store :=
  {| pages := pages s; current := current s; free_list := free_list s;
     reader_table := reader_table s; file_end := file_end s; writer := t |}.

Definition with_readers (tbl : list (option reader_slot)) (s : store) : store :=
  {| pages := pages s; current := current s; free_list := free_list s;
     reader_table := tbl; file_end := file_end s; writer := writer s |}.

(** Modelled from the spec: the begin of a write transaction in the
    engine, which is missing from the sources: one writer at a time,
    starting from the current snapshot with the next id. *)
Definition begin (s : store) : store :=
  match writer s with
  | Some _ => s
  | None =>
      with_writer (Some {| wt_id := S (committed (current s));
                           wt_root := root (current s);
                           dirty := []; retired := [] |}) s
  end.

(** Modelled from the spec: a put of the engine, which is missing from
    the sources: a dirty page is written in place; a page visible in an
    older snapshot is copied to a new page, taken from the reclaimable
    part of the free list before the file is grown, the copy is marked
    dirty and the displaced page is recorded as retired. *)
Definition put (k v : bytes) (s : store) : store :=
  match writer s with
  | None => s
  | Some t =>
      let pg := leaf_put k v (pages s !!! wt_root t) in
      if bool_decide (wt_root t ∈ dirty t) then
        {| pages := <[wt_root t := pg]> (pages s); current := current s;
           free_list := free_list s; reader_table := reader_table s;
           file_end := file_end s; writer := Some t |}
      else
        let t' p := {| wt_id := wt_id t; wt_root := p; dirty := p :: dirty t;
                       retired := wt_root t :: retired t |} in
        match find (fun e => reclaimable s (fst e)) (free_list s) with
        | Some (_, p) =>
            {| pages := <[p := pg]> (pages s); current := current s;
               free_list := filter (fun e => snd e <> p) (free_list s);
               reader_table := reader_table s; file_end := file_end s;
               writer := Some (t' p) |}
        | None =>
            {| pages := <[file_end s := pg]> (pages s); current := current s;
               free_list := free_list s; reader_table := reader_table s;
               file_end := S (file_end s); writer := Some (t' (file_end s)) |}
        end
  end.

(** Modelled from the spec: the commit of the engine, which is missing
    from the sources: the new meta becomes the current one and the
    retired pages go to the free list under the id of the transaction. *)
Definition commit (s : store) : store :=
  match writer s with
  | None => s
  | Some t =>
      {| pages := pages s;
         current := {| committed := wt_id t; root := wt_root t |};
         free_list := ((fun p => (wt_id t, p)) <$> retired t) ++ free_list s;
         reader_table := reader_table s; file_end := file_end s;
         writer := None |}
  end.

(** Modelled from the spec: the abort of the engine, which is missing
    from the sources: the lists of the transaction are discarded. *)
Definition abort (s : store) : store := with_writer None s.

Fixpoint claim (r : reader_slot) (tbl : list (option reader_slot))
  : list (option reader_slot) :=
  match tbl with
  | [] => []
  | None :: rest => Some r :: rest
  | Some x :: rest => Some x :: claim r rest
  end.

(** Modelled from the spec: the registration of a reader in the engine,
    which is missing from the sources: an empty slot is claimed and
    pinned to the id of the current snapshot; with no empty slot the
    registration fails. *)
Definition register (s : store) : store :=
  with_readers (claim {| pinned := committed (current s);
                         snapshot := root (current s) |} (reader_table s)) s.

Definition unregister (i : nat) (s : store) : store :=
  with_readers (<[i := None]> (reader_table s)) s.

Inductive op : Type :=
  | Begin | Put (k v : bytes) | Commit | Abort | Register | Unregister (i : nat).

Definition step (o : op) (s : store) : store :=
  match o with
  | Begin => begin s
  | Put k v => put k v s
  | Commit => commit s
  | Abort => abort s
  | Register => register s
  | Unregister i => unregister i s
  end.

Definition run_ops (l : list op) (s : store) : store :=
  fold_left (fun s o => step o s) l s.

(** An empty table in a file of one page, with [slots] reader slots. *)
Definition fresh_store (slots : nat) : store :=
  {| pages := {[ 0 := [] ]}; current := {| committed := 0; root := 0 |};
     free_list := []; reader_table := replicate slots None; file_end := 1;
     writer := None |}.

(** What the reader [r] sees at a key. *)
Definition read (s : store) (r : reader_slot) (k : bytes) : option bytes :=
  leaf_get k (pages s !!! snapshot r).

Definition is_unregister (i : nat) (o : op) : bool :=
  match o with Unregister j => bool_decide (i = j) | _ => false end.

End Mvcc.

(** * The helpers of the engine's internal header

    The tool is built on the engine's internal header, whose inline
    helpers for page numbers and sizes come with it.  [pgno_t] is
    [uint32_t]; the width of [size_t] is left to the platform and is a
    parameter here. *)

Definition NUM_METAS : Z := 3.
Definition MAX_PAGENO : Z := 2147483647.
Definition MIN_PAGENO : Z := NUM_METAS.

(** Arithmetic on [uint32_t] and on [size_t] wraps around. *)
Definition wrap (bits x : Z) : Z := x mod 2 ^ bits.

Definition pgno_add (base augend : Z) : Z :=
  if augend <? wrap 32 (MAX_PAGENO - base) then wrap 32 (base + augend)
  else MAX_PAGENO.

Definition pgno_sub (base subtrahend : Z) : Z :=
  if subtrahend <? wrap 32 (base - MIN_PAGENO) then wrap 32 (base - subtrahend)
  else MIN_PAGENO.

Definition is_powerof2 (bits x : Z) : bool :=
  Z.land x (wrap bits (x - 1)) =? 0.

Definition roundup_powerof2 (bits value granularity : Z) : Z :=
  Z.land (wrap bits (value + granularity - 1))
         (wrap bits (Z.lnot (wrap bits (granularity - 1)))).

(** [EVEN(n)], at the width of [n]: the [-2] is converted to it. *)
Definition EVEN (bits n : Z) : Z :=
  Z.land (wrap bits (n + 1)) (wrap bits (-2)).

(** * getopt

    The file carries the getopt of the 1985 UNIFORUM conference for the
    platforms that lack one.  [argv] is the list of the words of the
    command line, each without its terminating NUL; a read past the
    terminator of a word or past the last word is outside the model.
    The characters are taken as [unsigned char]. *)

Module Getopt.

Inductive complaint : Type :=
  | IllegalOption (c : Z)
  | RequiresArgument (c : Z).

(** The variables of getopt: [optind], [optopt], [optarg], [opterr]
    and the static [sp], with what [ERR] has written to [stderr]. *)
Record state : Type := {
  optind : nat;
  sp : nat;
  optarg : option bytes;
  optopt : Z;
  opterr : Z;
  complaints : list complaint;
}.

Definition initial : state :=
  {| optind := 1; sp := 1; optarg := None; optopt := 0; opterr := 1;
     complaints := [] |}.

(** [word[i]], the terminator included. *)
Definition char_at (word : bytes) (i : nat) : option Z :=
  if (i <=? length word)%nat then Some (peek word i) else None.

(** [strchr(s, c)]: the offset of the first [c] in [s], whose
    terminator counts. *)
Fixpoint strchr (s : bytes) (c : Z) : option nat :=
  match s with
  | [] => if c =? 0 then Some 0%nat else None
  | x :: r => if x =? c then Some 0%nat else S <$> strchr r c
  end.

Definition ERR (k : complaint) (st : state) : state :=
  if opterr st =? 0 then st
  else {| optind := optind st; sp := sp st; optarg := optarg st;
          optopt := optopt st; opterr := opterr st;
          complaints := complaints st ++ [k] |}.

Definition move (i j : nat) (st : state) : state :=
  {| optind := i; sp := j; optarg := optarg st; optopt := optopt st;
     opterr := opterr st; complaints := complaints st |}.

Definition set_optarg (a : option bytes) (st : state) : state :=
  {| optind := optind st; sp := sp st; optarg := a; optopt := optopt st;
     opterr := opterr st; complaints := complaints st |}.

Definition set_optopt (c : Z) (st : state) : state :=
  {| optind := optind st; sp := sp st; optarg := optarg st; optopt := c;
     opterr := opterr st; complaints := complaints st |}.

(** The test at the head of getopt, made when [sp == 1]: the result
    EOF with the state it leaves, or nothing when getopt goes on. *)
Definition at_word_start (argv : list bytes) (st : state)
  : option (option (Z * state)) :=
  if (sp st =? 1)%nat then
    if (length argv <=? optind st)%nat then Some (Some (EOF, st))
    else
      w ← argv !! optind st;
      c0 ← char_at w 0;
      if negb (c0 =? 45) then Some (Some (EOF, st))
      else
        c1 ← char_at w 1;
        if c1 =? 0 then Some (Some (EOF, st))
        else if bool_decide (w = [45; 45])
             then Some (Some (EOF, move (S (optind st)) (sp st) st))
             else Some None
  else Some None.

(** [getopt(argc, argv, opts)]: the result and the state it leaves. *)
Definition getopt (argv : list bytes) (opts : bytes) (st : state)
  : option (Z * state) :=
  early ← at_word_start argv st;
  match early with
  | Some res => Some res
  | None =>
      w ← argv !! optind st;
      c ← char_at w (sp st);
      let st := set_optopt c st in
      match (if c =? 58 then None else strchr opts c) with
      | None =>
          let st := ERR (IllegalOption c) st in
          c' ← char_at w (S (sp st));
          Some (63, if c' =? 0 then move (S (optind st)) 1 st
                    else move (optind st) (S (sp st)) st)
      | Some i =>
          cp ← char_at opts (S i);
          if cp =? 58 then
            c' ← char_at w (S (sp st));
            if negb (c' =? 0) then
              Some (c, move (S (optind st)) 1
                         (set_optarg (Some (drop (S (sp st)) w)) st))
            else if (length argv <=? S (optind st))%nat then
              Some (63, move (S (optind st)) 1 (ERR (RequiresArgument c) st))
            else
              a ← argv !! S (optind st);
              Some (c, move (S (S (optind st))) 1 (set_optarg (Some a) st))
          else
            c' ← char_at w (S (sp st));
            Some (c, set_optarg None
                       (if c' =? 0 then move (S (optind st)) 1 st
                        else move (optind st) (S (sp st)) st))
      end
  end.

(** The [switch] of [main] over what getopt returns. *)
Definition opt_of (c : Z) (arg : option bytes) : opt :=
  if c =? 86 then Opt_V
  else if c =? 97 then Opt_a
  else if c =? 102 then Opt_f (default [] arg)
  else if c =? 110 then Opt_n
  else if c =? 115 then Opt_s (default [] arg)
  else if c =? 78 then Opt_N
  else if c =? 84 then Opt_T
  else if c =? 113 then Opt_q
  else if c =? 114 then Opt_r
  else Opt_other.

Definition optstring : bytes := bytes_of "af:ns:NTVrq".

(** The [while] loop of [main] over getopt, run to its end. *)
Fixpoint getopt_all (fuel : nat) (argv : list bytes) (st : state)
  : option (list opt * state) :=
  match fuel with
  | O => None
  | S fuel' =>
      '(c, st') ← getopt argv optstring st;
      if c =? EOF then Some ([], st')
      else
        '(l, st'') ← getopt_all fuel' argv st';
        Some (opt_of c (optarg st') :: l, st'')
  end.

(** One turn for every character of the command line is enough. *)
Definition turns (argv : list bytes) : nat :=
  S (length (concat argv) + length argv).

(** The command line as [main] takes it. *)
Definition cmdline_of (argv : list bytes) : option cmdline :=
  '(l, st) ← getopt_all (turns argv) argv initial;
  Some {| opts := l; operands := drop (optind st) argv |}.

(** What the words of a command line mean, read word by word: the
    reading the loop over getopt is compared with. *)
Definition takes_argument (c : Z) : bool := (c =? 102) || (c =? 115).

Fixpoint parse_word (cs : bytes) (next : option bytes) : list opt * bool :=
  match cs with
  | [] => ([], false)
  | c :: r =>
      if takes_argument c then
        match r, next with
        | _ :: _, _ => ([opt_of c (Some r)], false)
        | [], Some a => ([opt_of c (Some a)], true)
        | [], None => ([Opt_other], false)
        end
      else
        let '(l, used) := parse_word r next in (opt_of c None :: l, used)
  end.

Fixpoint parse_args (words : list bytes) : list opt * list bytes :=
  match words with
  | [] => ([], [])
  | w :: ws =>
      match w with
      | dash :: c :: r =>
          if negb (dash =? 45) then ([], words)
          else if bool_decide (w = [45; 45]) then ([], ws)
          else
            match ws with
            | [] => (fst (parse_word (c :: r) None), [])
            | a :: ws' =>
                let '(l, used) := parse_word (c :: r) (Some a) in
                let '(l', rest) := if used then parse_args ws' else parse_args ws in
                (l ++ l', rest)
            end
      | _ => ([], words)
      end
  end.

(** What getopt knows of an option character. *)
Inductive kind : Type := WithArgument | Flag | Illegal.

Definition kind_of (c : Z) : kind :=
  match (if c =? 58 then None else strchr optstring c) with
  | None => Illegal
  | Some i => if default 0 (char_at optstring (S i)) =? 58 then WithArgument else Flag
  end.

(** One call of getopt inside a word: [c] is the character at [sp],
    [r] what follows it in the word. *)
Definition after_call (argv : list bytes) (st : state) (c : Z) (r : bytes)
  : Z * state :=
  let st1 := set_optopt c st in
  let on st' :=
    match r with
    | [] => move (S (optind st)) 1 st'
    | _ :: _ => move (optind st) (S (sp st)) st'
    end in
  match kind_of c with
  | WithArgument =>
      match r with
      | _ :: _ => (c, move (S (optind st)) 1 (set_optarg (Some r) st1))
      | [] =>
          if (length argv <=? S (optind st))%nat
          then (63, move (S (optind st)) 1 (ERR (RequiresArgument c) st1))
          else (c, move (S (S (optind st))) 1
                     (set_optarg (argv !! S (optind st)) st1))
      end
  | Flag => (c, set_optarg None (on st1))
  | Illegal => (63, on (ERR (IllegalOption c) st1))
  end.

End Getopt.

(** The text a line of a printable dump stands for: a backslash is
    followed by a second backslash or by two hexadecimal digits, every
    other character stands for itself.  The reading that the print
    branch of [readline] is compared with. *)
Fixpoint unescape (l : bytes) : option bytes :=
  match l with
  | [] => Some []
  | c :: r =>
      if c =? 92 then
        match r with
        | [] => None
        | a :: r' =>
            if a =? 92 then cons 92 <$> unescape r'
            else
              match r' with
              | [] => None
              | b :: r'' =>
                  if isxdigit a && isxdigit b
                  then cons (16 * hex_digit_value a + hex_digit_value b)
                         <$> unescape r''
                  else None
              end
        end
      else cons c <$> unescape r
  end.

(** ** Reading a trace *)

Definition is_call (e : event) : bool :=
  match e with Call _ _ => true | _ => false end.

(** The two calls that bracket the life of the environment. *)
Definition is_env_bracket (e : event) : bool :=
  match e with
  | Call mdbx_env_create _ | Call (mdbx_env_close _) _ => true
  | _ => false
  end.

(** The calls made between them. *)
Definition loading_call (c : call) : bool :=
  match c with
  | mdbx_env_set_maxdbs _ _
  | mdbx_env_set_geometry _ _ _ _ _ _ _ | mdbx_env_open _ _ _ _
  | mdbx_env_get_maxvalsize_ex _ _ | mdbx_txn_begin _ _ _
  | mdbx_dbi_open_ex _ _ _ _ _ | mdbx_cursor_open _ _
  | mdbx_cursor_put _ _ _ _ | mdbx_txn_commit _ | mdbx_txn_abort _
  | mdbx_dbi_close _ _ => true
  | _ => false
  end.

(** The three shapes of the trace of a run that returns: no call at
    all; a failed [mdbx_env_create] and its message; or a successful
    [mdbx_env_create], calls that neither create nor close an
    environment, and [mdbx_env_close] of the handle created. *)
Definition closes_what_it_creates (tr : list event) : Prop :=
  Forall (fun e => is_call e = false) tr \/
  (exists pre r,
     tr = pre ++ [Call mdbx_env_create r; Stderr (MsgEnvCreateFailed (rc r))] /\
     rc r <> 0 /\ Forall (fun e => is_call e = false) pre) \/
  (exists pre r mid r',
     tr = pre ++ Call mdbx_env_create r :: mid
              ++ [Call (mdbx_env_close (out_handle r)) r'] /\
     rc r = 0 /\ Forall (fun e => is_call e = false) pre /\
     Forall (fun e => is_env_bracket e = false) mid).

Definition calm (e : event) : bool := negb (is_env_bracket e).
Definition silent (e : event) : bool := negb (is_call e).

(** From [w0] on, calls that neither create nor close an environment,
    and then the closing of [e]. *)
Definition closed `{E : Engine} (e : handle) (w0 w : world) : Prop :=
  exists mid r',
    w_out w = w_out w0 ++ mid ++ [Call (mdbx_env_close e) r'] /\
    Forall (fun ev => calm ev = true) mid.

(** ** Transactions and batches

    A reader of the trace that follows the transactions: none open, or
    one open with the number of puts that succeeded in it.  It refuses
    a put or a commit outside a transaction, a commit or an abort of
    another transaction than the open one, a second begin, and, once a
    transaction holds 100 successful puts, everything but its commit. *)
Inductive txn_state : Type :=
  | NoTxn
  | InTxn (cur : handle) (n : nat)
  | Refused.

Definition track_txn (s : txn_state) (e : event) : txn_state :=
  match s with
  | Refused => Refused
  | NoTxn =>
      match e with
      | Call (mdbx_txn_begin _ _ _) r =>
          if rc r =? 0 then InTxn (out_handle r) 0 else NoTxn
      | Call (mdbx_cursor_put _ _ _ _) _ | Call (mdbx_txn_commit _) _ => Refused
      | _ => NoTxn
      end
  | InTxn cur n =>
      match e with
      | Call (mdbx_txn_commit t) _ => if t =? cur then NoTxn else Refused
      | _ =>
          if (n <? 100)%nat then
            match e with
            | Call (mdbx_cursor_put _ _ _ _) r =>
                if rc r =? 0 then InTxn cur (S n) else s
            | Call (mdbx_txn_begin _ _ _) _ => Refused
            | Call (mdbx_txn_abort t) _ => if t =? cur then NoTxn else Refused
            | _ => s
            end
          else Refused
      end
  end.

Definition txn_state_of (tr : list event) : txn_state :=
  fold_left track_txn tr NoTxn.

Definition is_refused (s : txn_state) : bool :=
  match s with Refused => true | _ => false end.

(** A state in which the tool may do something else than commit. *)
Definition settled (s : txn_state) : Prop :=
  match s with
  | NoTxn => True
  | InTxn _ n => (n < 100)%nat
  | Refused => False
  end.

(** A dump of [n] records under one key. *)
Fixpoint record_lines (n : nat) : list string :=
  match n with
  | O => []
  | S k => (" 61" :: " 62" :: record_lines k)%string
  end.

Definition long_dump (n : nat) : bytes :=
  lines (["VERSION=3"; "HEADER=END"]%string ++ record_lines n
           ++ ["DATA=END"]%string)%list.

(** ** Running out of fuel

    The loops of the tool are modelled with fuel, which each of them
    takes from the length of the input left when it starts. *)
Definition starved {A} `{E : Engine} (o : outcome A) : bool :=
  match o with
  | Fault OutOfFuel _ => true
  | _ => false
  end.

(** ** The key buffer in place

    [main] keeps the previous key of append mode in the second half of
    the block it allocates for [kbuf], and [readline] reallocates that
    block when a key line does not fit in its first half.  A run has
    the key buffer in place when it reaches the record loop and ends
    without [readline] having reallocated [kbuf]: every key line it
    read fitted. *)
Definition kbuf_in_place `{H : MdbxH} `{P : Platform} `{E : Engine}
    (c : cmdline) (input : bytes) (breaks : list bool) (e : engine_state)
  : bool :=
  w_k0_live (final_world (run c input breaks e)).

(** * Properties *)

(** ** unhex *)

Lemma isxdigit_enum c : isxdigit c = true -> In c xdigits.
Proof.
  unfold isxdigit, xdigits. intros H.
  assert (48 <= c <= 57 \/ 65 <= c <= 70 \/ 97 <= c <= 102) as Hc by lia.
  simpl.
  assert (c = 48 \/ c = 49 \/ c = 50 \/ c = 51 \/ c = 52 \/ c = 53 \/ c = 54
          \/ c = 55 \/ c = 56 \/ c = 57 \/ c = 65 \/ c = 66 \/ c = 67 \/ c = 68
          \/ c = 69 \/ c = 70 \/ c = 97 \/ c = 98 \/ c = 99 \/ c = 100
          \/ c = 101 \/ c = 102) by lia.
  intuition.
Qed.

Lemma isxdigit_byte c : isxdigit c = true -> is_byte c.
Proof. unfold isxdigit, is_byte. lia. Qed.

Lemma unhex_pair_table :
  forallb (fun a => forallb (unhex_pair_ok a) xdigits) xdigits = true.
Proof. vm_compute. reflexivity. Qed.

Lemma unhex_pair_spec a b :
  isxdigit a = true -> isxdigit b = true -> unhex_pair_ok a b = true.
Proof.
  intros Ha%isxdigit_enum Hb%isxdigit_enum.
  pose proof unhex_pair_table as T.
  rewrite forallb_forall in T. specialize (T a Ha).
  rewrite forallb_forall in T. exact (T b Hb).
Qed.

Lemma unhex_only_two a b rest : unhex (a :: b :: rest) = unhex [a; b].
Proof. reflexivity. Qed.

(** ** The C library model *)

Lemma peek_lookup (l : bytes) (i : nat) : peek l i = default 0 (l !! i).
Proof. unfold peek. apply nth_lookup. Qed.

Lemma peek_app_r (a b : bytes) (i : nat) :
  peek (a ++ b) (length a + i) = peek b i.
Proof. rewrite !peek_lookup, lookup_app_r by lia. f_equal. f_equal. lia. Qed.

Lemma peek_app_l (a b : bytes) (i : nat) :
  (i < length a)%nat -> peek (a ++ b) i = peek a i.
Proof. intros. rewrite !peek_lookup, lookup_app_l by lia. done. Qed.

Lemma peek_drop (l : bytes) (n i : nat) : peek (drop n l) i = peek l (n + i).
Proof. rewrite !peek_lookup, lookup_drop. done. Qed.

Definition no_byte (c : Z) (l : bytes) : Prop := Forall (fun x => x <> c) l.

Lemma strlen_app (a b : bytes) :
  no_byte 0 a -> strlen (a ++ 0 :: b) = length a.
Proof.
  induction 1 as [|x a Hx _ IH]; simpl; [done|].
  destruct (Z.eqb_spec x 0); [done|]. by rewrite IH.
Qed.

Lemma read_line_whole (n : nat) (body rest : bytes) :
  no_byte 10 body -> (length body < n)%nat ->
  read_line n (body ++ 10 :: rest) = (body ++ [10], rest).
Proof.
  intros Hb. revert n. induction Hb as [|x body Hx _ IH]; intros n Hn.
  - destruct n; [simpl in Hn; lia|]. reflexivity.
  - destruct n; [simpl in Hn; lia|]. simpl.
    destruct (Z.eqb_spec x 10); [done|].
    rewrite IH by (simpl in Hn; lia). done.
Qed.

Lemma read_line_part (n : nat) (body rest : bytes) :
  no_byte 10 body -> (n <= length body)%nat ->
  read_line n (body ++ rest) = (take n body, drop n body ++ rest).
Proof.
  intros Hb. revert n. induction Hb as [|x body Hx _ IH]; intros n Hn.
  - simpl in Hn. assert (n = 0%nat) as -> by lia. by destruct rest.
  - destruct n; [done|]. simpl.
    destruct (Z.eqb_spec x 10); [done|].
    rewrite IH by (simpl in Hn; lia). done.
Qed.

Lemma write_at_length (buf : bytes) (off : nat) (data : bytes) :
  (off + length data <= length buf)%nat ->
  length (write_at buf off data) = length buf.
Proof.
  intros. unfold write_at.
  rewrite !length_app, length_take, length_drop. lia.
Qed.

Lemma write_at_take_l (buf : bytes) (off : nat) (data : bytes) :
  (off <= length buf)%nat -> take off (write_at buf off data) = take off buf.
Proof.
  intros. unfold write_at. rewrite take_app_le by (rewrite length_take; lia).
  rewrite take_take. f_equal. lia.
Qed.

Lemma write_at_drop (buf : bytes) (off : nat) (data : bytes) :
  (off <= length buf)%nat ->
  drop off (write_at buf off data) = data ++ drop (off + length data) buf.
Proof.
  intros. unfold write_at. rewrite drop_app_length'; [done|].
  rewrite length_take. lia.
Qed.

Lemma take_drop_split (l : bytes) (a b : nat) :
  take (a + b) l = take a l ++ take b (drop a l).
Proof. by rewrite take_take_drop. Qed.

Lemma write_at_take (buf : bytes) (off : nat) (data : bytes) :
  (off <= length buf)%nat ->
  take (off + length data) (write_at buf off data) = take off buf ++ data.
Proof.
  intros. rewrite take_drop_split, write_at_take_l, write_at_drop by done.
  by rewrite take_app_length.
Qed.

Section ReaderFacts.
Context `{H : MdbxH} `{P : Platform} `{E : Engine}.

Lemma get_set_buf s v w : get_buf s (set_buf s v w) = v.
Proof. by destruct s. Qed.

Definition same_log (w w' : world) : Prop :=
  w_mode w' = w_mode w /\ w_lineno w' = w_lineno w /\
  w_Eof w' = w_Eof w /\ w_out w' = w_out w /\ w_dbi_flags w' = w_dbi_flags w
  /\ w_engine w' = w_engine w.

Lemma same_log_refl w : same_log w w.
Proof. by repeat split. Qed.

Lemma same_log_trans w1 w2 w3 : same_log w1 w2 -> same_log w2 w3 -> same_log w1 w3.
Proof. unfold same_log. intuition congruence. Qed.

Lemma same_log_set_buf s v w : same_log w (set_buf s v w).
Proof. by destruct s. Qed.

Lemma grow_length (blk : bytes) (n : nat) :
  length (grow blk n) = max (length blk) n.
Proof. unfold grow, fresh. rewrite length_app, length_map, length_seq. lia. Qed.

Lemma grow_take (blk : bytes) (n k : nat) :
  (k <= length blk)%nat -> take k (grow blk n) = take k blk.
Proof. intros. unfold grow. by rewrite take_app_le. Qed.

Lemma no_byte_take c (l : bytes) n : no_byte c l -> no_byte c (take n l).
Proof. apply Forall_take. Qed.
Lemma no_byte_drop c (l : bytes) n : no_byte c l -> no_byte c (drop n l).
Proof. apply Forall_drop. Qed.

Lemma grow_line_spec (s : bufsel) (p rest : bytes) :
  (forall n, realloc_ok n = true) ->
  no_byte 0 p -> no_byte 10 p ->
  Z.of_nat (length p) + 2 <= INT_MAX ->
  forall fuel off len w,
    let n := (off + len)%nat in
    let b := get_buf s w in
    (1 <= len)%nat -> (n <= length p + 1)%nat ->
    take n (iov_base b) = take n (p ++ [10]) ->
    w_stdin w = drop n (p ++ [10]) ++ rest ->
    2 <= iov_len b -> Z.of_nat n <= iov_len b - 1 ->
    ((n < length p + 1)%nat -> Z.of_nat n = iov_len b - 1) ->
    iov_len b <= Z.of_nat (length (iov_base b)) ->
    (length p + 1 - n < fuel)%nat ->
    exists w',
      grow_line fuel s off len w = Ret (Some (length p + 1)%nat) w' /\
      take (length p + 1) (iov_base (get_buf s w')) = p ++ [10] /\
      (length p + 1 < length (iov_base (get_buf s w')))%nat /\
      w_stdin w' = rest /\ same_log w w'.
Proof.
  intros Hre Hp0 Hp10 Hint fuel.
  induction fuel as [|fuel IH]; intros off len w n b Hlen Hn Hbase Hin HL2 HnL Hfull Hblk Hfuel.
  - lia.
  - destruct len as [|i]; [lia|].
    cbn [grow_line]. unfold bind at 1, get at 1.
    fold b.
    assert (length (iov_base b) > off + i)%nat as Hlt by lia.
    assert (peek (iov_base b) (off + i) = peek (p ++ [10]) (off + i)) as Hpk.
    { rewrite !peek_lookup. f_equal.
      rewrite <- (lookup_take_lt (iov_base b) n) by (subst n; lia).
      rewrite <- (lookup_take_lt (p ++ [10]) n) by (subst n; lia).
      by rewrite Hbase. }
    rewrite Hpk.
    destruct (decide (n = length p + 1)%nat) as [Hc|Hc].
    + (* the line is complete *)
      replace (off + i)%nat with (length p + 0)%nat by lia.
      rewrite peek_app_r. cbn [peek nth]. rewrite Z.eqb_refl.
      exists w. unfold ret. split; [f_equal; f_equal; lia|].
      split; [|split; [|split; [|apply same_log_refl]]].
      * fold b. subst n. rewrite <- Hc, Hbase, Hc.
        rewrite take_ge; [done|]. rewrite length_app. simpl. lia.
      * fold b. lia.
      * rewrite Hin. subst n. rewrite Hc. rewrite drop_ge; [done|].
        rewrite length_app; simpl; lia.
    + (* more to read *)
      assert (n < length p + 1)%nat as Hinc by lia.
      specialize (Hfull Hinc).
      rewrite peek_app_l by lia.
      assert (peek p (off + i) <> 10) as Hne.
      { rewrite peek_lookup. destruct (p !! (off + i)%nat) as [x|] eqn:Hx.
        - simpl. eapply Forall_lookup_1 in Hp10; eauto.
        - apply lookup_ge_None in Hx. lia. }
      destruct (Z.eqb_spec (peek p (off + i)) 10) as [|_]; [done|].
      unfold bind at 1. unfold buf_realloc at 1. fold b. rewrite Hre.
      set (w1 := set_buf s _ _).
      assert (get_buf s w1 = {| iov_base := grow (iov_base b) (Z.to_nat (iov_len b * 2)); iov_len := iov_len b |}) as Hb1.
      { subst w1. apply get_set_buf. }
      unfold bind at 1, get at 1. rewrite Hb1. cbn [iov_len iov_base].
      unfold bind at 1, fgets at 1.
      assert ((iov_len b + 1 <? 2) || (INT_MAX <? iov_len b + 1) = false) as ->.
      { apply orb_false_iff. split; [apply Z.ltb_ge; lia|apply Z.ltb_ge]. subst n. lia. }
      replace (iov_len b + 1 - 1) with (iov_len b) by lia.
      assert (w_stdin w1 = drop n p ++ 10 :: rest) as Hin1.
      { subst w1. destruct s; cbn; rewrite Hin, drop_app_le by lia; by rewrite <- app_assoc. }
      rewrite Hin1.
      set (L := Z.to_nat (iov_len b)).
      assert (exists chunk rest', read_line L (drop n p ++ 10 :: rest) = (chunk, rest')
                /\ (1 <= length chunk <= L)%nat /\ no_byte 0 chunk
                /\ chunk = take (length chunk) (drop n (p ++ [10]))
                /\ rest' = drop (n + length chunk) (p ++ [10]) ++ rest
                /\ ((n + length chunk < length p + 1)%nat -> length chunk = L)) as (chunk & rest' & Hrl & Hcl & Hc0 & Hck & Hr' & HcL).
      { destruct (decide (length (drop n p) < L)%nat) as [Hs|Hs].
        - exists (drop n p ++ [10]), rest. rewrite read_line_whole by (auto using no_byte_drop).
          rewrite length_app, length_drop in *. simpl.
          split; [done|]. split; [lia|]. split.
          { apply Forall_app. split; [by apply no_byte_drop|]. by repeat constructor. }
          split.
          { rewrite drop_app_le by lia. rewrite take_ge; [done|]. rewrite length_app, length_drop. simpl. lia. }
          split.
          { rewrite drop_ge; [done|]. rewrite length_app. simpl. lia. }
          lia.
        - exists (take L (drop n p)), (drop L (drop n p) ++ 10 :: rest).
          rewrite (read_line_part L (drop n p) (10 :: rest)) by (auto using no_byte_drop; lia).
          rewrite length_take, length_drop in *.
          assert (2 <= L)%nat by (subst L; lia).
          split; [done|]. split; [lia|]. split; [by apply no_byte_take, no_byte_drop|].
          split.
          { rewrite drop_app_le by lia. rewrite take_app_le by (rewrite length_drop; lia).
            f_equal. lia. }
          split.
          { rewrite drop_drop. rewrite drop_app_le by lia.
            rewrite <- app_assoc. simpl. do 2 f_equal. lia. }
          lia. }
      rewrite Hrl.
      destruct chunk as [|c0 chunk']; [simpl in Hcl; lia|].
      set (chunk := c0 :: chunk') in *.
      rewrite Hb1. cbn [iov_base iov_len].
      assert (length (grow (iov_base b) (Z.to_nat (iov_len b * 2))) >= 2 * L)%nat as Hgl.
      { rewrite grow_length. subst L. lia. }
      assert (Z.to_nat (Z.of_nat n) = n) as Hnn by lia.
      assert (n + 1 = L)%nat as HnL' by (subst L; lia).
      destruct (Nat.ltb_spec (length (grow (iov_base b) (Z.to_nat (iov_len b * 2)))) (off + S i + length chunk + 1)) as [Hbad|_].
      { exfalso. subst n. lia. }
      set (blk := write_at _ _ _).
      set (w2 := set_stdin rest' _).
      unfold bind at 1, buf_double_len at 1, modify at 1.
      set (w3 := set_buf s _ w2).
      assert (get_buf s w3 = {| iov_base := blk; iov_len := iov_len b * 2 |}) as Hb3.
      { subst w3. rewrite get_set_buf. subst w2. destruct s; reflexivity. }
      unfold bind at 1, get at 1. rewrite Hb3. cbn [iov_base iov_len].
      assert (drop (off + S i) blk = chunk ++ 0 :: drop (off + S i + length (chunk ++ [0])) (grow (iov_base b) (Z.to_nat (iov_len b * 2)))) as Hdrop.
      { subst blk. rewrite write_at_drop by lia. by rewrite <- app_assoc. }
      rewrite Hdrop, strlen_app by done.
      assert (length blk = length (grow (iov_base b) (Z.to_nat (iov_len b * 2)))) as Hblen.
      { subst blk. apply write_at_length. rewrite length_app. change (length [0]) with 1%nat. subst n. lia. }
      destruct (IH (off + S i)%nat (length chunk) w3) as (w' & Hrun & Htk & Hlen' & Hst & Hlog).
      * lia.
      * destruct (decide (n + length chunk <= length p + 1)%nat); [done|].
        exfalso. assert (length chunk <= length (drop n (p ++ [10%Z])))%nat.
        { rewrite Hck at 1. rewrite length_take. lia. }
        rewrite length_drop, length_app in *. simpl in *. subst n. lia.
      * rewrite Hb3. cbn [iov_base].
        rewrite take_drop_split. subst blk. rewrite write_at_take_l, write_at_drop by lia.
        rewrite grow_take by lia. fold n. fold b. rewrite Hbase.
        rewrite (take_drop_split (p ++ [10])). f_equal.
        rewrite <- app_assoc, take_app_length. done.
      * subst w3 w2. destruct s; cbn; by rewrite Hr'.
      * rewrite Hb3. cbn [iov_len iov_base]. lia.
      * rewrite Hb3. cbn [iov_len iov_base]. subst n. lia.
      * rewrite Hb3. cbn [iov_len iov_base]. intros Hmore. specialize (HcL Hmore). subst n. lia.
      * rewrite Hb3. cbn [iov_len iov_base]. lia.
      * lia.
      * exists w'. rewrite Hrun. split; [done|]. split; [done|]. split; [done|]. split; [done|].
        eapply same_log_trans; [|exact Hlog].
        subst w3 w2 w1. destruct s; by repeat split.
Qed.

End ReaderFacts.

(** ** The bytevalue decoder *)

Lemma unhex_digits a b :
  isxdigit a = true -> isxdigit b = true ->
  unhex [a; b] = 16 * hex_digit_value a + hex_digit_value b /\
  unhex [a; b] mod 256 = unhex [a; b].
Proof.
  intros Ha Hb. pose proof (unhex_pair_spec a b Ha Hb) as T.
  unfold unhex_pair_ok in T. rewrite !andb_true_iff in T.
  destruct T as [[[[T1 _] _] T4] T5].
  apply Z.eqb_eq in T1. apply Z.leb_le in T4. apply Z.ltb_lt in T5.
  split; [done|]. apply Z.mod_small. lia.
Qed.

Lemma take_S_insert (l : bytes) (i : nat) (v : Z) :
  (i < length l)%nat -> take (S i) (<[i := v]> l) = take i l ++ [v].
Proof.
  intros Hi. rewrite (take_S_r _ _ v) by (by apply list_lookup_insert_eq).
  rewrite take_insert. by destruct (decide (i < i)%nat); [lia|].
Qed.

Lemma decode_hex_accept (k : nat) :
  forall (ds pre post : bytes) (c1 fuel : nat),
    length ds = (2 * k)%nat -> forallb isxdigit ds = true ->
    (c1 <= length pre)%nat -> (k <= fuel)%nat ->
    exists base',
      decode_hex fuel (pre ++ ds ++ post) c1 (length pre) (length pre + 2 * k)
      = Decoded base' (c1 + k) /\
      take (c1 + k) base' = take c1 pre ++ hex_pairs ds /\
      length base' = length (pre ++ ds ++ post).
Proof.
  induction k as [|k IH]; intros ds pre post c1 fuel Hlen Hx Hc1 Hfuel.
  - destruct ds; [|done]. exists (pre ++ post).
    replace (decode_hex fuel (pre ++ [] ++ post) c1 (length pre) (length pre + 2 * 0))
      with (Decoded (pre ++ post) c1).
    2:{ destruct fuel; simpl; by rewrite Nat.add_0_r, Nat.ltb_irrefl. }
    split; [f_equal; lia|]. split; [|done].
    rewrite Nat.add_0_r, take_app_le by done. simpl. by rewrite app_nil_r.
  - destruct ds as [|a [|b ds]]; [done|simpl in Hlen; lia|].
    destruct fuel as [|fuel]; [lia|].
    simpl in Hx. apply andb_true_iff in Hx as [Ha Hx]. apply andb_true_iff in Hx as [Hb Hx].
    cbn [decode_hex].
    destruct (Nat.ltb_spec (length pre) (length pre + 2 * S k)) as [_|]; [|lia].
    replace (peek (pre ++ (a :: b :: ds) ++ post) (length pre)) with a.
    2:{ rewrite <- (Nat.add_0_r (length pre)) at 1. by rewrite peek_app_r. }
    replace (peek (pre ++ (a :: b :: ds) ++ post) (length pre + 1)) with b.
    2:{ by rewrite peek_app_r. }
    rewrite Ha, Hb. cbn [negb orb].
    rewrite drop_app_length. cbn [app]. rewrite unhex_only_two.
    destruct (unhex_digits a b Ha Hb) as [_ ->].
    replace (pre ++ a :: b :: ds ++ post) with ((pre ++ [a; b]) ++ ds ++ post)
      by (by rewrite <- app_assoc).
    rewrite insert_app_l by (rewrite length_app; simpl; lia).
    set (pre' := <[c1 := unhex [a; b]]> (pre ++ [a; b])).
    assert (length pre' = (length pre + 2)%nat) as Hpl.
    { subst pre'. rewrite length_insert, length_app. done. }
    destruct (IH ds pre' post (S c1) fuel) as (base' & Hrun & Htk & Hl).
    + simpl in Hlen. lia.
    + done.
    + lia.
    + lia.
    + exists base'. rewrite Hpl in Hrun.
      replace (length pre + 2 * S k)%nat with (length pre + 2 + 2 * k)%nat by lia.
      rewrite Hrun. split; [f_equal; lia|]. split.
      * replace (c1 + S k)%nat with (S c1 + k)%nat by lia. rewrite Htk.
        subst pre'. rewrite take_S_insert by (rewrite length_app; simpl; lia).
        rewrite take_app_le by done. by rewrite <- app_assoc.
      * rewrite Hl, !length_app, Hpl. simpl. lia.
Qed.

Lemma decode_hex_reject (k : nat) :
  forall (ds pre post : bytes) (c1 fuel : nat),
    length ds = (2 * k)%nat -> forallb isxdigit ds = false ->
    (c1 <= length pre)%nat -> (k <= fuel)%nat ->
    exists base',
      decode_hex fuel (pre ++ ds ++ post) c1 (length pre) (length pre + 2 * k)
      = Rejected base'.
Proof.
  induction k as [|k IH]; intros ds pre post c1 fuel Hlen Hx Hc1 Hfuel.
  - by destruct ds.
  - destruct ds as [|a [|b ds]]; [done|simpl in Hlen; lia|].
    destruct fuel as [|fuel]; [lia|].
    cbn [decode_hex].
    destruct (Nat.ltb_spec (length pre) (length pre + 2 * S k)) as [_|]; [|lia].
    replace (peek (pre ++ (a :: b :: ds) ++ post) (length pre)) with a.
    2:{ rewrite <- (Nat.add_0_r (length pre)) at 1. by rewrite peek_app_r. }
    replace (peek (pre ++ (a :: b :: ds) ++ post) (length pre + 1)) with b.
    2:{ by rewrite peek_app_r. }
    destruct (isxdigit a) eqn:Ha; [|by eexists].
    destruct (isxdigit b) eqn:Hb; [|by eexists].
    cbn [negb orb]. simpl in Hx. rewrite Ha, Hb in Hx. simpl in Hx.
    replace (pre ++ (a :: b :: ds) ++ post) with ((pre ++ [a; b]) ++ ds ++ post)
      by (by rewrite <- app_assoc).
    rewrite insert_app_l by (rewrite length_app; simpl; lia).
    set (pre' := <[c1 := _]> (pre ++ [a; b])).
    assert (length pre' = (length pre + 2)%nat) as Hpl.
    { subst pre'. rewrite length_insert, length_app. done. }
    destruct (IH ds pre' post (S c1) fuel) as (base' & Hrun).
    + simpl in Hlen. lia.
    + done.
    + lia.
    + lia.
    + exists base'. rewrite Hpl in Hrun.
      replace (length pre + 2 * S k)%nat with (length pre + 2 + 2 * k)%nat by lia.
      done.
Qed.

Lemma hex_pairs_length (ds : bytes) (k : nat) :
  length ds = (2 * k)%nat -> length (hex_pairs ds) = k.
Proof.
  revert ds. induction k as [|k IH]; intros ds Hl.
  - by destruct ds.
  - destruct ds as [|a [|b ds]]; [done|simpl in Hl; lia|].
    simpl. f_equal. apply IH. simpl in Hl. lia.
Qed.

Lemma hex_pairs_lookup (ds : bytes) (i : nat) (a b : Z) :
  ds !! (2 * i)%nat = Some a -> ds !! (2 * i + 1)%nat = Some b ->
  hex_pairs ds !! i = Some (unhex [a; b]).
Proof.
  revert ds. induction i as [|i IH]; intros ds Ha Hb.
  - destruct ds as [|a' [|b' ds]]; simplify_eq/=. done.
  - destruct ds as [|a' [|b' ds]]; [done|done|].
    replace (2 * S i)%nat with (S (S (2 * i))) in Ha by lia.
    replace (2 * S i + 1)%nat with (S (S (2 * i + 1))) in Hb by lia.
    simpl in *. by apply IH.
Qed.

(** ** readline in bytevalue mode *)

Section ReadlineHex.
Context `{H : MdbxH} `{P : Platform} `{E : Engine}.

Lemma fgets_reads (s : bufsel) (off : nat) (size : Z) (w : world)
    (chunk rest' : bytes) :
  2 <= size <= INT_MAX ->
  read_line (Z.to_nat (size - 1)) (w_stdin w) = (chunk, rest') ->
  chunk <> [] ->
  (off + length chunk + 1 <= length (iov_base (get_buf s w)))%nat ->
  fgets s off size w =
  Ret true
    (set_stdin rest'
       (set_buf s {| iov_base := write_at (iov_base (get_buf s w)) off (chunk ++ [0]);
                     iov_len := iov_len (get_buf s w) |} w)).
Proof.
  intros Hsz Hrl Hne Hfit. unfold fgets.
  assert ((size <? 2) || (INT_MAX <? size) = false) as ->.
  { apply orb_false_iff. split; apply Z.ltb_ge; lia. }
  rewrite Hrl. destruct chunk; [done|].
  destruct (Nat.ltb_spec (length (iov_base (get_buf s w))) (off + length (z :: chunk) + 1)); [lia|done].
Qed.

Lemma bind_run {A B} (m : M A) (k : A -> M B) w a w' :
  m w = Ret a w' -> bind m k w = k a w'.
Proof. unfold bind. by intros ->. Qed.

Lemma bind_get {A B} (f : world -> A) (k : A -> M B) w :
  bind (get f) k w = k (f w) w.
Proof. done. Qed.

Lemma bind_modify {B} (f : world -> world) (k : unit -> M B) w :
  bind (modify f) k w = k tt (f w).
Proof. done. Qed.

Lemma bind_ret {A B} (a : A) (k : A -> M B) w : bind (ret a) k w = k a w.
Proof. done. Qed.

Lemma bind_emit {B} (e : event) (k : unit -> M B) w :
  bind (emit e) k w = k tt (set_out (w_out w ++ [e]) w).
Proof. done. Qed.

Lemma take_snoc_inv (l p : bytes) (c : Z) :
  take (length p + 1) l = p ++ [c] -> take (length p) l = p.
Proof.
  intros Ht. apply (f_equal (take (length p))) in Ht.
  rewrite take_take, take_app_length in Ht.
  by replace (length p `min` (length p + 1))%nat with (length p) in Ht by lia.
Qed.

(** In bytevalue mode a line of the form " payload\n" is read whole,
    however long, and decoded pair by pair, or refused. *)
Lemma readline_hex_line (s : bufsel) (w : world) (p rest : bytes) :
  Z.land (w_mode w) NOHDR = 0 -> Z.land (w_mode w) PRINT = 0 ->
  w_stdin w = 32 :: p ++ 10 :: rest ->
  no_byte 0 p -> no_byte 10 p ->
  (forall n, realloc_ok n = true) ->
  Z.of_nat (length p) + 2 <= INT_MAX ->
  2 <= iov_len (get_buf s w) <= INT_MAX ->
  iov_len (get_buf s w) <= Z.of_nat (length (iov_base (get_buf s w))) ->
  exists w',
    w_stdin w' = rest /\ w_lineno w' = w_lineno w + 1 /\
    if Nat.even (length p) && forallb isxdigit p then
      exists out,
        readline s w = Ret (Some out) w' /\
        val_bytes out = hex_pairs p /\
        w_Eof w' = w_Eof w /\ w_out w' = w_out w
    else
      readline s w = Ret None w' /\ w_Eof w' = true /\
      w_out w' = w_out w ++ [Stderr (MsgUnexpectedEnd (w_lineno w + 1))].
Proof.
  intros Hnohdr Hprint Hin Hp0 Hp10 Hre Hint HL Hblk.
  unfold readline. rewrite bind_get, Hnohdr. cbn [Z.eqb].
  (* the leading blank *)
  set (w0 := set_stdin (p ++ 10 :: rest) w).
  assert (readline_lead s w = Ret false w0) as Hlead.
  { unfold readline_lead. erewrite bind_run; [|by unfold fgetc; rewrite Hin]. done. }
  erewrite bind_run by exact Hlead. cbn iota.
  rewrite bind_get.
  assert (get_buf s w0 = get_buf s w) as Hb0 by (by destruct s).
  rewrite Hb0.
  set (b := get_buf s w) in *. set (L := iov_len b) in *.
  (* the first fgets *)
  assert (exists chunk rest', read_line (Z.to_nat (L - 1)) (w_stdin w0) = (chunk, rest')
            /\ (1 <= length chunk)%nat /\ Z.of_nat (length chunk) <= L - 1
            /\ no_byte 0 chunk
            /\ chunk = take (length chunk) (p ++ [10])
            /\ rest' = drop (length chunk) (p ++ [10]) ++ rest
            /\ ((length chunk < length p + 1)%nat -> Z.of_nat (length chunk) = L - 1))
    as (chunk & rest' & Hrl & Hc1 & HcL & Hc0 & Hck & Hr' & Hfull).
  { subst w0. cbn [w_stdin set_stdin].
    destruct (decide (length p < Z.to_nat (L - 1))%nat) as [Hs|Hs].
    - exists (p ++ [10]), rest. rewrite read_line_whole by done.
      rewrite length_app. change (length [10]) with 1%nat.
      split; [done|]. split; [lia|]. split; [lia|]. split.
      { apply Forall_app. split; [done|]. by repeat constructor. }
      split; [rewrite take_ge; [done|rewrite length_app; simpl; lia]|].
      split; [rewrite drop_ge; [done|rewrite length_app; simpl; lia]|]. lia.
    - exists (take (Z.to_nat (L - 1)) p), (drop (Z.to_nat (L - 1)) p ++ 10 :: rest).
      rewrite (read_line_part _ p (10 :: rest)) by (done || lia).
      rewrite length_take.
      replace (Z.to_nat (L - 1) `min` length p)%nat with (Z.to_nat (L - 1)) by lia.
      split; [done|]. split; [lia|]. split; [lia|].
      split; [by apply no_byte_take|].
      split; [by rewrite take_app_le by lia|].
      split; [rewrite drop_app_le by lia; by rewrite <- app_assoc|]. lia. }
  erewrite bind_run.
  2:{ apply (fgets_reads s 0 L w0 chunk rest'); [lia|done| |].
      - intros ->. simpl in Hc1. lia.
      - rewrite Hb0. fold b. lia. }
  cbn [negb]. cbn iota.
  rewrite bind_modify, bind_get.
  set (w1 := set_lineno _ _).
  assert (get_buf s w1 = {| iov_base := write_at (iov_base b) 0 (chunk ++ [0]); iov_len := L |}) as Hb1.
  { subst w1 w0 b L. destruct s; reflexivity. }
  rewrite Hb1. cbn [iov_base]. rewrite bind_get.
  assert (write_at (iov_base b) 0 (chunk ++ [0]) = chunk ++ 0 :: drop (length chunk + 1) (iov_base b)) as Hw.
  { unfold write_at. rewrite take_0, length_app. cbn [app length]. by rewrite <- app_assoc. }
  rewrite Hw, strlen_app by done.
  destruct (grow_line_spec s p rest Hre Hp0 Hp10 Hint (S (length (w_stdin w1))) 0%nat (length chunk) w1)
    as (w2 & Hrun & Htk & Hlen2 & Hst2 & Hlog2).
  { done. }
  { cbn [Nat.add]. rewrite Hck, length_take, length_app. cbn [length]. lia. }
  { cbn [Nat.add]. rewrite Hb1. cbn [iov_base]. rewrite Hw.
    rewrite take_app_length. done. }
  { cbn [Nat.add]. subst w1 w0. destruct s; cbn; by rewrite Hr'. }
  { rewrite Hb1. cbn [iov_len]. lia. }
  { rewrite Hb1. cbn [iov_len Nat.add]. lia. }
  { rewrite Hb1. cbn [iov_len Nat.add]. done. }
  { rewrite Hb1. cbn [iov_len iov_base].
    rewrite write_at_length; [lia|]. rewrite length_app. cbn [length]. lia. }
  { cbn [Nat.add]. assert (w_stdin w1 = rest') as -> by (subst w1 w0; by destruct s).
    rewrite Hr', length_app, length_drop, length_app. cbn [length]. lia. }
  erewrite bind_run by exact Hrun. cbn iota.
  replace (length p + 1 - 1)%nat with (length p) by lia.
  unfold buf_poke. rewrite bind_modify, bind_get.
  set (w3 := set_buf s _ w2).
  set (base2 := iov_base (get_buf s w2)) in *.
  assert (get_buf s w3 = {| iov_base := <[length p := 0]> base2; iov_len := iov_len (get_buf s w2) |}) as Hb3.
  { subst w3. apply get_set_buf. }
  rewrite Hb3. cbn [iov_base]. rewrite Hprint. cbn [Z.eqb].
  assert (<[length p := 0]> base2 = [] ++ p ++ 0 :: drop (S (length p)) base2) as Hsplit.
  { rewrite insert_take_drop by lia. cbn [app]. f_equal.
    by apply take_snoc_inv with (c := 10). }
  assert (same_log w1 w3) as Hl13.
  { eapply same_log_trans; [exact Hlog2|]. subst w3. apply same_log_set_buf. }
  assert (w_lineno w3 = w_lineno w + 1 /\ w_Eof w3 = w_Eof w /\ w_out w3 = w_out w)
    as (Hln3 & HEof3 & Hout3).
  { destruct Hl13 as (_ & -> & -> & -> & _). subst w1 w0. by destruct s. }
  assert (w_stdin w3 = rest) as Hst3 by (subst w3; destruct s; exact Hst2).
  rewrite <- Nat.negb_even.
  destruct (Nat.even (length p)) eqn:Hev; cbn [negb andb].
  - apply Nat.even_spec in Hev as [k Hk].
    destruct (forallb isxdigit p) eqn:Hx.
    + destruct (decode_hex_accept k p [] (0 :: drop (S (length p)) base2) 0 (length p) Hk Hx)
        as (base' & Hdec & Htk' & Hl'); [simpl; lia|lia|].
      cbn [length Nat.add] in Hdec. rewrite <- Hk in Hdec.
      rewrite Hsplit, Hdec. rewrite bind_modify.
      exists (set_buf s {| iov_base := base'; iov_len := iov_len (get_buf s w3) |} w3).
      split; [by destruct s|]. split; [by destruct s|].
      eexists. unfold ret. split; [reflexivity|].
      split.
      { unfold val_bytes. cbn [iov_len iov_base]. rewrite Nat2Z.id.
        cbn [Nat.add take app] in Htk'. done. }
      split; by destruct s.
    + destruct (decode_hex_reject k p [] (0 :: drop (S (length p)) base2) 0 (length p) Hk Hx)
        as (base' & Hdec); [simpl; lia|lia|].
      cbn [length Nat.add] in Hdec. rewrite <- Hk in Hdec.
      rewrite Hsplit, Hdec. rewrite !bind_modify.
      unfold badend. rewrite bind_run with (a := tt) (w' := set_out (w_out w3 ++ [Stderr (MsgUnexpectedEnd (w_lineno w3))]) (set_Eof true (set_buf s {| iov_base := base'; iov_len := iov_len (get_buf s w3) |} w3))).
      2:{ rewrite bind_get. destruct s; reflexivity. }
      eexists. split; [|split]; [| |split; [reflexivity|]].
      * by destruct s.
      * by destruct s.
      * split; [by destruct s|]. by rewrite <- Hln3, <- Hout3.
  - rewrite !bind_modify.
    unfold badend. rewrite bind_run with (a := tt) (w' := set_out (w_out w3 ++ [Stderr (MsgUnexpectedEnd (w_lineno w3))]) (set_Eof true (set_buf s {| iov_base := <[length p:=0]> base2; iov_len := iov_len (get_buf s w3) |} w3))).
    2:{ rewrite bind_get. destruct s; reflexivity. }
    eexists. split; [|split]; [| |split; [reflexivity|]].
    * by destruct s.
    * by destruct s.
    * split; [by destruct s|]. by rewrite <- Hln3, <- Hout3.
Qed.

End ReadlineHex.

(** ** A program logic for the tool *)

Section Logic.
Context `{E : Engine}.

(** [hoare Pre m Post Stop]: from a state in [Pre], [m] returns into
    [Post] or stops (by [exit] or outside the model) in [Stop]. *)
Definition hoare {A} (Pre : world -> Prop) (m : M A)
    (Post : A -> world -> Prop) (Stop : world -> Prop) : Prop :=
  forall w, Pre w ->
    match m w with
    | Ret a w' => Post a w'
    | Exit _ w' => Stop w'
    | Fault _ w' => Stop w'
    end.

Lemma hoare_bind {A B} Pre (m : M A) Mid (k : A -> M B) Post Stop :
  hoare Pre m Mid Stop ->
  (forall a, hoare (Mid a) (k a) Post Stop) ->
  hoare Pre (bind m k) Post Stop.
Proof.
  intros Hm Hk w Hw. specialize (Hm w Hw). unfold bind.
  destruct (m w) as [a w'| |]; [|done..]. by apply Hk.
Qed.

Lemma hoare_ret {A} (Pre : world -> Prop) (a : A) (Post : A -> world -> Prop) Stop :
  (forall w, Pre w -> Post a w) -> hoare Pre (ret a) Post Stop.
Proof. intros Hp w Hw. by apply Hp. Qed.

Lemma hoare_get {A} (Pre : world -> Prop) (f : world -> A) (Post : A -> world -> Prop) Stop :
  (forall w, Pre w -> Post (f w) w) -> hoare Pre (get f) Post Stop.
Proof. intros Hp w Hw. by apply Hp. Qed.

Lemma hoare_modify (Pre : world -> Prop) (f : world -> world) (Post : unit -> world -> Prop) Stop :
  (forall w, Pre w -> Post tt (f w)) -> hoare Pre (modify f) Post Stop.
Proof. intros Hp w Hw. by apply Hp. Qed.

Lemma hoare_exit {A} (Pre : world -> Prop) (c : Z) (Post : A -> world -> Prop) (Stop : world -> Prop) :
  (forall w, Pre w -> Stop w) -> hoare Pre (exit c) Post Stop.
Proof. intros Hp w Hw. by apply Hp. Qed.

Lemma hoare_crash {A} (Pre : world -> Prop) (f : fault) (Post : A -> world -> Prop) (Stop : world -> Prop) :
  (forall w, Pre w -> Stop w) -> hoare Pre (crash f) Post Stop.
Proof. intros Hp w Hw. by apply Hp. Qed.

Lemma hoare_conseq {A} (Pre Pre' : world -> Prop) (m : M A)
    (Post Post' : A -> world -> Prop) (Stop Stop' : world -> Prop) :
  hoare Pre' m Post' Stop' ->
  (forall w, Pre w -> Pre' w) -> (forall a w, Post' a w -> Post a w) ->
  (forall w, Stop' w -> Stop w) ->
  hoare Pre m Post Stop.
Proof.
  intros Hm H1 H2 H3 w Hw. specialize (Hm w (H1 w Hw)).
  destruct (m w); auto.
Qed.

(** [keeps I m]: [m] keeps the invariant [I], however it ends. *)
Definition keeps {A} (I : world -> Prop) (m : M A) : Prop :=
  hoare I m (fun _ => I) I.

Lemma keeps_final {A} (I : world -> Prop) (m : M A) w :
  keeps I m -> I w -> I (final_world (m w)).
Proof. intros Hm Hw. specialize (Hm w Hw). by destruct (m w). Qed.

Lemma keeps_bind {A B} I (m : M A) (k : A -> M B) :
  keeps I m -> (forall a, keeps I (k a)) -> keeps I (bind m k).
Proof. intros. by eapply hoare_bind. Qed.

Lemma keeps_ret {A} I (a : A) : keeps I (ret a).
Proof. by apply hoare_ret. Qed.

Lemma keeps_get {A} I (f : world -> A) : keeps I (get f).
Proof. by apply hoare_get. Qed.

Lemma keeps_exit {A} I c : keeps I (@exit _ A c).
Proof. by apply hoare_exit. Qed.

Lemma keeps_crash {A} I f : keeps I (@crash _ A f).
Proof. by apply hoare_crash. Qed.

Lemma keeps_modify I (f : world -> world) :
  (forall w, I w -> I (f w)) -> keeps I (modify f).
Proof. intros. by apply hoare_modify. Qed.

End Logic.

(** ** The input side only reads and complains *)

Section InputSide.
Context `{H : MdbxH} `{P : Platform} `{E : Engine}.

(** [w] comes after [w0] by reading input: the engine and the signal
    readings are untouched and only input diagnostics were printed. *)
Definition after_input (w0 w : world) : Prop :=
  w_engine w = w_engine w0 /\ w_user_break w = w_user_break w0 /\
  exists evs, w_out w = w_out w0 ++ evs /\ Forall (fun e => is_input_diag e = true) evs.

(** The same, and the table flags, the table name and the mode stand. *)
Definition after_line (w0 w : world) : Prop :=
  after_input w0 w /\ w_dbi_flags w = w_dbi_flags w0 /\
  w_subname w = w_subname w0 /\ w_mode w = w_mode w0.

Lemma after_input_refl w : after_input w w.
Proof. repeat split. exists []. by rewrite app_nil_r. Qed.

Lemma after_input_trans w0 w1 w2 :
  after_input w0 w1 -> after_input w1 w2 -> after_input w0 w2.
Proof.
  intros (He1 & Hb1 & evs1 & Ho1 & Hf1) (He2 & Hb2 & evs2 & Ho2 & Hf2).
  split; [congruence|]. split; [congruence|].
  exists (evs1 ++ evs2). rewrite Ho2, Ho1, app_assoc. split; [done|].
  by apply Forall_app.
Qed.

Lemma after_line_refl w : after_line w w.
Proof. split; [apply after_input_refl|done]. Qed.

Lemma after_line_trans w0 w1 w2 :
  after_line w0 w1 -> after_line w1 w2 -> after_line w0 w2.
Proof.
  intros (Hi1 & ? & ? & ?) (Hi2 & ? & ? & ?).
  split; [by eapply after_input_trans|]. repeat split; congruence.
Qed.

Lemma after_input_emit w0 w e :
  is_input_diag e = true -> after_input w0 w ->
  after_input w0 (set_out (w_out w ++ [e]) w).
Proof.
  intros He (He1 & Hb1 & evs & Ho & Hf). repeat split; [done..|].
  exists (evs ++ [e]). cbn. rewrite Ho, app_assoc. split; [done|].
  apply Forall_app. split; [done|]. by constructor.
Qed.

Lemma keeps_emit_input w0 e :
  is_input_diag e = true -> keeps (after_input w0) (emit e).
Proof. intros He. apply keeps_modify. intros w. by apply after_input_emit. Qed.

Lemma keeps_emit_line w0 e :
  is_input_diag e = true -> keeps (after_line w0) (emit e).
Proof.
  intros He. apply keeps_modify. intros w (Hi & ? & ? & ?).
  split; [by apply after_input_emit|done].
Qed.

End InputSide.

Ltac keeps_step :=
  lazymatch goal with
  | |- keeps _ (bind _ _) => apply keeps_bind; [|intros ?]
  | |- keeps _ (ret _) => apply keeps_ret
  | |- keeps _ (get _) => apply keeps_get
  | |- keeps _ (exit _) => apply keeps_exit
  | |- keeps _ (crash _) => apply keeps_crash
  | |- keeps _ (fprintf_stderr _) => unfold fprintf_stderr
  | |- keeps _ (match ?x with _ => _ end) => destruct x
  end.

(** A setter that touches neither the engine, the output nor the
    signal readings keeps [after_input]. *)
Ltac keeps_setter :=
  apply keeps_modify;
  let w := fresh "w" in
  intros w;
  first
    [ intros (? & ? & ?); repeat split; done
    | intros ((? & ? & ?) & ? & ? & ?); repeat split; done ].

Section InputSide2.
Context `{H : MdbxH} `{P : Platform} `{E : Engine}.

Lemma fgets_keeps_line s off size w0 : keeps (after_line w0) (fgets s off size).
Proof.
  intros w Hw. unfold fgets.
  destruct ((size <? 2) || (INT_MAX <? size)); [done|].
  destruct (read_line _ _) as [chunk rest]. destruct chunk; [done|].
  destruct (_ <? _)%nat; [done|].
  destruct Hw as ((? & ? & ?) & ? & ? & ?). by destruct s.
Qed.

Lemma after_line_input w0 w : after_line w0 w -> after_input w0 w.
Proof. by intros [? _]. Qed.

Lemma fgets_keeps_input s off size w0 : keeps (after_input w0) (fgets s off size).
Proof.
  intros w Hw. pose proof (fgets_keeps_line s off size w w (after_line_refl w)) as Hk.
  destruct (fgets s off size w); eapply after_input_trans; eauto using after_line_input.
Qed.

Lemma fgetc_keeps_line w0 : keeps (after_line w0) fgetc.
Proof.
  intros w Hw. unfold fgetc. destruct (w_stdin w); [done|].
  by destruct Hw as ((? & ? & ?) & ? & ? & ?).
Qed.

Lemma strip_newline_keeps w0 : keeps (after_input w0) strip_newline.
Proof.
  unfold strip_newline. apply keeps_modify. intros w Hw.
  destruct (dbuf_memchr 10 w); [|done]. by destruct Hw as (? & ? & ?).
Qed.

Lemma readhdr_line_keeps w0 : keeps (after_input w0) readhdr_line.
Proof.
  unfold readhdr_line.
  repeat first
    [ keeps_step
    | apply strip_newline_keeps
    | apply keeps_emit_input; reflexivity
    | keeps_setter ].
Qed.

Lemma readhdr_loop_keeps fuel w0 : keeps (after_input w0) (readhdr_loop fuel).
Proof.
  induction fuel as [|fuel IH]; cbn [readhdr_loop].
  - apply keeps_crash.
  - repeat first
      [ exact IH
      | keeps_step
      | apply fgets_keeps_input
      | apply readhdr_line_keeps
      | keeps_setter ].
Qed.

Lemma readhdr_keeps w0 : keeps (after_input w0) readhdr.
Proof.
  unfold readhdr.
  repeat first [ keeps_step | apply readhdr_loop_keeps | keeps_setter ].
Qed.

Lemma badend_keeps w0 : keeps (after_line w0) badend.
Proof.
  unfold badend. repeat first [ keeps_step | apply keeps_emit_line; reflexivity ].
Qed.

Lemma buf_realloc_keeps s w0 : keeps (after_line w0) (buf_realloc s).
Proof.
  intros w ((? & ? & ?) & ? & ? & ?). unfold buf_realloc.
  destruct (realloc_ok _); by destruct s.
Qed.

Lemma buf_double_len_keeps s w0 : keeps (after_line w0) (buf_double_len s).
Proof.
  apply keeps_modify. intros w ((? & ? & ?) & ? & ? & ?). by destruct s.
Qed.

Lemma buf_poke_keeps s i c w0 : keeps (after_line w0) (buf_poke s i c).
Proof.
  apply keeps_modify. intros w ((? & ? & ?) & ? & ? & ?). by destruct s.
Qed.

Lemma set_buf_keeps s (f : world -> MDBX_val) w0 :
  keeps (after_line w0) (modify (fun w => set_buf s (f w) w)).
Proof.
  apply keeps_modify. intros w ((? & ? & ?) & ? & ? & ?). by destruct s.
Qed.

Lemma grow_line_keeps fuel s w0 :
  forall off len, keeps (after_line w0) (grow_line fuel s off len).
Proof.
  induction fuel as [|fuel IH]; intros off len; destruct len; cbn [grow_line].
  - apply keeps_crash.
  - repeat first [ keeps_step ].
  - apply keeps_crash.
  - repeat first
      [ apply IH
      | keeps_step
      | apply fgets_keeps_line
      | apply buf_realloc_keeps
      | apply buf_double_len_keeps
      | apply badend_keeps
      | apply keeps_emit_line; reflexivity
      | keeps_setter ].
Qed.

Lemma readline_lead_keeps s w0 : keeps (after_line w0) (readline_lead s).
Proof.
  unfold readline_lead.
  repeat first
    [ keeps_step
    | apply fgetc_keeps_line
    | apply fgets_keeps_line
    | apply badend_keeps
    | keeps_setter ].
Qed.

Lemma readline_keeps s w0 : keeps (after_line w0) (readline s).
Proof.
  unfold readline.
  repeat first
    [ keeps_step
    | apply readline_lead_keeps
    | apply fgets_keeps_line
    | apply grow_line_keeps
    | apply buf_poke_keeps
    | apply set_buf_keeps
    | apply badend_keeps
    | keeps_setter ].
Qed.

(** [readline] and [readhdr] never call the engine and print nothing
    but their own diagnostics. *)
Lemma readline_quiet s w : after_line w (final_world (readline s w)).
Proof. apply keeps_final; [apply readline_keeps|apply after_line_refl]. Qed.

Lemma readhdr_quiet w : after_input w (final_world (readhdr w)).
Proof. apply keeps_final; [apply readhdr_keeps|apply after_input_refl]. Qed.

End InputSide2.

(** ** What readline returns lies within its buffer *)

Lemma wf_val_length v : wf_val v -> Z.of_nat (length (val_bytes v)) = iov_len v.
Proof. intros [? ?]. unfold val_bytes. rewrite length_take. lia. Qed.

Lemma decode_hex_bound fuel : forall base c1 c2 e base' c1',
  decode_hex fuel base c1 c2 e = Decoded base' c1' ->
  (c1' <= c1 + (e - c2))%nat /\ length base' = length base.
Proof.
  induction fuel as [|fuel IH]; intros base c1 c2 e base' c1'; cbn [decode_hex].
  - destruct (Nat.ltb_spec c2 e); [done|]. intros [= <- <-]. lia.
  - destruct (Nat.ltb_spec c2 e); [|intros [= <- <-]; lia].
    destruct (_ || _); [done|]. intros Hd. apply IH in Hd as [? Hl].
    rewrite length_insert in Hl. lia.
Qed.

Lemma decode_print_bound fuel : forall base c1 c2 e base' c1',
  decode_print fuel base c1 c2 e = Decoded base' c1' ->
  (c1' <= c1 + (e - c2))%nat /\ length base' = length base.
Proof.
  induction fuel as [|fuel IH]; intros base c1 c2 e base' c1'; cbn [decode_print].
  - destruct (Nat.ltb_spec c2 e); [done|]. intros [= <- <-]. lia.
  - destruct (Nat.ltb_spec c2 e); [|intros [= <- <-]; lia].
    destruct (_ =? 92).
    + destruct (_ =? 92).
      * intros Hd. apply IH in Hd as [? Hl]. rewrite length_insert in Hl. lia.
      * destruct (_ || _); [done|].
        intros Hd. apply IH in Hd as [? Hl]. rewrite length_insert in Hl. lia.
    + intros Hd. apply IH in Hd as [? Hl]. rewrite length_insert in Hl. lia.
Qed.

Section Bounds.
Context `{H : MdbxH} `{P : Platform} `{E : Engine}.

Lemma bind_stop_exit {A B} (m : M A) (k : A -> M B) w c w' :
  m w = Exit c w' -> bind m k w = Exit c w'.
Proof. unfold bind. by intros ->. Qed.

Lemma bind_stop_fault {A B} (m : M A) (k : A -> M B) w f w' :
  m w = Fault f w' -> bind m k w = Fault f w'.
Proof. unfold bind. by intros ->. Qed.

Lemma grow_line_in_bounds fuel s : forall off len w,
  match grow_line fuel s off len w with
  | Ret (Some l2) w' => (1 <= l2 <= length (iov_base (get_buf s w')))%nat
  | _ => True
  end.
Proof.
  induction fuel as [|fuel IH]; intros off len w; destruct len as [|i]; cbn [grow_line]; try done.
  - unfold bind, get.
    destruct (Z.eqb_spec (peek (iov_base (get_buf s w)) (off + i)) 10) as [Hp|]; [|done].
    cbn. unfold peek in Hp.
    destruct (Nat.lt_ge_cases (off + i) (length (iov_base (get_buf s w)))); [lia|].
    rewrite nth_overflow in Hp by lia. done.
  - unfold bind at 1, get at 1.
    destruct (Z.eqb_spec (peek (iov_base (get_buf s w)) (off + i)) 10) as [Hp|].
    { cbn. unfold peek in Hp.
      destruct (Nat.lt_ge_cases (off + i) (length (iov_base (get_buf s w)))); [lia|].
      rewrite nth_overflow in Hp by lia. done. }
    unfold bind at 1. destruct (buf_realloc s w) as [ok w1| |]; [|done..].
    destruct ok; [|done].
    unfold bind at 1, get at 1. unfold bind at 1.
    destruct (fgets s _ _ w1) as [got w2| |]; [|done..].
    destruct got; [|done].
    unfold bind at 1, buf_double_len at 1, modify at 1.
    unfold bind at 1, get at 1. apply IH.
Qed.

Lemma readline_wf s w :
  match readline s w with
  | Ret (Some out) _ => wf_val out
  | _ => True
  end.
Proof.
  unfold readline. rewrite bind_get.
  unfold bind at 1.
  destruct ((if Z.land (w_mode w) NOHDR =? 0 then readline_lead s else ret false) w)
    as [early w0| |]; [|done..].
  destruct early; [done|].
  rewrite bind_get. unfold bind at 1.
  destruct (fgets s 0 _ w0) as [got w1| |]; [|done..].
  destruct got; [|done]. cbn [negb].
  rewrite bind_modify, !bind_get.
  set (w1' := set_lineno _ w1).
  pose proof (grow_line_in_bounds (S (length (w_stdin w1'))) s 0
                (strlen (iov_base (get_buf s w1'))) w1') as Hb.
  unfold bind at 1.
  destruct (grow_line _ s 0 _ w1') as [whole w2| |]; [|done..].
  destruct whole as [l2|]; [|done].
  unfold buf_poke. rewrite bind_modify, bind_get.
  rewrite get_set_buf. cbn [iov_base].
  set (base := <[(l2 - 1)%nat := 0]> (iov_base (get_buf s w2))).
  assert (length base = length (iov_base (get_buf s w2))) as Hlb
    by (subst base; apply length_insert).
  destruct (Z.land (w_mode w) PRINT =? 0).
  - destruct (Nat.odd (l2 - 1)); [done|].
    destruct (decode_hex _ _ _ _ _) as [base' c1| |] eqn:Hd; [|done..].
    apply decode_hex_bound in Hd as [Hc Hl].
    rewrite bind_modify. cbn. split; cbn; lia.
  - destruct (decode_print _ _ _ _ _) as [base' c1| |] eqn:Hd; [|done..].
    apply decode_print_bound in Hd as [Hc Hl].
    rewrite bind_modify. cbn. split; cbn; lia.
Qed.

End Bounds.

(** ** Every run is one the watcher accepts *)

Section Accepted.
Context `{H : MdbxH} `{P : Platform} `{E : Engine}.

Variable o : options.

(** Any property of the engine's state that the calls the tool makes
    keep. *)
Variable Q : engine_state -> Prop.
Hypothesis HQ :
  forall c s, used_call c = true -> Q s -> Q (snd (engine_call c s)).

Hypothesis create_not_dupsort : Z.land MDBX_CREATE MDBX_DUPSORT = 0.

Lemma watch_all_app s a b :
  watch_all o s (a ++ b) =
  match watch_all o s a with Some s' => watch_all o s' b | None => None end.
Proof.
  revert s. induction a as [|e a IH]; intros s; cbn; [done|].
  destruct (watch o s e); [apply IH|done].
Qed.

Lemma watch_input s e :
  ph s = Steady -> is_input_diag e = true -> watch o s e = Some s.
Proof.
  intros Hs He. unfold watch. rewrite Hs.
  destruct e as [m|m|]; try done. by destruct m.
Qed.

Lemma watch_all_input s evs :
  ph s = Steady -> Forall (fun e => is_input_diag e = true) evs ->
  watch_all o s evs = Some s.
Proof.
  intros Hs Hf. induction Hf as [|e evs He _ IH]; cbn; [done|].
  by rewrite watch_input.
Qed.

(** The watcher has read the output of [w] and stands at [s], and the
    engine's state has the property. *)
Definition seen (s : watcher) (w : world) : Prop :=
  Q (w_engine w) /\ watch_all o start (w_out w) = Some s.

Lemma seen_input s w w' :
  seen s w -> ph s = Steady -> after_input w w' -> seen s w'.
Proof.
  intros [Hq Hw] Hs (He & _ & evs & Ho & Hf). split; [by rewrite He|].
  by rewrite Ho, watch_all_app, Hw, watch_all_input.
Qed.

Lemma seen_event s s' e w w' :
  seen s w -> watch o s e = Some s' ->
  w_out w' = w_out w ++ [e] -> w_engine w' = w_engine w -> seen s' w'.
Proof.
  intros [Hq Hw] Hs Ho He. split; [by rewrite He|].
  rewrite Ho, watch_all_app, Hw. cbn. by rewrite Hs.
Qed.

Lemma seen_call s s' c w :
  seen s w -> used_call c = true ->
  watch o s (Call c (fst (engine_call c (w_engine w)))) = Some s' ->
  seen s'
    (set_out (w_out w ++ [Call c (fst (engine_call c (w_engine w)))])
       (set_engine (snd (engine_call c (w_engine w))) w)).
Proof.
  intros [Hq Hw] Hu Hs. split; [by apply HQ|].
  cbn. rewrite watch_all_app, Hw. cbn. by rewrite Hs.
Qed.

Lemma bind_engine {B} (c : call) (k : response -> M B) w :
  bind (engine c) k w =
  k (fst (engine_call c (w_engine w)))
    (set_out (w_out w ++ [Call c (fst (engine_call c (w_engine w)))])
       (set_engine (snd (engine_call c (w_engine w))) w)).
Proof. unfold bind, engine. by destruct (engine_call c (w_engine w)). Qed.

(** What ties the watcher to the locals of [main] inside a section. *)
Definition in_section (s : watcher) (w : world) (v : vars) : Prop :=
  dups s = negb (Z.land (w_dbi_flags w) MDBX_DUPSORT =? 0) /\
  cur_txn s = txn v /\ wf_val (prevk v) /\
  (append o && dups s = true -> prev s = val_bytes (prevk v)).

Lemma append_flag_due s w v key :
  in_section s w v -> wf_val key ->
  fst (append_flag o (w_dbi_flags w) (prevk v) key) = due_flag o s (val_bytes key)
  /\ wf_val (snd (append_flag o (w_dbi_flags w) (prevk v) key))
  /\ (append o && dups s = true ->
      val_bytes (snd (append_flag o (w_dbi_flags w) (prevk v) key)) = val_bytes key).
Proof.
  intros (Hd & _ & Hwf & Hp) Hk. unfold append_flag, due_flag.
  destruct (append o); [|done].
  destruct (Z.land (w_dbi_flags w) MDBX_DUPSORT =? 0); cbn in Hd; rewrite Hd in *; cbn [andb fst snd].
  { done. }
  rewrite (Hp eq_refl).
  destruct (decide (val_bytes (prevk v) = val_bytes key)) as [Heq|Hne].
  - rewrite (bool_decide_eq_true_2 _ Heq).
    assert (iov_len (prevk v) = iov_len key) as Hl.
    { rewrite <- (wf_val_length _ Hwf), <- (wf_val_length _ Hk). by rewrite Heq. }
    rewrite Hl, Z.eqb_refl. cbn. done.
  - rewrite (bool_decide_eq_false_2 _ Hne), andb_false_r. cbn.
    pose proof (wf_val_length _ Hk) as Hkl.
    assert (length (val_bytes key) = Z.to_nat (iov_len key)) as Hkl' by lia.
    split; [done|]. split.
    + split; cbn; [by destruct Hk|].
      unfold write_at. rewrite !length_app. lia.
    + intros _. unfold val_bytes at 1. cbn. unfold write_at.
      rewrite take_0. cbn [app]. by rewrite take_app_length'.
Qed.


Definition record_post (t : turn) (w' : world) : Prop :=
  match t with
  | Continue v' _ =>
      exists s', seen s' w' /\ ph s' = Steady /\ in_section s' w' v'
  | Leave None v' =>
      exists s', seen s' w' /\ ph s' = Steady /\ cur_txn s' = txn v'
  | Leave (Some l) v' =>
      exists s', seen s' w' /\
        (ph s' = Steady \/
         (ph s' = Failing 1 (v_rc v') /\ l = txn_abort /\ v_rc v' <> 0 /\
          cur_txn s' = txn v'))
  end.

Definition stopped (w' : world) : Prop :=
  exists s', seen s' w' /\ ph s' = Steady.

Lemma watch_put s mc key d r :
  ph s = Steady ->
  watch o s (Call (mdbx_cursor_put mc key d (Z.lor (putflags o) (due_flag o s key))) r)
  = Some {| ph := after_put o (rc r); dups := dups s;
            prev := if append o && dups s then key else prev s;
            cur_txn := cur_txn s |}.
Proof. intros Hs. unfold watch. rewrite Hs. cbn. by rewrite Z.eqb_refl. Qed.

Lemma watch_used s c r :
  ph s = Steady -> used_call c = true ->
  match c with
  | mdbx_cursor_put _ _ _ _ | mdbx_dbi_open_ex _ _ _ _ _
  | mdbx_txn_begin _ _ _ => False
  | _ => True
  end ->
  watch o s (Call c r) = Some s.
Proof. intros Hs Hu Hc. unfold watch. rewrite Hs. by destruct c. Qed.

Lemma watch_begin s e p f r :
  ph s = Steady ->
  watch o s (Call (mdbx_txn_begin e p f) r)
  = Some {| ph := Steady; dups := dups s; prev := prev s; cur_txn := out_handle r |}.
Proof. intros Hs. unfold watch. by rewrite Hs. Qed.

Lemma seen_emit s w m :
  seen s w -> ph s = Steady ->
  match m with MsgSkipLine _ _ | MsgCursorPutFailed _ => False | _ => True end ->
  seen s (set_out (w_out w ++ [Stderr m]) w).
Proof.
  intros Hw Hs Hm. eapply seen_event; [exact Hw| |done|done].
  unfold watch. rewrite Hs. by destruct m.
Qed.

Lemma load_record_seen v batch :
  hoare (fun w => exists s, seen s w /\ ph s = Steady /\ in_section s w v)
    (load_record o v batch) record_post stopped.
Proof.
  intros w (s & Hseen & Hph & Hsec). unfold load_record.
  (* the key line *)
  pose proof (readline_quiet KBUF w) as Hq1.
  pose proof (readline_wf KBUF w) as Hwf1.
  destruct (readline KBUF w) as [k w1|c w1|f w1] eqn:Hk; cbn [final_world] in Hq1.
  2:{ rewrite (bind_stop_exit _ _ _ _ _ Hk). exists s. split; [|done].
      eapply seen_input; eauto using after_line_input. }
  2:{ rewrite (bind_stop_fault _ _ _ _ _ Hk). exists s. split; [|done].
      eapply seen_input; eauto using after_line_input. }
  rewrite (bind_run _ _ _ _ _ Hk).
  assert (seen s w1) as Hseen1 by (eapply seen_input; eauto using after_line_input).
  assert (in_section s w1 v) as Hsec1.
  { destruct Hq1 as (_ & Hf & _). destruct Hsec as (? & ? & ? & ?).
    split; [by rewrite Hf|done]. }
  destruct k as [key|].
  2:{ cbn. exists s. split; [done|]. split; [done|]. by destruct Hsec as (_ & ? & _). }
  (* the value line *)
  pose proof (readline_quiet DBUF w1) as Hq2.
  destruct (readline DBUF w1) as [d w2|c w2|f w2] eqn:Hd; cbn [final_world] in Hq2.
  2:{ rewrite (bind_stop_exit _ _ _ _ _ Hd). exists s. split; [|done].
      eapply seen_input; eauto using after_line_input. }
  2:{ rewrite (bind_stop_fault _ _ _ _ _ Hd). exists s. split; [|done].
      eapply seen_input; eauto using after_line_input. }
  rewrite (bind_run _ _ _ _ _ Hd).
  assert (seen s w2) as Hseen2 by (eapply seen_input; eauto using after_line_input).
  assert (in_section s w2 v) as Hsec2.
  { destruct Hq2 as (_ & Hf & _). destruct Hsec1 as (? & ? & ? & ?).
    split; [by rewrite Hf|done]. }
  destruct d as [data|].
  2:{ rewrite bind_get. unfold fprintf_stderr. rewrite bind_emit. cbn.
      exists s. split; [|by left]. by apply seen_emit. }
  rewrite !bind_get.
  destruct (append o && negb (Z.land (w_dbi_flags w2) MDBX_DUPSORT =? 0) && negb (w_k0_live w2)).
  { exists s. done. }
  destruct (append_flag_due s w2 v key Hsec2 Hwf1) as (Hflag & Hwfp & Hprev).
  destruct (append_flag o (w_dbi_flags w2) (prevk v) key) as [appflag pk] eqn:Haf.
  cbn [fst snd] in Hflag, Hwfp, Hprev. subst appflag.
  rewrite bind_engine.
  set (c := mdbx_cursor_put _ _ _ _).
  set (r := fst (engine_call c (w_engine w2))).
  set (w3 := set_out _ _).
  set (v1 := set_rc (rc r) (set_prevk pk v)).
  set (s1 := {| ph := after_put o (rc r); dups := dups s;
                prev := if append o && dups s then val_bytes key else prev s;
                cur_txn := cur_txn s |}).
  assert (seen s1 w3) as Hseen3.
  { subst w3. eapply seen_call; [eassumption|done|]. subst c. by apply watch_put. }
  assert (in_section s1 w3 v1) as Hsec3.
  { destruct Hsec2 as (? & ? & ? & ?). subst s1 v1 w3. repeat split; cbn; try done; try apply Hwfp.
    intros Hc. rewrite Hc. symmetry. by apply Hprev. }
  unfold after_put in s1.
  destruct ((rc r =? MDBX_KEYEXIST) && negb (putflags o =? 0)) eqn:Hb1.
  { cbn. exists s1. done. }
  destruct ((rc r =? MDBX_BAD_VALSIZE) && rescue o) eqn:Hb2.
  { rewrite bind_get. unfold fprintf_stderr. rewrite bind_emit. cbn.
    exists (in_phase Steady s1). split; [|done].
    eapply seen_event; [exact Hseen3| |done|done].
    unfold watch. cbn. by rewrite Z.eqb_refl. }
  destruct (negb (rc r =? 0)) eqn:Hb3.
  { unfold fprintf_stderr. rewrite bind_emit. cbn.
    exists (in_phase (Failing 1 (rc r)) s1). split.
    - eapply seen_event; [exact Hseen3| |done|done].
      unfold watch. cbn. by rewrite Z.eqb_refl.
    - right. cbn. repeat split; try done.
      + apply negb_true_iff, Z.eqb_neq in Hb3. done.
      + by destruct Hsec2 as (_ & ? & _). }
  destruct (batch + 1 =? 100).
  2:{ cbn. exists s1. done. }
  (* a full batch: commit and begin again *)
  rewrite bind_engine.
  set (w4 := set_out _ _). set (r4 := fst _).
  assert (seen s1 w4) as Hseen4.
  { subst w4. eapply seen_call; [eassumption|done|]. by apply watch_used. }
  destruct (negb (rc r4 =? 0)).
  { rewrite bind_get. unfold fprintf_stderr. rewrite bind_emit. cbn.
    exists s1. split; [|by left]. by apply seen_emit. }
  rewrite bind_engine.
  set (w5 := set_out _ _). set (r5 := fst _).
  set (s5 := {| ph := Steady; dups := dups s1; prev := prev s1; cur_txn := out_handle r5 |}).
  assert (seen s5 w5) as Hseen5.
  { subst w5. eapply seen_call; [eassumption|done|]. by apply watch_begin. }
  destruct (negb (rc r5 =? 0)).
  { unfold fprintf_stderr. rewrite bind_emit. cbn.
    exists s5. split; [|by left]. by apply seen_emit. }
  rewrite bind_engine.
  set (w6 := set_out _ _). set (r6 := fst _).
  assert (seen s5 w6) as Hseen6.
  { subst w6. eapply seen_call; [eassumption|done|]. by apply watch_used. }
  destruct (negb (rc r6 =? 0)).
  { unfold fprintf_stderr. rewrite bind_emit. cbn.
    exists s5. split; [|by left]. by apply seen_emit. }
  cbn. exists s5. split; [done|]. split; [done|].
  destruct Hsec3 as (Hd3 & Ht3 & Hw3 & Hp3).
  split; [exact Hd3|]. split; [reflexivity|]. split; [exact Hw3|exact Hp3].
Qed.


Lemma load_records_seen fuel : forall v batch,
  hoare (fun w => exists s, seen s w /\ ph s = Steady /\ in_section s w v)
    (load_records fuel o v batch)
    (fun r w' => record_post (Leave (fst r) (snd r)) w') stopped.
Proof.
  induction fuel as [|fuel IH]; intros v batch; cbn [load_records].
  - apply hoare_crash. intros w (s & ? & ? & _). by exists s.
  - eapply hoare_bind; [apply load_record_seen|].
    intros [v' batch'|l v'].
    + eapply hoare_conseq; [apply IH|done..].
    + by apply hoare_ret.
Qed.

Definition round_post (r : round) (w' : world) : Prop :=
  match r with
  | Again _ => stopped w'
  | Goto l v' => record_post (Leave (Some l) v') w'
  end.

Lemma land_lor_same a b : Z.land (Z.lor a b) b = b.
Proof.
  apply Z.bits_inj'. intros n Hn.
  rewrite Z.land_spec, Z.lor_spec. destruct (Z.testbit a n), (Z.testbit b n); done.
Qed.

Lemma land_lor_create a :
  Z.land (Z.lor a MDBX_CREATE) MDBX_DUPSORT = Z.land a MDBX_DUPSORT.
Proof.
  rewrite Z.land_lor_distr_l, create_not_dupsort. apply Z.lor_0_r.
Qed.

Lemma watch_open s t name f :
  ph s = Steady ->
  forall r,
  watch o s (Call (mdbx_dbi_open_ex t name (Z.lor f MDBX_CREATE)
                     (if append o then Some AnywayGreater else None)
                     (if append o then Some AnywayGreater else None)) r)
  = Some {| ph := Steady; dups := negb (Z.land f MDBX_DUPSORT =? 0);
            prev := []; cur_txn := cur_txn s |}.
Proof.
  intros Hs r. unfold watch. rewrite Hs. cbn.
  rewrite land_lor_same, Z.eqb_refl, land_lor_create.
  unfold comparers_for. by rewrite !bool_decide_eq_true_2.
Qed.

Lemma load_section_seen v :
  hoare stopped (load_section o v) round_post stopped.
Proof.
  intros w (s & Hseen & Hph). unfold load_section.
  unfold bind at 1, read_user_break at 1.
  set (w0 := match w_user_break w with [] => w | _ :: r => set_user_break r w end).
  assert (seen s w0) as Hseen0 by (subst w0; by destruct (w_user_break w)).
  assert (match w_user_break w with
          | [] => Ret false w
          | b :: r => Ret b (set_user_break r w)
          end = Ret (match w_user_break w with [] => false | b :: _ => b end) w0) as ->
    by (subst w0; by destruct (w_user_break w)).
  destruct (match w_user_break w with [] => false | b :: _ => b end).
  { cbn. exists s. split; [done|by left]. }
  rewrite bind_engine.
  set (w1 := set_out _ _). set (r1 := fst _).
  set (s1 := {| ph := Steady; dups := dups s; prev := prev s; cur_txn := out_handle r1 |}).
  assert (seen s1 w1) as Hseen1.
  { subst w1. eapply seen_call; [eassumption|done|]. by apply watch_begin. }
  destruct (negb (rc r1 =? 0)).
  { unfold fprintf_stderr. rewrite bind_emit. cbn.
    exists s1. split; [|by left]. by apply seen_emit. }
  rewrite !bind_get, bind_engine.
  set (w2 := set_out _ _). set (r2 := fst _).
  set (s2 := {| ph := Steady; dups := negb (Z.land (w_dbi_flags w1) MDBX_DUPSORT =? 0);
                prev := []; cur_txn := cur_txn s1 |}).
  assert (seen s2 w2) as Hseen2.
  { subst w2. eapply seen_call; [eassumption|done|]. by apply watch_open. }
  destruct (negb (rc r2 =? 0)).
  { unfold fprintf_stderr. rewrite bind_emit. cbn.
    exists s2. split; [|by left]. by apply seen_emit. }
  rewrite bind_engine.
  set (w3 := set_out _ _). set (r3 := fst _).
  assert (seen s2 w3) as Hseen3.
  { subst w3. eapply seen_call; [eassumption|done|]. by apply watch_used. }
  destruct (negb (rc r3 =? 0)).
  { unfold fprintf_stderr. rewrite bind_emit. cbn.
    exists s2. split; [|by left]. by apply seen_emit. }
  rewrite bind_get.
  set (v3 := set_prevk _ _).
  pose proof (load_records_seen (S (length (w_stdin w3))) v3 0 w3) as Hrec.
  destruct (load_records _ o v3 0 w3) as [[l v4] w4|c w4|f w4] eqn:Hl.
  2:{ rewrite (bind_stop_exit _ _ _ _ _ Hl). apply Hrec.
      exists s2. split; [done|]. split; [done|]. repeat split; cbn; try done; lia. }
  2:{ rewrite (bind_stop_fault _ _ _ _ _ Hl). apply Hrec.
      exists s2. split; [done|]. split; [done|]. repeat split; cbn; try done; lia. }
  rewrite (bind_run _ _ _ _ _ Hl).
  assert (record_post (Leave l v4) w4) as Hpost.
  { apply Hrec. exists s2. split; [done|]. split; [done|].
    repeat split; cbn; try done; lia. }
  destruct l as [l|]; [exact Hpost|].
  destruct Hpost as (s4 & Hseen4 & Hph4 & Hcur4).
  rewrite bind_engine.
  set (w5 := set_out _ _). set (r5 := fst _).
  assert (seen s4 w5) as Hseen5.
  { subst w5. eapply seen_call; [eassumption|done|]. by apply watch_used. }
  destruct (negb (rc r5 =? 0)).
  { rewrite bind_get. unfold fprintf_stderr. rewrite bind_emit. cbn.
    exists s4. split; [|by left]. by apply seen_emit. }
  rewrite bind_engine.
  set (w6 := set_out _ _).
  assert (seen s4 w6) as Hseen6.
  { subst w6. eapply seen_call; [eassumption|done|]. by apply watch_used. }
  rewrite bind_modify, bind_get.
  set (w7 := set_subname None w6).
  assert (seen s4 w7) as Hseen7 by done.
  destruct (Z.land (w_mode w7) NOHDR =? 0).
  - pose proof (readhdr_quiet w7) as Hq.
    destruct (readhdr w7) as [[] w8|c w8|f w8] eqn:Hh; cbn [final_world] in Hq.
    + rewrite (bind_run _ _ _ _ _ Hh). cbn. exists s4. split; [|done].
      by eapply seen_input.
    + rewrite (bind_stop_exit _ _ _ _ _ Hh). exists s4. split; [|done].
      by eapply seen_input.
    + rewrite (bind_stop_fault _ _ _ _ _ Hh). exists s4. split; [|done].
      by eapply seen_input.
  - rewrite bind_ret. cbn. by exists s4.
Qed.

Lemma load_loop_seen fuel : forall v,
  hoare stopped (load_loop fuel o v)
    (fun r w' => round_post (Goto (fst r) (snd r)) w') stopped.
Proof.
  induction fuel as [|fuel IH]; intros v w Hw; cbn [load_loop]; rewrite bind_get.
  - destruct (w_Eof w); [|done]. cbn. destruct Hw as (s & ? & ?). exists s. split; [done|by left].
  - destruct (w_Eof w).
    { cbn. destruct Hw as (s & ? & ?). exists s. split; [done|by left]. }
    pose proof (load_section_seen v w Hw) as Hs.
    destruct (load_section o v w) as [[v'|l v'] w'|c w'|f w'] eqn:Hl.
    + rewrite (bind_run _ _ _ _ _ Hl). by apply IH.
    + rewrite (bind_run _ _ _ _ _ Hl). exact Hs.
    + by rewrite (bind_stop_exit _ _ _ _ _ Hl).
    + by rewrite (bind_stop_fault _ _ _ _ _ Hl).
Qed.

(** How a whole run ends in the watcher's eyes: either nothing is
    pending, or a failed put has been followed through to the end and
    the exit status is a failure. *)
Definition final_post (code : Z) (w' : world) : Prop :=
  exists s', seen s' w' /\
    (ph s' = Steady \/ (ph s' = Ended /\ code = EXIT_FAILURE)).

Lemma finish_seen l v :
  hoare (round_post (Goto l v)) (finish l v) final_post stopped.
Proof.
  intros w (s & Hseen & Hcase). unfold finish.
  destruct Hcase as [Hph|(Hph & -> & Hrc & Hcur)].
  - destruct l.
    + unfold bind at 1. rewrite bind_engine. cbn [ret].
      rewrite bind_engine. cbn. exists s. split; [|by left].
      eapply seen_call; [|done|by apply watch_used].
      eapply seen_call; [eassumption|done|by apply watch_used].
    + rewrite bind_ret, bind_engine. cbn. exists s. split; [|by left].
      eapply seen_call; [eassumption|done|by apply watch_used].
  - unfold bind at 1. rewrite bind_engine. cbn [ret].
    rewrite bind_engine. cbn [ret].
    exists (in_phase Ended s). split.
    + eapply seen_call; [|done|].
      * eapply seen_call; [eassumption|done|].
        unfold watch. rewrite Hph, Hcur, Z.eqb_refl. reflexivity.
      * reflexivity.
    + right. split; [done|]. by destruct (Z.eqb_spec (v_rc v) 0).
Qed.


Lemma bind_assoc {A B C} (m : M A) (f : A -> M B) (k : B -> M C) w :
  bind (bind m f) k w = bind m (fun a => bind (f a) k) w.
Proof. unfold bind. by destruct (m w). Qed.

Lemma load_loop_finish fuel v w :
  stopped w ->
  match bind (load_loop fuel o v) (fun out => finish (fst out) (snd out)) w with
  | Ret code w' => final_post code w'
  | Exit _ w' | Fault _ w' => stopped w'
  end.
Proof.
  intros Hw. pose proof (load_loop_seen fuel v w Hw) as Hl.
  destruct (load_loop fuel o v w) as [[l v'] w'|c w'|f w'] eqn:Hrun.
  - rewrite (bind_run _ _ _ _ _ Hrun). by apply finish_seen.
  - by rewrite (bind_stop_exit _ _ _ _ _ Hrun).
  - by rewrite (bind_stop_fault _ _ _ _ _ Hrun).
Qed.

Lemma load_seen envname e :
  hoare stopped (load o envname e) final_post stopped.
Proof.
  intros w (s & Hseen & Hph). unfold load.
  rewrite bind_engine. set (w1 := set_out _ _).
  assert (seen s w1) as Hseen1.
  { subst w1. eapply seen_call; [eassumption|done|by apply watch_used]. }
  rewrite bind_get.
  set (v := {| env := e; txn := NULL; mc := NULL; dbi := 0; v_rc := 0;
               prevk := {| iov_base := []; iov_len := 0 |} |}).
  assert (forall v' w', seen s w' ->
            match
              (let* r := engine (mdbx_env_open e envname (envflags o) 436) in
               let v0 := set_rc (rc r) v' in
               if negb (rc r =? 0)
               then fprintf_stderr (MsgEnvOpenFailed (rc r));;; finish env_close v0
               else
                let* r0 := engine (mdbx_env_get_maxvalsize_ex e MDBX_DUPSORT) in
                let klen := rc r0 mod (2 * INTPTR_MAX + 2) in
                if INTPTR_MAX / 4 <=? klen
                then fprintf_stderr (MsgMaxKeysizeFailed klen);;; finish env_close v0
                else
                 let klen0 := (klen + 1) * 2 in
                 modify (set_kbuf {| iov_base := fresh 0 (Z.to_nat klen0); iov_len := klen0 |});;;
                 modify (set_k0_live true);;;
                 (let v1 := set_prevk {| iov_base := fresh (Z.to_nat klen0) (Z.to_nat klen0);
                                         iov_len := 0 |} v0 in
                  let* turns := get (fun w0 : world => S (length (w_stdin w0))) in
                  let* out := load_loop turns o v1 in finish (fst out) (snd out)))%loader w'
            with
            | Ret code w'' => final_post code w''
            | Exit _ w'' | Fault _ w'' => stopped w''
            end) as Hopen.
  { intros v' w' Hs'. rewrite bind_engine.
    set (w2 := set_out _ _). set (r2 := fst _).
    assert (seen s w2) as Hseen2.
    { subst w2. eapply seen_call; [eassumption|done|by apply watch_used]. }
    destruct (negb (rc r2 =? 0)).
    { unfold fprintf_stderr. rewrite bind_emit.
      apply finish_seen. exists s. split; [|by left]. by apply seen_emit. }
    rewrite bind_engine.
    set (w3 := set_out _ _). set (r3 := fst _).
    assert (seen s w3) as Hseen3.
    { subst w3. eapply seen_call; [eassumption|done|by apply watch_used]. }
    cbv zeta. destruct (INTPTR_MAX / 4 <=? rc r3 mod (2 * INTPTR_MAX + 2)).
    { unfold fprintf_stderr. rewrite bind_emit.
      apply finish_seen. exists s. split; [|by left]. by apply seen_emit. }
    rewrite !bind_modify, bind_get.
    apply load_loop_finish. by exists s. }
  destruct (mi_mapsize (w_envinfo w1) =? 0).
  { rewrite bind_ret. by apply Hopen. }
  destruct (INTPTR_MAX <? mi_mapsize (w_envinfo w1)).
  { unfold fprintf_stderr. rewrite bind_assoc, bind_emit, bind_ret.
    apply finish_seen. exists s. split; [|by left]. by apply seen_emit. }
  rewrite bind_assoc, bind_engine.
  set (w2 := set_out _ _). set (r2 := fst _).
  assert (seen s w2) as Hseen2.
  { subst w2. eapply seen_call; [eassumption|done|by apply watch_used]. }
  destruct (negb (rc r2 =? 0)).
  { unfold fprintf_stderr. rewrite bind_assoc, bind_emit, bind_ret.
    apply finish_seen. exists s. split; [|by left]. by apply seen_emit. }
  rewrite bind_ret. by apply Hopen.
Qed.

Lemma seen_stdout s w m :
  seen s w -> ph s = Steady -> seen s (set_out (w_out w ++ [Stdout m]) w).
Proof.
  intros Hw Hs. eapply seen_event; [exact Hw| |done|done].
  unfold watch. by rewrite Hs.
Qed.

Lemma usage_seen {A} : hoare stopped (@usage _ A) (fun _ _ => False) stopped.
Proof.
  intros w (s & ? & ?). unfold usage, fprintf_stderr. rewrite bind_emit.
  exists s. split; [|done]. by apply seen_emit.
Qed.

Lemma getopt_loop_seen l : forall o0,
  hoare stopped (getopt_loop l o0)
    (fun g w' => stopped w' /\
       match g with Parsed o' => o' = fold_left set_by l o0 | Return _ => True end)
    stopped.
Proof.
  induction l as [|c l IH]; intros o0 w Hw; cbn [getopt_loop].
  - done.
  - destruct Hw as (s & Hseen & Hph).
    destruct c; cbn [apply_opt fold_left set_by].
    + unfold printf. rewrite bind_assoc, bind_emit, bind_ret. cbn.
      split; [|done]. exists s. split; [|done]. by apply seen_stdout.
    + rewrite bind_ret. apply IH. by exists s.
    + destruct (freopen optarg).
      * rewrite bind_assoc, bind_modify, bind_ret. apply IH. by exists s.
      * unfold fprintf_stderr. rewrite bind_assoc, bind_emit. cbn.
        exists s. split; [|done]. by apply seen_emit.
    + rewrite bind_ret. apply IH. by exists s.
    + rewrite bind_assoc, bind_modify, bind_ret. apply IH. by exists s.
    + rewrite bind_ret. apply IH. by exists s.
    + rewrite bind_assoc, bind_modify, bind_ret. apply IH. by exists s.
    + rewrite bind_ret. apply IH. by exists s.
    + rewrite bind_ret. apply IH. by exists s.
    + pose proof (@usage_seen getopt_result w) as Hu.
      unfold bind. destruct (usage w); [exfalso|..]; apply Hu; by exists s.
Qed.

Lemma main_seen c :
  o = options_of (opts c) ->
  hoare stopped (main c) final_post stopped.
Proof.
  intros Ho w Hw. unfold main.
  assert (match bind (getopt_loop (opts c) initial_options)
                  (fun g => match g with
                   | Parsed o0 =>
                       match operands c with
                       | [envname] =>
                           (if quiet o0 then ret tt else printf (MsgRunning envname));;;
                           modify (set_dbuf {| iov_base := fresh 0 4096; iov_len := 4096 |});;;
                           (let* mode := get w_mode in
                            (if Z.land mode NOHDR =? 0 then readhdr else ret tt);;;
                            (let* r := engine mdbx_env_create in
                             if negb (rc r =? 0)
                             then fprintf_stderr (MsgEnvCreateFailed (rc r));;; ret EXIT_FAILURE
                             else load o0 envname (out_handle r)))
                       | _ => usage
                       end
                   | Return code => ret code
                   end)%loader w with
          | Ret code w' => final_post code w'
          | Exit _ w' | Fault _ w' => stopped w'
          end) as Hmain.
  { pose proof (getopt_loop_seen (opts c) initial_options w Hw) as Hg.
    destruct (getopt_loop (opts c) initial_options w) as [g w1|c1 w1|f w1] eqn:Hrun.
    2:{ by rewrite (bind_stop_exit _ _ _ _ _ Hrun). }
    2:{ by rewrite (bind_stop_fault _ _ _ _ _ Hrun). }
    rewrite (bind_run _ _ _ _ _ Hrun).
    destruct Hg as [(s & Hseen & Hph) Hg].
    destruct g as [o0|code].
    2:{ cbn. exists s. split; [done|by left]. }
    assert (o0 = o) as -> by (rewrite Ho; exact Hg).
    destruct (operands c) as [|envname [|]].
    { pose proof (@usage_seen Z w1) as Hu. destruct (usage w1); [exfalso|..]; apply Hu; by exists s. }
    2:{ pose proof (@usage_seen Z w1) as Hu. destruct (usage w1); [exfalso|..]; apply Hu; by exists s. }
    assert (exists w2, seen s w2 /\
              bind (if quiet o then ret tt else printf (MsgRunning envname))
                (fun _ => modify (set_dbuf {| iov_base := fresh 0 4096; iov_len := 4096 |});;;
                   (let* mode := get w_mode in
                    (if Z.land mode NOHDR =? 0 then readhdr else ret tt);;;
                    (let* r := engine mdbx_env_create in
                     if negb (rc r =? 0)
                     then fprintf_stderr (MsgEnvCreateFailed (rc r));;; ret EXIT_FAILURE
                     else load o envname (out_handle r))))%loader w1
              = ((let* mode := get w_mode in
                    (if Z.land mode NOHDR =? 0 then readhdr else ret tt);;;
                    (let* r := engine mdbx_env_create in
                     if negb (rc r =? 0)
                     then fprintf_stderr (MsgEnvCreateFailed (rc r));;; ret EXIT_FAILURE
                     else load o envname (out_handle r))))%loader w2) as (w2 & Hseen2 & ->).
    { destruct (quiet o).
      - eexists. split; [|rewrite bind_ret, bind_modify; reflexivity]. done.
      - eexists. split; [|unfold printf; rewrite bind_emit, bind_modify; reflexivity].
        by apply seen_stdout. }
    rewrite bind_get.
    assert (forall w3, seen s w3 ->
              match (let* r := engine mdbx_env_create in
                     if negb (rc r =? 0)
                     then fprintf_stderr (MsgEnvCreateFailed (rc r));;; ret EXIT_FAILURE
                     else load o envname (out_handle r))%loader w3 with
              | Ret code w' => final_post code w'
              | Exit _ w' | Fault _ w' => stopped w'
              end) as Hcreate.
    { intros w3 Hseen3. rewrite bind_engine.
      set (w4 := set_out _ _).
      assert (seen s w4) as Hseen4.
      { subst w4. eapply seen_call; [eassumption|done|by apply watch_used]. }
      destruct (negb _).
      - unfold fprintf_stderr. rewrite bind_emit. cbn.
        exists s. split; [|by left]. by apply seen_emit.
      - apply load_seen. by exists s. }
    destruct (Z.land (w_mode w2) NOHDR =? 0).
    - pose proof (readhdr_quiet w2) as Hq.
      destruct (readhdr w2) as [[] w3|c3 w3|f3 w3] eqn:Hh; cbn [final_world] in Hq.
      + rewrite (bind_run _ _ _ _ _ Hh). apply Hcreate. by eapply seen_input.
      + rewrite (bind_stop_exit _ _ _ _ _ Hh). exists s. split; [|done]. by eapply seen_input.
      + rewrite (bind_stop_fault _ _ _ _ _ Hh). exists s. split; [|done]. by eapply seen_input.
    - rewrite bind_ret. by apply Hcreate. }
  destruct (opts c) as [|? ?] eqn:Hopts; [|exact Hmain].
  destruct (operands c) as [|? ?] eqn:Hops; [|exact Hmain].
  pose proof (@usage_seen Z w Hw) as Hu. by destruct (usage w).
Qed.

End Accepted.

(** Every run of the tool is one the watcher accepts, and whatever the
    calls the tool makes keep true of the engine is true at the end. *)
Lemma run_accepted `{H : MdbxH} `{P : Platform} `{E : Engine}
    (Q : engine_state -> Prop) (c : cmdline) (input : bytes)
    (breaks : list bool) (e : engine_state) :
  (forall c s, used_call c = true -> Q s -> Q (snd (engine_call c s))) ->
  Z.land MDBX_CREATE MDBX_DUPSORT = 0 ->
  Q e ->
  exists s,
    watch_all (options_of (opts c)) start (trace c input breaks e) = Some s /\
    Q (w_engine (final_world (run c input breaks e))) /\
    (ph s = Steady \/
     (ph s = Ended /\ exists w, run c input breaks e = Ret EXIT_FAILURE w)).
Proof.
  intros HQ Hc He. unfold trace, run.
  pose proof (main_seen (options_of (opts c)) Q HQ Hc c eq_refl
                (initial_world input breaks e)) as Hm.
  destruct (main c (initial_world input breaks e)) as [code w|code w|f w].
  - destruct Hm as (s & [Hq Hw] & Hcase); [by exists start|].
    exists s. split; [done|]. split; [done|].
    destruct Hcase as [?|[? ->]]; [by left|right]. split; [done|]. by exists w.
  - destruct Hm as (s & [Hq Hw] & Hph); [by exists start|].
    exists s. split; [done|]. split; [done|]. by left.
  - destruct Hm as (s & [Hq Hw] & Hph); [by exists start|].
    exists s. split; [done|]. split; [done|]. by left.
Qed.

(** ** Reading the watcher's verdict *)

Section Verdict.
Context `{H : MdbxH}.
Variable o : options.

Lemma watch_all_split s0 pre e post sf :
  watch_all o s0 (pre ++ e :: post) = Some sf ->
  exists s1 s2,
    watch_all o s0 pre = Some s1 /\ watch o s1 e = Some s2 /\
    watch_all o s2 post = Some sf.
Proof.
  rewrite watch_all_app. destruct (watch_all o s0 pre) as [s1|]; [|done].
  cbn. destruct (watch o s1 e) as [s2|] eqn:He; [|done].
  intros Hp. by exists s1, s2.
Qed.

(** The watcher and the reader of the calls agree on the section. *)
Definition agree (s : watcher) (sv : section_view) : Prop :=
  dups s = sorted_dups sv /\ cur_txn s = last_txn sv /\
  (append o && dups s = true -> prev s = last_key sv).

Lemma watch_agree s e s' sv :
  watch o s e = Some s' -> agree s sv -> agree s' (track sv e).
Proof.
  intros Hw (Hd & Ht & Hp). unfold watch in Hw.
  destruct (ph s) as [|code|[|[|[|n]]] code|].
  - destruct e as [m|m|c r]; [by simplify_eq|by destruct m; simplify_eq|].
    destruct c; cbn in Hw; simplify_eq; try done.
    + destruct (_ && _ && _); simplify_eq. cbn. by rewrite Ht.
    + destruct (_ =? _); simplify_eq. unfold agree. cbn.
      split; [done|]. split; [done|]. intros Hc. by rewrite Hc.
  - destruct e as [m|m|c r]; try done. destruct m; try done.
    destruct (_ =? _); by simplify_eq.
  - destruct e as [m|m|c r]; try done. destruct m; try done.
    destruct (_ =? _); by simplify_eq.
  - destruct e as [m|m|c r]; try done. destruct c; try done.
    destruct (_ =? _); by simplify_eq.
  - destruct e as [m|m|c r]; try done. destruct c; try done. by simplify_eq.
  - done.
  - done.
Qed.

Lemma watch_all_agree pre : forall s sv s',
  watch_all o s pre = Some s' -> agree s sv -> agree s' (fold_left track pre sv).
Proof.
  induction pre as [|e pre IH]; intros s sv s' Hw Ha; cbn in *.
  - by simplify_eq.
  - destruct (watch o s e) as [s1|] eqn:He; [|done].
    eapply IH; [exact Hw|]. by eapply watch_agree.
Qed.

Lemma watch_all_view pre s :
  watch_all o start pre = Some s -> agree s (view_of pre).
Proof. intros Hw. eapply watch_all_agree; [exact Hw|]. by repeat split. Qed.

(** A put is only read where nothing is pending. *)
Lemma watch_put_inv s mc key d f r s' :
  watch o s (Call (mdbx_cursor_put mc key d f) r) = Some s' ->
  ph s = Steady /\ f = Z.lor (putflags o) (due_flag o s key) /\
  ph s' = after_put o (rc r) /\ cur_txn s' = cur_txn s.
Proof.
  unfold watch. destruct (ph s) as [|code|[|[|[|n]]] code|]; try done.
  cbn. destruct (Z.eqb_spec f (Z.lor (putflags o) (due_flag o s key))); [|done].
  intros [= <-]. done.
Qed.

Lemma watch_open_inv s t name f kc dc r s' :
  watch o s (Call (mdbx_dbi_open_ex t name f kc dc) r) = Some s' ->
  Z.land f MDBX_CREATE = MDBX_CREATE /\ kc = comparers_for o /\ dc = comparers_for o.
Proof.
  unfold watch. destruct (ph s) as [|code|[|[|[|n]]] code|]; try done.
  cbn. destruct (Z.eqb_spec (Z.land f MDBX_CREATE) MDBX_CREATE); [|done].
  do 2 case_bool_decide; done.
Qed.

Lemma watch_call_used s c r s' :
  watch o s (Call c r) = Some s' -> used_call c = true.
Proof.
  unfold watch. destruct (ph s) as [|code|[|[|[|n]]] code|]; try done; by destruct c.
Qed.

(** After a put that awaits its skip message, the message comes next. *)
Lemma watch_all_await s code post sf :
  ph s = AwaitSkip code -> watch_all o s post = Some sf ->
  (ph sf = Steady \/ ph sf = Ended) ->
  exists l post', post = Stderr (MsgSkipLine l code) :: post'.
Proof.
  intros Hs Hw Hf. destruct post as [|e post].
  - cbn in Hw. simplify_eq. rewrite Hs in Hf. by destruct Hf.
  - cbn in Hw. unfold watch in Hw. rewrite Hs in Hw.
    destruct e as [m|m|c r]; try done. destruct m; try done.
    destruct (_ =? code) eqn:Hc; [|done].
    apply Z.eqb_eq in Hc. subst. by eexists _, _.
Qed.

Lemma watch_all_ended s post sf :
  ph s = Ended -> watch_all o s post = Some sf -> post = [] /\ sf = s.
Proof.
  intros Hs Hw. destruct post as [|e post]; cbn in Hw; [by simplify_eq|].
  unfold watch in Hw. by rewrite Hs in Hw.
Qed.

(** After a put that failed for good, the run ends in three steps. *)
Lemma watch_all_failing s code post sf :
  ph s = Failing 0 code -> watch_all o s post = Some sf ->
  (ph sf = Steady \/ ph sf = Ended) ->
  exists r1 h r2,
    post = [Stderr (MsgCursorPutFailed code);
            Call (mdbx_txn_abort (cur_txn s)) r1;
            Call (mdbx_env_close h) r2] /\ ph sf = Ended.
Proof.
  intros Hs Hw Hf.
  destruct post as [|e1 post]; cbn [watch_all] in Hw.
  { simplify_eq. rewrite Hs in Hf. by destruct Hf. }
  unfold watch at 1 in Hw. rewrite Hs in Hw.
  destruct e1 as [m|m|c r]; try done. destruct m; try done.
  destruct (_ =? code) eqn:Hc; [|done]. apply Z.eqb_eq in Hc. subst.
  destruct post as [|e2 post]; cbn [watch_all] in Hw.
  { simplify_eq. cbn in Hf. by destruct Hf. }
  unfold watch at 1 in Hw. cbn [ph in_phase] in Hw.
  destruct e2 as [m|m|c r]; try done. destruct c; try done.
  cbn [cur_txn in_phase] in Hw.
  destruct (_ =? cur_txn s) eqn:Ht; [|done]. apply Z.eqb_eq in Ht. subst.
  destruct post as [|e3 post]; cbn [watch_all] in Hw.
  { simplify_eq. cbn in Hf. by destruct Hf. }
  unfold watch at 1 in Hw. cbn [ph in_phase] in Hw.
  destruct e3 as [m|m|c r3]; try done. destruct c; try done.
  apply watch_all_ended in Hw as [-> ->]; [|done].
  by eexists _, _, _.
Qed.

End Verdict.

(** ** The options in force *)

Section Options.
Context `{H : MdbxH}.

Lemma fold_set_by l : forall o0,
  append (fold_left set_by l o0) = append o0 || existsb is_opt_a l /\
  rescue (fold_left set_by l o0) = rescue o0 || existsb is_opt_r l /\
  putflags (fold_left set_by l o0) =
    if existsb is_opt_N l then Z.lor MDBX_NOOVERWRITE MDBX_NODUPDATA
    else putflags o0.
Proof.
  induction l as [|c l IH]; intros o0; cbn [fold_left existsb].
  - by rewrite !orb_false_r.
  - destruct (IH (set_by o0 c)) as (-> & -> & ->).
    destruct c; cbn; rewrite ?orb_false_r, ?orb_true_r; repeat split; try done;
      by destruct (existsb is_opt_N l).
Qed.

Lemma existsb_In_opt (f : opt -> bool) (c : opt) l :
  (forall x, f x = true <-> x = c) -> (existsb f l = true <-> In c l).
Proof.
  intros Hf. rewrite existsb_exists. split.
  - intros (x & Hx & Hfx). apply Hf in Hfx. by subst.
  - intros Hc. exists c. split; [done|]. by apply Hf.
Qed.

Lemma append_options_of l : append (options_of l) = true <-> In Opt_a l.
Proof.
  unfold options_of. destruct (fold_set_by l initial_options) as (-> & _).
  cbn. apply existsb_In_opt. intros x. by destruct x.
Qed.

Lemma rescue_options_of l : rescue (options_of l) = true <-> In Opt_r l.
Proof.
  unfold options_of. destruct (fold_set_by l initial_options) as (_ & -> & _).
  cbn. apply existsb_In_opt. intros x. by destruct x.
Qed.

Lemma putflags_options_of l :
  (In Opt_N l -> putflags (options_of l) = Z.lor MDBX_NOOVERWRITE MDBX_NODUPDATA) /\
  (~ In Opt_N l -> putflags (options_of l) = 0).
Proof.
  unfold options_of. destruct (fold_set_by l initial_options) as (_ & _ & ->).
  assert (existsb is_opt_N l = true <-> In Opt_N l) as Hi.
  { apply existsb_In_opt. intros x. by destruct x. }
  destruct (existsb is_opt_N l); split; try done.
  - intros Hn. exfalso. apply Hn. by apply Hi.
  - intros Hn. apply Hi in Hn. done.
Qed.

End Options.

Section RecordTurn.
Context `{H : MdbxH} `{P : Platform} `{E : Engine}.

(** One turn of the record loop whose two lines are read and whose put
    goes to the engine: what is put, and what the turn does with each
    result. *)
Lemma load_record_put o v batch w key w1 data w2 :
  readline KBUF w = Ret (Some key) w1 ->
  readline DBUF w1 = Ret (Some data) w2 ->
  append o && negb (Z.land (w_dbi_flags w2) MDBX_DUPSORT =? 0)
    && negb (w_k0_live w2) = false ->
  let af := append_flag o (w_dbi_flags w2) (prevk v) key in
  let c := mdbx_cursor_put (mc v) (val_bytes key) (val_bytes data)
             (Z.lor (putflags o) (fst af)) in
  let r := fst (engine_call c (w_engine w2)) in
  let w3 := set_out (w_out w2 ++ [Call c r])
              (set_engine (snd (engine_call c (w_engine w2))) w2) in
  let v' := set_rc (rc r) (set_prevk (snd af) v) in
  (((rc r =? MDBX_KEYEXIST) && negb (putflags o =? 0) = true ->
    load_record o v batch w = Ret (Continue v' batch) w3) /\
   ((rc r =? MDBX_KEYEXIST) && negb (putflags o =? 0) = false ->
    (rc r =? MDBX_BAD_VALSIZE) && rescue o = true ->
    load_record o v batch w =
    Ret (Continue v' batch)
      (set_out (w_out w3 ++ [Stderr (MsgSkipLine (w_lineno w3) (rc r))]) w3)) /\
   ((rc r =? MDBX_KEYEXIST) && negb (putflags o =? 0) = false ->
    (rc r =? MDBX_BAD_VALSIZE) && rescue o = false ->
    rc r <> 0 ->
    load_record o v batch w =
    Ret (Leave (Some txn_abort) v')
      (set_out (w_out w3 ++ [Stderr (MsgCursorPutFailed (rc r))]) w3))).
Proof.
  intros Hk Hd Hlive. cbv zeta.
  unfold load_record.
  rewrite (bind_run _ _ _ _ _ Hk), (bind_run _ _ _ _ _ Hd), !bind_get, Hlive.
  destruct (append_flag o (w_dbi_flags w2) (prevk v) key) as [appflag pk].
  cbn [fst snd]. rewrite bind_engine.
  set (c := mdbx_cursor_put _ _ _ _).
  set (r := fst (engine_call c (w_engine w2))).
  split; [|split].
  - intros ->. done.
  - intros -> ->. rewrite bind_get. unfold fprintf_stderr. by rewrite bind_emit.
  - intros -> -> Hrc.
    destruct (Z.eqb_spec (rc r) 0); [done|]. cbn [negb].
    unfold fprintf_stderr. by rewrite bind_emit.
Qed.

End RecordTurn.

(** ** What holds of every event of a run *)

Lemma land_lor_left a b : Z.land (Z.lor a b) a = a.
Proof.
  apply Z.bits_inj'. intros n Hn.
  rewrite Z.land_spec, Z.lor_spec. by destruct (Z.testbit a n), (Z.testbit b n).
Qed.

Lemma land_lor_mid a b c : Z.land (Z.lor a (Z.lor b c)) b = b.
Proof.
  apply Z.bits_inj'. intros n Hn.
  rewrite Z.land_spec, !Z.lor_spec.
  by destruct (Z.testbit a n), (Z.testbit b n), (Z.testbit c n).
Qed.

Section Grows.
Context `{H : MdbxH} `{P : Platform} `{E : Engine}.

Variable o : options.
Variable Q : engine_state -> Prop.
Hypothesis HQ :
  forall c s, used_call c = true -> Q s -> Q (snd (engine_call c s)).

(** [w] comes after [w0] in a run: the output has grown by events that
    are in order, and the engine's state still has the property. *)
Definition grows (w0 w : world) : Prop :=
  Q (w_engine w) /\
  exists evs, w_out w = w_out w0 ++ evs /\ Forall (fun e => event_ok o e = true) evs.

Lemma grows_refl w : Q (w_engine w) -> grows w w.
Proof. intros Hq. split; [done|]. exists []. by rewrite app_nil_r. Qed.

Lemma input_diag_ok e : is_input_diag e = true -> event_ok o e = true.
Proof. by destruct e. Qed.

Lemma grows_input w0 w w' : grows w0 w -> after_input w w' -> grows w0 w'.
Proof.
  intros (Hq & evs & Ho & Hf) (He & _ & evs' & Ho' & Hf').
  split; [by rewrite He|]. exists (evs ++ evs').
  rewrite Ho', Ho, app_assoc. split; [done|]. apply Forall_app. split; [done|].
  eapply Forall_impl; [exact Hf'|]. apply input_diag_ok.
Qed.

Lemma keeps_grows_input {A} (m : M A) w0 :
  (forall w1, keeps (after_input w1) m) -> keeps (grows w0) m.
Proof.
  intros Hm w Hw. specialize (Hm w w (after_input_refl w)).
  destruct (m w); by eapply grows_input.
Qed.

Lemma keeps_grows_line {A} (m : M A) w0 :
  (forall w1, keeps (after_line w1) m) -> keeps (grows w0) m.
Proof.
  intros Hm w Hw. specialize (Hm w w (after_line_refl w)).
  destruct (m w); eapply grows_input; eauto using after_line_input.
Qed.

Lemma keeps_grows_emit w0 e :
  event_ok o e = true -> keeps (grows w0) (emit e).
Proof.
  intros He. apply keeps_modify. intros w (Hq & evs & Ho & Hf).
  split; [done|]. exists (evs ++ [e]). cbn. rewrite Ho, app_assoc.
  split; [done|]. apply Forall_app. split; [done|]. by constructor.
Qed.

Lemma keeps_grows_engine w0 c :
  (forall r, event_ok o (Call c r) = true) -> keeps (grows w0) (engine c).
Proof.
  intros Hc w (Hq & evs & Ho & Hf). unfold engine.
  destruct (engine_call c (w_engine w)) as [r s] eqn:Hcall.
  split.
  - cbn. replace s with (snd (engine_call c (w_engine w))) by (by rewrite Hcall).
    apply HQ; [|done]. specialize (Hc r). cbn in Hc.
    by apply andb_true_iff in Hc as [? _].
  - exists (evs ++ [Call c r]). cbn. rewrite Ho, app_assoc.
    split; [done|]. apply Forall_app. split; [done|]. by constructor.
Qed.

Lemma append_flag_has_append dbi_flags pk key :
  append o = true ->
  Z.land (Z.lor (putflags o) (fst (append_flag o dbi_flags pk key))) MDBX_APPEND
  = MDBX_APPEND.
Proof.
  intros Ha. unfold append_flag. rewrite Ha.
  destruct (_ =? 0); cbn [fst]; [by rewrite Z.lor_comm, land_lor_left|].
  destruct (_ && _); cbn [fst].
  - apply land_lor_mid.
  - by rewrite Z.lor_comm, land_lor_left.
Qed.

Lemma put_event_ok mc key data dbi_flags pk k r :
  event_ok o (Call (mdbx_cursor_put mc key data
                      (Z.lor (putflags o) (fst (append_flag o dbi_flags pk k)))) r)
  = true.
Proof.
  cbn. rewrite land_lor_left, Z.eqb_refl. cbn.
  destruct (append o) eqn:Ha; [|done].
  by rewrite append_flag_has_append, Z.eqb_refl.
Qed.

Lemma open_event_ok t name f r :
  event_ok o (Call (mdbx_dbi_open_ex t name (Z.lor f MDBX_CREATE)
                      (if append o then Some AnywayGreater else None)
                      (if append o then Some AnywayGreater else None)) r) = true.
Proof.
  cbn. rewrite Z.lor_comm, land_lor_left, Z.eqb_refl.
  unfold comparers_for. by rewrite !bool_decide_eq_true_2.
Qed.

End Grows.

Ltac grows_step :=
  first
    [ lazymatch goal with
      | |- keeps _ (match append_flag ?a ?b ?c ?d with _ => _ end) =>
          let Haf := fresh in
          destruct (append_flag a b c d) as [? ?] eqn:Haf;
          apply (f_equal fst) in Haf; cbn [fst] in Haf; subst
      end
    | keeps_step
    | apply keeps_grows_emit; reflexivity
    | apply keeps_grows_engine; [assumption|]; intros ?; first [reflexivity | apply put_event_ok | apply open_event_ok]
    | apply keeps_grows_line; intros ?; apply readline_keeps
    | apply keeps_grows_input; intros ?; apply readhdr_keeps
    | apply keeps_modify; let w := fresh in intros w; intros (? & ? & ? & ?); split; [done|]; eexists; split; [eassumption|done] ].

Section Grows2.
Context `{H : MdbxH} `{P : Platform} `{E : Engine}.

Variable o : options.
Variable Q : engine_state -> Prop.
Hypothesis HQ :
  forall c s, used_call c = true -> Q s -> Q (snd (engine_call c s)).

Lemma load_record_grows w0 v batch : keeps (grows o Q w0) (load_record o v batch).
Proof.
  unfold load_record. repeat grows_step.
Qed.

Lemma load_records_grows w0 fuel v batch :
  keeps (grows o Q w0) (load_records fuel o v batch).
Proof.
  revert v batch. induction fuel as [|fuel IH]; intros v batch; cbn [load_records].
  - apply keeps_crash.
  - apply keeps_bind; [apply load_record_grows|]. intros [v' b'|l v']; [apply IH|apply keeps_ret].
Qed.

Lemma read_user_break_grows w0 : keeps (grows o Q w0) read_user_break.
Proof.
  intros w Hw. unfold read_user_break. destruct (w_user_break w); [done|].
  destruct Hw as (? & ? & ? & ?). split; [done|]. by eexists.
Qed.

Lemma load_section_grows w0 v : keeps (grows o Q w0) (load_section o v).
Proof.
  unfold load_section.
  apply keeps_bind; [apply read_user_break_grows|]. intros stop.
  repeat first [apply load_records_grows | grows_step].
Qed.

Lemma load_loop_grows w0 fuel v : keeps (grows o Q w0) (load_loop fuel o v).
Proof.
  revert v. induction fuel as [|fuel IH]; intros v; cbn [load_loop].
  - repeat grows_step.
  - apply keeps_bind; [apply keeps_get|]. intros eof. destruct eof; [apply keeps_ret|].
    apply keeps_bind; [apply load_section_grows|]. intros [v'|l v']; [apply IH|apply keeps_ret].
Qed.

Lemma finish_grows w0 l v : keeps (grows o Q w0) (finish l v).
Proof. unfold finish. repeat grows_step. Qed.

Lemma load_grows w0 envname e : keeps (grows o Q w0) (load o envname e).
Proof.
  unfold load.
  repeat first [apply load_loop_grows | apply finish_grows | grows_step].
Qed.

Lemma usage_stops {A} w0 :
  hoare (grows o Q w0) (@usage _ A) (fun _ _ => False) (grows o Q w0).
Proof.
  unfold usage, fprintf_stderr.
  eapply hoare_bind with (Mid := fun _ => grows o Q w0);
    [apply keeps_grows_emit; reflexivity|].
  intros _. by apply hoare_exit.
Qed.

Lemma usage_grows {A} w0 : keeps (grows o Q w0) (@usage _ A).
Proof. eapply hoare_conseq; [apply (usage_stops w0)|done..]. Qed.

Lemma getopt_loop_grows w0 l : forall o0,
  hoare (grows o Q w0) (getopt_loop l o0)
    (fun g w' => grows o Q w0 w' /\
       match g with Parsed o' => o' = fold_left set_by l o0 | Return _ => True end)
    (grows o Q w0).
Proof.
  induction l as [|c l IH]; intros o0; cbn [getopt_loop].
  - by apply hoare_ret.
  - eapply hoare_bind with
      (Mid := fun g w' => grows o Q w0 w' /\
                match g with Parsed o' => o' = set_by o0 c | Return _ => True end).
    + destruct c; cbn [apply_opt set_by];
        try (by apply hoare_ret).
      * eapply hoare_bind with (Mid := fun _ => grows o Q w0);
          [unfold printf; apply keeps_grows_emit; reflexivity|].
        intros _. by apply hoare_ret.
      * destruct (freopen optarg).
        -- eapply hoare_bind with (Mid := fun _ => grows o Q w0); [|intros _; by apply hoare_ret].
           grows_step.
        -- eapply hoare_bind with (Mid := fun _ => grows o Q w0); [|intros _; by apply hoare_exit].
           unfold fprintf_stderr. apply keeps_grows_emit. reflexivity.
      * eapply hoare_bind with (Mid := fun _ => grows o Q w0); [|intros _; by apply hoare_ret].
        grows_step.
      * eapply hoare_bind with (Mid := fun _ => grows o Q w0); [|intros _; by apply hoare_ret].
        grows_step.
      * eapply hoare_conseq; [apply (usage_stops w0)|done..].
    + intros [o'|code].
      * intros w [Hw ->]. by apply IH.
      * apply hoare_ret. by intros w [Hw _].
Qed.

Lemma main_grows w0 c :
  o = options_of (opts c) -> keeps (grows o Q w0) (main c).
Proof.
  intros Ho. unfold main.
  assert (keeps (grows o Q w0)
            (let* g := getopt_loop (opts c) initial_options in
             match g with
             | Parsed o0 =>
                 match operands c with
                 | [envname] =>
                     (if quiet o0 then ret tt else printf (MsgRunning envname));;;
                     modify (set_dbuf {| iov_base := fresh 0 4096; iov_len := 4096 |});;;
                     (let* mode := get w_mode in
                      (if Z.land mode NOHDR =? 0 then readhdr else ret tt);;;
                      (let* r := engine mdbx_env_create in
                       if negb (rc r =? 0)
                       then fprintf_stderr (MsgEnvCreateFailed (rc r));;; ret EXIT_FAILURE
                       else load o0 envname (out_handle r)))
                 | _ => usage
                 end
             | Return code => ret code
             end)) as Hmain.
  { eapply hoare_bind; [apply getopt_loop_grows|].
    intros [o0|code]; [|apply hoare_ret; by intros w [Hw _]].
    intros w [Hw Hp]. assert (o0 = o) as -> by (rewrite Ho; exact Hp).
    revert w Hw. change (keeps (grows o Q w0)
      match operands c with
      | [envname] =>
          (if quiet o then ret tt else printf (MsgRunning envname));;;
          modify (set_dbuf {| iov_base := fresh 0 4096; iov_len := 4096 |});;;
          (let* mode := get w_mode in
           (if Z.land mode NOHDR =? 0 then readhdr else ret tt);;;
           (let* r := engine mdbx_env_create in
            if negb (rc r =? 0)
            then fprintf_stderr (MsgEnvCreateFailed (rc r));;; ret EXIT_FAILURE
            else load o envname (out_handle r)))
      | _ => usage
      end).
    destruct (operands c) as [|envname [|]]; [apply usage_grows| |apply usage_grows].
    unfold printf.
    repeat first [apply load_grows | grows_step]. }
  destruct (opts c) as [|? ?]; [|exact Hmain].
  destruct (operands c) as [|? ?]; [|exact Hmain].
  apply usage_grows.
Qed.

End Grows2.

(** Every event of a run is in order, and whatever the calls the tool
    makes keep true of the engine is true at the end: this needs nothing
    of the constants of the engine's header. *)
Lemma run_in_order `{H : MdbxH} `{P : Platform} `{E : Engine}
    (Q : engine_state -> Prop) (c : cmdline) (input : bytes)
    (breaks : list bool) (e : engine_state) :
  (forall c s, used_call c = true -> Q s -> Q (snd (engine_call c s))) ->
  Q e ->
  Forall (fun ev => event_ok (options_of (opts c)) ev = true)
         (trace c input breaks e) /\
  Q (w_engine (final_world (run c input breaks e))).
Proof.
  intros HQ He. unfold trace, run.
  pose proof (keeps_final _ _ (initial_world input breaks e)
                (main_grows (options_of (opts c)) Q HQ
                   (initial_world input breaks e) c eq_refl)) as Hm.
  destruct Hm as (Hq & evs & Ho & Hf); [by apply grows_refl|].
  split; [|done]. rewrite Ho. by cbn.
Qed.

(** ** The events of a run, one at a time *)

Section Events.
Context `{H : MdbxH} `{P : Platform} `{E : Engine}.

Lemma trace_event_ok c input breaks e pre ev post :
  trace c input breaks e = pre ++ ev :: post ->
  event_ok (options_of (opts c)) ev = true.
Proof.
  intros Ht.
  destruct (run_in_order (fun _ => True) c input breaks e) as [Hf _]; [done..|].
  rewrite Ht in Hf. apply Forall_app in Hf as [_ Hf]. by inversion Hf.
Qed.

Lemma trace_watched c input breaks e pre ev post :
  Z.land MDBX_CREATE MDBX_DUPSORT = 0 ->
  trace c input breaks e = pre ++ ev :: post ->
  exists s1 s2 sf,
    watch_all (options_of (opts c)) start pre = Some s1 /\
    watch (options_of (opts c)) s1 ev = Some s2 /\
    watch_all (options_of (opts c)) s2 post = Some sf /\
    (ph sf = Steady \/
     (ph sf = Ended /\ exists w, run c input breaks e = Ret EXIT_FAILURE w)).
Proof.
  intros Hc Ht.
  destruct (run_accepted (fun _ => True) c input breaks e) as (sf & Hw & _ & Hend);
    [done..|].
  rewrite Ht in Hw. apply watch_all_split in Hw as (s1 & s2 & H1 & H2 & H3).
  by exists s1, s2, sf.
Qed.

(** A turn of the record loop that ends by [continue] hands the loop
    on to the next record. *)
Lemma load_records_continue fuel o v batch w v' batch' w' :
  load_record o v batch w = Ret (Continue v' batch') w' ->
  load_records (S fuel) o v batch w = load_records fuel o v' batch' w'.
Proof. intros Hr. cbn [load_records]. by rewrite (bind_run _ _ _ _ _ Hr). Qed.

End Events.

(** ** Values too large for the table *)

(** C1. With [-r], a put that fails with MDBX_BAD_VALSIZE is followed in
    the run by the skip message, and the record loop goes on to the next
    record with the same transaction, cursor and batch count; without
    [-r] the same failure is followed by the failure message, the abort
    of the transaction begun last and the close of the environment, and
    the run returns EXIT_FAILURE. *)
Theorem rescue_skips_oversize_value `{H : MdbxH} `{P : Platform} `{E : Engine} :
  Z.land MDBX_CREATE MDBX_DUPSORT = 0 ->
  MDBX_BAD_VALSIZE <> MDBX_KEYEXIST ->
  MDBX_BAD_VALSIZE <> 0 ->
  (forall c input breaks e pre cur key data f r post,
     trace c input breaks e = pre ++ Call (mdbx_cursor_put cur key data f) r :: post ->
     rc r = MDBX_BAD_VALSIZE ->
     (In Opt_r (opts c) ->
      exists l post', post = Stderr (MsgSkipLine l MDBX_BAD_VALSIZE) :: post') /\
     (~ In Opt_r (opts c) ->
      exists r1 h r2 w,
        post = [Stderr (MsgCursorPutFailed MDBX_BAD_VALSIZE);
                Call (mdbx_txn_abort (last_txn (view_of pre))) r1;
                Call (mdbx_env_close h) r2] /\
        run c input breaks e = Ret EXIT_FAILURE w)) /\
  (forall fuel o v batch w key w1 data w2,
     rescue o = true ->
     readline KBUF w = Ret (Some key) w1 ->
     readline DBUF w1 = Ret (Some data) w2 ->
     append o && negb (Z.land (w_dbi_flags w2) MDBX_DUPSORT =? 0)
       && negb (w_k0_live w2) = false ->
     let af := append_flag o (w_dbi_flags w2) (prevk v) key in
     let c := mdbx_cursor_put (mc v) (val_bytes key) (val_bytes data)
                (Z.lor (putflags o) (fst af)) in
     let r := fst (engine_call c (w_engine w2)) in
     let w3 := set_out (w_out w2 ++ [Call c r])
                 (set_engine (snd (engine_call c (w_engine w2))) w2) in
     rc r = MDBX_BAD_VALSIZE ->
     exists v',
       load_records (S fuel) o v batch w =
       load_records fuel o v' batch
         (set_out (w_out w3 ++ [Stderr (MsgSkipLine (w_lineno w2) MDBX_BAD_VALSIZE)]) w3)
       /\ txn v' = txn v /\ mc v' = mc v /\ dbi v' = dbi v /\ env v' = env v).
Proof.
  intros Hcreate Hne Hnz. split.
  - intros c input breaks e pre cur key data f r post Ht Hrc.
    destruct (trace_watched _ _ _ _ _ _ _ Hcreate Ht)
      as (s1 & s2 & sf & Hpre & Hput & Hpost & Hend).
    apply watch_put_inv in Hput as (_ & _ & Hph & Htxn).
    unfold after_put in Hph. rewrite Hrc in Hph.
    destruct (Z.eqb_spec MDBX_BAD_VALSIZE MDBX_KEYEXIST) as [|_]; [done|].
    rewrite Z.eqb_refl in Hph. cbn [andb] in Hph.
    assert (ph sf = Steady \/ ph sf = Ended) as Hsf by (destruct Hend as [|[? _]]; auto).
    split.
    + intros Hr. apply rescue_options_of in Hr. rewrite Hr in Hph.
      by eapply watch_all_await.
    + intros Hr.
      destruct (rescue (options_of (opts c))) eqn:Hro.
      { exfalso. apply Hr. by apply rescue_options_of. }
      destruct (Z.eqb_spec MDBX_BAD_VALSIZE 0) as [|_]; [done|]. cbn [negb] in Hph.
      destruct (watch_all_failing _ _ _ _ _ Hph Hpost Hsf) as (r1 & h & r2 & -> & Hended).
      destruct Hend as [Hs|[_ [w Hw]]]; [by rewrite Hs in Hended|].
      exists r1, h, r2, w. split; [|done].
      destruct (watch_all_view _ _ _ Hpre) as (_ & <- & _). by rewrite Htxn.
  - intros fuel o v batch w key w1 data w2 Hr Hk Hd Hlive af c r w3 Hrc.
    destruct (load_record_put o v batch w key w1 data w2 Hk Hd Hlive) as (_ & Hskip & _).
    cbv zeta in Hskip. fold af in Hskip. fold c in Hskip. fold r in Hskip.
    fold w3 in Hskip. rewrite Hrc in Hskip.
    destruct (Z.eqb_spec MDBX_BAD_VALSIZE MDBX_KEYEXIST) as [|_]; [done|].
    rewrite Z.eqb_refl, Hr in Hskip.
    eexists. split; [apply load_records_continue; by apply Hskip|done].
Qed.

Section OversizeRuns.
#[local] Existing Instances mdbx_h_values lp64 toy_engine.

Lemma rescue_skips_oversize_value_witness :
  (exists l post',
     drop 9 (trace (cmd [Opt_r]) oversize_dump [] no_records) =
     Stderr (MsgSkipLine l MDBX_BAD_VALSIZE) :: post') /\
  (exists r1 h r2 w,
     drop 9 (trace (cmd []) oversize_dump [] no_records) =
     [Stderr (MsgCursorPutFailed MDBX_BAD_VALSIZE);
      Call (mdbx_txn_abort 2) r1; Call (mdbx_env_close h) r2] /\
     run (cmd []) oversize_dump [] [] = Ret EXIT_FAILURE w) /\
  (exists v' w',
     load_records 3 (options_of [Opt_r]) loop_vars 0
       (loop_world (lines [" 61"; oversize_line; " 62"; " 63"]%string) 0 no_records) =
     load_records 2 (options_of [Opt_r]) v' 0 w' /\
     mc v' = 4 /\ w_stdin w' = lines [" 62"; " 63"]%string).
Proof.
  destruct (rescue_skips_oversize_value (H := mdbx_h_values) (P := lp64) (E := toy_engine))
    as [Htrace Hturn]; [reflexivity|done|done|].
  split; [|split].
  - destruct (Htrace (cmd [Opt_r]) oversize_dump [] []
                (take 8 (trace (cmd [Opt_r]) oversize_dump [] no_records))
                4 [97] (replicate 21 0) 0 {| rc := -30781; out_handle := 0 |}
                (drop 9 (trace (cmd [Opt_r]) oversize_dump [] no_records)))
      as [Hr _]; [vm_compute; reflexivity|reflexivity|].
    apply Hr. by left.
  - destruct (Htrace (cmd []) oversize_dump [] []
                (take 8 (trace (cmd []) oversize_dump [] no_records))
                4 [97] (replicate 21 0) 0 {| rc := -30781; out_handle := 0 |}
                (drop 9 (trace (cmd []) oversize_dump [] no_records)))
      as [_ Hn]; [vm_compute; reflexivity|reflexivity|].
    apply Hn. by intros [].
  - set (w := loop_world (lines [" 61"; oversize_line; " 62"; " 63"]%string) 0 no_records).
    destruct (Hturn 2%nat (options_of [Opt_r]) loop_vars 0 w
                (line_of (readline KBUF w)) (final_world (readline KBUF w))
                (line_of (readline DBUF (final_world (readline KBUF w))))
                (final_world (readline DBUF (final_world (readline KBUF w)))))
      as (v' & Hrun & _ & Hmc & _);
      [reflexivity|vm_compute; reflexivity|vm_compute; reflexivity|reflexivity
      |vm_compute; reflexivity|].
    eexists v', _. split; [exact Hrun|]. split; [exact Hmc|]. vm_compute. reflexivity.
Defined.

End OversizeRuns.

(** ** Keys that are in the table already *)

Lemma land_lor_part f a b :
  Z.land f (Z.lor a b) = Z.lor a b -> Z.land f a = a /\ Z.land f b = b.
Proof.
  intros Hf. split; apply Z.bits_inj'; intros n Hn;
    apply (f_equal (fun x => Z.testbit x n)) in Hf;
    rewrite Z.land_spec, Z.lor_spec in Hf; rewrite Z.land_spec;
    by destruct (Z.testbit f n), (Z.testbit a n), (Z.testbit b n).
Qed.


Section RepeatedKeyRuns.
#[local] Existing Instances mdbx_h_values lp64 toy_engine.


End RepeatedKeyRuns.

(** ** Append mode *)

Lemma land_lor_distr_r a b c : Z.land (Z.lor a b) c = Z.lor (Z.land a c) (Z.land b c).
Proof. apply Z.land_lor_distr_l. Qed.

Section AppendFlag.
Context `{H : MdbxH}.
Hypothesis no_overwrite_apart : Z.land MDBX_NOOVERWRITE MDBX_APPENDDUP = 0.
Hypothesis no_dup_data_apart : Z.land MDBX_NODUPDATA MDBX_APPENDDUP = 0.
Hypothesis append_apart : Z.land MDBX_APPEND MDBX_APPENDDUP = 0.
Hypothesis appenddup_set : MDBX_APPENDDUP <> 0.

Lemma putflags_apart l : Z.land (putflags (options_of l)) MDBX_APPENDDUP = 0.
Proof.
  unfold options_of. destruct (fold_set_by l initial_options) as (_ & _ & ->).
  destruct (existsb is_opt_N l); [|done].
  by rewrite Z.land_lor_distr_l, no_overwrite_apart, no_dup_data_apart.
Qed.

Lemma due_flag_appenddup l s key :
  append (options_of l) = true ->
  let f := Z.lor (putflags (options_of l)) (due_flag (options_of l) s key) in
  (dups s = true -> (Z.land f MDBX_APPENDDUP = MDBX_APPENDDUP <-> key = prev s)) /\
  (dups s = false -> Z.land f MDBX_APPENDDUP = 0).
Proof.
  intros Ha. cbv zeta. unfold due_flag. rewrite Ha.
  rewrite Z.land_lor_distr_l, putflags_apart, Z.lor_0_l.
  destruct (dups s); cbn [andb]; [|by split].
  split; [intros _|done].
  case_bool_decide as Hk.
  - by rewrite Z.land_lor_distr_l, append_apart, Z.land_diag, Z.lor_0_l.
  - rewrite append_apart. split; [intros Hz; by symmetry in Hz|done].
Qed.

End AppendFlag.


Section AppendRuns.
#[local] Existing Instances mdbx_h_values lp64 toy_engine.


(** C2. In append mode the put of a record in a table with sorted
    duplicates is meant to carry MDBX_APPENDDUP only when the key is
    that of the record before it. The tool compares with [prevk], whose
    length it sets to 0 when a section begins: the first record of the
    section has no record before it, and when its key is empty it is
    put with MDBX_APPENDDUP all the same. *)
Theorem first_record_carries_appenddup :
  exists pre cur data f r post,
    trace (cmd [Opt_a]) empty_key_dump [] no_records =
    pre ++ Call (mdbx_cursor_put cur [] data f) r :: post /\
    existsb is_put pre = false /\
    sorted_dups (view_of pre) = true /\
    Z.land f MDBX_APPENDDUP = MDBX_APPENDDUP.
Proof.
  exists (take 8 (trace (cmd [Opt_a]) empty_key_dump [] no_records)),
    4, [49], 393216, {| rc := 0; out_handle := 0 |},
    (drop 9 (trace (cmd [Opt_a]) empty_key_dump [] no_records)).
  vm_compute. by repeat split.
Qed.

End AppendRuns.

(** ** The calls of a run *)


(** In the small engine a key that is present stays present under the
    calls of the tool. *)
Lemma toy_lookup_store k k' d l :
  is_Some (toy_lookup k l) -> is_Some (toy_lookup k (toy_store k' d l)).
Proof.
  unfold toy_store, toy_lookup. cbn [find fst].
  case_bool_decide as Hk; [by eexists|].
  induction l as [|[k0 d0] l IH]; cbn [find filter]; [done|].
  unfold filter. cbn [list_filter fst].
  destruct (decide (k0 <> k')) as [Hn|Hn]; cbn [find fst].
  - case_bool_decide; [by eexists|]. apply IH.
  - case_bool_decide as Hk0; [|apply IH].
    exfalso. apply Hn. congruence.
Qed.

Lemma toy_call_keeps_key k c s :
  is_Some (toy_lookup k s) -> is_Some (toy_lookup k (snd (toy_call c s))).
Proof.
  intros Hs. destruct c; cbn; try done.
  repeat case_match; cbn; try done; by apply toy_lookup_store.
Qed.

Section LoadingRuns.
#[local] Existing Instances mdbx_h_values lp64 toy_engine.



End LoadingRuns.

(** ** Header lines *)

(** Numbers are read up to the first NUL. *)
Lemma digits_value_nul d t : forall acc,
  digits_value acc (d ++ 0 :: t) = digits_value acc d.
Proof.
  induction d as [|c d IH]; intros acc; cbn; [done|].
  destruct (isdigit c); [apply IH|done].
Qed.

Lemma take_sign_nul a t :
  take_sign (a ++ 0 :: t) = (fst (take_sign a), snd (take_sign a) ++ 0 :: t).
Proof.
  destruct a as [|c a]; [done|]. cbn.
  destruct (Z.eq_dec c 45) as [->|]; [done|].
  destruct (Z.eq_dec c 43) as [->|]; [done|].
  unfold take_sign. by repeat case_match.
Qed.

Lemma skip_space_nul a t :
  skip_space a = [] /\ skip_space (a ++ 0 :: t) = 0 :: t \/
  skip_space a <> [] /\ skip_space (a ++ 0 :: t) = skip_space a ++ 0 :: t.
Proof.
  induction a as [|c a IH]; cbn; [by left|].
  destruct (isspace c); [exact IH|by right].
Qed.

Lemma signed_digits_nul a t :
  fst (take_sign (skip_space (a ++ 0 :: t))) = fst (take_sign (skip_space a)) /\
  snd (take_sign (skip_space (a ++ 0 :: t))) =
  snd (take_sign (skip_space a)) ++ 0 :: t.
Proof.
  destruct (skip_space_nul a t) as [[-> ->]|[_ ->]]; [done|].
  by rewrite take_sign_nul.
Qed.

Lemma atoi_nul a t : atoi (a ++ 0 :: t) = atoi a.
Proof.
  unfold atoi. destruct (signed_digits_nul a t) as [Hs Hd].
  destruct (take_sign (skip_space (a ++ 0 :: t))) as [s d].
  destruct (take_sign (skip_space a)) as [s' d']. cbn in Hs, Hd. subst.
  by rewrite digits_value_nul.
Qed.

Lemma sscanf_unsigned_nul bits a t :
  sscanf_unsigned bits (a ++ 0 :: t) = sscanf_unsigned bits a.
Proof.
  unfold sscanf_unsigned. destruct (signed_digits_nul a t) as [Hs Hd].
  destruct (take_sign (skip_space (a ++ 0 :: t))) as [s d].
  destruct (take_sign (skip_space a)) as [s' d']. cbn in Hs, Hd. subst.
  rewrite digits_value_nul.
  assert (peek (d' ++ 0 :: t) 0 = peek d' 0) as -> by (by destruct d').
  done.
Qed.

Lemma memchr_app (a b : bytes) (c : Z) (n : nat) :
  no_byte c a -> (length a < n)%nat -> memchr (a ++ c :: b) c n = Some (length a).
Proof.
  intros Ha. revert n. induction Ha as [|x a Hx _ IH]; intros n Hn.
  - destruct n; [simpl in Hn; lia|]. cbn. by rewrite Z.eqb_refl.
  - destruct n; [simpl in Hn; lia|]. cbn [app memchr length].
    destruct (Z.eqb_spec x c); [done|]. rewrite IH by (simpl in Hn; lia). done.
Qed.

Lemma insert_app_mid (a b : bytes) (x y : Z) :
  <[length a := y]> (a ++ x :: b) = a ++ y :: b.
Proof. by rewrite insert_app_r_alt, Nat.sub_diag by lia. Qed.

Lemma c_string_app (a b : bytes) : no_byte 0 a -> c_string (a ++ 0 :: b) = a.
Proof.
  intros Ha. unfold c_string. rewrite strlen_app by done. by rewrite take_app_length.
Qed.

Section HeaderLines.
Context `{H : MdbxH} `{P : Platform} `{E : Engine}.

(** The state once [fgets] has stored a whole line in [dbuf]. *)
Definition header_line_read (line rest : bytes) (w : world) : world :=
  set_stdin rest
    (set_dbuf {| iov_base := line ++ 10 :: 0 :: drop (length line + 2) (iov_base (w_dbuf w));
                 iov_len := iov_len (w_dbuf w) |} w).

(** One turn of the loop of [readhdr] on a line that fits the buffer. *)
Lemma readhdr_loop_turn fuel w line rest :
  w_stdin w = line ++ 10 :: rest ->
  no_byte 10 line ->
  iov_len (w_dbuf w) <= INT_MAX ->
  (length line + 2 <= Z.to_nat (iov_len (w_dbuf w)))%nat ->
  (Z.to_nat (iov_len (w_dbuf w)) <= length (iov_base (w_dbuf w)))%nat ->
  readhdr_loop (S fuel) w =
  (let* next := readhdr_line in
   match next with
   | HdrContinue => readhdr_loop fuel
   | HdrReturn => ret tt
   end) (header_line_read line rest w).
Proof.
  intros Hin Hnl Hmax Hfit Hblk. cbn [readhdr_loop]. rewrite bind_get.
  assert (fgets DBUF 0 (iov_len (w_dbuf w)) w = Ret true (header_line_read line rest w))
    as Hf.
  { rewrite (fgets_reads DBUF 0 _ w (line ++ [10]) rest).
    - unfold header_line_read. cbn [get_buf set_buf]. unfold write_at.
      rewrite take_0, !length_app. cbn [app length].
      rewrite <- !app_assoc. cbn [app].
      by replace (0 + (length line + 1 + 1))%nat with (length line + 2)%nat by lia.
    - lia.
    - rewrite Hin. apply read_line_whole; [done|lia].
    - by destruct line.
    - cbn [get_buf]. rewrite length_app. cbn [length]. lia. }
  by rewrite (bind_run _ _ _ _ _ Hf).
Qed.

(** [dbuf] with its block replaced. *)
Definition with_dbuf (b : bytes) (w : world) : world :=
  set_dbuf {| iov_base := b; iov_len := iov_len (w_dbuf w) |} w.

Lemma strip_newline_line {B} (k : unit -> M B) w a b :
  iov_base (w_dbuf w) = a ++ 10 :: b ->
  no_byte 10 a ->
  (length a < Z.to_nat (iov_len (w_dbuf w)))%nat ->
  bind strip_newline k w = k tt (with_dbuf (a ++ 0 :: b) w).
Proof.
  intros Hb Ha Hn. unfold strip_newline. rewrite bind_modify. f_equal.
  unfold dbuf_memchr. rewrite Hb, memchr_app by done.
  unfold dbuf_poke, with_dbuf. by rewrite Hb, insert_app_mid.
Qed.

Lemma no_byte_app c (a b : bytes) : no_byte c a -> no_byte c b -> no_byte c (a ++ b).
Proof. intros. by apply Forall_app. Qed.

End HeaderLines.

Ltac prefix_eval :=
  repeat match goal with
    | |- context [has_prefix (?b ++ ?t) ?lit] =>
        let v := eval vm_compute in (has_prefix (b ++ t) lit) in
        change (has_prefix (b ++ t) lit) with v
    end;
  cbv iota.

Section KnownLines.
Context `{H : MdbxH} `{P : Platform} `{E : Engine}.

(** A line [database=NAME] makes NAME the name of the table. *)
Lemma readhdr_line_database w name tail :
  iov_base (w_dbuf w) = bytes_of "database=" ++ name ++ 10 :: 0 :: tail ->
  no_byte 10 name -> no_byte 0 name ->
  (9 + length name < Z.to_nat (iov_len (w_dbuf w)))%nat ->
  readhdr_line w =
  Ret HdrContinue
    (set_subname (Some name)
       (with_dbuf (bytes_of "database=" ++ name ++ 0 :: 0 :: tail)
          (set_lineno (w_lineno w + 1) w))).
Proof.
  intros Hb Hnl Hnul Hn. unfold readhdr_line.
  rewrite bind_modify, !bind_get. cbn [w_dbuf set_lineno w_lineno].
  rewrite Hb. prefix_eval.
  rewrite (strip_newline_line _ _ (bytes_of "database=" ++ name) (0 :: tail)).
  - rewrite bind_get, bind_modify. cbn [ret]. unfold ret. f_equal.
    unfold dbuf_after, with_dbuf. cbn [w_dbuf set_dbuf iov_base].
    rewrite <- app_assoc. f_equal. f_equal.
    change (drop (STRLENOF "database=") (bytes_of "database=" ++ name ++ 0 :: 0 :: tail))
      with (name ++ 0 :: 0 :: tail).
    by apply c_string_app.
  - cbn [w_dbuf set_lineno]. by rewrite Hb, <- app_assoc.
  - apply no_byte_app; [|done]. by repeat constructor.
  - cbn [w_dbuf set_lineno iov_len]. rewrite length_app.
    change (length (bytes_of "database=")) with 9%nat. lia.
Qed.

(** A line [mapsize=N] makes N the map size of the environment. *)
Lemma readhdr_line_mapsize w text tail N :
  iov_base (w_dbuf w) = bytes_of "mapsize=" ++ text ++ 10 :: 0 :: tail ->
  no_byte 10 text ->
  (8 + length text < Z.to_nat (iov_len (w_dbuf w)))%nat ->
  sscanf_unsigned 64 text = ScanOk N ->
  readhdr_line w =
  Ret HdrContinue
    (set_mapsize N
       (with_dbuf (bytes_of "mapsize=" ++ text ++ 0 :: 0 :: tail)
          (set_lineno (w_lineno w + 1) w))).
Proof.
  intros Hb Hnl Hn Hscan. unfold readhdr_line.
  rewrite bind_modify, !bind_get. cbn [w_dbuf set_lineno w_lineno].
  rewrite Hb. prefix_eval.
  rewrite (strip_newline_line _ _ (bytes_of "mapsize=" ++ text) (0 :: tail)).
  - rewrite bind_get.
    unfold dbuf_after, with_dbuf at 1. cbn [w_dbuf set_dbuf iov_base].
    rewrite <- app_assoc.
    change (drop (STRLENOF "mapsize=") (bytes_of "mapsize=" ++ text ++ 0 :: 0 :: tail))
      with (text ++ 0 :: 0 :: tail).
    rewrite sscanf_unsigned_nul, Hscan. by rewrite bind_modify.
  - cbn [w_dbuf set_lineno]. by rewrite Hb, <- app_assoc.
  - apply no_byte_app; [|done]. by repeat constructor.
  - cbn [w_dbuf set_lineno iov_len]. rewrite length_app.
    change (length (bytes_of "mapsize=")) with 8%nat. lia.
Qed.

End KnownLines.

(** ** The table of a section *)

Section SectionTable.
Context `{H : MdbxH} `{P : Platform} `{E : Engine}.

Lemma read_user_break_false w :
  head (w_user_break w) <> Some true ->
  exists w0, read_user_break w = Ret false w0 /\ w_engine w0 = w_engine w /\
             w_out w0 = w_out w /\ w_subname w0 = w_subname w /\
             w_dbi_flags w0 = w_dbi_flags w.
Proof.
  intros Hb. unfold read_user_break. destruct (w_user_break w) as [|[] l].
  - by exists w.
  - done.
  - by eexists.
Qed.

(** A section begins a transaction and opens in it the table named by
    [subname], with the flags of the header and MDBX_CREATE. *)
Lemma load_section_opens o v w :
  head (w_user_break w) <> Some true ->
  let r1 := fst (engine_call (mdbx_txn_begin (env v) NULL 0) (w_engine w)) in
  rc r1 = 0 ->
  exists r2 rest,
    w_out (final_world (load_section o v w)) =
    w_out w ++
    Call (mdbx_txn_begin (env v) NULL 0) r1 ::
    Call (mdbx_dbi_open_ex (out_handle r1) (w_subname w)
            (Z.lor (w_dbi_flags w) MDBX_CREATE)
            (comparers_for o) (comparers_for o)) r2 :: rest.
Proof.
  intros Hb r1 Hrc.
  destruct (read_user_break_false w Hb) as (w0 & Hrun & He & Ho & Hs & Hf).
  unfold load_section. rewrite (bind_run _ _ _ _ _ Hrun).
  rewrite bind_engine, He. fold r1. rewrite Hrc. cbn [Z.eqb negb].
  rewrite !bind_get, bind_engine.
  cbn [w_subname w_dbi_flags set_out set_engine w_engine w_out txn set_txn].
  rewrite Hs, Hf, Ho.
  set (c2 := mdbx_dbi_open_ex _ _ _ _ _).
  set (r2 := fst (engine_call c2 _)).
  set (w2 := set_out _ _).
  assert (forall (c : call) (s : engine_state), used_call c = true -> True -> True)
    as HQ by done.
  match goal with
  | |- context [final_world (?m w2)] =>
      assert (keeps (grows o (fun _ => True) w2) m) as Hk
  end.
  { repeat first [apply load_records_grows; done | grows_step; try done]. }
  destruct (keeps_final _ _ w2 Hk) as (_ & evs & Hout & _); [by apply grows_refl|].
  exists r2, evs. rewrite Hout. subst w2. cbn [w_out set_out].
  by rewrite <- !app_assoc.
Qed.

Lemma hoare_any {A} (m : M A) :
  hoare (fun _ => True) m (fun _ _ => True) (fun _ => True).
Proof. intros w _. by destruct (m w). Qed.

(** A section that ends well leaves no table name behind: the next
    section has the name its own header gives, or none. *)
Lemma load_section_resets o v :
  hoare (fun _ => True) (load_section o v)
    (fun r w' =>
       match r with
       | Again _ =>
           exists w1, w_subname w1 = None /\
             if Z.land (w_mode w1) NOHDR =? 0 then readhdr w1 = Ret tt w'
             else w' = w1
       | Goto _ _ => True
       end)
    (fun _ => True).
Proof.
  unfold load_section.
  eapply hoare_bind; [apply hoare_any|]. intros stop. cbv beta.
  destruct stop; [by apply hoare_ret|].
  eapply hoare_bind; [apply hoare_any|]. intros r1. cbv beta.
  destruct (negb (rc r1 =? 0)).
  { eapply hoare_bind; [apply hoare_any|]. intros ?. by apply hoare_ret. }
  eapply hoare_bind; [apply hoare_any|]. intros subname. cbv beta.
  eapply hoare_bind; [apply hoare_any|]. intros flags. cbv beta.
  eapply hoare_bind; [apply hoare_any|]. intros r2. cbv beta.
  destruct (negb (rc r2 =? 0)).
  { eapply hoare_bind; [apply hoare_any|]. intros ?. by apply hoare_ret. }
  eapply hoare_bind; [apply hoare_any|]. intros r3. cbv beta.
  destruct (negb (rc r3 =? 0)).
  { eapply hoare_bind; [apply hoare_any|]. intros ?. by apply hoare_ret. }
  eapply hoare_bind; [apply hoare_any|]. intros turns. cbv beta.
  eapply hoare_bind; [apply hoare_any|]. intros [[l|] v4]; cbv beta.
  { by apply hoare_ret. }
  eapply hoare_bind; [apply hoare_any|]. intros r5. cbv beta.
  destruct (negb (rc r5 =? 0)).
  { eapply hoare_bind; [apply hoare_any|]. intros lineno.
    eapply hoare_bind; [apply hoare_any|]. intros ?. by apply hoare_ret. }
  eapply hoare_bind; [apply hoare_any|]. intros ?. cbv beta.
  intros w _. rewrite bind_modify, bind_get.
  set (w1 := set_subname None w).
  destruct (Z.land (w_mode w1) NOHDR =? 0) eqn:Hmode.
  - destruct (readhdr w1) as [[] w'|c w'|f w'] eqn:Hh.
    + rewrite (bind_run _ _ _ _ _ Hh). cbn. exists w1. by rewrite Hmode.
    + by rewrite (bind_stop_exit _ _ _ _ _ Hh).
    + by rewrite (bind_stop_fault _ _ _ _ _ Hh).
  - rewrite bind_ret. cbn. exists w1. by rewrite Hmode.
Qed.

(** [-s NAME] makes NAME the table name the first header starts from. *)
Lemma apply_opt_s o name w :
  apply_opt o (Opt_s name) w = Ret (Parsed o) (set_subname (Some name) w).
Proof. done. Qed.

End SectionTable.

Section NamedTable.
Context `{H : MdbxH} `{P : Platform} `{E : Engine}.

(** The loop of [readhdr] at a line [database=NAME]. *)
Lemma readhdr_loop_database fuel w name rest :
  w_stdin w = bytes_of "database=" ++ name ++ 10 :: rest ->
  no_byte 10 name -> no_byte 0 name ->
  iov_len (w_dbuf w) <= INT_MAX ->
  (length name + 11 <= Z.to_nat (iov_len (w_dbuf w)))%nat ->
  (Z.to_nat (iov_len (w_dbuf w)) <= length (iov_base (w_dbuf w)))%nat ->
  exists w',
    readhdr_loop (S fuel) w = readhdr_loop fuel w' /\
    w_subname w' = Some name /\ w_stdin w' = rest /\
    w_out w' = w_out w /\ w_engine w' = w_engine w.
Proof.
  intros Hin Hnl Hnul Hmax Hfit Hblk.
  rewrite (readhdr_loop_turn fuel w (bytes_of "database=" ++ name) rest).
  - set (w1 := header_line_read _ _ _).
    assert (readhdr_line w1 = Ret HdrContinue
              (set_subname (Some name)
                 (with_dbuf
                    (bytes_of "database=" ++ name ++ 0 :: 0 ::
                     drop (length (bytes_of "database=" ++ name) + 2) (iov_base (w_dbuf w)))
                    (set_lineno (w_lineno w1 + 1) w1)))) as Hline.
    { apply readhdr_line_database; [|done|done|].
      - subst w1. unfold header_line_read. cbn [w_dbuf set_stdin set_dbuf iov_base].
        by rewrite <- app_assoc.
      - subst w1. unfold header_line_read. cbn [w_dbuf set_stdin set_dbuf iov_len]. lia. }
    rewrite (bind_run _ _ _ _ _ Hline). by eexists.
  - by rewrite Hin, <- app_assoc.
  - apply no_byte_app; [|done]. by repeat constructor.
  - done.
  - rewrite length_app. change (length (bytes_of "database=")) with 9%nat. lia.
  - done.
Qed.

End NamedTable.

(** C5, amended. Every table a run opens is opened with MDBX_CREATE,
    and with [anyway_greater] for keys and for values in append mode
    and no comparison function otherwise. A section opens the table
    named by [subname] as it stands when the section begins (none: the
    main table): [-s NAME] sets it before the first header is read, a
    header line [database=NAME] replaces it, and the end of every
    section clears it, so that a later section is named by its own
    header alone. *)
Theorem section_opens_current_subname `{H : MdbxH} `{P : Platform} `{E : Engine} :
  (forall c input breaks e pre t name f kc dc r post,
     trace c input breaks e = pre ++ Call (mdbx_dbi_open_ex t name f kc dc) r :: post ->
     Z.land f MDBX_CREATE = MDBX_CREATE /\
     (In Opt_a (opts c) -> kc = Some AnywayGreater /\ dc = Some AnywayGreater) /\
     (~ In Opt_a (opts c) -> kc = None /\ dc = None)) /\
  (forall o v w,
     head (w_user_break w) <> Some true ->
     let r1 := fst (engine_call (mdbx_txn_begin (env v) NULL 0) (w_engine w)) in
     rc r1 = 0 ->
     exists r2 rest,
       w_out (final_world (load_section o v w)) =
       w_out w ++
       Call (mdbx_txn_begin (env v) NULL 0) r1 ::
       Call (mdbx_dbi_open_ex (out_handle r1) (w_subname w)
               (Z.lor (w_dbi_flags w) MDBX_CREATE)
               (if append o then Some AnywayGreater else None)
               (if append o then Some AnywayGreater else None)) r2 :: rest) /\
  (forall o name w,
     apply_opt o (Opt_s name) w = Ret (Parsed o) (set_subname (Some name) w)) /\
  (forall fuel w name rest,
     w_stdin w = bytes_of "database=" ++ name ++ 10 :: rest ->
     no_byte 10 name -> no_byte 0 name ->
     iov_len (w_dbuf w) <= INT_MAX ->
     (length name + 11 <= Z.to_nat (iov_len (w_dbuf w)))%nat ->
     (Z.to_nat (iov_len (w_dbuf w)) <= length (iov_base (w_dbuf w)))%nat ->
     exists w',
       readhdr_loop (S fuel) w = readhdr_loop fuel w' /\
       w_subname w' = Some name /\ w_stdin w' = rest) /\
  (forall o v w v' w',
     load_section o v w = Ret (Again v') w' ->
     exists w1, w_subname w1 = None /\
       if Z.land (w_mode w1) NOHDR =? 0 then readhdr w1 = Ret tt w' else w' = w1).
Proof.
  split; [|split; [|split; [|split]]].
  - intros c input breaks e pre t name f kc dc r post Ht.
    pose proof (trace_event_ok _ _ _ _ _ _ _ Ht) as Hok. cbn in Hok.
    apply andb_true_iff in Hok as [Hok Hdc]. apply andb_true_iff in Hok as [Hf Hkc].
    apply Z.eqb_eq in Hf. apply bool_decide_eq_true in Hdc, Hkc.
    unfold comparers_for in Hdc, Hkc.
    split; [done|]. split; intros Ha.
    + apply append_options_of in Ha. by rewrite Ha in Hdc, Hkc.
    + destruct (append (options_of (opts c))) eqn:Hap; [|done].
      exfalso. apply Ha. by apply append_options_of.
  - intros o v w Hb r1 Hrc. by apply load_section_opens.
  - done.
  - intros fuel w name rest Hin Hnl Hnul Hmax Hfir Hblk.
    destruct (readhdr_loop_database fuel w name rest) as (w' & ? & ? & ? & _); [done..|].
    by exists w'.
  - intros o v w v' w' Hrun.
    pose proof (load_section_resets o v w I) as Hr. by rewrite Hrun in Hr.
Qed.

Section TableRuns.
#[local] Existing Instances mdbx_h_values lp64 toy_engine.

Lemma section_opens_current_subname_witness :
  (exists w',
     readhdr_loop 3 (loop_world (lines ["database=t"; "HEADER=END"]%string) 0 no_records) =
     readhdr_loop 2 w' /\
     w_subname w' = Some table_name /\ w_stdin w' = lines ["HEADER=END"]%string) /\
  (exists r2 rest,
     w_out (final_world
              (load_section (options_of []) loop_vars
                 (set_subname (Some table_name)
                    (loop_world (lines [" 61"; " 31"; "DATA=END"]%string) 0 no_records)))) =
     [] ++
     Call (mdbx_txn_begin 1 NULL 0) {| rc := 0; out_handle := 2 |} ::
     Call (mdbx_dbi_open_ex 2 (Some table_name) (Z.lor 0 MDBX_CREATE) None None) r2 ::
     rest).
Proof.
  destruct (section_opens_current_subname (H := mdbx_h_values) (P := lp64)
              (E := toy_engine)) as (_ & Hopen & _ & Hline & _).
  split.
  - apply (Hline 2%nat _ table_name (lines ["HEADER=END"]%string)).
    + vm_compute. reflexivity.
    + by repeat constructor.
    + by repeat constructor.
    + by vm_compute.
    + cbn. lia.
    + cbn [loop_world w_dbuf iov_len iov_base]. unfold fresh.
      rewrite length_map, length_seq. lia.
  - apply (Hopen (options_of []) loop_vars
             (set_subname (Some table_name)
                (loop_world (lines [" 61"; " 31"; "DATA=END"]%string) 0 no_records))).
    + by cbn.
    + reflexivity.
Defined.

(** With [-s t] and a dump of two sections that name no table, the
    second section is loaded into the main table. *)
Lemma second_section_forgets_option_name :
  opened_names (trace (cmd [Opt_s table_name]) two_sections_dump [] no_records) =
  [Some table_name; None].
Proof. vm_compute. reflexivity. Qed.

End TableRuns.

(** ** The map size of the header *)

Section MapSize.
Context `{H : MdbxH} `{P : Platform} `{E : Engine}.

(** The loop of [readhdr] at a line [mapsize=N]. *)
Lemma readhdr_loop_mapsize fuel w text rest N :
  w_stdin w = bytes_of "mapsize=" ++ text ++ 10 :: rest ->
  no_byte 10 text ->
  sscanf_unsigned 64 text = ScanOk N ->
  iov_len (w_dbuf w) <= INT_MAX ->
  (length text + 10 <= Z.to_nat (iov_len (w_dbuf w)))%nat ->
  (Z.to_nat (iov_len (w_dbuf w)) <= length (iov_base (w_dbuf w)))%nat ->
  exists w',
    readhdr_loop (S fuel) w = readhdr_loop fuel w' /\
    mi_mapsize (w_envinfo w') = N /\ w_stdin w' = rest /\
    w_out w' = w_out w /\ w_engine w' = w_engine w.
Proof.
  intros Hin Hnl Hscan Hmax Hfit Hblk.
  rewrite (readhdr_loop_turn fuel w (bytes_of "mapsize=" ++ text) rest).
  - set (w1 := header_line_read _ _ _).
    assert (readhdr_line w1 = Ret HdrContinue
              (set_mapsize N
                 (with_dbuf
                    (bytes_of "mapsize=" ++ text ++ 0 :: 0 ::
                     drop (length (bytes_of "mapsize=" ++ text) + 2) (iov_base (w_dbuf w)))
                    (set_lineno (w_lineno w1 + 1) w1)))) as Hline.
    { apply readhdr_line_mapsize; [|done| |done].
      - subst w1. unfold header_line_read. cbn [w_dbuf set_stdin set_dbuf iov_base].
        by rewrite <- app_assoc.
      - subst w1. unfold header_line_read. cbn [w_dbuf set_stdin set_dbuf iov_len]. lia. }
    rewrite (bind_run _ _ _ _ _ Hline). by eexists.
  - by rewrite Hin, <- app_assoc.
  - apply no_byte_app; [|done]. by repeat constructor.
  - done.
  - rewrite length_app. change (length (bytes_of "mapsize=")) with 8%nat. lia.
  - done.
Qed.

Lemma grows_out o (m : M Z) w :
  keeps (grows o (fun _ => True) w) m ->
  exists evs, w_out (final_world (m w)) = w_out w ++ evs.
Proof.
  intros Hk. destruct (keeps_final _ _ w Hk) as (_ & evs & Hout & _);
    [by apply grows_refl|]. by exists evs.
Qed.

(** What [main] does with the map size once the environment is
    created. *)
Lemma load_mapsize o envname e w :
  let N := mi_mapsize (w_envinfo w) in
  let r0 := fst (engine_call (mdbx_env_set_maxdbs e 2) (w_engine w)) in
  let s0 := snd (engine_call (mdbx_env_set_maxdbs e 2) (w_engine w)) in
  let geometry := mdbx_env_set_geometry e 0 0 N (-1) (-1) (-1) in
  let opening := mdbx_env_open e envname (envflags o) 436 in
  (N = 0 ->
   exists rest,
     w_out (final_world (load o envname e w)) =
     w_out w ++ Call (mdbx_env_set_maxdbs e 2) r0 ::
                Call opening (fst (engine_call opening s0)) :: rest) /\
  (N <> 0 -> N <= INTPTR_MAX ->
   let r1 := fst (engine_call geometry s0) in
   let s1 := snd (engine_call geometry s0) in
   (rc r1 = 0 ->
    exists rest,
      w_out (final_world (load o envname e w)) =
      w_out w ++ Call (mdbx_env_set_maxdbs e 2) r0 :: Call geometry r1 ::
                 Call opening (fst (engine_call opening s1)) :: rest) /\
   (rc r1 <> 0 ->
    exists w',
      load o envname e w = Ret EXIT_FAILURE w' /\
      w_out w' =
      w_out w ++ [Call (mdbx_env_set_maxdbs e 2) r0; Call geometry r1;
                  Stderr (MsgSetGeometryFailed (rc r1));
                  Call (mdbx_env_close e) (fst (engine_call (mdbx_env_close e) s1))])) /\
  (0 <= INTPTR_MAX < N ->
   exists w',
     load o envname e w = Ret EXIT_SUCCESS w' /\
     w_out w' =
     w_out w ++ [Call (mdbx_env_set_maxdbs e 2) r0; Stderr (MsgMapsizeTooLarge N);
                 Call (mdbx_env_close e) (fst (engine_call (mdbx_env_close e) s0))]).
Proof.
  intros N r0 s0 geometry opening.
  assert (forall (c : call) (s : engine_state), used_call c = true -> True -> True)
    as HQ by done.
  unfold load. rewrite bind_engine, bind_get. fold r0 s0.
  cbn [w_envinfo set_out set_engine]. fold N.
  split; [|split].
  - intros ->. cbn [Z.eqb]. rewrite bind_ret, bind_engine.
    cbn [w_engine set_out set_engine]. fold opening.
    set (w2 := set_out _ _).
    match goal with
    | |- context [final_world (?m w2)] =>
        destruct (grows_out o m w2) as (evs & ->)
    end.
    { repeat first [apply load_loop_grows; done | apply finish_grows; done
                   | grows_step; try done]. }
    exists evs. subst w2. cbn [w_out set_out]. by rewrite <- !app_assoc.
  - intros Hnz Hle.
    destruct (Z.eqb_spec N 0) as [|_]; [done|].
    destruct (Z.ltb_spec INTPTR_MAX N) as [|_]; [lia|].
    rewrite bind_assoc, bind_engine. cbn [w_engine set_out set_engine].
    fold geometry. cbv zeta. split.
    + intros Hrc. rewrite Hrc. cbn [Z.eqb negb]. rewrite bind_ret, bind_engine.
      cbn [w_engine set_out set_engine]. fold opening.
      set (w2 := set_out _ _).
      match goal with
      | |- context [final_world (?m w2)] =>
          destruct (grows_out o m w2) as (evs & ->)
      end.
      { repeat first [apply load_loop_grows; done | apply finish_grows; done
                     | grows_step; try done]. }
      exists evs. subst w2. cbn [w_out set_out]. by rewrite <- !app_assoc.
    + intros Hrc. destruct (Z.eqb_spec (rc (fst (engine_call geometry s0))) 0) as [|_]; [done|].
      cbn [negb]. unfold fprintf_stderr. rewrite bind_assoc, bind_emit, bind_ret.
      unfold finish. rewrite bind_ret, bind_engine. cbn [ret v_rc set_rc].
      destruct (Z.eqb_spec (rc (fst (engine_call geometry s0))) 0) as [|_]; [done|].
      eexists. split; [reflexivity|]. cbn [w_out set_out set_engine w_engine env].
      by rewrite <- !app_assoc.
  - intros Hgt.
    destruct (Z.eqb_spec N 0) as [Hz|_]; [lia|].
    destruct (Z.ltb_spec INTPTR_MAX N) as [_|]; [|lia].
    unfold fprintf_stderr. rewrite bind_assoc, bind_emit, bind_ret.
    unfold finish. rewrite bind_ret, bind_engine. cbn [ret v_rc].
    eexists. split; [reflexivity|]. cbn [w_out set_out set_engine w_engine env].
    by rewrite <- !app_assoc.
Qed.

End MapSize.


Section MapSizeRuns.
#[local] Existing Instances mdbx_h_values lp64 toy_engine.



End MapSizeRuns.

(** ** The claims on the reading of hexadecimal lines *)

(** C9. For two hexadecimal digits [unhex] returns sixteen times the
    value of the first plus the value of the second, a byte; digits
    after the second are not looked at, and the case of the letters
    makes no difference. *)
Theorem unhex_two_digit_value (a b : Z) (rest : bytes) :
  isxdigit a = true -> isxdigit b = true ->
  unhex (a :: b :: rest) = 16 * hex_digit_value a + hex_digit_value b /\
  0 <= unhex (a :: b :: rest) < 256 /\
  unhex (to_lower a :: to_lower b :: rest) = unhex (a :: b :: rest) /\
  unhex (to_upper a :: to_upper b :: rest) = unhex (a :: b :: rest).
Proof.
  intros Ha Hb. rewrite !unhex_only_two.
  pose proof (unhex_pair_spec a b Ha Hb) as T.
  unfold unhex_pair_ok in T. rewrite !andb_true_iff in T.
  destruct T as [[[[T1 T2] T3] T4] T5].
  apply Z.eqb_eq in T1, T2, T3. apply Z.leb_le in T4. apply Z.ltb_lt in T5.
  repeat split; done.
Qed.

Lemma unhex_two_digit_value_witness :
  unhex [65; 102] = 175 /\ unhex [97; 70] = unhex [65; 102].
Proof.
  destruct (unhex_two_digit_value 65 102 []) as (Hv & _ & Hl & _);
    [reflexivity|reflexivity|].
  destruct (unhex_two_digit_value 97 70 []) as (_ & _ & _ & Hu);
    [reflexivity|reflexivity|].
  split; [exact Hv|].
  transitivity (unhex [to_upper 97; to_upper 70]); [reflexivity|].
  transitivity (unhex [97; 70]); [exact Hu|]. reflexivity.
Defined.


Section HexRuns.
#[local] Existing Instances mdbx_h_values lp64 toy_engine.



End HexRuns.

(** ** Header lines [readhdr] knows and does not know *)

Section OtherLines.
Context `{H : MdbxH} `{P : Platform} `{E : Engine}.

(** A line [VERSION=n]. *)
Lemma readhdr_line_version w text tail n :
  iov_base (w_dbuf w) = bytes_of "VERSION=" ++ text ++ 10 :: 0 :: tail ->
  atoi (text ++ [10]) = Some n ->
  readhdr_line w =
  if 3 <? n then
    Exit EXIT_FAILURE
      (set_out (w_out w ++ [Stderr (MsgUnsupportedVersion (w_lineno w + 1) n)])
         (set_version n (set_lineno (w_lineno w + 1) w)))
  else Ret HdrContinue (set_version n (set_lineno (w_lineno w + 1) w)).
Proof.
  intros Hb Hn. unfold readhdr_line.
  rewrite bind_modify, !bind_get. cbn [w_dbuf set_lineno w_lineno].
  rewrite Hb. prefix_eval.
  change (drop (STRLENOF "VERSION=") (bytes_of "VERSION=" ++ text ++ 10 :: 0 :: tail))
    with (text ++ 10 :: 0 :: tail).
  replace (text ++ 10 :: 0 :: tail) with ((text ++ [10]) ++ 0 :: tail)
    by (by rewrite <- app_assoc).
  rewrite atoi_nul, Hn, bind_modify.
  destruct (3 <? n); [|done].
  unfold fprintf_stderr. by rewrite bind_emit.
Qed.

(** The line [HEADER=END]. *)
Lemma readhdr_line_end w tail :
  iov_base (w_dbuf w) = bytes_of "HEADER=END" ++ tail ->
  readhdr_line w = Ret HdrReturn (set_lineno (w_lineno w + 1) w).
Proof.
  intros Hb. unfold readhdr_line.
  rewrite bind_modify, !bind_get. cbn [w_dbuf set_lineno w_lineno].
  rewrite Hb. by prefix_eval.
Qed.

(** A line that starts with no keyword [readhdr] knows: it is warned
    of and passed over if there is an equals sign anywhere in the first
    [iov_len] bytes of the buffer, and ends the program if not. *)
Lemma readhdr_line_other w :
  known_keyword (iov_base (w_dbuf w)) = false ->
  readhdr_line w =
  let w1 := set_lineno (w_lineno w + 1) w in
  match dbuf_memchr 61 w with
  | None =>
      Exit EXIT_FAILURE
        (set_out (w_out w ++ [Stderr (MsgUnexpectedFormat (w_lineno w + 1))]) w1)
  | Some i =>
      Ret HdrContinue
        (set_out (w_out w ++
                  [Stderr (MsgUnrecognizedKeyword (w_lineno w + 1)
                             (c_string (<[i := 0]> (iov_base (w_dbuf w)))))])
           (dbuf_poke i w1))
  end.
Proof.
  intros Hk. unfold known_keyword in Hk. rewrite !orb_false_iff in Hk.
  destruct Hk as [[[[[[[[[[H1 H2] H3] H4] H5] H6] H7] H8] H9] H10] H11].
  unfold readhdr_line.
  rewrite bind_modify, !bind_get. cbn [w_dbuf set_lineno w_lineno].
  rewrite H1, H2, H3, H4, H5, H6, H7, H8, H9, H10.
  destruct (scan_dbflags dbflags (iov_base (w_dbuf w))); [done|].
  rewrite bind_get. cbv zeta.
  change (dbuf_memchr 61 (set_lineno (w_lineno w + 1) w)) with (dbuf_memchr 61 w).
  destruct (dbuf_memchr 61 w) as [i|].
  - rewrite bind_modify, bind_get. unfold fprintf_stderr. by rewrite bind_emit.
  - unfold fprintf_stderr. by rewrite bind_emit.
Qed.

End OtherLines.

Lemma memchr_none (s : bytes) (c : Z) (n : nat) :
  no_byte c (take n s) -> memchr s c n = None.
Proof.
  revert s. induction n as [|n IH]; intros s Hs; [by destruct s|].
  destruct s as [|x s]; [done|]. cbn in Hs. inversion Hs as [|? ? Hx Hs']; subst.
  cbn. destruct (Z.eqb_spec x c); [done|]. by rewrite IH.
Qed.

Section HeaderTurns.
Context `{H : MdbxH} `{P : Platform} `{E : Engine}.

(** The settings a header accumulates. *)
Definition same_settings (w w' : world) : Prop :=
  w_dbi_flags w' = w_dbi_flags w /\ w_envinfo w' = w_envinfo w /\
  w_subname w' = w_subname w /\ w_mode w' = w_mode w /\
  w_version w' = w_version w /\ w_Eof w' = w_Eof w.

Lemma header_line_read_buf line rest w :
  iov_base (w_dbuf (header_line_read line rest w)) =
  line ++ 10 :: 0 :: drop (length line + 2) (iov_base (w_dbuf w)).
Proof. done. Qed.

End HeaderTurns.

(** X1. A header line [VERSION=n] with n above 3 ends the program with
    EXIT_FAILURE, after the message that the version is not
    supported. *)
Theorem readhdr_rejects_later_version `{H : MdbxH} `{P : Platform} `{E : Engine}
    (fuel : nat) (w : world) (text rest : bytes) (n : Z) :
  w_stdin w = bytes_of "VERSION=" ++ text ++ 10 :: rest ->
  no_byte 10 text ->
  atoi (text ++ [10]) = Some n -> 3 < n ->
  iov_len (w_dbuf w) <= INT_MAX ->
  (length text + 10 <= Z.to_nat (iov_len (w_dbuf w)))%nat ->
  (Z.to_nat (iov_len (w_dbuf w)) <= length (iov_base (w_dbuf w)))%nat ->
  exists w',
    readhdr_loop (S fuel) w = Exit EXIT_FAILURE w' /\
    w_out w' = w_out w ++ [Stderr (MsgUnsupportedVersion (w_lineno w + 1) n)].
Proof.
  intros Hin Hnl Hn Hgt Hmax Hfit Hblk.
  rewrite (readhdr_loop_turn fuel w (bytes_of "VERSION=" ++ text) rest).
  - set (w1 := header_line_read _ _ _).
    assert (readhdr_line w1 =
            Exit EXIT_FAILURE
              (set_out (w_out w1 ++ [Stderr (MsgUnsupportedVersion (w_lineno w1 + 1) n)])
                 (set_version n (set_lineno (w_lineno w1 + 1) w1)))) as Hline.
    { rewrite (readhdr_line_version w1 text
                 (drop (length (bytes_of "VERSION=" ++ text) + 2) (iov_base (w_dbuf w))) n).
      - destruct (Z.ltb_spec 3 n); [done|lia].
      - subst w1. rewrite header_line_read_buf. by rewrite <- app_assoc.
      - done. }
    rewrite (bind_stop_exit _ _ _ _ _ Hline). by eexists.
  - by rewrite Hin, <- app_assoc.
  - apply no_byte_app; [|done]. by repeat constructor.
  - done.
  - rewrite length_app. change (length (bytes_of "VERSION=")) with 8%nat. lia.
  - done.
Qed.

(** X2. The header line [HEADER=END] ends [readhdr]: it returns with
    the settings as the lines before have left them. *)
Theorem readhdr_returns_at_header_end `{H : MdbxH} `{P : Platform} `{E : Engine}
    (fuel : nat) (w : world) (text rest : bytes) :
  w_stdin w = bytes_of "HEADER=END" ++ text ++ 10 :: rest ->
  no_byte 10 text ->
  iov_len (w_dbuf w) <= INT_MAX ->
  (length text + 12 <= Z.to_nat (iov_len (w_dbuf w)))%nat ->
  (Z.to_nat (iov_len (w_dbuf w)) <= length (iov_base (w_dbuf w)))%nat ->
  exists w',
    readhdr_loop (S fuel) w = Ret tt w' /\
    w_stdin w' = rest /\ same_settings w w' /\ w_out w' = w_out w.
Proof.
  intros Hin Hnl Hmax Hfit Hblk.
  rewrite (readhdr_loop_turn fuel w (bytes_of "HEADER=END" ++ text) rest).
  - set (w1 := header_line_read _ _ _).
    assert (readhdr_line w1 = Ret HdrReturn (set_lineno (w_lineno w1 + 1) w1)) as Hline.
    { apply (readhdr_line_end w1
               (text ++ 10 :: 0 ::
                drop (length (bytes_of "HEADER=END" ++ text) + 2) (iov_base (w_dbuf w)))).
      subst w1. rewrite header_line_read_buf. by rewrite <- app_assoc. }
    rewrite (bind_run _ _ _ _ _ Hline). eexists. split; [reflexivity|].
    by repeat split.
  - by rewrite Hin, <- app_assoc.
  - apply no_byte_app; [|done]. by repeat constructor.
  - done.
  - rewrite length_app. change (length (bytes_of "HEADER=END")) with 10%nat. lia.
  - done.
Qed.

(** X3. A header line [key=value] that starts with no keyword [readhdr]
    knows is passed over with the warning that the keyword is not
    recognized, and the loop goes on with the settings unchanged. *)
Theorem readhdr_warns_of_unknown_keyword `{H : MdbxH} `{P : Platform} `{E : Engine}
    (fuel : nat) (w : world) (key value rest : bytes) :
  w_stdin w = key ++ 61 :: value ++ 10 :: rest ->
  no_byte 61 key -> no_byte 0 key -> no_byte 10 key -> no_byte 10 value ->
  (forall tail, known_keyword (key ++ 61 :: value ++ 10 :: 0 :: tail) = false) ->
  iov_len (w_dbuf w) <= INT_MAX ->
  (length key + length value + 3 <= Z.to_nat (iov_len (w_dbuf w)))%nat ->
  (Z.to_nat (iov_len (w_dbuf w)) <= length (iov_base (w_dbuf w)))%nat ->
  exists w',
    readhdr_loop (S fuel) w = readhdr_loop fuel w' /\
    w_out w' = w_out w ++ [Stderr (MsgUnrecognizedKeyword (w_lineno w + 1) key)] /\
    w_stdin w' = rest /\ same_settings w w'.
Proof.
  intros Hin Hk61 Hk0 Hk10 Hv10 Hunk Hmax Hfit Hblk.
  rewrite (readhdr_loop_turn fuel w (key ++ 61 :: value) rest).
  - set (w1 := header_line_read _ _ _).
    set (tail := drop (length (key ++ 61 :: value) + 2) (iov_base (w_dbuf w))).
    assert (iov_base (w_dbuf w1) = key ++ 61 :: value ++ 10 :: 0 :: tail) as Hb.
    { subst w1. rewrite header_line_read_buf. by rewrite <- app_assoc. }
    pose proof (readhdr_line_other w1) as Hline. rewrite Hb in Hline.
    specialize (Hline (Hunk tail)). cbv zeta in Hline.
    unfold dbuf_memchr in Hline. rewrite Hb, memchr_app in Hline; [|done|].
    2:{ subst w1. cbn [header_line_read w_dbuf set_stdin set_dbuf iov_len]. lia. }
    rewrite insert_app_mid, c_string_app in Hline by done.
    rewrite (bind_run _ _ _ _ _ Hline). eexists. split; [reflexivity|].
    by repeat split.
  - rewrite Hin, <- app_assoc. done.
  - apply no_byte_app; [done|]. constructor; [done|]. done.
  - done.
  - rewrite length_app. cbn [length]. lia.
  - done.
Qed.

(** X4. A header line that starts with no keyword [readhdr] knows ends
    the program with EXIT_FAILURE and the message "unexpected format"
    when there is no equals sign in the line nor in what the buffer
    holds behind it. *)
Theorem readhdr_exits_without_equals_sign `{H : MdbxH} `{P : Platform} `{E : Engine}
    (fuel : nat) (w : world) (line rest : bytes) :
  w_stdin w = line ++ 10 :: rest ->
  no_byte 10 line -> no_byte 61 line ->
  no_byte 61 (drop (length line + 2)
                (take (Z.to_nat (iov_len (w_dbuf w))) (iov_base (w_dbuf w)))) ->
  (forall tail, known_keyword (line ++ 10 :: 0 :: tail) = false) ->
  iov_len (w_dbuf w) <= INT_MAX ->
  (length line + 2 <= Z.to_nat (iov_len (w_dbuf w)))%nat ->
  (Z.to_nat (iov_len (w_dbuf w)) <= length (iov_base (w_dbuf w)))%nat ->
  exists w',
    readhdr_loop (S fuel) w = Exit EXIT_FAILURE w' /\
    w_out w' = w_out w ++ [Stderr (MsgUnexpectedFormat (w_lineno w + 1))].
Proof.
  intros Hin Hl10 Hl61 Hold Hunk Hmax Hfit Hblk.
  rewrite (readhdr_loop_turn fuel w line rest); [|done..].
  set (w1 := header_line_read _ _ _).
  set (tail := drop (length line + 2) (iov_base (w_dbuf w))).
  assert (iov_base (w_dbuf w1) = line ++ 10 :: 0 :: tail) as Hb by done.
  pose proof (readhdr_line_other w1) as Hline. rewrite Hb in Hline.
  specialize (Hline (Hunk tail)). cbv zeta in Hline.
  unfold dbuf_memchr in Hline. rewrite Hb, memchr_none in Hline.
  - rewrite (bind_stop_exit _ _ _ _ _ Hline). by eexists.
  - change (iov_len (w_dbuf w1)) with (iov_len (w_dbuf w)).
    set (n := Z.to_nat (iov_len (w_dbuf w))) in *.
    set (pre := line ++ [10; 0]).
    assert (length pre = (length line + 2)%nat) as Hpre
      by (subst pre; rewrite length_app; cbn [length]; lia).
    replace (line ++ 10 :: 0 :: tail) with (pre ++ tail)
      by (subst pre; by rewrite <- app_assoc).
    replace n with (length pre + (n - length pre))%nat by lia.
    rewrite take_app_add. apply no_byte_app.
    + subst pre. apply no_byte_app; [done|]. by repeat constructor.
    + subst tail. rewrite take_drop_commute, Hpre.
      by replace (length line + 2 + (n - (length line + 2)))%nat with n by lia.
Qed.

Section HeaderRuns.
#[local] Existing Instances mdbx_h_values lp64 toy_engine.

(** C10. A header line without an equals sign is meant to end the
    program, and does so at the head of a dump: the line [foo] there
    gives "unexpected format" and EXIT_FAILURE. But [readhdr] looks for
    the equals sign in the whole buffer, not in the line: after the line
    [VERSION=3] the buffer still holds that line's equals sign behind
    [foo], so [foo] is only warned of as a keyword that is not
    recognized, the dump is loaded and the run returns EXIT_SUCCESS. *)
Theorem stale_equals_sign_hides_bad_line :
  (exists w,
     run (cmd []) no_equals_dump [] no_records = Exit EXIT_FAILURE w /\
     w_out w = [Stdout (MsgRunning db_path); Stderr (MsgUnexpectedFormat 1)]) /\
  (exists w,
     run (cmd []) stale_equals_dump [] no_records = Ret EXIT_SUCCESS w /\
     take 2 (w_out w) =
     [Stdout (MsgRunning db_path);
      Stderr (MsgUnrecognizedKeyword 2 (bytes_of "foo" ++ [10]))] /\
     w_engine w = [([97], [49])]).
Proof.
  split; eexists; vm_compute; by repeat split.
Qed.

Lemma readhdr_rejects_later_version_witness :
  exists w',
    readhdr_loop 3 (loop_world (lines ["VERSION=4"; "HEADER=END"]%string) 0 no_records) =
    Exit EXIT_FAILURE w' /\
    w_out w' = [] ++ [Stderr (MsgUnsupportedVersion (0 + 1) 4)].
Proof.
  refine (readhdr_rejects_later_version 2%nat
            (loop_world (lines ["VERSION=4"; "HEADER=END"]%string) 0 no_records)
            (bytes_of "4") (lines ["HEADER=END"]%string) 4 _ _ _ _ _ _ _).
  - vm_compute. reflexivity.
  - by repeat constructor.
  - vm_compute. reflexivity.
  - done.
  - by vm_compute.
  - cbn. lia.
  - cbn [loop_world w_dbuf iov_len iov_base]. unfold fresh.
    rewrite length_map, length_seq. lia.
Defined.

Lemma readhdr_returns_at_header_end_witness :
  exists w',
    readhdr_loop 3 (loop_world (lines ["HEADER=END"; " 61"]%string) 4 no_records) =
    Ret tt w' /\
    w_stdin w' = lines [" 61"]%string /\
    same_settings (loop_world (lines ["HEADER=END"; " 61"]%string) 4 no_records) w' /\
    w_out w' = [].
Proof.
  refine (readhdr_returns_at_header_end 2%nat
            (loop_world (lines ["HEADER=END"; " 61"]%string) 4 no_records)
            [] (lines [" 61"]%string) _ _ _ _ _).
  - vm_compute. reflexivity.
  - by constructor.
  - by vm_compute.
  - cbn. lia.
  - cbn [loop_world w_dbuf iov_len iov_base]. unfold fresh.
    rewrite length_map, length_seq. lia.
Defined.

Lemma readhdr_warns_of_unknown_keyword_witness :
  exists w',
    readhdr_loop 3 (loop_world (lines ["foo=bar"; "HEADER=END"]%string) 0 no_records) =
    readhdr_loop 2 w' /\
    w_out w' = [] ++ [Stderr (MsgUnrecognizedKeyword (0 + 1) (bytes_of "foo"))] /\
    w_stdin w' = lines ["HEADER=END"]%string /\
    same_settings (loop_world (lines ["foo=bar"; "HEADER=END"]%string) 0 no_records) w'.
Proof.
  refine (readhdr_warns_of_unknown_keyword 2%nat
            (loop_world (lines ["foo=bar"; "HEADER=END"]%string) 0 no_records)
            (bytes_of "foo") (bytes_of "bar") (lines ["HEADER=END"]%string)
            _ _ _ _ _ _ _ _ _).
  - vm_compute. reflexivity.
  - by repeat constructor.
  - by repeat constructor.
  - by repeat constructor.
  - by repeat constructor.
  - intros tail. vm_compute. reflexivity.
  - by vm_compute.
  - cbn. lia.
  - cbn [loop_world w_dbuf iov_len iov_base]. unfold fresh.
    rewrite length_map, length_seq. lia.
Defined.

Lemma readhdr_exits_without_equals_sign_witness :
  exists w',
    readhdr_loop 3
      (set_dbuf {| iov_base := fresh 0 16; iov_len := 16 |}
         (loop_world (lines ["foo"; "HEADER=END"]%string) 0 no_records)) =
    Exit EXIT_FAILURE w' /\
    w_out w' = [] ++ [Stderr (MsgUnexpectedFormat (0 + 1))].
Proof.
  refine (readhdr_exits_without_equals_sign 2%nat
            (set_dbuf {| iov_base := fresh 0 16; iov_len := 16 |}
               (loop_world (lines ["foo"; "HEADER=END"]%string) 0 no_records))
            (bytes_of "foo") (lines ["HEADER=END"]%string) _ _ _ _ _ _ _ _).
  - vm_compute. reflexivity.
  - by repeat constructor.
  - by repeat constructor.
  - vm_compute. by repeat constructor.
  - intros tail. vm_compute. reflexivity.
  - by vm_compute.
  - cbn. lia.
  - cbn. lia.
Defined.

End HeaderRuns.

Module MvccFacts.
Import Mvcc.
Local Open Scope nat_scope.

Record writer_ok (s : store) (t : write_txn) : Prop := {
  id_next : wt_id t = S (committed (current s));
  dirty_private : forall p, p ∈ dirty t ->
    p < file_end s /\ p <> root (current s) /\
    (forall n, (n, p) ∉ free_list s) /\
    (forall r, Some r ∈ reader_table s -> snapshot r <> p);
  retired_root : forall p, p ∈ retired t -> p = root (current s);
  retired_once : NoDup (retired t);
  root_known : wt_root t ∈ dirty t \/
               (wt_root t = root (current s) /\ retired t = []);
}.

Record inv (s : store) : Prop := {
  root_in_file : root (current s) < file_end s;
  free_once : NoDup (free_list s).*2;
  free_ok : forall n p, (n, p) ∈ free_list s ->
    p < file_end s /\ n <= committed (current s) /\ p <> root (current s);
  readers_ok : forall r, Some r ∈ reader_table s ->
    snapshot r < file_end s /\ pinned r <= committed (current s) /\
    (forall n, (n, snapshot r) ∈ free_list s -> pinned r < n);
  writer_inv : forall t, writer s = Some t -> writer_ok s t;
}.

Lemma fresh_store_inv slots : inv (fresh_store slots).
Proof.
  split; cbn; try done.
  - lia.
  - constructor.
  - intros n p Hin. by apply elem_of_nil in Hin.
  - intros r Hin. apply elem_of_replicate in Hin as [? _]. done.
Qed.

Lemma claim_elem r r' tbl : Some r' ∈ claim r tbl -> r' = r \/ Some r' ∈ tbl.
Proof.
  induction tbl as [|[x|] tbl IH]; cbn; intros Hin.
  - by apply elem_of_nil in Hin.
  - apply elem_of_cons in Hin as [[= ->]|Hin].
    + right. by left.
    + destruct (IH Hin); [by left|right; by right].
  - apply elem_of_cons in Hin as [[= ->]|Hin]; [by left|].
    right. by right.
Qed.

Lemma claim_lookup r tbl i x :
  tbl !! i = Some (Some x) -> claim r tbl !! i = Some (Some x).
Proof.
  revert i. induction tbl as [|[y|] tbl IH]; intros [|i]; cbn; try done.
  apply IH.
Qed.

Lemma reclaimable_older s n r :
  reclaimable s n = true -> Some r ∈ reader_table s -> n < pinned r.
Proof.
  unfold reclaimable. rewrite forallb_forall. intros Hall Hin.
  apply list_elem_of_In in Hin. specialize (Hall _ Hin). cbn in Hall.
  by apply Nat.ltb_lt in Hall.
Qed.

Lemma begin_inv s : inv s -> inv (begin s).
Proof.
  intros Hinv. unfold begin. destruct (writer s) eqn:Hw; [done|].
  destruct Hinv as [H1 H2 H3 H4 H5]. split; cbn; try done.
  intros t [= <-]. split; cbn; try done.
  - intros p Hp. by apply elem_of_nil in Hp.
  - intros p Hp. by apply elem_of_nil in Hp.
  - constructor.
  - by right.
Qed.

Lemma abort_inv s : inv s -> inv (abort s).
Proof. intros [H1 H2 H3 H4 H5]. split; cbn; done. Qed.

Lemma unregister_inv i s : inv s -> inv (unregister i s).
Proof.
  intros [H1 H2 H3 H4 H5].
  assert (forall r, Some r ∈ <[i := None]> (reader_table s) -> Some r ∈ reader_table s)
    as Hsub.
  { intros r Hin. apply list_elem_of_lookup in Hin as [j Hj].
    destruct (decide (i = j)) as [->|Hne].
    - destruct (decide (j < length (reader_table s))) as [Hlt|Hge].
      + rewrite list_lookup_insert_eq in Hj by done. done.
      + rewrite list_insert_ge in Hj by lia. by eapply list_elem_of_lookup_2.
    - rewrite list_lookup_insert_ne in Hj by done. by eapply list_elem_of_lookup_2. }
  split; cbn; try done.
  - intros r Hin. apply H4. by apply Hsub.
  - intros t Ht. destruct (H5 t Ht) as [W1 W2 W3 W4 W5]. split; cbn; try done.
    intros p Hp. destruct (W2 p Hp) as (? & ? & ? & Hr).
    repeat split; try done. intros r Hin. apply Hr. by apply Hsub.
Qed.

Lemma register_inv s : inv s -> inv (register s).
Proof.
  intros [H1 H2 H3 H4 H5]. split; cbn; try done.
  - intros r Hin. apply claim_elem in Hin as [->|Hin]; [|by apply H4].
    cbn. split; [done|]. split; [done|]. intros n Hn. by destruct (H3 _ _ Hn) as (_ & _ & ?).
  - intros t Ht. destruct (H5 t Ht) as [W1 W2 W3 W4 W5]. split; cbn; try done.
    intros p Hp. destruct (W2 p Hp) as (? & ? & ? & Hr).
    repeat split; try done. intros r Hin.
    apply claim_elem in Hin as [->|Hin]; [by cbn|by apply Hr].
Qed.

Lemma pair_fmap_snd (a : nat) (l : list nat) : ((fun p => (a, p)) <$> l).*2 = l.
Proof. induction l as [|x l IH]; cbn; [done|]. by rewrite IH. Qed.

Lemma free_page_listed (l : list (nat * nat)) p : p ∈ l.*2 -> exists n, (n, p) ∈ l.
Proof.
  intros Hin. apply list_elem_of_fmap in Hin as ([n q] & -> & Hin). by exists n.
Qed.

Lemma commit_inv s : inv s -> inv (commit s).
Proof.
  intros Hinv. unfold commit. destruct (writer s) as [t|] eqn:Hw; [|done].
  destruct Hinv as [H1 H2 H3 H4 H5]. destruct (H5 t Hw) as [W1 W2 W3 W4 W5].
  assert (wt_root t < file_end s) as Hroot.
  { destruct W5 as [Hd|[-> _]]; [|done]. by destruct (W2 _ Hd). }
  split; cbn; try done.
  - rewrite fmap_app, pair_fmap_snd. apply NoDup_app. split; [done|]. split; [|done].
    intros p Hp Hfree. apply free_page_listed in Hfree as [n Hn].
    destruct (H3 _ _ Hn) as (_ & _ & Hne). apply Hne. by apply W3.
  - intros n p Hin. apply elem_of_app in Hin as [Hin|Hin].
    + apply list_elem_of_fmap in Hin as (q & [= -> ->] & Hq).
      pose proof (W3 _ Hq) as ->. split; [done|]. split; [done|].
      destruct W5 as [Hd|[_ Hnil]].
      * destruct (W2 _ Hd) as (_ & Hne & _). congruence.
      * rewrite Hnil in Hq. by apply elem_of_nil in Hq.
    + destruct (H3 _ _ Hin) as (? & ? & ?). split; [done|]. split; [lia|].
      destruct W5 as [Hd|[-> _]]; [|done].
      destruct (W2 _ Hd) as (_ & _ & Hfree & _). intros ->. by apply (Hfree n).
  - intros r Hin. destruct (H4 _ Hin) as (? & ? & Hold).
    split; [done|]. split; [lia|]. intros n Hn.
    apply elem_of_app in Hn as [Hn|Hn]; [|by apply Hold].
    apply list_elem_of_fmap in Hn as (q & [= -> _] & _). lia.
Qed.

Lemma put_inv k v s : inv s -> inv (put k v s).
Proof.
  intros Hinv. unfold put. destruct (writer s) as [t|] eqn:Hw; [|done].
  destruct Hinv as [H1 H2 H3 H4 H5]. destruct (H5 t Hw) as [W1 W2 W3 W4 W5].
  cbv zeta. case_bool_decide as Hd.
  { split; cbn; try done. intros t' [= <-]. by split. }
  destruct W5 as [|[Hroot Hnil]]; [done|].
  destruct (find _ (free_list s)) as [[n0 p]|] eqn:Hfind.
  - apply find_some in Hfind as [Hin Hrec]. apply list_elem_of_In in Hin. cbn in Hrec.
    destruct (H3 _ _ Hin) as (Hp1 & Hp2 & Hp3).
    split; cbn; try done.
    + eapply sublist_NoDup; [exact H2|]. apply fmap_sublist, sublist_filter.
    + intros n q Hq. apply list_elem_of_filter in Hq as [_ Hq]. by apply H3.
    + intros r Hr. destruct (H4 _ Hr) as (? & ? & Hold). split; [done|]. split; [done|].
      intros n Hn. apply list_elem_of_filter in Hn as [_ Hn]. by apply Hold.
    + intros t' [= <-]. split; cbn; try done.
      * intros q Hq. apply elem_of_cons in Hq as [->|Hq].
        -- split; [done|]. split; [done|]. split.
           ++ intros n Hn. apply list_elem_of_filter in Hn as [Hn _]. by cbn in Hn.
           ++ intros r Hr Hsnap. destruct (H4 _ Hr) as (_ & _ & Hold).
              rewrite <- Hsnap in Hin. specialize (Hold _ Hin).
              pose proof (reclaimable_older _ _ _ Hrec Hr). lia.
        -- destruct (W2 _ Hq) as (? & ? & Hfree & ?). repeat split; try done.
           intros n Hn. apply list_elem_of_filter in Hn as [_ Hn]. by apply (Hfree n).
      * intros q Hq. rewrite Hnil in Hq. by apply list_elem_of_singleton in Hq as ->.
      * rewrite Hnil. apply NoDup_singleton.
      * left. by left.
  - split; cbn; try done.
    + lia.
    + intros n q Hq. destruct (H3 _ _ Hq) as (? & ? & ?). split; [lia|done].
    + intros r Hr. destruct (H4 _ Hr) as (? & ? & ?). split; [lia|done].
    + intros t' [= <-]. split; cbn; try done.
      * intros q Hq. apply elem_of_cons in Hq as [->|Hq].
        -- split; [lia|]. split; [lia|]. split.
           ++ intros n Hn. destruct (H3 _ _ Hn) as (? & _). lia.
           ++ intros r Hr. destruct (H4 _ Hr) as (? & _). lia.
        -- destruct (W2 _ Hq) as (? & ? & ? & ?). split; [lia|done].
      * intros q Hq. rewrite Hnil in Hq. by apply list_elem_of_singleton in Hq as ->.
      * rewrite Hnil. apply NoDup_singleton.
      * left. by left.
Qed.

Lemma step_inv o s : inv s -> inv (step o s).
Proof.
  destruct o; cbn;
    auto using begin_inv, put_inv, commit_inv, abort_inv, register_inv, unregister_inv.
Qed.

Lemma run_ops_inv l : forall s, inv s -> inv (run_ops l s).
Proof.
  induction l as [|o l IH]; intros s Hs; [done|].
  change (run_ops (o :: l) s) with (run_ops l (step o s)). apply IH. by apply step_inv.
Qed.

(** No step writes to the page a registered reader reads from. *)
Lemma step_pages o s r :
  inv s -> Some r ∈ reader_table s ->
  pages (step o s) !!! snapshot r = pages s !!! snapshot r.
Proof.
  intros [H1 H2 H3 H4 H5] Hr. destruct o; cbn; try done.
  - unfold begin. by destruct (writer s).
  - unfold put. destruct (writer s) as [t|] eqn:Hw; [|done].
    destruct (H5 t eq_refl) as [W1 W2 W3 W4 W5]. cbv zeta.
    case_bool_decide as Hd.
    { cbn. apply lookup_total_insert_ne. intros Heq.
      destruct (W2 _ Hd) as (_ & _ & _ & Hne). by apply (Hne r). }
    destruct (find _ (free_list s)) as [[n0 p]|] eqn:Hfind; cbn.
    + apply find_some in Hfind as [Hin Hrec]. apply list_elem_of_In in Hin. cbn in Hrec.
      apply lookup_total_insert_ne. intros ->.
      destruct (H4 _ Hr) as (_ & _ & Hold). specialize (Hold _ Hin).
      pose proof (reclaimable_older _ _ _ Hrec Hr). lia.
    + apply lookup_total_insert_ne. destruct (H4 _ Hr) as (? & _). lia.
  - unfold commit. by destruct (writer s).
Qed.

Lemma step_slot o s i r :
  reader_table s !! i = Some (Some r) -> is_unregister i o = false ->
  reader_table (step o s) !! i = Some (Some r).
Proof.
  intros Hi Ho. destruct o; cbn; try done.
  - unfold begin. by destruct (writer s).
  - unfold put. destruct (writer s) as [t|]; [|done]. cbv zeta.
    case_bool_decide; [done|]. by destruct (find _ (free_list s)) as [[? ?]|].
  - unfold commit. by destruct (writer s).
  - by apply claim_lookup.
  - cbn in Ho. apply bool_decide_eq_false in Ho.
    by rewrite list_lookup_insert_ne by (intros ->; done).
Qed.

Lemma run_ops_isolated l : forall s i r,
  inv s -> reader_table s !! i = Some (Some r) ->
  forallb (fun o => negb (is_unregister i o)) l = true ->
  reader_table (run_ops l s) !! i = Some (Some r) /\
  pages (run_ops l s) !!! snapshot r = pages s !!! snapshot r.
Proof.
  induction l as [|o l IH]; intros s i r Hs Hi Hl; [done|].
  cbn in Hl. apply andb_true_iff in Hl as [Ho Hl]. apply negb_true_iff in Ho.
  change (run_ops (o :: l) s) with (run_ops l (step o s)).
  destruct (IH (step o s) i r) as [Hslot Hpage].
  - by apply step_inv.
  - by apply step_slot.
  - done.
  - split; [done|]. rewrite Hpage. apply step_pages; [done|].
    by eapply list_elem_of_lookup_2.
Qed.

End MvccFacts.

(** C7. A reader pinned to a snapshot reads, at every key, what it read
    when it was pinned, whatever transactions are begun, written,
    committed or aborted and whatever readers come and go while it
    stays registered: a value that a newer transaction T2 commits for a
    key is not seen by a reader pinned before T2 commits, which goes on
    seeing the value of the older transaction T1. *)
Theorem pinned_reader_never_sees_later_commit (slots : nat)
    (before after : list Mvcc.op) (i : nat) (r : Mvcc.reader_slot) (k : bytes) :
  Mvcc.reader_table (Mvcc.run_ops before (Mvcc.fresh_store slots)) !! i = Some (Some r) ->
  forallb (fun o => negb (Mvcc.is_unregister i o)) after = true ->
  Mvcc.read (Mvcc.run_ops after (Mvcc.run_ops before (Mvcc.fresh_store slots))) r k =
  Mvcc.read (Mvcc.run_ops before (Mvcc.fresh_store slots)) r k.
Proof.
  intros Hi Hafter. unfold Mvcc.read.
  destruct (MvccFacts.run_ops_isolated after
              (Mvcc.run_ops before (Mvcc.fresh_store slots)) i r) as [_ ->]; try done.
  apply MvccFacts.run_ops_inv, MvccFacts.fresh_store_inv.
Qed.

(** The transaction T1 puts 1 at the key [a] and a reader is pinned;
    then T2 puts 2 there and another reader is pinned; then a third
    transaction puts 3. *)
Definition first_commit : list Mvcc.op :=
  [Mvcc.Begin; Mvcc.Put [97] [49]; Mvcc.Commit; Mvcc.Register].

Definition later_commits : list Mvcc.op :=
  [Mvcc.Begin; Mvcc.Put [97] [50]; Mvcc.Commit; Mvcc.Register;
   Mvcc.Begin; Mvcc.Put [97] [51]; Mvcc.Commit].

Lemma pinned_reader_never_sees_later_commit_witness :
  Mvcc.read (Mvcc.run_ops later_commits (Mvcc.run_ops first_commit (Mvcc.fresh_store 2)))
    {| Mvcc.pinned := 1; Mvcc.snapshot := 1 |} [97] = Some [49] /\
  Mvcc.read (Mvcc.run_ops later_commits (Mvcc.run_ops first_commit (Mvcc.fresh_store 2)))
    {| Mvcc.pinned := 2; Mvcc.snapshot := 2 |} [97] = Some [50] /\
  Mvcc.reader_table
    (Mvcc.run_ops later_commits (Mvcc.run_ops first_commit (Mvcc.fresh_store 2))) =
  [Some {| Mvcc.pinned := 1; Mvcc.snapshot := 1 |};
   Some {| Mvcc.pinned := 2; Mvcc.snapshot := 2 |}].
Proof.
  split; [|split].
  - rewrite (pinned_reader_never_sees_later_commit 2 first_commit later_commits 0
               {| Mvcc.pinned := 1; Mvcc.snapshot := 1 |} [97]);
      [vm_compute; reflexivity|vm_compute; reflexivity|reflexivity].
  - vm_compute. reflexivity.
  - vm_compute. reflexivity.
Defined.

(** ** Page numbers and sizes *)

(** X6. For a page number within range, [pgno_add] is addition that
    stops at MAX_PAGENO: it never wraps around and never leaves the
    range. *)
Theorem pgno_add_saturates (base augend : Z) :
  0 <= base <= MAX_PAGENO -> 0 <= augend < 2 ^ 32 ->
  pgno_add base augend = Z.min (base + augend) MAX_PAGENO /\
  base <= pgno_add base augend <= MAX_PAGENO.
Proof.
  intros Hb Ha. unfold pgno_add, wrap, MAX_PAGENO in *.
  rewrite (Z.mod_small (2147483647 - base)) by lia.
  destruct (Z.ltb_spec augend (2147483647 - base)).
  - rewrite Z.mod_small by lia. lia.
  - lia.
Qed.

Lemma pgno_add_saturates_witness :
  pgno_add 2147483640 100 = Z.min (2147483640 + 100) MAX_PAGENO /\
  2147483640 <= pgno_add 2147483640 100 <= MAX_PAGENO.
Proof. apply pgno_add_saturates; unfold MAX_PAGENO; lia. Defined.

(** X7. For a page number that is no meta page, [pgno_sub] is
    subtraction that stops at MIN_PAGENO, the first page behind the
    meta pages: it never wraps around below zero. *)
Theorem pgno_sub_saturates (base subtrahend : Z) :
  MIN_PAGENO <= base < 2 ^ 32 -> 0 <= subtrahend < 2 ^ 32 ->
  pgno_sub base subtrahend = Z.max (base - subtrahend) MIN_PAGENO /\
  MIN_PAGENO <= pgno_sub base subtrahend <= base.
Proof.
  intros Hb Hs. unfold pgno_sub, wrap, MIN_PAGENO, NUM_METAS in *.
  rewrite (Z.mod_small (base - 3)) by lia.
  destruct (Z.ltb_spec subtrahend (base - 3)).
  - rewrite Z.mod_small by lia. lia.
  - lia.
Qed.

Lemma pgno_sub_saturates_witness :
  pgno_sub 10 100 = Z.max (10 - 100) MIN_PAGENO /\
  MIN_PAGENO <= pgno_sub 10 100 <= 10.
Proof. apply pgno_sub_saturates; unfold MIN_PAGENO, NUM_METAS; lia. Defined.

Lemma land_pred_pow2 k : 0 <= k -> Z.land (2 ^ k) (2 ^ k - 1) = 0.
Proof.
  intros Hk. replace (2 ^ k - 1) with (Z.ones k) by (rewrite Z.ones_equiv; lia).
  apply Z.bits_inj'. intros n Hn.
  rewrite Z.land_spec, Z.bits_0, Z.pow2_bits_eqb by lia.
  destruct (Z.eqb_spec k n) as [->|]; [|done].
  rewrite Z.ones_spec_high by lia. done.
Qed.

Lemma land_pred_top x :
  0 < x -> x <> 2 ^ Z.log2 x -> Z.land x (x - 1) <> 0.
Proof.
  intros Hx Hne Hz.
  pose proof (Z.log2_spec x Hx) as [Hlo Hhi].
  pose proof (Z.log2_nonneg x) as Hk.
  assert (Z.log2 (x - 1) = Z.log2 x) as Hl.
  { apply Z.log2_unique; [done|]. rewrite Z.pow_succ_r in * by done. lia. }
  apply (f_equal (fun y => Z.testbit y (Z.log2 x))) in Hz.
  rewrite Z.land_spec, Z.bits_0, Z.bit_log2 in Hz by done.
  rewrite <- Hl, Z.bit_log2 in Hz by lia. done.
Qed.

(** X8. [is_powerof2] answers true for the powers of two that fit
    [size_t], and also for 0; for nothing else. *)
Theorem is_powerof2_spec (bits x : Z) :
  0 < bits -> 0 <= x < 2 ^ bits ->
  is_powerof2 bits x = true <-> x = 0 \/ exists k, 0 <= k < bits /\ x = 2 ^ k.
Proof.
  intros Hbits Hx. unfold is_powerof2, wrap. split.
  - intros Hp. apply Z.eqb_eq in Hp.
    destruct (Z.eq_dec x 0) as [|Hnz]; [by left|right].
    rewrite Z.mod_small in Hp by lia.
    exists (Z.log2 x). split.
    + split; [apply Z.log2_nonneg|]. apply Z.log2_lt_pow2; lia.
    + destruct (Z.eq_dec x (2 ^ Z.log2 x)) as [|Hne]; [done|].
      exfalso. by apply (land_pred_top x); [lia|..].
  - intros [->|(k & Hk & ->)]; [done|].
    assert (0 < 2 ^ k) by (apply Z.pow_pos_nonneg; lia).
    rewrite Z.mod_small by lia. apply Z.eqb_eq. apply land_pred_pow2. lia.
Qed.

Lemma is_powerof2_spec_witness :
  is_powerof2 64 4096 = true <-> 4096 = 0 \/ exists k, 0 <= k < 64 /\ 4096 = 2 ^ k.
Proof. apply is_powerof2_spec; lia. Defined.

(** Masking with the complement of [2^k - 1] at a width clears the [k]
    low bits. *)
Lemma land_wrap_lnot_ones (bits k x : Z) :
  0 <= k <= bits -> 0 <= x < 2 ^ bits ->
  Z.land x (wrap bits (Z.lnot (Z.ones k))) = 2 ^ k * (x / 2 ^ k).
Proof.
  intros Hk Hx. unfold wrap.
  transitivity (Z.ldiff x (Z.ones k)).
  - apply Z.bits_inj'. intros n Hn.
    rewrite Z.land_spec, Z.ldiff_spec.
    destruct (Z.ltb_spec n bits).
    + rewrite Z.mod_pow2_bits_low, Z.lnot_spec by lia. done.
    + rewrite Z.mod_pow2_bits_high by lia.
      replace (Z.testbit x n) with false; [done|].
      symmetry. rewrite <- (Z.mod_small x (2 ^ bits)) by lia.
      apply Z.mod_pow2_bits_high. lia.
  - rewrite Z.ldiff_ones_r, Z.shiftl_mul_pow2, Z.shiftr_div_pow2 by lia. lia.
Qed.

(** X9. For a granularity that is a power of two, and a value that the
    rounding does not take past the end of [size_t], [roundup_powerof2]
    gives the least multiple of the granularity that is not below the
    value. *)
Theorem roundup_powerof2_spec (bits k value : Z) :
  0 <= k < bits -> 0 <= value -> value + 2 ^ k - 1 < 2 ^ bits ->
  roundup_powerof2 bits value (2 ^ k) = 2 ^ k * ((value + 2 ^ k - 1) / 2 ^ k) /\
  roundup_powerof2 bits value (2 ^ k) mod 2 ^ k = 0 /\
  value <= roundup_powerof2 bits value (2 ^ k) < value + 2 ^ k.
Proof.
  intros Hk Hv Hfit.
  assert (0 < 2 ^ k) as Hpos by (apply Z.pow_pos_nonneg; lia).
  assert (2 ^ k < 2 ^ bits) as Hlt by (apply Z.pow_lt_mono_r; lia).
  assert (roundup_powerof2 bits value (2 ^ k)
          = 2 ^ k * ((value + 2 ^ k - 1) / 2 ^ k)) as Hr.
  { unfold roundup_powerof2.
    replace (wrap bits (2 ^ k - 1)) with (Z.ones k)
      by (unfold wrap; rewrite Z.mod_small, Z.ones_equiv; lia).
    replace (wrap bits (value + 2 ^ k - 1)) with (value + 2 ^ k - 1)
      by (unfold wrap; rewrite Z.mod_small; lia).
    apply land_wrap_lnot_ones; lia. }
  rewrite Hr. split; [done|]. split.
  - rewrite Z.mul_comm. apply Z.mod_mul. lia.
  - pose proof (Z.div_mod (value + 2 ^ k - 1) (2 ^ k) ltac:(lia)) as Hdm.
    pose proof (Z.mod_pos_bound (value + 2 ^ k - 1) (2 ^ k) Hpos). lia.
Qed.

Lemma roundup_powerof2_spec_witness :
  roundup_powerof2 64 5000 (2 ^ 12) = 2 ^ 12 * ((5000 + 2 ^ 12 - 1) / 2 ^ 12) /\
  roundup_powerof2 64 5000 (2 ^ 12) mod 2 ^ 12 = 0 /\
  5000 <= roundup_powerof2 64 5000 (2 ^ 12) < 5000 + 2 ^ 12.
Proof. apply roundup_powerof2_spec; lia. Defined.

(** X10. [EVEN(n)] is [n] when [n] is even and [n + 1] when it is odd,
    as long as [n + 1] fits the width of [n]. *)
Theorem EVEN_rounds_up (bits n : Z) :
  1 <= bits -> 0 <= n -> n + 1 < 2 ^ bits ->
  EVEN bits n = n + n mod 2.
Proof.
  intros Hb Hn Hfit. unfold EVEN.
  replace (wrap bits (n + 1)) with (n + 1) by (unfold wrap; rewrite Z.mod_small; lia).
  change (-2) with (Z.lnot (Z.ones 1)).
  rewrite land_wrap_lnot_ones by lia.
  change (2 ^ 1) with 2.
  pose proof (Z.div_mod n 2 ltac:(lia)).
  pose proof (Z.mod_pos_bound n 2 ltac:(lia)).
  assert ((n + 1) / 2 = n / 2 + n mod 2) as ->; [|lia].
  assert (n mod 2 = 0 \/ n mod 2 = 1) as [Hm|Hm] by lia; rewrite Hm.
  - rewrite Z.add_0_r. symmetry. apply Z.div_unique with 1; lia.
  - symmetry. apply Z.div_unique with 0; lia.
Qed.

Lemma EVEN_rounds_up_witness : EVEN 32 7 = 7 + 7 mod 2.
Proof. apply EVEN_rounds_up; lia. Defined.

Module GetoptFacts.
Import Getopt.

Lemma char_at_inside (w : bytes) (i : nat) (c : Z) :
  w !! i = Some c -> char_at w i = Some c.
Proof.
  intros Hi. unfold char_at. pose proof (lookup_lt_Some _ _ _ Hi).
  destruct (Nat.leb_spec i (length w)); [|lia].
  by rewrite peek_lookup, Hi.
Qed.

Lemma char_at_end (w : bytes) : char_at w (length w) = Some 0.
Proof.
  unfold char_at. rewrite Nat.leb_refl, peek_lookup.
  by rewrite lookup_ge_None_2.
Qed.

Lemma kind_of_cases (c : Z) :
  c <> 0 ->
  match kind_of c with
  | WithArgument =>
      takes_argument c = true /\
      exists i, (if c =? 58 then None else strchr optstring c) = Some i /\
                char_at optstring (S i) = Some 58
  | Flag =>
      takes_argument c = false /\
      exists i x, (if c =? 58 then None else strchr optstring c) = Some i /\
                  char_at optstring (S i) = Some x /\ (x =? 58) = false
  | Illegal =>
      takes_argument c = false /\
      (if c =? 58 then None else strchr optstring c) = None /\
      opt_of c None = Opt_other
  end.
Proof.
  intros Hc. unfold kind_of, takes_argument, opt_of.
  destruct (Z.eqb_spec c 58) as [->|H58]; [done|].
  change optstring with [97; 102; 58; 110; 115; 58; 78; 84; 86; 114; 113].
  cbn [strchr].
  destruct (Z.eqb_spec 97 c) as [<-|?]; [cbn; split; [done|by eexists _, _]|].
  destruct (Z.eqb_spec 102 c) as [<-|?]; [cbn; split; [done|by eexists]|].
  destruct (Z.eqb_spec 58 c) as [<-|?]; [done|].
  destruct (Z.eqb_spec 110 c) as [<-|?]; [cbn; split; [done|by eexists _, _]|].
  destruct (Z.eqb_spec 115 c) as [<-|?]; [cbn; split; [done|by eexists]|].
  destruct (Z.eqb_spec 78 c) as [<-|?]; [cbn; split; [done|by eexists _, _]|].
  destruct (Z.eqb_spec 84 c) as [<-|?]; [cbn; split; [done|by eexists _, _]|].
  destruct (Z.eqb_spec 86 c) as [<-|?]; [cbn; split; [done|by eexists _, _]|].
  destruct (Z.eqb_spec 114 c) as [<-|?]; [cbn; split; [done|by eexists _, _]|].
  destruct (Z.eqb_spec 113 c) as [<-|?]; [cbn; split; [done|by eexists _, _]|].
  destruct (Z.eqb_spec c 0); [done|]. cbn.
  repeat match goal with
         | |- context [c =? ?k] => rewrite (proj2 (Z.eqb_neq c k)) by lia
         end.
  done.
Qed.

Lemma sp_ERR k st : sp (ERR k st) = sp st.
Proof. unfold ERR. by destruct (opterr st =? 0). Qed.

Lemma optind_ERR k st : optind (ERR k st) = optind st.
Proof. unfold ERR. by destruct (opterr st =? 0). Qed.

Lemma getopt_step argv st w before c r :
  at_word_start argv st = Some None ->
  argv !! optind st = Some w ->
  w = before ++ c :: r -> length before = sp st -> no_byte 0 w ->
  getopt argv optstring st = Some (after_call argv st c r).
Proof.
  intros Hstart Hw -> Hlen Hnul.
  assert (c <> 0) as Hc.
  { apply Forall_app in Hnul as [_ Hnul]. by inversion Hnul. }
  assert (char_at (before ++ c :: r) (sp st) = Some c) as Hat.
  { apply char_at_inside. rewrite <- Hlen. by rewrite list_lookup_middle. }
  assert (char_at (before ++ c :: r) (S (sp st)) = Some (default 0 (head r))) as Hnext.
  { destruct r as [|x r].
    - replace (S (sp st)) with (length (before ++ [c]))
        by (rewrite length_app; cbn; lia).
      apply char_at_end.
    - apply char_at_inside.
      replace (before ++ c :: x :: r) with ((before ++ [c]) ++ x :: r)
        by (by rewrite <- app_assoc).
      replace (S (sp st)) with (length (before ++ [c]))
        by (rewrite length_app; cbn; lia).
      by rewrite list_lookup_middle. }
  assert (r <> [] -> (default 0 (head r) =? 0) = false) as Hnz.
  { destruct r as [|x r]; [done|]. intros _. cbn.
    apply Forall_app in Hnul as [_ Hnul]. inversion Hnul as [|? ? _ Hr]; subst.
    inversion Hr; subst. by apply Z.eqb_neq. }
  unfold getopt, after_call. rewrite Hstart. cbn [mbind option_bind].
  rewrite Hw. cbn [mbind option_bind]. rewrite Hat. cbn [mbind option_bind].
  pose proof (kind_of_cases c Hc) as Hk. unfold kind_of in *.
  destruct (if c =? 58 then None else strchr optstring c) as [i|].
  - destruct (char_at optstring (S i)) as [x|] eqn:Hx.
    + change (default 0 (Some x)) with x in *.
      cbn [mbind option_bind]. destruct (x =? 58) eqn:H58.
      * change (sp (set_optopt c st)) with (sp st).
        rewrite Hnext. cbn [mbind option_bind].
        destruct r as [|y r].
        -- cbn. destruct (_ <=? _)%nat eqn:Hlast; [done|].
           apply Nat.leb_gt in Hlast.
           destruct (lookup_lt_is_Some_2 argv (S (optind st)) Hlast) as [a Ha].
           cbn. rewrite Ha. done.
        -- rewrite Hnz by done. cbn [negb]. do 3 f_equal.
           replace (before ++ c :: y :: r) with ((before ++ [c]) ++ y :: r)
             by (by rewrite <- app_assoc).
           rewrite drop_app_length'; [done|]. rewrite length_app. cbn. lia.
      * change (sp (set_optopt c st)) with (sp st).
        rewrite Hnext. cbn [mbind option_bind].
        destruct r as [|y r]; [done|]. by rewrite Hnz.
    + change (default 0 None) with 0 in *. cbn in Hk.
      destruct Hk as (_ & j & y & [= <-] & Hy & _).
      change (char_at _ (S i)) with (char_at optstring (S i)) in Hy.
      congruence.
  - rewrite sp_ERR, optind_ERR.
    change (sp (set_optopt c st)) with (sp st).
    change (optind (set_optopt c st)) with (optind st).
    rewrite Hnext. cbn [mbind option_bind].
    destruct r as [|y r]; [done|]. by rewrite Hnz.
Qed.

Lemma strchr_Some s c i : strchr s c = Some i -> c ∈ s \/ c = 0.
Proof.
  revert i. induction s as [|x s IH]; intros i; cbn.
  - destruct (Z.eqb_spec c 0); [by right|done].
  - destruct (Z.eqb_spec x c) as [->|_]; [intros _; left; constructor|].
    destruct (strchr s c); [|done]. intros _.
    destruct (IH _ eq_refl); [left; by constructor|by right].
Qed.

Lemma kind_of_not_EOF c : kind_of c <> Illegal -> (c =? EOF) = false.
Proof.
  unfold kind_of. intros Hk. apply Z.eqb_neq. intros ->.
  destruct (EOF =? 58); [done|].
  destruct (strchr optstring EOF) as [i|] eqn:Hs; [|done].
  apply strchr_Some in Hs as [Hs|]; [|done].
  revert Hs. unfold optstring, EOF. cbn. rewrite !elem_of_cons, elem_of_nil. lia.
Qed.

Lemma at_word_start_inside argv st :
  sp st <> 1%nat -> at_word_start argv st = Some None.
Proof.
  intros Hsp. unfold at_word_start.
  by destruct (Nat.eqb_spec (sp st) 1).
Qed.

Lemma getopt_all_S fuel argv st :
  getopt_all (S fuel) argv st =
  match getopt argv optstring st with
  | None => None
  | Some (c, st') =>
      if c =? EOF then Some ([], st')
      else match getopt_all fuel argv st' with
           | None => None
           | Some (l, st'') => Some (opt_of c (optarg st') :: l, st'')
           end
  end.
Proof.
  cbn [getopt_all]. destruct (getopt argv optstring st) as [[c st']|]; [|done].
  cbn [mbind option_bind]. destruct (c =? EOF); [done|].
  by destruct (getopt_all fuel argv st') as [[l st'']|].
Qed.

Lemma getopt_all_more fuel fuel' argv st res :
  getopt_all fuel argv st = Some res -> (fuel <= fuel')%nat ->
  getopt_all fuel' argv st = Some res.
Proof.
  revert fuel' st res. induction fuel as [|fuel IH]; intros fuel' st res; [done|].
  destruct fuel' as [|fuel']; [lia|]. rewrite !getopt_all_S.
  destruct (getopt argv optstring st) as [[c st']|]; [|done].
  destruct (c =? EOF); [done|].
  destruct (getopt_all fuel argv st') as [[l st'']|] eqn:Hrest; [|done].
  intros Hres Hle. by rewrite (IH fuel' st' _ Hrest) by lia.
Qed.

Lemma parse_word_alone cs : snd (parse_word cs None) = false.
Proof.
  induction cs as [|c r IH]; [done|]. cbn.
  destruct (takes_argument c); [by destruct r|].
  by destruct (parse_word r None).
Qed.

Lemma opt_of_63 a : opt_of 63 a = Opt_other.
Proof. done. Qed.

(** The calls of getopt that go through the rest [cs] of a word. *)
Lemma word_loop argv cs : forall before st,
  cs <> [] ->
  argv !! optind st = Some (before ++ cs) ->
  length before = sp st -> (1 <= sp st)%nat ->
  (sp st = 1%nat -> at_word_start argv st = Some None) ->
  no_byte 0 (before ++ cs) ->
  exists st2,
    optind st2 = (if snd (parse_word cs (argv !! S (optind st)))
                  then S (S (optind st)) else S (optind st)) /\
    sp st2 = 1%nat /\
    forall fuel l' st', getopt_all fuel argv st2 = Some (l', st') ->
      getopt_all (length cs + fuel) argv st =
        Some (fst (parse_word cs (argv !! S (optind st))) ++ l', st').
Proof.
  induction cs as [|c r IH]; intros before st Hcs Hw Hlen Hsp Hfirst Hnul; [done|].
  assert (at_word_start argv st = Some None) as Hstart.
  { destruct (decide (sp st = 1%nat)); [auto|by apply at_word_start_inside]. }
  pose proof (getopt_step argv st _ before c r Hstart Hw eq_refl Hlen Hnul) as Hstep.
  assert (c <> 0) as Hc.
  { apply Forall_app in Hnul as [_ Hnul]. by inversion Hnul. }
  pose proof (kind_of_cases c Hc) as Hk.
  pose proof (kind_of_not_EOF c) as Heof.
  unfold after_call in Hstep. cbn [parse_word length Nat.add].
  destruct (kind_of c) eqn:Hkind.
  - destruct Hk as [-> _]. specialize (Heof ltac:(done)).
    destruct r as [|y r].
    + destruct (Nat.leb_spec (length argv) (S (optind st))) as [Hlast|Hlast].
      * rewrite (lookup_ge_None_2 argv (S (optind st))) by lia.
        eexists. split; [|split]; [| |intros fuel l' st' Hrest].
        3: { rewrite getopt_all_S, Hstep. cbn [Z.eqb]. rewrite Hrest. done. }
        all: done.
      * destruct (lookup_lt_is_Some_2 argv (S (optind st)) Hlast) as [a Ha].
        rewrite Ha in *.
        eexists. split; [|split]; [| |intros fuel l' st' Hrest].
        3: { rewrite getopt_all_S, Hstep, Heof, Hrest. done. }
        all: done.
    + eexists. split; [|split]; [| |intros fuel l' st' Hrest].
      3: { rewrite getopt_all_S, Hstep, Heof.
           rewrite (getopt_all_more _ _ _ _ _ Hrest) by lia. done. }
      all: done.
  - destruct Hk as [-> _]. specialize (Heof ltac:(done)).
    destruct r as [|y r].
    + eexists. split; [|split]; [| |intros fuel l' st' Hrest].
      3: { rewrite getopt_all_S, Hstep, Heof, Hrest. done. }
      all: done.
    + set (st1 := set_optarg None (move (optind st) (S (sp st)) (set_optopt c st))) in *.
      destruct (IH (before ++ [c]) st1) as (st2 & Hind & Hsp2 & Hloop).
      * done.
      * by rewrite <- app_assoc.
      * rewrite length_app. cbn. lia.
      * cbn. lia.
      * cbn. lia.
      * by rewrite <- app_assoc.
      * change (optind st1) with (optind st) in *.
        destruct (parse_word (y :: r) (argv !! S (optind st))) as [l used].
        exists st2. split; [done|]. split; [done|].
        intros fuel l' st' Hrest.
        rewrite getopt_all_S, Hstep, Heof, (Hloop _ _ _ Hrest). done.
  - destruct Hk as (-> & _ & Hother). rewrite Hother.
    destruct r as [|y r].
    + eexists. split; [|split]; [| |intros fuel l' st' Hrest].
      3: { rewrite getopt_all_S, Hstep. cbn [Z.eqb]. rewrite Hrest. done. }
      all: done.
    + set (st1 := move (optind st) (S (sp st))
                    (ERR (IllegalOption c) (set_optopt c st))) in *.
      destruct (IH (before ++ [c]) st1) as (st2 & Hind & Hsp2 & Hloop).
      * done.
      * by rewrite <- app_assoc.
      * rewrite length_app. cbn. lia.
      * cbn. lia.
      * cbn. lia.
      * by rewrite <- app_assoc.
      * change (optind st1) with (optind st) in *.
        destruct (parse_word (y :: r) (argv !! S (optind st))) as [l used].
        exists st2. split; [done|]. split; [done|].
        intros fuel l' st' Hrest.
        rewrite getopt_all_S, Hstep. cbn [Z.eqb]. rewrite (Hloop _ _ _ Hrest). done.
Qed.

Lemma getopt_all_EOF fuel argv st st' :
  at_word_start argv st = Some (Some (EOF, st')) ->
  getopt_all (S fuel) argv st = Some ([], st').
Proof. intros Hstart. rewrite getopt_all_S. unfold getopt. by rewrite Hstart. Qed.

Lemma getopt_all_words prog : forall n words seen st,
  (length words <= n)%nat ->
  optind st = S (length seen) -> sp st = 1%nat ->
  Forall (no_byte 0) words ->
  exists st',
    getopt_all (S (length (concat words) + length words))
      (prog :: seen ++ words) st = Some (fst (parse_args words), st') /\
    drop (optind st') (prog :: seen ++ words) = snd (parse_args words).
Proof.
  induction n as [|n IH]; intros words seen st Hn Hind Hsp Hnul.
  { destruct words; [|cbn in Hn; lia].
    exists st. split.
    - apply getopt_all_EOF. unfold at_word_start. rewrite Hsp, Hind. cbn.
      rewrite length_app, Nat.add_0_r.
      by destruct (Nat.leb_spec (length seen) (length seen)); [|lia].
    - rewrite Hind. cbn. rewrite drop_app_length. done. }
  destruct words as [|w ws].
  { exists st. split.
    - apply getopt_all_EOF. unfold at_word_start. rewrite Hsp, Hind. cbn.
      rewrite length_app, Nat.add_0_r.
      by destruct (Nat.leb_spec (length seen) (length seen)); [|lia].
    - rewrite Hind. cbn. rewrite drop_app_length. done. }
  assert ((prog :: seen ++ w :: ws) !! optind st = Some w) as Hw.
  { rewrite Hind. cbn. apply list_lookup_middle. done. }
  assert (drop (optind st) (prog :: seen ++ w :: ws) = w :: ws) as Hdrop.
  { rewrite Hind. cbn. by rewrite drop_app_length. }
  assert ((length (prog :: seen ++ w :: ws) <=? optind st)%nat = false) as Harg.
  { apply Nat.leb_gt. rewrite Hind. cbn. rewrite length_app. cbn. lia. }
  assert (forall st', at_word_start (prog :: seen ++ w :: ws) st = Some (Some (EOF, st')) ->
            drop (optind st') (prog :: seen ++ w :: ws) = snd (parse_args (w :: ws)) ->
            fst (parse_args (w :: ws)) = [] ->
          exists st',
    getopt_all (S (length (concat (w :: ws)) + length (w :: ws)))
      (prog :: seen ++ w :: ws) st = Some (fst (parse_args (w :: ws)), st') /\
    drop (optind st') (prog :: seen ++ w :: ws) = snd (parse_args (w :: ws)))
    as Hstop.
  { intros st' Hstart Hrest ->. exists st'. split; [|done].
    by apply getopt_all_EOF. }
  inversion Hnul as [|? ? Hw0 Hws]; subst.
  destruct w as [|dash [|c r]].
  - apply (Hstop st); [|done|done].
    unfold at_word_start. by rewrite Hsp, Harg, Hw.
  - apply (Hstop st); [|done|done].
    unfold at_word_start. rewrite Hsp, Harg, Hw. cbn.
    by destruct (dash =? 45).
  - destruct (Z.eqb_spec dash 45) as [->|Hdash].
    2: { apply (Hstop st).
         - unfold at_word_start. rewrite Hsp, Harg, Hw. cbn.
           by rewrite (proj2 (Z.eqb_neq dash 45)).
         - cbn. by rewrite (proj2 (Z.eqb_neq dash 45)).
         - cbn. by rewrite (proj2 (Z.eqb_neq dash 45)). }
    assert (c <> 0) as Hc.
    { inversion Hw0 as [|? ? _ Hw1]; subst. by inversion Hw1. }
    destruct (decide (45 :: c :: r = [45; 45])) as [Hdd|Hdd].
    { apply (Hstop (move (S (optind st)) (sp st) st)).
      - unfold at_word_start. rewrite Hsp, Harg, Hw. cbn.
        rewrite (proj2 (Z.eqb_neq c 0)) by done.
        by rewrite bool_decide_eq_true_2.
      - cbn [parse_args negb Z.eqb Pos.eqb]. rewrite bool_decide_eq_true_2 by done.
        cbn. rewrite Hind.
        replace (seen ++ (45 :: c :: r) :: ws) with ((seen ++ [45 :: c :: r]) ++ ws)
          by (by rewrite <- app_assoc).
        rewrite drop_app_length'; [done|]. rewrite length_app. cbn. lia.
      - cbn [parse_args negb Z.eqb Pos.eqb]. by rewrite bool_decide_eq_true_2. }
    destruct (word_loop (prog :: seen ++ (45 :: c :: r) :: ws) (c :: r) [45] st)
      as (st2 & Hind2 & Hsp2 & Hloop).
    + done.
    + done.
    + by rewrite Hsp.
    + lia.
    + intros _. unfold at_word_start. rewrite Hsp, Harg, Hw. cbn.
      rewrite (proj2 (Z.eqb_neq c 0)) by done.
      by rewrite bool_decide_eq_false_2.
    + done.
    + assert ((prog :: seen ++ (45 :: c :: r) :: ws) !! S (optind st) = ws !! 0%nat)
        as Hnext.
      { rewrite Hind.
        replace (prog :: seen ++ (45 :: c :: r) :: ws)
          with ((prog :: seen ++ [45 :: c :: r]) ++ ws)
          by (cbn; by rewrite <- app_assoc).
        rewrite lookup_app_r by (cbn; rewrite length_app; cbn; lia).
        f_equal. cbn. rewrite length_app. cbn. lia. }
      rewrite Hnext in *.
      cbn [parse_args negb Z.eqb Pos.eqb]. rewrite bool_decide_eq_false_2 by done.
      destruct ws as [|a ws'].
      * cbn [lookup list_lookup] in *.
        rewrite parse_word_alone in Hind2.
        destruct (IH [] (seen ++ [45 :: c :: r]) st2) as (st' & Hrun & Hops).
        -- cbn; lia.
        -- rewrite Hind2, Hind, length_app. cbn. lia.
        -- done.
        -- done.
        -- rewrite app_nil_r in Hrun, Hops. cbn [parse_args fst snd] in Hrun, Hops.
           exists st'. cbn [fst snd]. split; [|done].
           pose proof (Hloop _ _ _ Hrun) as Hall. rewrite app_nil_r in Hall.
           apply (getopt_all_more _ _ _ _ _ Hall).
           cbn. rewrite ?length_app. cbn. lia.
      * cbn [lookup list_lookup] in *.
        destruct (parse_word (c :: r) (Some a)) as [l used] eqn:Hpw.
        cbn [fst snd] in *.
        destruct used.
        -- destruct (IH ws' (seen ++ [45 :: c :: r; a]) st2) as (st' & Hrun & Hops).
           ++ cbn in Hn; lia.
           ++ rewrite Hind2, Hind, length_app. cbn. lia.
           ++ done.
           ++ by inversion Hws.
           ++ rewrite <- app_assoc in Hrun, Hops. cbn [app] in Hrun, Hops.
              destruct (parse_args ws') as [l' rest]. cbn [fst snd] in *.
              exists st'. split; [|done].
              apply (getopt_all_more _ _ _ _ _ (Hloop _ _ _ Hrun)).
              cbn. rewrite !length_app. cbn. lia.
        -- destruct (IH (a :: ws') (seen ++ [45 :: c :: r]) st2) as (st' & Hrun & Hops).
           ++ cbn in Hn |- *; lia.
           ++ rewrite Hind2, Hind, length_app. cbn. lia.
           ++ done.
           ++ done.
           ++ rewrite <- app_assoc in Hrun, Hops. cbn [app] in Hrun, Hops.
              destruct (parse_args (a :: ws')) as [l' rest]. cbn [fst snd] in *.
              exists st'. split; [|done].
              apply (getopt_all_more _ _ _ _ _ (Hloop _ _ _ Hrun)).
              cbn. rewrite !length_app. cbn. lia.
Qed.

Lemma cmdline_of_words prog words :
  Forall (no_byte 0) words ->
  cmdline_of (prog :: words) =
    Some {| opts := fst (parse_args words); operands := snd (parse_args words) |}.
Proof.
  intros Hnul.
  destruct (getopt_all_words prog (length words) words [] initial)
    as (st' & Hrun & Hops); [done..|].
  unfold cmdline_of. cbn [app] in *.
  rewrite (getopt_all_more _ (turns (prog :: words)) _ _ _ Hrun).
  - cbn [mbind option_bind]. by rewrite Hops.
  - unfold turns. cbn. rewrite length_app. lia.
Qed.

End GetoptFacts.

(** ** The command line *)

(** X11. On a command line whose words hold no NUL, the loop of
    [main] over getopt ends without reading outside [argv], and gives
    the options and operands that the words mean: a word that starts
    with a dash and is neither "-" nor "--" is a cluster of option
    characters, "f" and "s" take the rest of the word or else the next
    word as their argument, a character getopt does not know or an
    argument that is missing gives the usage case, "--" is skipped and
    ends the options, and the first other word starts the operands. *)
Theorem getopt_reads_command_line (prog : bytes) (words : list bytes) :
  Forall (no_byte 0) words ->
  Getopt.cmdline_of (prog :: words) =
    Some {| opts := fst (Getopt.parse_args words);
            operands := snd (Getopt.parse_args words) |}.
Proof. apply GetoptFacts.cmdline_of_words. Qed.

Lemma getopt_reads_command_line_witness :
  Getopt.cmdline_of
    (map bytes_of ["mdbx_load"; "-an"; "-fdump"; "-s"; "t"; "--"; "-db"]%string) =
    Some {| opts := [Opt_a; Opt_n; Opt_f (bytes_of "dump"); Opt_s (bytes_of "t")];
            operands := [bytes_of "-db"] |}.
Proof.
  apply (getopt_reads_command_line (bytes_of "mdbx_load")
           (map bytes_of ["-an"; "-fdump"; "-s"; "t"; "--"; "-db"]%string)).
  repeat constructor; vm_compute; discriminate.
Defined.

(** X12. An option that takes an argument reads it the same from
    the rest of its own word and from the next word: "-fFILE" and
    "-f FILE" give the same command line, at any place where an option
    cluster may start. *)
Theorem getopt_argument_attached_or_next
    (prog : bytes) (c : Z) (arg : bytes) (words : list bytes) :
  Getopt.takes_argument c = true -> arg <> [] ->
  no_byte 0 arg -> Forall (no_byte 0) words ->
  Getopt.cmdline_of (prog :: (45 :: c :: arg) :: words) =
  Getopt.cmdline_of (prog :: [45; c] :: arg :: words).
Proof.
  intros Hc Harg Hnul Hwords.
  assert (c <> 0 /\ c <> 45) as [Hc0 Hc45].
  { unfold Getopt.takes_argument in Hc. lia. }
  rewrite !GetoptFacts.cmdline_of_words.
  2: { repeat constructor; done. }
  2: { repeat constructor; done. }
  cbn [Getopt.parse_args Getopt.parse_word negb Z.eqb Pos.eqb].
  rewrite !bool_decide_eq_false_2 by congruence.
  rewrite Hc. destruct arg as [|x arg]; [done|].
  by destruct words as [|a ws].
Qed.

Lemma getopt_argument_attached_or_next_witness :
  Getopt.cmdline_of (map bytes_of ["mdbx_load"; "-stable"; "db"]%string) =
  Getopt.cmdline_of (map bytes_of ["mdbx_load"; "-s"; "table"; "db"]%string).
Proof.
  apply (getopt_argument_attached_or_next (bytes_of "mdbx_load") 115
           (bytes_of "table") [bytes_of "db"]).
  - reflexivity.
  - discriminate.
  - repeat constructor; vm_compute; discriminate.
  - repeat constructor; vm_compute; discriminate.
Defined.

Lemma decode_print_spec (fuel : nat) :
  forall (ds pre post : bytes) (c1 : nat),
    (c1 <= length pre)%nat -> (length ds <= fuel)%nat ->
    match unescape ds with
    | Some out =>
        exists base',
          decode_print fuel (pre ++ ds ++ 0 :: post) c1 (length pre)
            (length pre + length ds) = Decoded base' (c1 + length out) /\
          take (c1 + length out) base' = take c1 pre ++ out /\
          length base' = length (pre ++ ds ++ 0 :: post)
    | None =>
        exists base',
          decode_print fuel (pre ++ ds ++ 0 :: post) c1 (length pre)
            (length pre + length ds) = Rejected base'
    end.
Proof.
  induction fuel as [|fuel IH]; intros ds pre post c1 Hc1 Hfuel.
  { destruct ds; [|cbn in Hfuel; lia]. cbn [decode_print unescape length].
    rewrite !Nat.add_0_r, Nat.ltb_irrefl. eexists. split; [done|].
    rewrite app_nil_r. split; [|done]. by rewrite take_app_le. }
  destruct ds as [|c r].
  { cbn [decode_print unescape length].
    rewrite !Nat.add_0_r, Nat.ltb_irrefl. eexists. split; [done|].
    rewrite app_nil_r. split; [|done]. by rewrite take_app_le. }
  cbn [decode_print unescape].
  destruct (Nat.ltb_spec (length pre) (length pre + length (c :: r))) as [_|Hlt];
    [|cbn in Hlt; lia].
  assert (forall x tl, peek (pre ++ (c :: x) ++ tl) (length pre) = c) as Hp0.
  { intros x tl. rewrite <- (Nat.add_0_r (length pre)) at 1. by rewrite peek_app_r. }
  rewrite Hp0.
  assert (forall (v : Z) (used todo : bytes),
            c :: r = used ++ todo -> used <> [] ->
            match cons v <$> unescape todo with
            | Some out =>
                exists base',
                  decode_print fuel (<[c1 := v]> (pre ++ (c :: r) ++ 0 :: post))
                    (S c1) (length pre + length used)
                    (length pre + length (c :: r)) = Decoded base' (c1 + length out) /\
                  take (c1 + length out) base' = take c1 pre ++ out /\
                  length base' = length (pre ++ (c :: r) ++ 0 :: post)
            | None =>
                exists base',
                  decode_print fuel (<[c1 := v]> (pre ++ (c :: r) ++ 0 :: post))
                    (S c1) (length pre + length used)
                    (length pre + length (c :: r)) = Rejected base'
            end) as Hgo.
  { intros v used todo Hsplit Hused. rewrite Hsplit.
    assert (1 <= length used)%nat as Hu by (destruct used; [done|cbn; lia]).
    replace (pre ++ (used ++ todo) ++ 0 :: post)
      with ((pre ++ used) ++ todo ++ 0 :: post) by (by rewrite <- !app_assoc).
    rewrite insert_app_l by (rewrite length_app; lia).
    set (pre' := <[c1 := v]> (pre ++ used)).
    assert (length pre' = (length pre + length used)%nat) as Hpl.
    { subst pre'. by rewrite length_insert, length_app. }
    specialize (IH todo pre' post (S c1)).
    rewrite Hpl in IH. rewrite length_app, Nat.add_assoc.
    assert (length todo <= fuel)%nat as Hf.
    { apply (f_equal length) in Hsplit. rewrite length_app in Hsplit.
      cbn in Hsplit, Hfuel. lia. }
    specialize (IH ltac:(lia) Hf).
    destruct (unescape todo) as [out|]; cbn [fmap option_fmap option_map].
    - destruct IH as (base' & Hrun & Htk & Hl). exists base'.
      cbn [length]. replace (c1 + S (length out))%nat with (S c1 + length out)%nat by lia.
      split; [done|]. split.
      + rewrite Htk. subst pre'.
        rewrite take_S_insert by (rewrite length_app; lia).
        rewrite take_app_le by done. by rewrite <- app_assoc.
      + rewrite Hl, !length_app, Hpl. lia.
    - done. }
  destruct (Z.eqb_spec c 92) as [->|Hc].
  - destruct r as [|a r'].
    + replace (peek (pre ++ [92] ++ 0 :: post) (length pre + 1)) with 0
        by (by rewrite peek_app_r).
      cbn [Z.eqb].
      destruct (Nat.ltb_spec (length pre + length [92]) (length pre + 3)) as [_|Hlt];
        [by eexists|cbn in Hlt; lia].
    + replace (peek (pre ++ (92 :: a :: r') ++ 0 :: post) (length pre + 1)) with a
        by (by rewrite peek_app_r).
      destruct (Z.eqb_spec a 92) as [->|Ha].
      * change 2%nat with (length [92; 92]).
        by apply (Hgo 92 [92; 92] r').
      * destruct r' as [|b r''].
        -- destruct (Nat.ltb_spec (length pre + length [92; a]) (length pre + 3))
             as [_|Hlt]; [by eexists|cbn in Hlt; lia].
        -- replace (peek (pre ++ (92 :: a :: b :: r'') ++ 0 :: post) (length pre + 2))
             with b by (by rewrite peek_app_r).
           destruct (Nat.ltb_spec (length pre + length (92 :: a :: b :: r''))
                       (length pre + 3)) as [Hlt|_]; [cbn in Hlt; lia|].
           destruct (isxdigit a) eqn:Hxa; cbn [negb orb andb]; [|by eexists].
           destruct (isxdigit b) eqn:Hxb; cbn [negb orb andb]; [|by eexists].
           replace (drop (length pre + 1) (pre ++ (92 :: a :: b :: r'') ++ 0 :: post))
             with (a :: b :: r'' ++ 0 :: post).
           2: { replace (pre ++ (92 :: a :: b :: r'') ++ 0 :: post)
                  with ((pre ++ [92]) ++ a :: b :: r'' ++ 0 :: post)
                  by (by rewrite <- app_assoc).
                rewrite drop_app_length'; [done|]. by rewrite length_app. }
           rewrite unhex_only_two.
           destruct (unhex_digits a b Hxa Hxb) as [Hv ->]. rewrite Hv.
           change 3%nat with (length [92; a; b]).
           by apply (Hgo _ [92; a; b] r'').
  - replace (S (length pre)) with (length pre + length [c])%nat
      by (cbn [length]; lia).
    by apply (Hgo c [c] r).
Qed.

Section ReadlinePrint.
Context `{H : MdbxH} `{P : Platform} `{E : Engine}.

(** A line of the form " payload\n" is read whole, however long, and
    handed to the decoder with the newline cut off. *)
Lemma readline_takes_line (s : bufsel) (w : world) (p rest : bytes) :
  Z.land (w_mode w) NOHDR = 0 ->
  w_stdin w = 32 :: p ++ 10 :: rest ->
  no_byte 0 p -> no_byte 10 p ->
  (forall n, realloc_ok n = true) ->
  Z.of_nat (length p) + 2 <= INT_MAX ->
  2 <= iov_len (get_buf s w) <= INT_MAX ->
  iov_len (get_buf s w) <= Z.of_nat (length (iov_base (get_buf s w))) ->
  exists w3 tail,
    w_stdin w3 = rest /\ w_lineno w3 = w_lineno w + 1 /\
    w_Eof w3 = w_Eof w /\ w_out w3 = w_out w /\
    readline s w =
      match
        (if Z.land (w_mode w) PRINT =? 0 then
           if Nat.odd (length p) then Rejected (p ++ 0 :: tail)
           else decode_hex (length p) (p ++ 0 :: tail) 0 0 (length p)
         else decode_print (length p) (p ++ 0 :: tail) 0 0 (length p))
      with
      | Decoded base' c1 =>
          (modify (fun w =>
                     set_buf s {| iov_base := base';
                                  iov_len := iov_len (get_buf s w) |} w);;;
           ret (Some {| iov_base := base'; iov_len := Z.of_nat c1 |})) w3
      | Rejected base' =>
          (modify (fun w =>
                     set_buf s {| iov_base := base';
                                  iov_len := iov_len (get_buf s w) |} w);;;
           modify (set_Eof true);;; badend;;; ret None) w3
      | Starved => Fault OutOfFuel w3
      end.
Proof.
  intros Hnohdr Hin Hp0 Hp10 Hre Hint HL Hblk.
  unfold readline. rewrite bind_get, Hnohdr. cbn [Z.eqb].
  (* the leading blank *)
  set (w0 := set_stdin (p ++ 10 :: rest) w).
  assert (readline_lead s w = Ret false w0) as Hlead.
  { unfold readline_lead. erewrite bind_run; [|by unfold fgetc; rewrite Hin]. done. }
  erewrite bind_run by exact Hlead. cbn iota.
  rewrite bind_get.
  assert (get_buf s w0 = get_buf s w) as Hb0 by (by destruct s).
  rewrite Hb0.
  set (b := get_buf s w) in *. set (L := iov_len b) in *.
  (* the first fgets *)
  assert (exists chunk rest', read_line (Z.to_nat (L - 1)) (w_stdin w0) = (chunk, rest')
            /\ (1 <= length chunk)%nat /\ Z.of_nat (length chunk) <= L - 1
            /\ no_byte 0 chunk
            /\ chunk = take (length chunk) (p ++ [10])
            /\ rest' = drop (length chunk) (p ++ [10]) ++ rest
            /\ ((length chunk < length p + 1)%nat -> Z.of_nat (length chunk) = L - 1))
    as (chunk & rest' & Hrl & Hc1 & HcL & Hc0 & Hck & Hr' & Hfull).
  { subst w0. cbn [w_stdin set_stdin].
    destruct (decide (length p < Z.to_nat (L - 1))%nat) as [Hs|Hs].
    - exists (p ++ [10]), rest. rewrite read_line_whole by done.
      rewrite length_app. change (length [10]) with 1%nat.
      split; [done|]. split; [lia|]. split; [lia|]. split.
      { apply Forall_app. split; [done|]. by repeat constructor. }
      split; [rewrite take_ge; [done|rewrite length_app; simpl; lia]|].
      split; [rewrite drop_ge; [done|rewrite length_app; simpl; lia]|]. lia.
    - exists (take (Z.to_nat (L - 1)) p), (drop (Z.to_nat (L - 1)) p ++ 10 :: rest).
      rewrite (read_line_part _ p (10 :: rest)) by (done || lia).
      rewrite length_take.
      replace (Z.to_nat (L - 1) `min` length p)%nat with (Z.to_nat (L - 1)) by lia.
      split; [done|]. split; [lia|]. split; [lia|].
      split; [by apply no_byte_take|].
      split; [by rewrite take_app_le by lia|].
      split; [rewrite drop_app_le by lia; by rewrite <- app_assoc|]. lia. }
  erewrite bind_run.
  2:{ apply (fgets_reads s 0 L w0 chunk rest'); [lia|done| |].
      - intros ->. simpl in Hc1. lia.
      - rewrite Hb0. fold b. lia. }
  cbn [negb]. cbn iota.
  rewrite bind_modify, bind_get.
  set (w1 := set_lineno _ _).
  assert (get_buf s w1 = {| iov_base := write_at (iov_base b) 0 (chunk ++ [0]); iov_len := L |}) as Hb1.
  { subst w1 w0 b L. destruct s; reflexivity. }
  rewrite Hb1. cbn [iov_base]. rewrite bind_get.
  assert (write_at (iov_base b) 0 (chunk ++ [0]) = chunk ++ 0 :: drop (length chunk + 1) (iov_base b)) as Hw.
  { unfold write_at. rewrite take_0, length_app. cbn [app length]. by rewrite <- app_assoc. }
  rewrite Hw, strlen_app by done.
  destruct (grow_line_spec s p rest Hre Hp0 Hp10 Hint (S (length (w_stdin w1))) 0%nat (length chunk) w1)
    as (w2 & Hrun & Htk & Hlen2 & Hst2 & Hlog2).
  { done. }
  { cbn [Nat.add]. rewrite Hck, length_take, length_app. cbn [length]. lia. }
  { cbn [Nat.add]. rewrite Hb1. cbn [iov_base]. rewrite Hw.
    rewrite take_app_length. done. }
  { cbn [Nat.add]. subst w1 w0. destruct s; cbn; by rewrite Hr'. }
  { rewrite Hb1. cbn [iov_len]. lia. }
  { rewrite Hb1. cbn [iov_len Nat.add]. lia. }
  { rewrite Hb1. cbn [iov_len Nat.add]. done. }
  { rewrite Hb1. cbn [iov_len iov_base].
    rewrite write_at_length; [lia|]. rewrite length_app. cbn [length]. lia. }
  { cbn [Nat.add]. assert (w_stdin w1 = rest') as -> by (subst w1 w0; by destruct s).
    rewrite Hr', length_app, length_drop, length_app. cbn [length]. lia. }
  erewrite bind_run by exact Hrun. cbn iota.
  replace (length p + 1 - 1)%nat with (length p) by lia.
  unfold buf_poke. rewrite bind_modify, bind_get.
  set (w3 := set_buf s _ w2).
  set (base2 := iov_base (get_buf s w2)) in *.
  assert (get_buf s w3 = {| iov_base := <[length p := 0]> base2; iov_len := iov_len (get_buf s w2) |}) as Hb3.
  { subst w3. apply get_set_buf. }
  rewrite Hb3. cbn [iov_base].
  assert (<[length p := 0]> base2 = [] ++ p ++ 0 :: drop (S (length p)) base2) as Hsplit.
  { rewrite insert_take_drop by lia. cbn [app]. f_equal.
    by apply take_snoc_inv with (c := 10). }
  assert (same_log w1 w3) as Hl13.
  { eapply same_log_trans; [exact Hlog2|]. subst w3. apply same_log_set_buf. }
  assert (w_lineno w3 = w_lineno w + 1 /\ w_Eof w3 = w_Eof w /\ w_out w3 = w_out w)
    as (Hln3 & HEof3 & Hout3).
  { destruct Hl13 as (_ & -> & -> & -> & _). subst w1 w0. by destruct s. }
  assert (w_stdin w3 = rest) as Hst3 by (subst w3; destruct s; exact Hst2).
  exists w3, (drop (S (length p)) base2).
  cbn [app] in Hsplit. rewrite Hsplit.
  split; [done|]. split; [done|]. split; [done|]. split; [done|].
  assert (w_mode w3 = w_mode w) as Hmode.
  { destruct Hl13 as (-> & _). subst w1 w0. by destruct s. }
  by destruct (if Z.land (w_mode w) PRINT =? 0 then _ else _).
Qed.

End ReadlinePrint.

(** ** Lines of a printable dump *)

(** X13. In print mode, on a data line (a blank, a payload free of NUL
    bytes, a newline) that fits an [int], with a buffer in order and
    [realloc] succeeding, [readline] consumes the line and counts it,
    and resolves the escapes of the payload: two backslashes give one,
    a backslash with two hexadecimal digits gives the byte they denote,
    every other character is taken as it is; it then returns 0, prints
    nothing and leaves [Eof] as it was.  When a backslash is followed
    by anything else, or by the end of the line, it returns EOF, sets
    [Eof] and prints "unexpected end of input" with the number of the
    line. *)
Theorem readline_print_resolves_escapes `{H : MdbxH} `{P : Platform} `{E : Engine}
    (s : bufsel) (w : world) (p rest : bytes) :
  Z.land (w_mode w) NOHDR = 0 -> Z.land (w_mode w) PRINT <> 0 ->
  w_stdin w = 32 :: p ++ 10 :: rest ->
  no_byte 0 p -> no_byte 10 p ->
  (forall n, realloc_ok n = true) ->
  Z.of_nat (length p) + 2 <= INT_MAX ->
  2 <= iov_len (get_buf s w) <= INT_MAX ->
  iov_len (get_buf s w) <= Z.of_nat (length (iov_base (get_buf s w))) ->
  exists w',
    w_stdin w' = rest /\ w_lineno w' = w_lineno w + 1 /\
    match unescape p with
    | Some text =>
        exists out,
          readline s w = Ret (Some out) w' /\ val_bytes out = text /\
          w_Eof w' = w_Eof w /\ w_out w' = w_out w
    | None =>
        readline s w = Ret None w' /\ w_Eof w' = true /\
        w_out w' = w_out w ++ [Stderr (MsgUnexpectedEnd (w_lineno w + 1))]
    end.
Proof.
  intros Hnohdr Hprint Hin Hp0 Hp10 Hre Hint HL Hblk.
  destruct (readline_takes_line s w p rest)
    as (w3 & tail & Hst3 & Hln3 & HEof3 & Hout3 & ->); [done..|].
  rewrite (proj2 (Z.eqb_neq _ 0) Hprint).
  pose proof (decode_print_spec (length p) p [] tail 0) as Hdec.
  cbn [length app Nat.add] in Hdec.
  specialize (Hdec ltac:(lia) ltac:(lia)).
  destruct (unescape p) as [text|].
  - destruct Hdec as (base' & -> & Htk & Hl).
    rewrite bind_modify.
    exists (set_buf s {| iov_base := base'; iov_len := iov_len (get_buf s w3) |} w3).
    split; [by destruct s|]. split; [by destruct s|].
    eexists. unfold ret. split; [reflexivity|].
    split.
    { unfold val_bytes. cbn [iov_len iov_base]. by rewrite Nat2Z.id. }
    split; by destruct s.
  - destruct Hdec as (base' & ->).
    rewrite !bind_modify. unfold badend.
    rewrite bind_run with (a := tt)
      (w' := set_out (w_out w3 ++ [Stderr (MsgUnexpectedEnd (w_lineno w3))])
               (set_Eof true
                  (set_buf s {| iov_base := base';
                                iov_len := iov_len (get_buf s w3) |} w3))).
    2:{ rewrite bind_get. destruct s; reflexivity. }
    eexists. split; [|split]; [| |split; [reflexivity|]].
    + by destruct s.
    + by destruct s.
    + split; [by destruct s|]. by rewrite <- Hln3, <- Hout3.
Qed.

Section PrintRuns.
#[local] Existing Instances mdbx_h_values lp64 toy_engine.

Lemma readline_print_resolves_escapes_witness :
  exists w',
    w_stdin w' = lines [" b"]%string /\
    exists out,
      readline DBUF
        (set_mode PRINT (loop_world (lines [" a\\\0Az"; " b"]%string) 0 no_records)) =
      Ret (Some out) w' /\
      val_bytes out = [97; 92; 10; 122].
Proof.
  destruct (readline_print_resolves_escapes DBUF
              (set_mode PRINT
                 (loop_world (lines [" a\\\0Az"; " b"]%string) 0 no_records))
              (bytes_of "a\\\0Az") (lines [" b"]%string))
    as (w' & Hrest & _ & Hgood).
  - reflexivity.
  - vm_compute. discriminate.
  - vm_compute. reflexivity.
  - repeat constructor; vm_compute; discriminate.
  - repeat constructor; vm_compute; discriminate.
  - done.
  - by vm_compute.
  - by vm_compute.
  - cbn [set_mode loop_world get_buf w_dbuf iov_len iov_base]. unfold fresh.
    rewrite length_map, length_seq. lia.
  - exists w'. split; [exact Hrest|].
    change (unescape (bytes_of "a\\\0Az")) with (Some [97; 92; 10; 122]) in Hgood.
    destruct Hgood as (out & Hrun & Hval & _).
    exists out. by split.
Defined.

End PrintRuns.

(** ** What a monad action returns, whatever the state *)

Section Yields.
Context `{E : Engine}.

Definition yields {A} (m : M A) (R : A -> Prop) : Prop :=
  forall w, match m w with Ret a _ => R a | _ => True end.

Lemma yields_bind {A B} (m : M A) (k : A -> M B) (R : B -> Prop) :
  (forall a, yields (k a) R) -> yields (bind m k) R.
Proof.
  intros Hk w. unfold bind. destruct (m w) as [a w'| |]; [|done..]. apply Hk.
Qed.

Lemma yields_bind_mid {A B} (m : M A) (k : A -> M B) (R1 : A -> Prop)
    (R : B -> Prop) :
  yields m R1 -> (forall a, R1 a -> yields (k a) R) -> yields (bind m k) R.
Proof.
  intros Hm Hk w. unfold bind. specialize (Hm w).
  destruct (m w) as [a w'| |]; [|done..]. by apply Hk.
Qed.

Lemma yields_ret {A} (a : A) (R : A -> Prop) : R a -> yields (ret a) R.
Proof. by intros Ha w. Qed.

Lemma yields_crash {A} f (R : A -> Prop) : yields (crash f) R.
Proof. by intros w. Qed.

Lemma hoare_yields {A} (I : world -> Prop) (m : M A) (R : A -> Prop) :
  keeps I m -> yields m R -> hoare I m (fun a w => I w /\ R a) I.
Proof.
  intros Hk Hy w Hw. specialize (Hk w Hw). specialize (Hy w).
  by destruct (m w).
Qed.

End Yields.

Ltac yields_step :=
  lazymatch goal with
  | |- yields (bind _ _) _ => apply yields_bind; intros ?
  | |- yields (ret _) _ => apply yields_ret
  | |- yields (crash _) _ => apply yields_crash
  | |- yields (match ?x with _ => _ end) _ => destruct x
  | |- yields (let '(_, _) := ?x in _) _ => destruct x
  end.

Section KeepsEnv.
Context `{H : MdbxH} `{P : Platform} `{E : Engine}.

Lemma load_record_env o v batch :
  yields (load_record o v batch)
    (fun t => match t with
              | Continue v' _ | Leave _ v' => env v' = env v
              end).
Proof. unfold load_record. repeat yields_step; done. Qed.

Lemma load_records_env fuel o : forall v batch,
  yields (load_records fuel o v batch) (fun res => env (snd res) = env v).
Proof.
  induction fuel as [|fuel IH]; intros v batch; cbn [load_records].
  - apply yields_crash.
  - eapply yields_bind_mid; [apply load_record_env|].
    intros [v' b'|l v'] Hv.
    + intros w. specialize (IH v' b' w).
      destruct (load_records fuel o v' b' w); [|done..]. congruence.
    + by apply yields_ret.
Qed.

Lemma load_section_env o v :
  yields (load_section o v)
    (fun r => match r with Again v' | Goto _ v' => env v' = env v end).
Proof.
  unfold load_section.
  repeat first
    [ eapply yields_bind_mid;
      [apply load_records_env|cbn [env set_prevk set_mc set_dbi set_txn snd];
                              intros [[?|] ?] ?]
    | yields_step ]; cbn in *; congruence.
Qed.

Lemma load_loop_env fuel o : forall v,
  yields (load_loop fuel o v) (fun out => env (snd out) = env v).
Proof.
  induction fuel as [|fuel IH]; intros v; cbn [load_loop].
  - repeat yields_step; done.
  - yields_step. yields_step; [by apply yields_ret|].
    eapply yields_bind_mid; [apply load_section_env|].
    intros [v'|l v'] Hv.
    + intros w. specialize (IH v' w).
      destruct (load_loop fuel o v' w); [|done..]. congruence.
    + by apply yields_ret.
Qed.

End KeepsEnv.

(** ** Every event of a stretch of the run has a property *)

Section Always.
Context `{H : MdbxH} `{P : Platform} `{E : Engine}.

Variable ok : event -> bool.
Hypothesis ok_stdout : forall m, ok (Stdout m) = true.
Hypothesis ok_stderr : forall m, ok (Stderr m) = true.
Hypothesis ok_call : forall c r, loading_call c = true -> ok (Call c r) = true.

(** [w] comes after [w0] by events that all have the property. *)
Definition always (w0 w : world) : Prop :=
  exists evs, w_out w = w_out w0 ++ evs /\ Forall (fun e => ok e = true) evs.

Lemma always_refl w : always w w.
Proof. exists []. by rewrite app_nil_r. Qed.

Lemma always_input w0 w w' : always w0 w -> after_input w w' -> always w0 w'.
Proof.
  intros (evs & Ho & Hf) (_ & _ & evs' & Ho' & Hf').
  exists (evs ++ evs'). rewrite Ho', Ho, app_assoc. split; [done|].
  apply Forall_app. split; [done|].
  eapply Forall_impl; [exact Hf'|]. intros [m|m|c r]; [done| |done].
  intros _. apply ok_stderr.
Qed.

Lemma keeps_always_input {A} (m : M A) w0 :
  (forall w1, keeps (after_input w1) m) -> keeps (always w0) m.
Proof.
  intros Hm w Hw. specialize (Hm w w (after_input_refl w)).
  destruct (m w); by eapply always_input.
Qed.

Lemma keeps_always_line {A} (m : M A) w0 :
  (forall w1, keeps (after_line w1) m) -> keeps (always w0) m.
Proof.
  intros Hm w Hw. specialize (Hm w w (after_line_refl w)).
  destruct (m w); eapply always_input; eauto using after_line_input.
Qed.

Lemma keeps_always_emit w0 e : ok e = true -> keeps (always w0) (emit e).
Proof.
  intros He. apply keeps_modify. intros w (evs & Ho & Hf).
  exists (evs ++ [e]). cbn. rewrite Ho, app_assoc.
  split; [done|]. apply Forall_app. split; [done|]. by constructor.
Qed.

Lemma keeps_always_engine w0 c :
  loading_call c = true -> keeps (always w0) (engine c).
Proof.
  intros Hc w (evs & Ho & Hf). unfold engine.
  destruct (engine_call c (w_engine w)) as [r s].
  exists (evs ++ [Call c r]). cbn. rewrite Ho, app_assoc.
  split; [done|]. apply Forall_app. split; [done|].
  constructor; [|done]. by apply ok_call.
Qed.

Lemma read_user_break_always w0 : keeps (always w0) read_user_break.
Proof.
  intros w Hw. unfold read_user_break. destruct (w_user_break w); [done|].
  destruct Hw as (? & ? & ?). by eexists.
Qed.

End Always.

Ltac always_step :=
  first
    [ keeps_step
    | apply keeps_always_emit; solve [auto]
    | apply keeps_always_engine; [assumption|reflexivity]
    | apply keeps_always_line; [assumption..|intros ?; apply readline_keeps]
    | apply keeps_always_input; [assumption..|intros ?; apply readhdr_keeps]
    | apply read_user_break_always
    | apply keeps_modify; let w := fresh in
      intros w; intros (? & ? & ?); eexists; split; [eassumption|done] ].

Section Always2.
Context `{H : MdbxH} `{P : Platform} `{E : Engine}.

Variable ok : event -> bool.
Hypothesis ok_stdout : forall m, ok (Stdout m) = true.
Hypothesis ok_stderr : forall m, ok (Stderr m) = true.
Hypothesis ok_call : forall c r, loading_call c = true -> ok (Call c r) = true.

Lemma load_record_always w0 o v batch :
  keeps (always ok w0) (load_record o v batch).
Proof. unfold load_record. repeat always_step. Qed.

Lemma load_records_always w0 fuel o : forall v batch,
  keeps (always ok w0) (load_records fuel o v batch).
Proof.
  induction fuel as [|fuel IH]; intros v batch; cbn [load_records].
  - apply keeps_crash.
  - apply keeps_bind; [apply load_record_always|].
    intros [v' b'|l v']; [apply IH|apply keeps_ret].
Qed.

Lemma load_section_always w0 o v : keeps (always ok w0) (load_section o v).
Proof.
  unfold load_section.
  repeat first [apply load_records_always | always_step].
Qed.

Lemma load_loop_always w0 fuel o : forall v,
  keeps (always ok w0) (load_loop fuel o v).
Proof.
  induction fuel as [|fuel IH]; intros v; cbn [load_loop].
  - repeat always_step.
  - apply keeps_bind; [apply keeps_get|]. intros eof.
    destruct eof; [apply keeps_ret|].
    apply keeps_bind; [apply load_section_always|].
    intros [v'|l v']; [apply IH|apply keeps_ret].
Qed.

Lemma usage_always {A} w0 : keeps (always ok w0) (@usage _ A).
Proof. unfold usage. repeat always_step. Qed.

Lemma getopt_loop_always w0 l : forall o0,
  keeps (always ok w0) (getopt_loop l o0).
Proof.
  induction l as [|c l IH]; intros o0; cbn [getopt_loop].
  - apply keeps_ret.
  - apply keeps_bind.
    + destruct c; cbn [apply_opt]; unfold printf; try apply usage_always;
        repeat always_step.
    + intros [o'|code]; [apply IH|apply keeps_ret].
Qed.

End Always2.

Section Closes.
Context `{H : MdbxH} `{P : Platform} `{E : Engine}.

Lemma calm_call c r : loading_call c = true -> calm (Call c r) = true.
Proof. by destruct c. Qed.

Lemma finish_closes w0 l v :
  hoare (always calm w0) (finish l v) (fun _ => closed (env v) w0)
    (always calm w0).
Proof.
  intros w (evs & Ho & Hf). unfold finish, bind, engine, ret.
  destruct l.
  - destruct (engine_call (mdbx_txn_abort (txn v)) (w_engine w)) as [r s].
    cbn. destruct (engine_call (mdbx_env_close (env v)) s) as [r' s'].
    exists (evs ++ [Call (mdbx_txn_abort (txn v)) r]), r'. cbn.
    rewrite Ho, <- !app_assoc. split; [done|].
    apply Forall_app. split; [done|]. by repeat constructor.
  - destruct (engine_call (mdbx_env_close (env v)) (w_engine w)) as [r' s'].
    exists evs, r'. cbn. rewrite Ho, <- !app_assoc. by split.
Qed.

Lemma load_closes w0 o envname e :
  hoare (always calm w0) (load o envname e) (fun _ => closed e w0)
    (always calm w0).
Proof.
  pose proof (fun m => eq_refl : calm (Stdout m) = true) as ok_stdout.
  pose proof (fun m => eq_refl : calm (Stderr m) = true) as ok_stderr.
  pose proof calm_call as ok_call.
  unfold load.
  eapply hoare_bind with (Mid := fun _ => always calm w0); [always_step|intros _].
  eapply hoare_bind with (Mid := fun _ => always calm w0); [always_step|intros mapsize].
  eapply hoare_bind with
    (Mid := fun geo w => always calm w0 w /\ env (snd geo) = e).
  { destruct (mapsize =? 0); [by apply hoare_ret|].
    destruct (INTPTR_MAX <? mapsize).
    - eapply hoare_bind with (Mid := fun _ => always calm w0);
        [repeat always_step|intros _]. by apply hoare_ret.
    - eapply hoare_bind with (Mid := fun _ => always calm w0);
        [repeat always_step|intros r].
      destruct (negb (rc r =? 0)).
      + eapply hoare_bind with (Mid := fun _ => always calm w0);
          [repeat always_step|intros _]. by apply hoare_ret.
      + by apply hoare_ret. }
  intros [[l|] v].
  { intros w [Hw <-]. by apply finish_closes. }
  intros w [Hw <-]. revert w Hw. cbn [snd].
  change (hoare (always calm w0)
    (let* r := engine (mdbx_env_open (env v) envname (envflags o) 436) in
     let v0 := set_rc (rc r) v in
     if negb (rc r =? 0) then
       fprintf_stderr (MsgEnvOpenFailed (rc r));;; finish env_close v0
     else
       let* r0 := engine (mdbx_env_get_maxvalsize_ex (env v) MDBX_DUPSORT) in
       let klen := rc r0 mod (2 * INTPTR_MAX + 2) in
       if INTPTR_MAX / 4 <=? klen then
         fprintf_stderr (MsgMaxKeysizeFailed klen);;; finish env_close v0
       else
         let klen0 := (klen + 1) * 2 in
         modify (set_kbuf {| iov_base := fresh 0 (Z.to_nat klen0);
                             iov_len := klen0 |});;;
         modify (set_k0_live true);;;
         (let v1 := set_prevk {| iov_base := fresh (Z.to_nat klen0)
                                               (Z.to_nat klen0);
                                 iov_len := 0 |} v0 in
          let* turns := get (fun w => S (length (w_stdin w))) in
          let* out := load_loop turns o v1 in
          finish (fst out) (snd out)))
    (fun _ => closed (env v) w0) (always calm w0)).
  eapply hoare_bind with (Mid := fun _ => always calm w0); [always_step|intros r].
  cbn zeta. destruct (negb (rc r =? 0)).
  { eapply hoare_bind with (Mid := fun _ => always calm w0);
      [repeat always_step|intros _]. apply (finish_closes w0 env_close (set_rc (rc r) v)). }
  eapply hoare_bind with (Mid := fun _ => always calm w0); [always_step|intros r0].
  destruct (_ <=? _).
  { eapply hoare_bind with (Mid := fun _ => always calm w0);
      [repeat always_step|intros _]. apply (finish_closes w0 env_close (set_rc (rc r) v)). }
  eapply hoare_bind with (Mid := fun _ => always calm w0); [always_step|intros _].
  eapply hoare_bind with (Mid := fun _ => always calm w0); [always_step|intros _].
  eapply hoare_bind with (Mid := fun _ => always calm w0); [always_step|intros turns].
  eapply hoare_bind.
  { apply hoare_yields; [by apply load_loop_always|apply load_loop_env]. }
  intros [l v'] w [Hw Henv]. cbn [fst snd env set_prevk set_rc] in *.
  rewrite <- Henv. by apply finish_closes.
Qed.

End Closes.

Section ClosesMain.
Context `{H : MdbxH} `{P : Platform} `{E : Engine}.

Lemma hoare_bind_stop {A B} Pre (m : M A) Mid Stop (k : A -> M B) Post :
  hoare Pre m Mid Stop ->
  (forall a, hoare (Mid a) (k a) Post (fun _ => True)) ->
  hoare Pre (bind m k) Post (fun _ => True).
Proof.
  intros Hm Hk w Hw. specialize (Hm w Hw). unfold bind.
  destruct (m w) as [a w'| |]; [|done..]. by apply Hk.
Qed.

Lemma silent_trace w0 w :
  w_out w0 = [] -> always silent w0 w ->
  Forall (fun e => is_call e = false) (w_out w).
Proof.
  intros H0 (evs & -> & Hf). rewrite H0. cbn [app].
  eapply Forall_impl; [exact Hf|]. intros e. unfold silent. by destruct (is_call e).
Qed.

Lemma main_closes w0 c :
  w_out w0 = [] ->
  hoare (always silent w0) (main c)
    (fun _ w => closes_what_it_creates (w_out w)) (fun _ => True).
Proof.
  intros H0.
  pose proof (fun m => eq_refl : silent (Stdout m) = true) as ok_stdout.
  pose proof (fun m => eq_refl : silent (Stderr m) = true) as ok_stderr.
  assert (forall A, hoare (always silent w0) (@usage _ A)
            (fun _ w => closes_what_it_creates (w_out w)) (fun _ => True)) as Husage.
  { intros A. unfold usage.
    eapply hoare_bind_stop with (Mid := fun _ => always silent w0)
      (Stop := always silent w0);
      [|intros _; by apply hoare_exit].
    unfold fprintf_stderr. by apply keeps_always_emit. }
  assert (hoare (always silent w0)
            (let* g := getopt_loop (opts c) initial_options in
             match g with
             | Parsed o0 =>
                 match operands c with
                 | [envname] =>
                     (if quiet o0 then ret tt else printf (MsgRunning envname));;;
                     modify (set_dbuf {| iov_base := fresh 0 4096; iov_len := 4096 |});;;
                     (let* mode := get w_mode in
                      (if Z.land mode NOHDR =? 0 then readhdr else ret tt);;;
                      (let* r := engine mdbx_env_create in
                       if negb (rc r =? 0)
                       then fprintf_stderr (MsgEnvCreateFailed (rc r));;; ret EXIT_FAILURE
                       else load o0 envname (out_handle r)))
                 | _ => usage
                 end
             | Return code => ret code
             end)
            (fun _ w => closes_what_it_creates (w_out w)) (fun _ => True)) as Hmain.
  { eapply hoare_bind_stop with (Mid := fun _ => always silent w0)
      (Stop := always silent w0); [by apply getopt_loop_always|].
    intros [o0|code].
    2: { apply hoare_ret. intros w Hw. left. by eapply silent_trace. }
    destruct (operands c) as [|envname [|]]; [apply Husage| |apply Husage].
    eapply hoare_bind_stop with (Mid := fun _ => always silent w0)
      (Stop := always silent w0).
    { change (keeps (always silent w0)
                (if quiet o0 then ret tt else printf (MsgRunning envname))).
      destruct (quiet o0); unfold printf; repeat always_step. }
    intros _.
    eapply hoare_bind_stop with (Mid := fun _ => always silent w0)
      (Stop := always silent w0);
      [always_step|intros _].
    eapply hoare_bind_stop with (Mid := fun _ => always silent w0)
      (Stop := always silent w0);
      [always_step|intros mode].
    eapply hoare_bind_stop with (Mid := fun _ => always silent w0)
      (Stop := always silent w0).
    { change (keeps (always silent w0)
                (if Z.land mode NOHDR =? 0 then readhdr else ret tt)).
      destruct (_ =? 0); repeat always_step. }
    intros _ w Hw.
    pose proof (silent_trace w0 w H0 Hw) as Hpre.
    unfold bind at 1, engine at 1.
    destruct (engine_call mdbx_env_create (w_engine w)) as [r s].
    set (w1 := set_out _ _).
    destruct (Z.eqb_spec (rc r) 0) as [Hrc|Hrc]; cbn [negb].
    - pose proof (load_closes w1 o0 envname (out_handle r) w1 (always_refl _ w1))
        as Hload.
      destruct (load o0 envname (out_handle r) w1) as [code w'| |]; [|done..].
      destruct Hload as (mid & r' & Hout & Hmid).
      right. right. exists (w_out w), r, mid, r'.
      split; [|split; [done|split; [done|]]].
      + rewrite Hout. subst w1. cbn. by rewrite <- app_assoc.
      + eapply Forall_impl; [exact Hmid|]. intros ev. unfold calm.
        by destruct (is_env_bracket ev).
    - cbn. right. left. exists (w_out w), r. subst w1. cbn.
      by rewrite <- app_assoc. }
  unfold main.
  destruct (opts c) as [|? ?]; [|exact Hmain].
  destruct (operands c) as [|? ?]; [|exact Hmain].
  apply Husage.
Qed.

End ClosesMain.

(** ** The environment is closed *)

(** X14. A run that returns, rather than ending in [exit], closes
    the environment it created: its trace is without any call, or ends
    with a failed [mdbx_env_create] and the message about it, or holds
    one successful [mdbx_env_create] before which no call is made, then
    calls that neither create nor close an environment, and as the last
    event [mdbx_env_close] of the handle created. *)
Theorem run_closes_environment `{H : MdbxH} `{P : Platform} `{E : Engine}
    (c : cmdline) (input : bytes) (breaks : list bool) (e : engine_state)
    (code : Z) (w : world) :
  run c input breaks e = Ret code w ->
  closes_what_it_creates (w_out w).
Proof.
  intros Hrun. unfold run in Hrun.
  pose proof (main_closes (initial_world input breaks e) c eq_refl
                (initial_world input breaks e) (always_refl _ _)) as Hmain.
  by rewrite Hrun in Hmain.
Qed.

Section ClosingRuns.
#[local] Existing Instances mdbx_h_values lp64 toy_engine.

Lemma run_closes_environment_witness :
  closes_what_it_creates (trace (cmd []) repeated_key_dump [] no_records).
Proof.
  apply (run_closes_environment (cmd []) repeated_key_dump [] no_records
           EXIT_SUCCESS
           (final_world (run (cmd []) repeated_key_dump [] no_records))).
  vm_compute. reflexivity.
Defined.

End ClosingRuns.

Section Batches.
Context `{H : MdbxH} `{P : Platform} `{E : Engine}.

Definition st (w : world) : txn_state := txn_state_of (w_out w).

Definition at_state (s : txn_state) (w : world) : Prop := st w = s.

Definition alive (w : world) : Prop := st w <> Refused.

Lemma settled_alive s w : settled s -> at_state s w -> alive w.
Proof. unfold at_state, alive. intros Hs ->. by destruct s. Qed.

Lemma track_silent s e : settled s -> is_call e = false -> track_txn s e = s.
Proof.
  intros Hn He. destruct e as [m|m|c r]; [| |cbn in He; discriminate He].
  all: destruct s as [|cur n|]; [done| |done].
  all: cbn in Hn; cbn [track_txn]; destruct (Nat.ltb_spec n 100); [done|lia].
Qed.

Lemma fold_track_silent evs : forall s,
  settled s -> Forall (fun e => silent e = true) evs ->
  fold_left track_txn evs s = s.
Proof.
  induction evs as [|e evs IH]; intros s Hs Hf; [done|].
  inversion Hf as [|? ? He Hf']; subst. cbn [fold_left].
  rewrite track_silent; [by apply IH|done|].
  unfold silent in He. by destruct (is_call e).
Qed.

Lemma st_always_silent w0 w :
  settled (st w0) -> always silent w0 w -> st w = st w0.
Proof.
  intros Hs (evs & Ho & Hf). unfold st, txn_state_of in *.
  rewrite Ho, fold_left_app. by apply fold_track_silent.
Qed.

Lemma keeps_at_silent {A} (m : M A) s :
  settled s -> (forall w0, keeps (always silent w0) m) -> keeps (at_state s) m.
Proof.
  intros Hs Hm w Hw. specialize (Hm w w (always_refl _ w)).
  unfold at_state in *.
  destruct (m w); rewrite <- Hw; apply st_always_silent; (done || by rewrite Hw).
Qed.

Lemma engine_at s c Stop :
  hoare (at_state s) (engine c)
    (fun r => at_state (track_txn s (Call c r))) Stop.
Proof.
  intros w Hw. unfold engine.
  destruct (engine_call c (w_engine w)) as [r s']. unfold at_state, st in *.
  cbn. unfold txn_state_of in *. by rewrite fold_left_app, Hw.
Qed.

Lemma modify_at s (f : world -> world) :
  (forall w, w_out (f w) = w_out w) -> keeps (at_state s) (modify f).
Proof.
  intros Hf. apply keeps_modify. intros w Hw.
  unfold at_state, st in *. by rewrite Hf.
Qed.

Lemma readline_at s b : settled s -> keeps (at_state s) (readline b).
Proof.
  intros Hs. apply keeps_at_silent; [done|]. intros w0.
  apply keeps_always_line; [done..|]. intros w1. apply readline_keeps.
Qed.

Lemma readhdr_at s : settled s -> keeps (at_state s) readhdr.
Proof.
  intros Hs. apply keeps_at_silent; [done|]. intros w0.
  apply keeps_always_input; [done..|]. intros w1. apply readhdr_keeps.
Qed.

Lemma stderr_at s m : settled s -> keeps (at_state s) (fprintf_stderr m).
Proof.
  intros Hs. apply keeps_at_silent; [done|]. intros w0.
  unfold fprintf_stderr. by apply keeps_always_emit.
Qed.

Lemma stdout_at s m : settled s -> keeps (at_state s) (printf m).
Proof.
  intros Hs. apply keeps_at_silent; [done|]. intros w0.
  unfold printf. by apply keeps_always_emit.
Qed.

Lemma read_user_break_at s : keeps (at_state s) read_user_break.
Proof.
  intros w Hw. unfold read_user_break. by destruct (w_user_break w).
Qed.

End Batches.

Section Batches2.
Context `{H : MdbxH} `{P : Platform} `{E : Engine}.

Hypothesis Hkeyexist : MDBX_KEYEXIST <> 0.
Hypothesis Hbadval : MDBX_BAD_VALSIZE <> 0.

(** What the end of [main] needs at each of its labels. *)
Definition fit (l : label) (v : vars) (w : world) : Prop :=
  match l with
  | txn_abort =>
      st w = NoTxn \/ exists n, (n < 100)%nat /\ st w = InTxn (txn v) n
  | env_close => settled (st w)
  end.

(** Inside the loop over the records: the transaction of [txn] is
    open and holds [batch] successful puts. *)
Definition in_batch (v : vars) (batch : Z) (w : world) : Prop :=
  0 <= batch < 100 /\ st w = InTxn (txn v) (Z.to_nat batch).

Lemma bind_settled {A B} s (m : M A) (k : A -> M B) Post :
  settled s -> keeps (at_state s) m ->
  (forall a, hoare (at_state s) (k a) Post alive) ->
  hoare (at_state s) (bind m k) Post alive.
Proof.
  intros Hs Hm Hk. eapply hoare_bind; [|exact Hk].
  eapply hoare_conseq; [exact Hm|done|done|]. intros w. by apply settled_alive.
Qed.

Lemma bind_engine_at {B} s c (k : response -> M B) Post :
  (forall r, hoare (at_state (track_txn s (Call c r))) (k r) Post alive) ->
  hoare (at_state s) (bind (engine c) k) Post alive.
Proof. intros Hk. eapply hoare_bind; [apply engine_at|exact Hk]. Qed.

Lemma crash_settled {A} s f (Post : A -> world -> Prop) :
  settled s -> hoare (at_state s) (crash f) Post alive.
Proof. intros Hs. apply hoare_crash. intros w. by apply settled_alive. Qed.

Lemma exit_settled {A} s c (Post : A -> world -> Prop) :
  settled s -> hoare (at_state s) (exit c) Post alive.
Proof. intros Hs. apply hoare_exit. intros w. by apply settled_alive. Qed.

Lemma load_record_batches o v batch :
  0 <= batch < 100 ->
  hoare (at_state (InTxn (txn v) (Z.to_nat batch))) (load_record o v batch)
    (fun t w => match t with
                | Continue v' b' => in_batch v' b' w
                | Leave None v' => exists b', in_batch v' b' w
                | Leave (Some l) v' => fit l v' w
                end) alive.
Proof.
  intros Hb.
  assert (Z.to_nat batch < 100)%nat as Hn by lia.
  set (s := InTxn (txn v) (Z.to_nat batch)).
  assert (settled s) as Hs by done.
  unfold load_record.
  apply bind_settled; [done|by apply readline_at|]. intros [key|].
  2: { apply hoare_ret. intros w Hw. by exists batch. }
  apply bind_settled; [done|by apply readline_at|]. intros [data|].
  2: { apply bind_settled; [done|apply keeps_get|]. intros lineno.
       apply bind_settled; [done|by apply stderr_at|]. intros _.
       apply hoare_ret. intros w Hw. right. by exists (Z.to_nat batch). }
  apply bind_settled; [done|apply keeps_get|]. intros dbi_flags.
  apply bind_settled; [done|apply keeps_get|]. intros live.
  destruct (_ && _ && _); [by apply crash_settled|].
  destruct (append_flag o dbi_flags (prevk v) key) as [appflag pk].
  apply bind_engine_at. intros r. subst s. cbn [track_txn].
  destruct (Nat.ltb_spec (Z.to_nat batch) 100) as [_|]; [|lia].
  cbn [txn set_prevk set_rc mc].
  destruct (Z.eqb_spec (rc r) 0) as [Hr|Hr].
  - rewrite Hr.
    rewrite (proj2 (Z.eqb_neq 0 MDBX_KEYEXIST)) by done.
    rewrite (proj2 (Z.eqb_neq 0 MDBX_BAD_VALSIZE)) by done.
    cbn [andb negb Z.eqb].
    destruct (Z.eqb_spec (batch + 1) 100) as [Hfull|Hfull].
    + apply bind_engine_at. intros r1. cbn [track_txn]. rewrite Z.eqb_refl.
      destruct (negb (rc r1 =? 0)).
      * apply bind_settled; [done|apply keeps_get|]. intros lineno.
        apply bind_settled; [done|by apply stderr_at|]. intros _.
        apply hoare_ret. intros w Hw. cbn [fit]. unfold at_state in Hw. by rewrite Hw.
      * apply bind_engine_at. intros r2. cbn [track_txn].
        destruct (Z.eqb_spec (rc r2) 0) as [Hr2|Hr2]; cbn [negb].
        -- apply bind_engine_at. intros r3. cbn [track_txn Nat.ltb Nat.leb].
           destruct (negb (rc r3 =? 0)).
           ++ apply bind_settled; [cbn; lia|apply stderr_at; cbn; lia|]. intros _.
              apply hoare_ret. intros w Hw. right. exists 0%nat. split; [lia|done].
           ++ apply hoare_ret. intros w Hw. split; [lia|done].
        -- apply bind_settled; [done|by apply stderr_at|]. intros _.
           apply hoare_ret. intros w Hw. cbn [fit]. unfold at_state in Hw. by rewrite Hw.
    + apply hoare_ret. intros w Hw. split; [lia|].
      rewrite Hw. f_equal. lia.
  - destruct (_ && _).
    { apply hoare_ret. intros w Hw. by split. }
    destruct (_ && _).
    { apply bind_settled; [done|apply keeps_get|]. intros lineno.
      apply bind_settled; [done|by apply stderr_at|]. intros _.
      apply hoare_ret. intros w Hw. by split. }
    cbn [negb].
    apply bind_settled; [done|by apply stderr_at|]. intros _.
    apply hoare_ret. intros w Hw. right. by exists (Z.to_nat batch).
Qed.

Lemma load_records_batches fuel o : forall v batch,
  0 <= batch < 100 ->
  hoare (at_state (InTxn (txn v) (Z.to_nat batch))) (load_records fuel o v batch)
    (fun res w => match res with
                  | (None, v') => exists b', in_batch v' b' w
                  | (Some l, v') => fit l v' w
                  end) alive.
Proof.
  induction fuel as [|fuel IH]; intros v batch Hb; cbn [load_records].
  - apply crash_settled. cbn. lia.
  - eapply hoare_bind; [by apply load_record_batches|].
    intros [v' b'|[l|] v'].
    + intros w [Hb' Hw]. by apply IH.
    + by apply hoare_ret.
    + by apply hoare_ret.
Qed.

Lemma load_section_batches o v :
  hoare (at_state NoTxn) (load_section o v)
    (fun r w => match r with
                | Again _ => at_state NoTxn w
                | Goto l v' => fit l v' w
                end) alive.
Proof.
  unfold load_section.
  apply bind_settled; [done|apply read_user_break_at|]. intros stop.
  destruct stop.
  { apply hoare_ret. intros w Hw. by left. }
  apply bind_engine_at. intros r. cbn [track_txn].
  destruct (Z.eqb_spec (rc r) 0) as [Hr|Hr]; cbn [negb].
  2: { apply bind_settled; [done|by apply stderr_at|]. intros _.
       apply hoare_ret. intros w Hw. cbn [fit]. unfold at_state in Hw.
       by rewrite Hw. }
  assert (settled (InTxn (out_handle r) 0)) as Hs by (cbn; lia).
  apply bind_settled; [done|apply keeps_get|]. intros subname.
  apply bind_settled; [done|apply keeps_get|]. intros dbi_flags.
  apply bind_engine_at. intros r1. cbn [track_txn Nat.ltb Nat.leb].
  destruct (negb (rc r1 =? 0)).
  { apply bind_settled; [done|by apply stderr_at|]. intros _.
    apply hoare_ret. intros w Hw. right. exists 0%nat. split; [lia|done]. }
  apply bind_engine_at. intros r2. cbn [track_txn Nat.ltb Nat.leb].
  destruct (negb (rc r2 =? 0)).
  { apply bind_settled; [done|by apply stderr_at|]. intros _.
    apply hoare_ret. intros w Hw. right. exists 0%nat. split; [lia|done]. }
  apply bind_settled; [done|apply keeps_get|]. intros turns.
  eapply hoare_bind.
  { apply (load_records_batches turns o
             (set_prevk {| iov_base := iov_base (prevk (set_mc r2 (set_dbi r1 (set_txn r v))));
                           iov_len := 0 |} (set_mc r2 (set_dbi r1 (set_txn r v)))) 0).
    lia. }
  intros [[l|] v']; [by apply hoare_ret|].
  intros w (b' & Hb' & Hw). revert w Hw.
  change (hoare (at_state (InTxn (txn v') (Z.to_nat b')))
    (let* r3 := engine (mdbx_txn_commit (txn v')) in
     let v0 := clear_txn r3 v' in
     if negb (rc r3 =? 0) then
       let* lineno := get w_lineno in
       fprintf_stderr (MsgTxnCommitFailed lineno (rc r3));;; ret (Goto env_close v0)
     else
       engine (mdbx_dbi_close (env v0) (dbi v0));;;
       modify (set_subname None);;;
       let* mode := get w_mode in
       (if Z.land mode NOHDR =? 0 then readhdr else ret tt);;;
       ret (Again v0))
    (fun r w => match r with
                | Again _ => at_state NoTxn w
                | Goto l v'0 => fit l v'0 w
                end) alive).
  apply bind_engine_at. intros r3. cbn [track_txn]. rewrite Z.eqb_refl.
  cbn zeta. destruct (negb (rc r3 =? 0)).
  { apply bind_settled; [done|apply keeps_get|]. intros lineno.
    apply bind_settled; [done|by apply stderr_at|]. intros _.
    apply hoare_ret. intros w Hw. cbn [fit]. unfold at_state in Hw.
    by rewrite Hw. }
  apply bind_engine_at. intros r4. cbn [track_txn].
  apply bind_settled; [done|by apply modify_at|]. intros _.
  apply bind_settled; [done|apply keeps_get|]. intros mode.
  apply bind_settled; [done| |intros _; by apply hoare_ret].
  destruct (_ =? 0); [by apply readhdr_at|apply keeps_ret].
Qed.

Lemma load_loop_batches fuel o : forall v,
  hoare (at_state NoTxn) (load_loop fuel o v)
    (fun out w => fit (fst out) (snd out) w) alive.
Proof.
  induction fuel as [|fuel IH]; intros v; cbn [load_loop].
  - apply bind_settled; [done|apply keeps_get|]. intros eof.
    destruct eof; [|by apply crash_settled].
    apply hoare_ret. intros w Hw. by left.
  - apply bind_settled; [done|apply keeps_get|]. intros eof.
    destruct eof.
    { apply hoare_ret. intros w Hw. by left. }
    eapply hoare_bind; [apply load_section_batches|].
    intros [v'|l v']; [apply IH|by apply hoare_ret].
Qed.

Lemma finish_batches l v :
  hoare (fit l v) (finish l v) (fun _ => alive) alive.
Proof.
  intros w Hw. unfold finish, bind, engine, ret.
  destruct l; cbn [fit] in Hw.
  - destruct (engine_call (mdbx_txn_abort (txn v)) (w_engine w)) as [r s].
    cbn. destruct (engine_call (mdbx_env_close (env v)) s) as [r' s'].
    unfold alive, st, txn_state_of in *. cbn.
    rewrite !fold_left_app. cbn [fold_left].
    destruct Hw as [->|(n & Hn & ->)]; [done|].
    cbn [track_txn]. destruct (Nat.ltb_spec n 100); [|lia].
    rewrite Z.eqb_refl. done.
  - destruct (engine_call (mdbx_env_close (env v)) (w_engine w)) as [r' s'].
    unfold alive, st, txn_state_of in *. cbn.
    rewrite !fold_left_app. cbn [fold_left].
    destruct (fold_left track_txn (w_out w) NoTxn) as [|cur n|]; [done| |done].
    cbn in Hw. cbn [track_txn]. by destruct (Nat.ltb_spec n 100); [|lia].
Qed.

Lemma load_batches o envname e :
  hoare (at_state NoTxn) (load o envname e) (fun _ => alive) alive.
Proof.
  assert (forall l v, hoare (at_state NoTxn) (finish l v) (fun _ => alive) alive)
    as Hfinish.
  { intros l v. eapply hoare_conseq; [apply finish_batches| |done..].
    intros w Hw. unfold at_state in Hw. destruct l; cbn [fit]; [by left|].
    by rewrite Hw. }
  unfold load.
  apply bind_engine_at. intros r0. cbn [track_txn].
  apply bind_settled; [done|apply keeps_get|]. intros mapsize.
  eapply hoare_bind with (Mid := fun _ => at_state NoTxn).
  { destruct (mapsize =? 0); [by apply hoare_ret|].
    destruct (INTPTR_MAX <? mapsize).
    - apply bind_settled; [done|by apply stderr_at|]. intros _. by apply hoare_ret.
    - apply bind_engine_at. intros r. cbn [track_txn].
      destruct (negb (rc r =? 0)); [|by apply hoare_ret].
      apply bind_settled; [done|by apply stderr_at|]. intros _. by apply hoare_ret. }
  intros [[l|] v]; [apply Hfinish|].
  apply bind_engine_at. intros r. cbn [track_txn]. cbn zeta.
  destruct (negb (rc r =? 0)).
  { apply bind_settled; [done|by apply stderr_at|]. intros _. apply Hfinish. }
  apply bind_engine_at. intros r1. cbn [track_txn].
  destruct (_ <=? _).
  { apply bind_settled; [done|by apply stderr_at|]. intros _. apply Hfinish. }
  apply bind_settled; [done|by apply modify_at|]. intros _.
  apply bind_settled; [done|by apply modify_at|]. intros _.
  apply bind_settled; [done|apply keeps_get|]. intros turns.
  eapply hoare_bind; [apply load_loop_batches|].
  intros [l v']. apply finish_batches.
Qed.

End Batches2.

Section Batches3.
Context `{H : MdbxH} `{P : Platform} `{E : Engine}.

Hypothesis Hkeyexist : MDBX_KEYEXIST <> 0.
Hypothesis Hbadval : MDBX_BAD_VALSIZE <> 0.

Lemma main_batches c :
  hoare (at_state NoTxn) (main c) (fun _ => alive) alive.
Proof.
  assert (forall A, hoare (at_state NoTxn) (@usage _ A) (fun _ => alive) alive)
    as Husage.
  { intros A. unfold usage.
    apply bind_settled; [done|by apply stderr_at|]. intros _.
    by apply exit_settled. }
  assert (hoare (at_state NoTxn)
            (let* g := getopt_loop (opts c) initial_options in
             match g with
             | Parsed o0 =>
                 match operands c with
                 | [envname] =>
                     (if quiet o0 then ret tt else printf (MsgRunning envname));;;
                     modify (set_dbuf {| iov_base := fresh 0 4096; iov_len := 4096 |});;;
                     (let* mode := get w_mode in
                      (if Z.land mode NOHDR =? 0 then readhdr else ret tt);;;
                      (let* r := engine mdbx_env_create in
                       if negb (rc r =? 0)
                       then fprintf_stderr (MsgEnvCreateFailed (rc r));;; ret EXIT_FAILURE
                       else load o0 envname (out_handle r)))
                 | _ => usage
                 end
             | Return code => ret code
             end)
            (fun _ => alive) alive) as Hmain.
  { apply bind_settled; [done| |].
    { apply keeps_at_silent; [done|]. intros w0. by apply getopt_loop_always. }
    intros [o0|code]; [|apply hoare_ret; intros w; by apply settled_alive].
    destruct (operands c) as [|envname [|]]; [apply Husage| |apply Husage].
    apply bind_settled; [done| |intros _].
    { destruct (quiet o0); [apply keeps_ret|by apply stdout_at]. }
    apply bind_settled; [done|by apply modify_at|]. intros _.
    apply bind_settled; [done|apply keeps_get|]. intros mode.
    apply bind_settled; [done| |intros _].
    { destruct (_ =? 0); [by apply readhdr_at|apply keeps_ret]. }
    apply bind_engine_at. intros r. cbn [track_txn].
    destruct (negb (rc r =? 0)).
    - apply bind_settled; [done|by apply stderr_at|]. intros _. apply hoare_ret; intros w; by apply settled_alive.
    - by apply load_batches. }
  unfold main.
  destruct (opts c) as [|? ?]; [|exact Hmain].
  destruct (operands c) as [|? ?]; [|exact Hmain].
  apply Husage.
Qed.

End Batches3.

(** ** Puts, transactions and batches *)

(** X15. With MDBX_KEYEXIST and MDBX_BAD_VALSIZE different from
    zero, in every run, however it ends: a put is made only inside a
    transaction that was begun with success and is not yet committed;
    such a transaction takes at most 100 puts that succeed, and the
    100th is followed at once by the commit of that transaction; no
    transaction is begun while one is open; and a commit, or an abort
    inside a transaction, names the transaction begun last. *)
Theorem puts_come_in_batches `{H : MdbxH} `{P : Platform} `{E : Engine}
    (c : cmdline) (input : bytes) (breaks : list bool) (e : engine_state) :
  MDBX_KEYEXIST <> 0 -> MDBX_BAD_VALSIZE <> 0 ->
  is_refused (txn_state_of (trace c input breaks e)) = false.
Proof.
  intros Hk Hb. unfold trace, run.
  pose proof (main_batches Hk Hb c (initial_world input breaks e) eq_refl) as Hmain.
  assert (alive (final_world (main c (initial_world input breaks e)))) as Halive
    by (by destruct (main c (initial_world input breaks e))).
  unfold alive, st in Halive. by destruct (txn_state_of _).
Qed.

Section BatchRuns.
#[local] Existing Instances mdbx_h_values lp64 toy_engine.

Lemma puts_come_in_batches_witness :
  is_refused (txn_state_of (trace (cmd []) (long_dump 101) [] no_records)) = false.
Proof. apply puts_come_in_batches; vm_compute; discriminate. Defined.

End BatchRuns.

Ltac strncmp_eval :=
  repeat match goal with
    | |- context [strncmp (?b ++ ?t) ?lit ?n] =>
        let v := eval vm_compute in (strncmp (b ++ t) lit n) in
        change (strncmp (b ++ t) lit n) with v
    end.

Lemma peek_app_head (a t : bytes) (c : Z) : peek (a ++ c :: t) (length a) = c.
Proof. rewrite <- (Nat.add_0_r (length a)). by rewrite peek_app_r. Qed.

Lemma peek_app_next (a t : bytes) (c : Z) :
  peek (a ++ c :: t) (length a + 1) = peek t 0.
Proof. by rewrite peek_app_r. Qed.

Section FlagLines.
Context `{H : MdbxH} `{P : Platform} `{E : Engine}.

(** One of the six table flags, with the name the dump gives it. *)
Definition named_flag (fb : flagbit) : Prop :=
  In fb dbflags /\ name fb <> ""%string.

Lemma readhdr_line_flag w fb value tail :
  named_flag fb ->
  (forall fb', named_flag fb' -> bit fb' <> 0) ->
  iov_base (w_dbuf w) = bytes_of (name fb) ++ 61 :: value ++ 10 :: 0 :: tail ->
  readhdr_line w =
  Ret HdrContinue
    (if peek (value ++ [10]) 0 =? 49
     then set_dbi_flags (Z.lor (w_dbi_flags w) (bit fb)) (set_lineno (w_lineno w + 1) w)
     else set_lineno (w_lineno w + 1) w).
Proof.
  intros [Hin Hname] Hbits Hb.
  assert (forall fb', In fb' dbflags -> name fb' <> ""%string -> (bit fb' =? 0) = false)
    as Hnz.
  { intros fb' ? ?. apply Z.eqb_neq. by apply Hbits. }
  assert (peek (value ++ 10 :: 0 :: tail) 0 = peek (value ++ [10]) 0) as Hhead
    by (by destruct value).
  unfold readhdr_line.
  rewrite bind_modify, !bind_get. cbn [w_dbuf set_lineno w_lineno].
  rewrite Hb.
  assert ((bit {| bit := MDBX_REVERSEKEY; name := "reversekey" |} =? 0) = false) as N1
    by (apply Hnz; [repeat (first [left; reflexivity | right])|done]).
  assert ((bit {| bit := MDBX_DUPSORT; name := "dupsort" |} =? 0) = false) as N2
    by (apply Hnz; [repeat (first [left; reflexivity | right])|done]).
  assert ((bit {| bit := MDBX_INTEGERKEY; name := "integerkey" |} =? 0) = false) as N3
    by (apply Hnz; [repeat (first [left; reflexivity | right])|done]).
  assert ((bit {| bit := MDBX_DUPFIXED; name := "dupfixed" |} =? 0) = false) as N4
    by (apply Hnz; [repeat (first [left; reflexivity | right])|done]).
  assert ((bit {| bit := MDBX_INTEGERDUP; name := "integerdup" |} =? 0) = false) as N5
    by (apply Hnz; [repeat (first [left; reflexivity | right])|done]).
  assert ((bit {| bit := MDBX_REVERSEDUP; name := "reversedup" |} =? 0) = false) as N6
    by (apply Hnz; [repeat (first [left; reflexivity | right])|done]).
  cbn [bit] in N1, N2, N3, N4, N5, N6.
  unfold dbflags in Hin. cbn [In] in Hin.
  destruct Hin as [<-|[<-|[<-|[<-|[<-|[<-|[<-|[]]]]]]]]; [..|done];
    cbn [name bit];
    prefix_eval;
    unfold dbflags; cbn [scan_dbflags bit name len];
    rewrite ?N1, ?N2, ?N3, ?N4, ?N5, ?N6;
    unfold len; cbn [name STRLENOF];
    strncmp_eval; cbn [Z.eqb andb];
    unfold STRLENOF; rewrite peek_app_head; cbn [Z.eqb Pos.eqb name bit];
    rewrite peek_app_next, Hhead;
    by destruct (_ =? 49).
Qed.

End FlagLines.

Lemma strncmp_nul (a t l : bytes) (n : nat) :
  strncmp (a ++ 0 :: t) l n = strncmp a l n.
Proof.
  revert a l. induction n as [|n IH]; intros a l; [done|].
  destruct a as [|x a].
  - cbn [app strncmp peek nth tl].
    destruct (Z.eqb_spec 0 (nth 0 l 0)); [|done]. cbn [Z.eqb]. done.
  - cbn [app strncmp peek nth tl]. by rewrite IH.
Qed.

Lemma has_prefix_nul (a t : bytes) (lit : string) :
  has_prefix (a ++ 0 :: t) lit = has_prefix a lit.
Proof. unfold has_prefix. by rewrite strncmp_nul. Qed.

Section FormatLine.
Context `{H : MdbxH} `{P : Platform} `{E : Engine}.

Lemma readhdr_line_format w text tail :
  iov_base (w_dbuf w) = bytes_of "format=" ++ text ++ 10 :: 0 :: tail ->
  no_byte 0 text ->
  readhdr_line w =
  let w1 := set_lineno (w_lineno w + 1) w in
  if has_prefix (text ++ [10]) "print"
  then Ret HdrContinue (set_mode (Z.lor (w_mode w) PRINT) w1)
  else if has_prefix (text ++ [10]) "bytevalue" then Ret HdrContinue w1
  else Exit EXIT_FAILURE
         (set_out (w_out w ++ [Stderr (MsgUnsupportedFormat (w_lineno w + 1)
                                         (text ++ [10]))]) w1).
Proof.
  intros Hb Hnul. unfold readhdr_line.
  rewrite bind_modify, !bind_get. cbn [w_dbuf set_lineno w_lineno].
  rewrite Hb.
  change (drop (STRLENOF "FORMAT=") (bytes_of "format=" ++ text ++ 10 :: 0 :: tail))
    with (text ++ 10 :: 0 :: tail).
  replace (text ++ 10 :: 0 :: tail) with ((text ++ [10]) ++ 0 :: tail)
    by (by rewrite <- app_assoc).
  rewrite !has_prefix_nul, c_string_app
    by (apply no_byte_app; [done|]; by repeat constructor).
  cbv zeta.
  set (p1 := has_prefix (text ++ [10]) "print").
  set (p2 := has_prefix (text ++ [10]) "bytevalue").
  prefix_eval.
  destruct p1; [by rewrite bind_modify|].
  destruct p2; cbn [negb]; [done|].
  unfold fprintf_stderr. by rewrite bind_emit.
Qed.

End FormatLine.

(** ** Header lines that set the table's flags and the mode *)

(** X16. When each of the six named table flags of [dbflags] is a
    bit other than zero, a header line that starts with the name of
    one of them and an equals sign is taken without a message; if the
    character behind the equals sign is '1', the flag is added to the
    flags the table will be opened with, and if it is anything else the
    flags stay as they are.  The other settings are untouched and
    [readhdr] goes on with the next line. *)
Theorem readhdr_sets_named_flag `{H : MdbxH} `{P : Platform} `{E : Engine}
    (fuel : nat) (w : world) (fb : flagbit) (value rest : bytes) :
  In fb dbflags -> name fb <> ""%string ->
  (forall fb', In fb' dbflags -> name fb' <> ""%string -> bit fb' <> 0) ->
  w_stdin w = bytes_of (name fb) ++ 61 :: value ++ 10 :: rest ->
  no_byte 10 value ->
  iov_len (w_dbuf w) <= INT_MAX ->
  (length (bytes_of (name fb)) + length value + 3
     <= Z.to_nat (iov_len (w_dbuf w)))%nat ->
  (Z.to_nat (iov_len (w_dbuf w)) <= length (iov_base (w_dbuf w)))%nat ->
  exists w',
    readhdr_loop (S fuel) w = readhdr_loop fuel w' /\
    w_dbi_flags w' =
      (if peek (value ++ [10]) 0 =? 49
       then Z.lor (w_dbi_flags w) (bit fb) else w_dbi_flags w) /\
    w_stdin w' = rest /\ w_out w' = w_out w /\
    w_envinfo w' = w_envinfo w /\ w_subname w' = w_subname w /\
    w_mode w' = w_mode w /\ w_Eof w' = w_Eof w.
Proof.
  intros Hin Hname Hbits Hstdin Hnl Hmax Hfit Hblk.
  assert (no_byte 10 (bytes_of (name fb))) as Hn10.
  { unfold dbflags in Hin. cbn [In] in Hin.
    destruct Hin as [<-|[<-|[<-|[<-|[<-|[<-|[<-|[]]]]]]]];
      cbn [name]; repeat constructor; done. }
  rewrite (readhdr_loop_turn fuel w (bytes_of (name fb) ++ 61 :: value) rest).
  - set (w1 := header_line_read _ _ _).
    set (tail := drop (length (bytes_of (name fb) ++ 61 :: value) + 2)
                   (iov_base (w_dbuf w))).
    assert (iov_base (w_dbuf w1) = bytes_of (name fb) ++ 61 :: value ++ 10 :: 0 :: tail)
      as Hb.
    { subst w1. rewrite header_line_read_buf. by rewrite <- app_assoc. }
    pose proof (readhdr_line_flag w1 fb value tail (conj Hin Hname)) as Hline.
    rewrite (bind_run _ _ _ _ _ (Hline (fun fb' Hfb => Hbits fb' (proj1 Hfb) (proj2 Hfb)) Hb)).
    eexists. split; [reflexivity|].
    destruct (peek (value ++ [10]) 0 =? 49); by repeat split.
  - rewrite Hstdin, <- app_assoc. done.
  - apply no_byte_app; [done|]. constructor; [done|]. done.
  - done.
  - rewrite length_app. cbn [length]. lia.
  - done.
Qed.

Section FlagRuns.
#[local] Existing Instances mdbx_h_values lp64 toy_engine.

Lemma readhdr_sets_named_flag_witness :
  exists w',
    readhdr_loop 3 (loop_world (lines ["dupsort=1"; "HEADER=END"]%string) 0 no_records)
    = readhdr_loop 2 w' /\
    w_dbi_flags w' = Z.lor 0 MDBX_DUPSORT.
Proof.
  destruct (readhdr_sets_named_flag 2
              (loop_world (lines ["dupsort=1"; "HEADER=END"]%string) 0 no_records)
              {| bit := MDBX_DUPSORT; name := "dupsort" |}
              (bytes_of "1") (lines ["HEADER=END"]%string))
    as (w' & Hrun & Hflags & _).
  - right. by left.
  - done.
  - intros fb' Hfb' Hname'. unfold dbflags in Hfb'. cbn [In] in Hfb'.
    destruct Hfb' as [<-|[<-|[<-|[<-|[<-|[<-|[<-|[]]]]]]]]; cbn; done.
  - reflexivity.
  - by repeat constructor.
  - by vm_compute.
  - vm_compute. lia.
  - cbn [loop_world w_dbuf iov_len iov_base]. unfold fresh.
    rewrite length_map, length_seq. lia.
  - exists w'. by split.
Defined.

End FlagRuns.

(** X17. A header line [format=TEXT] decides how the data lines are
    read: when TEXT starts with "print", [readhdr] switches the print
    mode on and goes on; when it starts with "bytevalue", it goes on
    with the mode as it is; with any other text it prints "unsupported
    FORMAT" with the number of the line and the text, and ends the
    program with EXIT_FAILURE. *)
Theorem readhdr_format_selects_mode `{H : MdbxH} `{P : Platform} `{E : Engine}
    (fuel : nat) (w : world) (text rest : bytes) :
  w_stdin w = bytes_of "format=" ++ text ++ 10 :: rest ->
  no_byte 10 text -> no_byte 0 text ->
  iov_len (w_dbuf w) <= INT_MAX ->
  (length text + 9 <= Z.to_nat (iov_len (w_dbuf w)))%nat ->
  (Z.to_nat (iov_len (w_dbuf w)) <= length (iov_base (w_dbuf w)))%nat ->
  exists w',
    if has_prefix (text ++ [10]) "print" then
      readhdr_loop (S fuel) w = readhdr_loop fuel w' /\
      w_mode w' = Z.lor (w_mode w) PRINT /\
      w_stdin w' = rest /\ w_out w' = w_out w /\
      w_dbi_flags w' = w_dbi_flags w /\ w_subname w' = w_subname w
    else if has_prefix (text ++ [10]) "bytevalue" then
      readhdr_loop (S fuel) w = readhdr_loop fuel w' /\
      w_mode w' = w_mode w /\
      w_stdin w' = rest /\ w_out w' = w_out w /\
      w_dbi_flags w' = w_dbi_flags w /\ w_subname w' = w_subname w
    else
      readhdr_loop (S fuel) w = Exit EXIT_FAILURE w' /\
      w_out w' = w_out w ++
                 [Stderr (MsgUnsupportedFormat (w_lineno w + 1) (text ++ [10]))].
Proof.
  intros Hstdin Hnl Hnul Hmax Hfit Hblk.
  rewrite (readhdr_loop_turn fuel w (bytes_of "format=" ++ text) rest).
  - set (w1 := header_line_read _ _ _).
    set (tail := drop (length (bytes_of "format=" ++ text) + 2) (iov_base (w_dbuf w))).
    assert (iov_base (w_dbuf w1) = bytes_of "format=" ++ text ++ 10 :: 0 :: tail)
      as Hb.
    { subst w1. rewrite header_line_read_buf. by rewrite <- app_assoc. }
    pose proof (readhdr_line_format w1 text tail Hb Hnul) as Hline.
    cbv zeta in Hline.
    destruct (has_prefix (text ++ [10]) "print").
    { rewrite (bind_run _ _ _ _ _ Hline). eexists. split; [reflexivity|].
      by repeat split. }
    destruct (has_prefix (text ++ [10]) "bytevalue").
    { rewrite (bind_run _ _ _ _ _ Hline). eexists. split; [reflexivity|].
      by repeat split. }
    rewrite (bind_stop_exit _ _ _ _ _ Hline). eexists. by split.
  - by rewrite Hstdin, <- app_assoc.
  - apply no_byte_app; [|done]. by repeat constructor.
  - done.
  - rewrite length_app. change (length (bytes_of "format=")) with 7%nat. lia.
  - done.
Qed.

Section FormatRuns.
#[local] Existing Instances mdbx_h_values lp64 toy_engine.

Lemma readhdr_format_selects_mode_witness :
  exists w',
    readhdr_loop 3 (loop_world (lines ["format=print"; "HEADER=END"]%string) 0 no_records)
    = readhdr_loop 2 w' /\
    w_mode w' = Z.lor 0 PRINT.
Proof.
  destruct (readhdr_format_selects_mode 2
              (loop_world (lines ["format=print"; "HEADER=END"]%string) 0 no_records)
              (bytes_of "print") (lines ["HEADER=END"]%string))
    as (w' & Hcase).
  - reflexivity.
  - by repeat constructor.
  - by repeat constructor.
  - by vm_compute.
  - vm_compute. lia.
  - cbn [loop_world w_dbuf iov_len iov_base]. unfold fresh.
    rewrite length_map, length_seq. lia.
  - change (has_prefix (bytes_of "print" ++ [10]) "print") with true in Hcase.
    destruct Hcase as (Hrun & Hmode & _).
    exists w'. by split.
Defined.

End FormatRuns.

(** ** The line that ends a section *)

(** X18. When the input has headers and the next character is no
    blank, [readline] returns EOF in every case: it takes the
    character, counts a line and reads up to the next newline; if the
    character is 'D' and what follows starts with "ATA=END", it prints
    nothing and leaves [Eof] as it is, so that the next section may
    follow; otherwise it sets [Eof] and prints "unexpected end of
    input" with the number of the line. *)
Theorem readline_stops_at_section_end `{H : MdbxH} `{P : Platform} `{E : Engine}
    (s : bufsel) (w : world) (c : Z) (line rest : bytes) :
  Z.land (w_mode w) NOHDR = 0 ->
  w_stdin w = c :: line ++ 10 :: rest ->
  c <> 32 -> c <> EOF -> no_byte 10 line ->
  2 <= iov_len (get_buf s w) <= INT_MAX ->
  (length line + 2 <= Z.to_nat (iov_len (get_buf s w)))%nat ->
  (Z.to_nat (iov_len (get_buf s w)) <= length (iov_base (get_buf s w)))%nat ->
  exists w',
    readline s w = Ret None w' /\
    w_stdin w' = rest /\ w_lineno w' = w_lineno w + 1 /\
    if (c =? 68) && has_prefix (line ++ [10]) "ATA=END"
    then w_Eof w' = w_Eof w /\ w_out w' = w_out w
    else w_Eof w' = true /\
         w_out w' = w_out w ++ [Stderr (MsgUnexpectedEnd (w_lineno w + 1))].
Proof.
  intros Hnohdr Hin Hc32 HcEOF Hnl HL Hfit Hblk.
  unfold readline. rewrite bind_get, Hnohdr. cbn [Z.eqb].
  enough (exists w',
    readline_lead s w = Ret true w' /\
    w_stdin w' = rest /\ w_lineno w' = w_lineno w + 1 /\
    if (c =? 68) && has_prefix (line ++ [10]) "ATA=END"
    then w_Eof w' = w_Eof w /\ w_out w' = w_out w
    else w_Eof w' = true /\
         w_out w' = w_out w ++ [Stderr (MsgUnexpectedEnd (w_lineno w + 1))])
    as (w' & Hlead & Hprops).
  { exists w'. by rewrite (bind_run _ _ _ _ _ Hlead). }
  unfold readline_lead.
  rewrite (bind_run _ _ _ c (set_stdin (line ++ 10 :: rest) w))
    by (unfold fgetc; by rewrite Hin).
  rewrite (proj2 (Z.eqb_neq c EOF)) by done.
  rewrite (proj2 (Z.eqb_neq c 32)) by done. cbn [negb].
  rewrite bind_modify, bind_get.
  set (w1 := set_lineno _ _).
  assert (get_buf s w1 = get_buf s w) as Hb1 by (by destruct s).
  rewrite Hb1.
  erewrite bind_run.
  2: { apply (fgets_reads s 0 _ w1 (line ++ [10]) rest); [lia| | |].
       - subst w1. replace (w_stdin (set_lineno _ (set_stdin _ w)))
           with (line ++ 10 :: rest) by (by destruct s).
         apply read_line_whole; [done|lia].
       - by destruct line.
       - rewrite Hb1, length_app. cbn [length]. lia. }
  cbn [negb]. rewrite bind_get.
  set (w2 := set_stdin rest _).
  assert (iov_base (get_buf s w2) =
          (line ++ [10]) ++ 0 :: drop (length line + 2) (iov_base (get_buf s w)))
    as Hbase.
  { subst w2. rewrite Hb1.
    replace (get_buf s (set_stdin rest (set_buf s _ w1)))
      with {| iov_base := write_at (iov_base (get_buf s w)) 0 ((line ++ [10]) ++ [0]);
              iov_len := iov_len (get_buf s w) |} by (by destruct s).
    cbn [iov_base]. unfold write_at. rewrite take_0, !length_app. cbn [app length].
    rewrite <- !app_assoc. cbn [app].
    by replace (0 + (length line + 1 + 1))%nat with (length line + 2)%nat by lia. }
  rewrite Hbase, strncmp_nul.
  change (strncmp (line ++ [10]) (bytes_of "ATA=END") (STRLENOF "ATA=END") =? 0)
    with (has_prefix (line ++ [10]) "ATA=END").
  assert (w_stdin w2 = rest /\ w_lineno w2 = w_lineno w + 1 /\
          w_Eof w2 = w_Eof w /\ w_out w2 = w_out w) as (Hs2 & Hl2 & He2 & Ho2).
  { subst w2 w1. by destruct s. }
  destruct ((c =? 68) && has_prefix (line ++ [10]) "ATA=END").
  - exists w2. by repeat split.
  - rewrite bind_modify. unfold badend, fprintf_stderr.
    rewrite (bind_run _ _ _ tt
               (set_out (w_out w2 ++ [Stderr (MsgUnexpectedEnd (w_lineno w2))])
                  (set_Eof true w2))) by done.
    eexists. split; [reflexivity|].
    cbn [w_stdin w_lineno w_Eof w_out set_out set_Eof].
    rewrite Hl2, Ho2. by repeat split.
Qed.

Section SectionEndRuns.
#[local] Existing Instances mdbx_h_values lp64 toy_engine.

Lemma readline_stops_at_section_end_witness :
  exists w',
    readline KBUF (loop_world (lines ["DATA=END"; "VERSION=3"]%string) 0 no_records)
    = Ret None w' /\
    w_stdin w' = lines ["VERSION=3"]%string /\ w_Eof w' = false /\ w_out w' = [].
Proof.
  destruct (readline_stops_at_section_end KBUF
              (loop_world (lines ["DATA=END"; "VERSION=3"]%string) 0 no_records)
              68 (bytes_of "ATA=END") (lines ["VERSION=3"]%string))
    as (w' & Hrun & Hrest & _ & Hcase).
  - reflexivity.
  - reflexivity.
  - done.
  - done.
  - by repeat constructor.
  - by vm_compute.
  - vm_compute. lia.
  - cbn [loop_world get_buf w_kbuf iov_len iov_base]. unfold fresh.
    rewrite length_map, length_seq. lia.
  - change ((68 =? 68) && has_prefix (bytes_of "ATA=END" ++ [10]) "ATA=END")
      with true in Hcase.
    destruct Hcase as [HEof Hout]. exists w'. by repeat split.
Defined.

End SectionEndRuns.

(** ** The loops are given fuel enough *)

Lemma read_line_length (n : nat) : forall input chunk rest,
  read_line n input = (chunk, rest) ->
  length input = (length chunk + length rest)%nat.
Proof.
  induction n as [|n IH]; intros input chunk rest Hr.
  - destruct input; cbn in Hr; by inversion Hr.
  - destruct input as [|c input]; [cbn in Hr; by inversion Hr|]. cbn in Hr.
    destruct (c =? 10); [by inversion Hr|].
    destruct (read_line n input) as [l r'] eqn:Hrec. inversion Hr; subst.
    cbn. by rewrite (IH _ _ _ Hrec).
Qed.

Lemma decode_hex_fed fuel : forall base c1 c2 end_,
  (end_ - c2 <= 2 * fuel)%nat -> decode_hex fuel base c1 c2 end_ <> Starved.
Proof.
  induction fuel as [|fuel IH]; intros base c1 c2 end_ Hf; cbn [decode_hex].
  - destruct (Nat.ltb_spec c2 end_); [lia|done].
  - destruct (Nat.ltb_spec c2 end_); [|done].
    destruct (_ || _); [done|]. apply IH. lia.
Qed.

Lemma decode_print_fed fuel : forall base c1 c2 end_,
  (end_ - c2 <= fuel)%nat -> decode_print fuel base c1 c2 end_ <> Starved.
Proof.
  induction fuel as [|fuel IH]; intros base c1 c2 end_ Hf; cbn [decode_print].
  - destruct (Nat.ltb_spec c2 end_); [lia|done].
  - destruct (Nat.ltb_spec c2 end_); [|done].
    destruct (_ =? 92).
    + destruct (_ =? 92); [apply IH; lia|].
      destruct (_ || _); [done|]. apply IH. lia.
    + apply IH. lia.
Qed.

Section Fuel.
Context `{H : MdbxH} `{P : Platform} `{E : Engine}.

(** [w'] comes later than [w] in the reading of the input: no more is
    left to read, and the end of input stays seen once it is seen. *)
Definition later (w w' : world) : Prop :=
  (length (w_stdin w') <= length (w_stdin w))%nat /\
  (w_Eof w = true -> w_Eof w' = true).

Lemma later_refl w : later w w.
Proof. by split. Qed.

Lemma later_trans w0 w1 w2 : later w0 w1 -> later w1 w2 -> later w0 w2.
Proof. intros [? ?] [? ?]. split; [lia|auto]. Qed.

(** From [w], an outcome that is no running out of fuel, that gives no
    input back, and that satisfies [Post] if it is a return. *)
Definition fed {A} (w : world) (o : outcome A) (Post : A -> world -> Prop) : Prop :=
  match o with
  | Ret a w' => later w w' /\ Post a w'
  | Exit _ _ => True
  | Fault f _ => f <> OutOfFuel
  end.

(** [lasts m Post]: [m] does so from every state. *)
Definition lasts {A} (m : M A) (Post : world -> A -> world -> Prop) : Prop :=
  forall w, fed w (m w) (Post w).

Definition thrifty {A} (m : M A) : Prop := lasts m (fun _ _ _ => True).

Lemma lasts_thrifty {A} (m : M A) Post : lasts m Post -> thrifty m.
Proof. intros Hm w. specialize (Hm w). destruct (m w); [|done..]. by destruct Hm. Qed.

Lemma thrifty_bind {A B} (m : M A) (k : A -> M B) :
  thrifty m -> (forall a, thrifty (k a)) -> thrifty (bind m k).
Proof.
  intros Hm Hk w. specialize (Hm w). unfold bind.
  destruct (m w) as [a w1| |]; [|done..]. destruct Hm as [Hl _].
  specialize (Hk a w1). destruct (k a w1) as [b w2| |]; [|done..].
  destruct Hk as [Hl2 _]. split; [|done]. by eapply later_trans.
Qed.

Lemma thrifty_ret {A} (a : A) : thrifty (ret a).
Proof. intros w. split; [apply later_refl|done]. Qed.

Lemma thrifty_get {A} (f : world -> A) : thrifty (get f).
Proof. intros w. split; [apply later_refl|done]. Qed.

Lemma thrifty_exit {A} c : thrifty (@exit _ A c).
Proof. by intros w. Qed.

Lemma thrifty_crash {A} f : f <> OutOfFuel -> thrifty (@crash _ A f).
Proof. by intros Hf w. Qed.

Lemma thrifty_modify (f : world -> world) :
  (forall w, later w (f w)) -> thrifty (modify f).
Proof. intros Hf w. by split. Qed.

Lemma thrifty_emit e : thrifty (emit e).
Proof. apply thrifty_modify. intros w. by split. Qed.

Lemma thrifty_engine c : thrifty (engine c).
Proof.
  intros w. unfold engine. destruct (engine_call c (w_engine w)). by split.
Qed.

End Fuel.

Ltac thrifty_step :=
  lazymatch goal with
  | |- thrifty (bind _ _) => apply thrifty_bind; [|intros ?]
  | |- thrifty (ret _) => apply thrifty_ret
  | |- thrifty (get _) => apply thrifty_get
  | |- thrifty (exit _) => apply thrifty_exit
  | |- thrifty (crash _) => apply thrifty_crash; done
  | |- thrifty (fprintf_stderr _) => apply thrifty_emit
  | |- thrifty (printf _) => apply thrifty_emit
  | |- thrifty (emit _) => apply thrifty_emit
  | |- thrifty (engine _) => apply thrifty_engine
  | |- thrifty (modify _) =>
      apply thrifty_modify; let w := fresh "w" in intros w; split;
      [try done; by destruct_all bufsel|cbn; try done; by destruct_all bufsel]
  | |- thrifty (let _ := _ in _) => cbv zeta
  | |- thrifty (match ?x with _ => _ end) => destruct x
  end.

Section Fuel2.
Context `{H : MdbxH} `{P : Platform} `{E : Engine}.

Lemma fgets_lasts s off size :
  lasts (fgets s off size)
    (fun w got w' =>
       if got then (length (w_stdin w') < length (w_stdin w))%nat else w' = w).
Proof.
  intros w. unfold fgets. destruct (_ || _); [done|].
  destruct (read_line _ _) as [chunk rest] eqn:Hr.
  apply read_line_length in Hr.
  destruct chunk as [|c chunk]; [by split; [apply later_refl|]|].
  destruct (_ <? _)%nat; [done|].
  set (b := {| iov_base := _; iov_len := _ |}).
  assert (w_stdin (set_stdin rest (set_buf s b w)) = rest) as Hs by (by destruct s).
  assert (w_Eof (set_stdin rest (set_buf s b w)) = w_Eof w) as He by (by destruct s).
  unfold fed, later. rewrite Hs, He, Hr. cbn [length]. split; [split; [lia|done]|lia].
Qed.

Lemma fgetc_lasts :
  lasts fgetc
    (fun w c w' =>
       if c =? EOF then w' = w \/ (length (w_stdin w') < length (w_stdin w))%nat
       else (length (w_stdin w') < length (w_stdin w))%nat).
Proof.
  intros w. unfold fgetc. destruct (w_stdin w) as [|c r] eqn:Hin.
  - split; [apply later_refl|by left].
  - unfold fed, later. cbn [w_stdin set_stdin w_Eof]. rewrite Hin. cbn [length].
    split; [split; [lia|done]|]. destruct (c =? EOF); [right|]; lia.
Qed.

Lemma strip_newline_thrifty : thrifty strip_newline.
Proof.
  unfold strip_newline. apply thrifty_modify. intros w.
  by destruct (dbuf_memchr 10 w).
Qed.

Lemma readhdr_line_thrifty : thrifty readhdr_line.
Proof.
  unfold readhdr_line.
  repeat first [apply strip_newline_thrifty | thrifty_step].
Qed.

End Fuel2.

Section Fuel3.
Context `{H : MdbxH} `{P : Platform} `{E : Engine}.

Definition shorter (w w' : world) : Prop :=
  (length (w_stdin w') < length (w_stdin w))%nat.

Lemma fed_bind {A B} w (m : M A) (k : A -> M B) P1 P2 :
  fed w (m w) P1 ->
  (forall a w', later w w' -> P1 a w' -> fed w' (k a w') P2) ->
  fed w (bind m k w) P2.
Proof.
  intros Hm Hk. unfold bind, fed in *.
  destruct (m w) as [a w1| |]; [|done..]. destruct Hm as [Hl Hp].
  specialize (Hk a w1 Hl Hp). destruct (k a w1) as [b w2| |]; [|done..].
  destruct Hk as [Hl2 Hq]. split; [by eapply later_trans|done].
Qed.

Lemma fed_conseq {A} w (o : outcome A) (P1 P2 : A -> world -> Prop) :
  fed w o P1 -> (forall a w', later w w' -> P1 a w' -> P2 a w') -> fed w o P2.
Proof.
  intros Ho Hq. unfold fed in *. destruct o as [a w'| |]; [|done..].
  destruct Ho. split; [done|]. by apply Hq.
Qed.

Lemma fed_start {A} w w1 (o : outcome A) Post :
  later w w1 -> fed w1 o Post -> fed w o Post.
Proof.
  intros Hl Ho. unfold fed in *. destruct o as [a w'| |]; [|done..].
  destruct Ho. split; [by eapply later_trans|done].
Qed.

Lemma fed_ret {A} w (a : A) (Post : A -> world -> Prop) :
  Post a w -> fed w (ret a w) Post.
Proof. intros. split; [apply later_refl|done]. Qed.

Lemma shorter_later w0 w1 w2 : shorter w0 w1 -> later w1 w2 -> shorter w0 w2.
Proof. unfold shorter. intros ? [? _]. lia. Qed.

Lemma later_shorter w0 w1 w2 : later w0 w1 -> shorter w1 w2 -> shorter w0 w2.
Proof. unfold shorter. intros [? _] ?. lia. Qed.

Lemma readhdr_loop_fed fuel : forall w,
  (length (w_stdin w) < fuel)%nat ->
  fed w (readhdr_loop fuel w) (fun _ _ => True).
Proof.
  induction fuel as [|fuel IH]; intros w Hf; [lia|].
  cbn [readhdr_loop]. rewrite bind_get.
  eapply fed_bind; [apply (fgets_lasts DBUF 0 _ w)|].
  intros got w1 Hl1 Hgot. destruct got.
  - eapply fed_bind; [apply (readhdr_line_thrifty w1)|].
    intros next w2 Hl2 _. destruct next.
    + apply IH. destruct Hl2 as [Hl2 _]. lia.
    + by apply fed_ret.
  - subst w1. by split.
Qed.

Lemma readhdr_thrifty : thrifty readhdr.
Proof.
  intros w. unfold readhdr. rewrite bind_modify, bind_get.
  apply fed_start with (w1 := set_dbi_flags 0 w); [by split|].
  eapply fed_conseq; [apply readhdr_loop_fed; cbn; lia|done].
Qed.

Lemma eof_stays {A} w (m : M A) :
  thrifty m ->
  fed w ((modify (set_Eof true);;; m) w) (fun _ w' => w_Eof w' = true).
Proof.
  intros Hm. rewrite bind_modify.
  apply fed_start with (w1 := set_Eof true w); [by split|].
  eapply fed_conseq; [apply (Hm (set_Eof true w))|].
  intros a w' [_ He] _. by apply He.
Qed.

Lemma badend_thrifty : thrifty badend.
Proof. unfold badend. repeat thrifty_step. Qed.

Lemma buf_realloc_thrifty s : thrifty (buf_realloc s).
Proof.
  intros w. unfold buf_realloc. destruct (realloc_ok _); by destruct s.
Qed.

Lemma buf_double_len_thrifty s : thrifty (buf_double_len s).
Proof. intros w. by destruct s. Qed.

Lemma buf_poke_thrifty s i c : thrifty (buf_poke s i c).
Proof. intros w. by destruct s. Qed.

Lemma grow_line_fed fuel s : forall off len w,
  (length (w_stdin w) < fuel)%nat ->
  fed w (grow_line fuel s off len w) (fun r w' => r = None -> w_Eof w' = true).
Proof.
  induction fuel as [|fuel IH]; intros off len w Hf; [lia|].
  destruct len as [|i]; [done|]. cbn [grow_line]. rewrite bind_get.
  destruct (_ =? 10); [by apply fed_ret|].
  eapply fed_bind; [apply (buf_realloc_thrifty s w)|].
  intros ok w1 Hl1 _. destruct ok.
  - rewrite bind_get.
    eapply fed_bind; [apply (fgets_lasts s _ _ w1)|].
    intros got w2 Hl2 Hgot. destruct got.
    + eapply fed_bind; [apply (buf_double_len_thrifty s w2)|].
      intros _ w3 Hl3 _. rewrite bind_get. apply IH.
      destruct Hl1 as [Hl1 _], Hl3 as [Hl3 _]. lia.
    + eapply fed_conseq; [apply eof_stays; unfold badend; repeat thrifty_step|].
      by intros a w' _ He _.
  - eapply fed_conseq; [apply eof_stays; repeat thrifty_step|].
    by intros a w' _ He _.
Qed.

End Fuel3.

Ltac fed_thrifty :=
  eapply fed_bind;
  [ match goal with
    | |- fed ?w _ _ =>
        first
          [ apply (thrifty_get _ w)
          | apply (buf_poke_thrifty _ _ _ w)
          | apply (badend_thrifty w)
          | apply (thrifty_emit _ w)
          | apply (thrifty_engine _ w)
          | refine (thrifty_modify _ _ w); let w' := fresh in
            intros w'; split; [try done; by destruct_all bufsel
                              |cbn; try done; by destruct_all bufsel] ]
    end
  | intros ? ? ? _ ].

Section Fuel4.
Context `{H : MdbxH} `{P : Platform} `{E : Engine}.

Lemma fgets_thrifty s off size : thrifty (fgets s off size).
Proof. eapply lasts_thrifty. apply fgets_lasts. Qed.

Lemma readline_lead_fed s w :
  fed w (readline_lead s w)
    (fun early w' =>
       if early then w_Eof w' = true \/ shorter w w' else shorter w w').
Proof.
  unfold readline_lead.
  eapply fed_bind; [apply (fgetc_lasts w)|].
  intros c w1 Hl1 Hc. cbv beta in Hc. revert Hc. destruct (c =? EOF); intros Hc.
  { rewrite bind_modify. split; [by split|by left]. }
  assert (thrifty
    (if negb (c =? 32)
     then
       modify (fun w => set_lineno (w_lineno w + 1) w);;;
       let* size := get (fun w => iov_len (get_buf s w)) in
       let* got := fgets s 0 size in
       if negb got then modify (set_Eof true);;; badend;;; ret true
       else
         let* base := get (fun w => iov_base (get_buf s w)) in
         if (c =? 68) && (strncmp base (bytes_of "ATA=END") (STRLENOF "ATA=END") =? 0)
         then ret true
         else modify (set_Eof true);;; badend;;; ret true
     else ret false)) as Hrest.
  { repeat first [apply fgets_thrifty | apply badend_thrifty | thrifty_step]. }
  eapply fed_conseq; [apply (Hrest w1)|].
  intros early w' Hl _.
  pose proof (shorter_later w w1 w' Hc Hl).
  destruct early; [by right|done].
Qed.

(** What [readline] gives for the input it takes: a line only for
    input taken, and EOF only with input taken or the end seen. *)
Definition took (w : world) (r : option MDBX_val) (w' : world) : Prop :=
  match r with
  | Some _ => shorter w w'
  | None => w_Eof w' = true \/ shorter w w'
  end.

Lemma readline_body_fed s mode w :
  fed w
    ((let* size := get (fun w => iov_len (get_buf s w)) in
      let* got := fgets s 0 size in
      if negb got then modify (set_Eof true);;; ret None
      else
        modify (fun w => set_lineno (w_lineno w + 1) w);;;
        let* base := get (fun w => iov_base (get_buf s w)) in
        let* fuel := get (fun w => S (length (w_stdin w))) in
        let* whole := grow_line fuel s 0 (strlen base) in
        match whole with
        | None => ret None
        | Some l2 =>
            let end_ := (l2 - 1)%nat in
            buf_poke s end_ 0;;;
            let* base := get (fun w => iov_base (get_buf s w)) in
            let result :=
              if Z.land mode PRINT =? 0 then
                if Nat.odd end_ then Rejected base
                else decode_hex end_ base 0 0 end_
              else decode_print end_ base 0 0 end_ in
            match result with
            | Decoded base' c1 =>
                modify (fun w =>
                          set_buf s {| iov_base := base';
                                       iov_len := iov_len (get_buf s w) |} w);;;
                ret (Some {| iov_base := base'; iov_len := Z.of_nat c1 |})
            | Rejected base' =>
                modify (fun w =>
                          set_buf s {| iov_base := base';
                                       iov_len := iov_len (get_buf s w) |} w);;;
                modify (set_Eof true);;; badend;;; ret None
            | Starved => crash OutOfFuel
            end
        end) w)
    (took w).
Proof.
  rewrite bind_get.
  eapply fed_bind; [apply (fgets_lasts s 0 _ w)|].
  intros got w1 Hl1 Hgot. destruct got; cbn [negb].
  2: { rewrite bind_modify. split; [by split|by left]. }
  fed_thrifty. fed_thrifty.
  rewrite bind_get.
  eapply fed_bind; [apply grow_line_fed; lia|].
  intros whole w4 Hl4 Hwhole. destruct whole as [l2|].
  2: { apply fed_ret. left. by apply Hwhole. }
  cbv zeta. fed_thrifty. fed_thrifty.
  match goal with
  | |- fed ?wc _ _ => assert (forall wz, later wc wz -> shorter w wz) as Hshort
  end.
  { intros wz Hlz. eapply shorter_later; [exact Hgot|].
    repeat (eapply later_trans; [eassumption|]). apply later_refl. }
  destruct (if Z.land mode PRINT =? 0 then _ else _) as [base' c1|base'|] eqn:Hres.
  - fed_thrifty. apply fed_ret. cbn. by apply Hshort.
  - fed_thrifty.
    eapply fed_conseq; [apply eof_stays; repeat first [apply badend_thrifty|thrifty_step]|].
    intros r wz Hlz He. destruct r; [|by left].
    apply Hshort. by eapply later_trans.
  - exfalso. destruct (_ =? 0).
    + destruct (Nat.odd _); [done|].
      by apply decode_hex_fed in Hres; [|lia].
    + by apply decode_print_fed in Hres; [|lia].
Qed.

Lemma readline_fed s w : fed w (readline s w) (took w).
Proof.
  unfold readline. rewrite bind_get.
  destruct (_ =? 0).
  - eapply fed_bind; [apply readline_lead_fed|].
    intros early w1 Hl1 Hearly. destruct early.
    + by apply fed_ret.
    + eapply fed_conseq; [apply readline_body_fed|].
      intros r w' Hl' Hr. unfold took in *.
      destruct r; [by eapply later_shorter|].
      destruct Hr; [by left|right; by eapply later_shorter].
  - rewrite bind_ret. apply readline_body_fed.
Qed.

End Fuel4.

Section Fuel5.
Context `{H : MdbxH} `{P : Platform} `{E : Engine}.

Lemma readline_thrifty s : thrifty (readline s).
Proof. intros w. eapply fed_conseq; [apply readline_fed|done]. Qed.

Lemma read_user_break_thrifty : thrifty read_user_break.
Proof. intros w. unfold read_user_break. by destruct (w_user_break w). Qed.

(** Input was taken, or the end of input is seen. *)
Definition moved (w w' : world) : Prop := w_Eof w' = true \/ shorter w w'.

Lemma moved_later w0 w1 w2 : moved w0 w1 -> later w1 w2 -> moved w0 w2.
Proof.
  intros [He|Hs] Hl; [left; by apply Hl|right; by eapply shorter_later].
Qed.

Lemma load_record_fed o v batch w :
  fed w (load_record o v batch w)
    (fun t w' => match t with
                 | Continue _ _ => shorter w w'
                 | Leave None _ => moved w w'
                 | Leave (Some _) _ => True
                 end).
Proof.
  unfold load_record.
  eapply fed_bind; [apply readline_fed|].
  intros k w1 Hl1 Hk. destruct k as [key|]; [|by apply fed_ret].
  cbn [took] in Hk.
  assert (thrifty
    (let* d := readline DBUF in
     match d with
     | None =>
         let* lineno := get w_lineno in
         fprintf_stderr (MsgFailedReadKeyValue lineno);;;
         ret (Leave (Some txn_abort) (set_rc EOF v))
     | Some data =>
         let* dbi_flags := get w_dbi_flags in
         let* live := get w_k0_live in
         if append o && negb (Z.land dbi_flags MDBX_DUPSORT =? 0) && negb live
         then crash DanglingPrevKey
         else
           let '(appflag, pk) := append_flag o dbi_flags (prevk v) key in
           let v := set_prevk pk v in
           let* r := engine (mdbx_cursor_put (mc v) (val_bytes key)
                               (val_bytes data) (Z.lor (putflags o) appflag)) in
           let v := set_rc (rc r) v in
           if (rc r =? MDBX_KEYEXIST) && negb (putflags o =? 0) then
             ret (Continue v batch)
           else if (rc r =? MDBX_BAD_VALSIZE) && rescue o then
             let* lineno := get w_lineno in
             fprintf_stderr (MsgSkipLine lineno (rc r));;;
             ret (Continue v batch)
           else if negb (rc r =? 0) then
             fprintf_stderr (MsgCursorPutFailed (rc r));;;
             ret (Leave (Some txn_abort) v)
           else if batch + 1 =? 100 then
             let* r := engine (mdbx_txn_commit (txn v)) in
             let v := set_rc (rc r) v in
             if negb (rc r =? 0) then
               let* lineno := get w_lineno in
               fprintf_stderr (MsgTxnCommitFailed lineno (rc r));;;
               ret (Leave (Some env_close) v)
             else
               let* r := engine (mdbx_txn_begin (env v) NULL 0) in
               let v := set_txn r v in
               if negb (rc r =? 0) then
                 fprintf_stderr (MsgTxnBeginFailed (rc r));;;
                 ret (Leave (Some env_close) v)
               else
                 let* r := engine (mdbx_cursor_open (txn v) (dbi v)) in
                 let v := set_mc r v in
                 if negb (rc r =? 0) then
                   fprintf_stderr (MsgCursorOpenFailed (rc r));;;
                   ret (Leave (Some txn_abort) v)
                 else ret (Continue v 0)
           else ret (Continue v (batch + 1))
     end)) as Hrest.
  { repeat first [apply readline_thrifty | thrifty_step]. }
  eapply fed_conseq; [apply (Hrest w1)|].
  intros t w' Hl _.
  pose proof (shorter_later w w1 w' Hk Hl) as Hs.
  destruct t as [?|[?|] ?]; [done|done|by right].
Qed.

Lemma load_records_fed fuel o : forall v batch w,
  (length (w_stdin w) < fuel)%nat ->
  fed w (load_records fuel o v batch w) (fun res w' => fst res = None -> moved w w').
Proof.
  induction fuel as [|fuel IH]; intros v batch w Hf; [lia|].
  cbn [load_records].
  eapply fed_bind; [apply load_record_fed|].
  intros t w1 Hl1 Ht. destruct t as [v' b'|l v'].
  - eapply fed_conseq; [apply IH; unfold shorter in Ht; lia|].
    intros res w' Hl' Hres Hnone. right.
    destruct (Hres Hnone) as [He|Hs].
    + eapply shorter_later; [exact Ht|done].
    + by eapply later_shorter.
  - apply fed_ret. cbn. by intros ->.
Qed.

End Fuel5.

Section Fuel6.
Context `{H : MdbxH} `{P : Platform} `{E : Engine}.

Lemma load_section_fed o v w :
  fed w (load_section o v w)
    (fun r w' => match r with Again _ => moved w w' | Goto _ _ => True end).
Proof.
  unfold load_section.
  eapply fed_bind; [apply (read_user_break_thrifty w)|].
  intros stop w1 Hl1 _. destruct stop; [by apply fed_ret|].
  fed_thrifty. cbv zeta.
  destruct (negb (rc a =? 0)).
  { fed_thrifty. by apply fed_ret. }
  fed_thrifty. fed_thrifty. fed_thrifty.
  destruct (negb (rc a2 =? 0)).
  { fed_thrifty. by apply fed_ret. }
  fed_thrifty.
  destruct (negb (rc a3 =? 0)).
  { fed_thrifty. by apply fed_ret. }
  rewrite bind_get.
  eapply fed_bind; [apply load_records_fed; lia|].
  intros [l v'] w7 Hl7 Hres. cbn [fst] in Hres.
  destruct l as [l|]; [by apply fed_ret|].
  specialize (Hres eq_refl).
  match goal with
  | |- fed w7 _ _ => assert (later w w7) as Hstart
  end.
  { repeat (eapply later_trans; [eassumption|]). apply later_refl. }
  assert (forall wz, later w7 wz -> moved w wz) as Hmoved.
  { intros wz Hlz. eapply moved_later; [|exact Hlz].
    destruct Hres as [He|Hs]; [by left|right].
    match goal with
    | Hrec : later ?wr w7 |- _ => apply (later_shorter w wr w7); [|exact Hs]
    end.
    match goal with
    | |- later w ?wr => clear Hstart Hl7
    end.
    repeat (eapply later_trans; [eassumption|]). apply later_refl. }
  fed_thrifty. cbv zeta.
  destruct (negb (rc a4 =? 0)).
  { fed_thrifty. fed_thrifty. by apply fed_ret. }
  fed_thrifty. fed_thrifty. fed_thrifty.
  eapply fed_bind.
  { match goal with
    | |- fed ?wc _ _ =>
        destruct (_ =? 0); [apply (readhdr_thrifty wc)|apply (thrifty_ret tt wc)]
    end. }
  intros _ wz Hlz _. apply fed_ret.
  apply Hmoved. repeat (eapply later_trans; [eassumption|]). apply later_refl.
Qed.

Lemma load_loop_fed fuel o : forall v w,
  (w_Eof w = false -> (length (w_stdin w) < fuel)%nat) ->
  fed w (load_loop fuel o v w) (fun _ _ => True).
Proof.
  induction fuel as [|fuel IH]; intros v w Hf; cbn [load_loop]; rewrite bind_get.
  - destruct (w_Eof w); [by apply fed_ret|]. specialize (Hf eq_refl). lia.
  - destruct (w_Eof w) eqn:HEof; [by apply fed_ret|]. specialize (Hf eq_refl).
    eapply fed_bind; [apply load_section_fed|].
    intros [v'|l v'] w1 Hl1 Hr; [|by apply fed_ret].
    apply IH. intros HEof1.
    destruct Hr as [He|Hs]; [congruence|]. unfold shorter in Hs. lia.
Qed.

Lemma finish_thrifty l v : thrifty (finish l v).
Proof. unfold finish. repeat thrifty_step. Qed.

Lemma load_fed o envname e w : fed w (load o envname e w) (fun _ _ => True).
Proof.
  unfold load.
  fed_thrifty. fed_thrifty.
  eapply fed_bind with (P1 := fun _ _ => True).
  { match goal with
    | |- fed ?wc _ _ =>
        assert (thrifty
          (if a0 =? 0 then ret (None, {| env := e; txn := NULL; mc := NULL; dbi := 0;
                                          v_rc := 0;
                                          prevk := {| iov_base := []; iov_len := 0 |} |})
           else if INTPTR_MAX <? a0 then
             fprintf_stderr (MsgMapsizeTooLarge a0);;;
             ret (Some env_close,
                  {| env := e; txn := NULL; mc := NULL; dbi := 0; v_rc := 0;
                     prevk := {| iov_base := []; iov_len := 0 |} |})
           else
             let* r := engine (mdbx_env_set_geometry e 0 0 a0 (-1) (-1) (-1)) in
             if negb (rc r =? 0) then
               fprintf_stderr (MsgSetGeometryFailed (rc r));;;
               ret (Some env_close,
                    set_rc (rc r)
                      {| env := e; txn := NULL; mc := NULL; dbi := 0; v_rc := 0;
                         prevk := {| iov_base := []; iov_len := 0 |} |})
             else ret (None,
                       set_rc (rc r)
                         {| env := e; txn := NULL; mc := NULL; dbi := 0; v_rc := 0;
                            prevk := {| iov_base := []; iov_len := 0 |} |})))
          as Hgeo by (repeat thrifty_step);
        apply (Hgeo wc)
    end. }
  intros [[l|] v] wg Hlg _.
  { apply (finish_thrifty l v wg). }
  fed_thrifty. cbv zeta.
  destruct (negb (rc a1 =? 0)).
  { fed_thrifty. match goal with |- fed ?wc _ _ => apply (finish_thrifty _ _ wc) end. }
  fed_thrifty.
  destruct (_ <=? _).
  { fed_thrifty. match goal with |- fed ?wc _ _ => apply (finish_thrifty _ _ wc) end. }
  fed_thrifty. fed_thrifty. rewrite bind_get.
  eapply fed_bind; [apply load_loop_fed; intros _; lia|].
  intros out wl Hll _. apply (finish_thrifty _ _ wl).
Qed.

End Fuel6.

Section Fuel7.
Context `{H : MdbxH} `{P : Platform} `{E : Engine}.

Lemma fed_unstarved {A} w (o : outcome A) Post : fed w o Post -> starved o = false.
Proof. destruct o as [a w'|c w'|f w']; [done..|]. cbn. by destruct f. Qed.

Lemma usage_unstarved {A} w : starved (@usage _ A w) = false.
Proof. done. Qed.

Lemma getopt_loop_unstarved l : forall o w,
  match getopt_loop l o w with
  | Fault _ _ => False
  | _ => True
  end.
Proof.
  induction l as [|c l IH]; intros o w; [done|].
  cbn [getopt_loop]. unfold bind.
  destruct c; cbn [apply_opt]; try apply IH; try done.
  destruct (freopen optarg); [|done]. apply IH.
Qed.

Lemma main_unstarved c w : starved (main c w) = false.
Proof.
  assert (starved
            ((let* g := getopt_loop (opts c) initial_options in
              match g with
              | Parsed o0 =>
                  match operands c with
                  | [envname] =>
                      (if quiet o0 then ret tt else printf (MsgRunning envname));;;
                      modify (set_dbuf {| iov_base := fresh 0 4096; iov_len := 4096 |});;;
                      (let* mode := get w_mode in
                       (if Z.land mode NOHDR =? 0 then readhdr else ret tt);;;
                       (let* r := engine mdbx_env_create in
                        if negb (rc r =? 0)
                        then fprintf_stderr (MsgEnvCreateFailed (rc r));;; ret EXIT_FAILURE
                        else load o0 envname (out_handle r)))
                  | _ => usage
                  end
              | Return code => ret code
              end) w) = false) as Hmain.
  { unfold bind at 1. pose proof (getopt_loop_unstarved (opts c) initial_options w) as Hg.
    destruct (getopt_loop (opts c) initial_options w) as [[o0|code] w1| |]; [| |done..].
    2: done.
    destruct (operands c) as [|envname [|]]; [done| |done].
    apply (fed_unstarved w1 _ (fun _ _ => True)).
    eapply fed_bind with (P1 := fun _ _ => True).
    { destruct (quiet o0); [apply (thrifty_ret tt w1)|apply (thrifty_emit _ w1)]. }
    intros _ w2 _ _.
    fed_thrifty. fed_thrifty.
    eapply fed_bind with (P1 := fun _ _ => True).
    { match goal with
      | |- fed ?wc _ _ =>
          destruct (_ =? 0); [apply (readhdr_thrifty wc)|apply (thrifty_ret tt wc)]
      end. }
    intros _ w5 _ _.
    fed_thrifty.
    destruct (negb (rc a1 =? 0)).
    - fed_thrifty. by apply fed_ret.
    - apply load_fed. }
  unfold main.
  destruct (opts c) as [|? ?]; [|exact Hmain].
  destruct (operands c) as [|? ?]; [|exact Hmain].
  done.
Qed.

End Fuel7.

(** ** The tool comes to an end *)

(** X19. No run of the tool runs out of the fuel its loops are
    given: the loop over the header lines, the loop that lengthens a
    line, the two decoding loops, the loop over the records of a section
    and the loop over the sections each take or finish the input they
    read, so that every run ends after a number of turns that the
    length of the input bounds. *)
Theorem run_never_starves `{H : MdbxH} `{P : Platform} `{E : Engine}
    (c : cmdline) (input : bytes) (breaks : list bool) (e : engine_state) :
  starved (run c input breaks e) = false.
Proof. apply main_unstarved. Qed.
